(* ===== verification/_CoqProject ===== *)
-Q . S2P
Prelude.v
Errors.v
Utf8.v
Text.v
Format.v
Util.v
Types.v
V5Header.v
V5Property.v
V5Codec.v
V5PubAck.v
V5Session.v
V5ConnAck.v
V5Connect.v
V5Publish.v
V5Subscribe.v
V5Packet.v
Framing.v
SortedVec.v
BTree.v
Queues.v
Threads.v
Calls.v
Config.v
ConfigFile.v
Rebalance.v
Subscription.v
Message.v
TopicTrie.v
Tries.v
Timer.v
Spinlock.v
Socket.v
Client.v
ClientProps.v
ClientSocket.v
Handshake.v
Miot.v
MiotProps.v
Flush.v
FlushProps.v
Session.v
SessionProps.v
Shard.v
ShardProps.v
ShardLoop.v
ShardLoopProps.v
ShardTurns.v
Line.v
ShardControl.v
ShardSpawn.v
ShardRun.v
Ticker.v
Listener.v
Cluster.v
ClusterProps.v
Broker.v
Handles.v
Reports.v
