(* ===== verification/Prelude.v ===== *)
(** * A verification development for mymq, an MQTT v5 broker and client library

    mymq (src/) is a library crate with a broker and a client built on it.  Its core,
    which is what this development models, has these layers.

    - Data: errors and reason codes (src/src/error.rs), the fields of packets
      (src/src/types.rs) and helpers (src/src/util.rs).
    - Packets: one module per packet type (src/src/v5/), each with a [decode] that
      reads from the front of a byte string and says how much it has read, an
      [encode], a [validate] and a [normalize]; the enum [Packet] dispatches.
    - Framing (src/src/packet.rs): [MQTTRead] and [MQTTWrite] cut a non-blocking
      connection into packets and send packets over one.  The client
      (src/src/client.rs) and the handshake of the broker
      (src/src/broker/handshake.rs) are loops around them.
    - Data structures of the broker: the tries that match topics with filters
      (src/src/broker/ttrie.rs), shared under a spinlock (src/src/broker/spinlock.rs),
      and the timer (src/src/timer.rs).
    - Threads of the broker.  The listener (src/src/broker/listener.rs) accepts
      connections and starts a handshake for each, which reads a CONNECT and asks the
      cluster thread (src/src/broker/cluster.rs) to take the connection.  That thread
      owns the shards and the retained messages, and passes the connection to the
      shard that the hash of the client's identifier names
      (src/src/broker/rebalance.rs).  A shard (src/src/broker/shard.rs) keeps a
      session per client (src/src/broker/session.rs) and lends the connection to its
      miot thread (src/src/broker/miot.rs), which moves packets between the
      connections, each a [Socket] (src/src/broker/socket.rs), and bounded queues; a
      turn of the shard takes packets from the queues to the sessions, messages
      between shards (src/src/broker/message.rs), and acknowledgements back.  A
      connection that fails goes to the flusher (src/src/broker/flush.rs).  The ticker
      (src/src/broker/ticker.rs) wakes the cluster and the shards.  Each thread is
      driven by a channel of requests (src/src/broker/thread.rs).

    ** Files

    Each file models the source next to it; a definition has the name of the
    function it models, with the type in front where several types have the
    function ([VarU32_decode]), and a theorem stands in the file of what it is about
    or, where there is one, in the file that ends in Props.

    - Prelude: [outcome] (a Rust [Result] that may also be a panic or run out of
      fuel) with its monad, Hoare-style [post], slices, bytes and options.
    - Errors (error.rs): [ErrorKind], [ReasonCode], [Error] with its chain of
      causes, and each form of the macro [err!].
    - Utf8: the standard library's UTF-8 conversions, which the decoders call.  Text: its
      conversions of numbers, booleans and socket addresses from and to text.  Format:
      [format!], the texts of errors, and a reader of JSON.
    - Util (util.rs): [advance], the code points the protocol forbids, powers of two.
    - Types (types.rs, lib.rs): [Packetize] as a record of [encode] and [decode],
      and its instances; [Blob] with its inline and its heap form; topic names and
      filters.
    - V5Header, V5Property (v5/mod.rs): the fixed header; properties, and the loop
      that decodes a list of them, which the macros [dec_props!] and [enc_prop!]
      of the source generate for each packet.
    - V5Codec: what the packet modules share: the promise [encodes] (an encoding
      decodes to the normalised value) and its lemmas.
    - V5PubAck, V5Session, V5ConnAck, V5Connect, V5Publish, V5Subscribe (v5/*.rs):
      the packets.  V5Packet (v5/mod.rs): [Packet].
    - Framing (packet.rs): [MQTTRead], [MQTTWrite], [send_disconnect].
    - SortedVec, BTree, Queues: the language's sorted vectors and maps, and the
      bounded queues between threads with [QueueStatus] (broker/mod.rs).
    - Threads (broker/thread.rs): handles of threads, posting to a thread, and the loop
      that drains its control channel, for any handler of requests.  Calls: the requests
      between threads that wait for an answer, and what a flush waits for.
    - Config (broker/config.rs, broker/keep_alive.rs).  ConfigFile (broker/config.rs,
      bin/mqttd/main.rs): from a TOML document and a command line to a configuration.
    - Subscription (v5/mod.rs), Message (broker/message.rs), TopicTrie and Tries
      (broker/ttrie.rs): the order of subscriptions and [route_qos]; messages; [Node]
      with its operations; the two tries with their statistics, and threads that use
      one.  Spinlock (broker/spinlock.rs): the lock, one atomic operation at a time.
    - Timer (timer.rs).  Socket (broker/socket.rs).
    - Client, ClientProps and ClientSocket (client.rs), Handshake (broker/handshake.rs).
    - Miot and MiotProps (broker/miot.rs).
    - Session and SessionProps (broker/session.rs): what a session does on its own.
    - Shard and ShardProps (broker/shard.rs, session.rs): routing.  ShardLoop,
      ShardLoopProps and ShardTurns: the turn of the loop.  ShardControl: requests.
      Line: a shard and its miot thread, which share the queues of its sessions, as a
      relation that interleaves the passes of the one with the turns of the other.
      ShardSpawn: how a shard starts, and its handle.  ShardRun: what its thread never
      does.
    - Rebalance (broker/rebalance.rs, config.rs, cluster.rs): which shard a session and
      which node a shard belongs to.  Flush and FlushProps (broker/flush.rs), Ticker
      (broker/ticker.rs), Listener (broker/listener.rs).
    - Cluster and ClusterProps (broker/cluster.rs).  Broker: the cluster thread with the
      threads of its shards, from a new connection to its session.
    - Handles (broker/thread.rs, miot.rs, cluster.rs and the others): the calls on the
      handle of a thread, with the answer of the thread.
    - Reports (broker/*.rs, v5/publish.rs): the names, states, configurations and
      statistics that the threads write to the log, and their counters.

    Interfaces.  [Lawful] and [PacketCodec] are what field and packet codecs promise;
    the theorems about [Packet] are proved from them.  [System] is what the threads ask
    of mio, of the sockets and of a waker; [Responsive] is that mio takes and gives back
    what it is asked, and that the waker works.  The address of a peer is not part of that:
    after a reset there is none, and most threads panic then.
    [Toml] is what the configuration asks of the toml crate.  [Report] is what the
    threads promise of their reports, [Counters] of their counters.
    [drain_all] is stated for any handler, and is used by the shard, the miot thread,
    the listener and the cluster.

    ** How the code is represented

    Bytes are integers between 0 and 255, machine integers are [Z] with the checks
    or wrap-around of the source written out, [String] and [Vec<u8>] are lists of
    bytes, [Vec] and [VecDeque] are lists.  A call that the source cannot get past
    ([unwrap] on [None], an index out of range, [unreachable!], [todo!], a failed
    [assert!]) is [Panic]; overflow of an unchecked operator is a panic, as in a debug
    build.  A method that takes [&mut self] takes and returns the state.  A connection
    is the list of things it will do (deliver a chunk, pause, fail, close; take some bytes,
    none for now, or none any more), over which the theorems quantify; the clock is a function from the number of the call to
    its result.  What a thread asks of another is data of its state: the queue it
    sends to, the connections it has lent, the requests it has posted.  Where threads
    share memory (the tries, the spinlock) a relation steps one thread at a time.

    ** What the theorems show

    - Codec.  [packet_roundtrip]: decoding the encoding of a well-formed packet
      yields it, with empty property lists as [None], and takes exactly its bytes, or refuses
      it: a CONNECT with a will that has no property.
      [packet_decode_safe], [packet_encode_safe]: neither direction panics, a
      decoded packet is well formed, errors carry a reason code.  Below it:
      [property_roundtrip], [repeated_property_refused], [varu32_roundtrip],
      [varu32_bounds], [string_roundtrip], [topic_filter_valid],
      [fixed_header_valid], [fixed_header_len], [subscribe_opts_unwrap].
    - Framing.  [receive_encoded]: packets that are written one after the other are
      read back, wherever the connection cuts or pauses; [read_safe] and
      [write_safe] are its invariants, [write_sends] its termination, [parse_safe]
      the safety of [parse].
    - Client and handshake.  [client_reaches_broker]: what a client writes to connect
      is what the handshake hands to the cluster; [handshake_safe] says how a
      handshake can end, and when it does not; [client_read_stream] and [client_write_once]
      what one call does to the stream, and when it succeeds; [to_connect_roundtrip] is the part of the codec.
    - Tries.  [trie_refines]: the subscription trie implements a finite map from
      filters to sorted lists of subscriptions; [delivery_vs_mqtt] compares its
      matching with the rules of MQTT; [interleaved_wf] is the invariant of
      interleaved threads; [spinlock_excludes] the exclusion that makes their reads
      and writes atomic; [retained_set_remove] and [route_qos_min].
    - Timer.  [add_timeout_sorted], [expired_not_late], [gc_deleted].
    - Sockets and the miot thread.  [read_packets_order], [write_packets_order]: the
      loops keep the streams in order, lose nothing, and end; [read_deadline].
      [miot_reads], [miot_writes]: the thread does that to every connection, and the
      shard gets each connection that fails, once, unless it has been reset, which panics
      the thread; [miot_round_wf] its invariant.
    - Sessions.  [session_wf]: the invariant, and that no call panics;
      [out_qos0_order], [out_qos_order]: messages go to the socket in order, and what
      is in flight; [packet_id_stays_booked], [topic_alias_resolves],
      [book_then_duplicate], [keep_alive_expiry].
    - Shards.  [match_subscribers_merged]: who gets a message and as what;
      [send_to_shards_order], [out_messages_numbered]: steps of a turn; [ping_turn]: a whole
      turn; [add_session_connack] and [requests_in_order]: the requests.  [nothing_routed]:
      in no run of the thread is a message routed.  [publish_routed] and
      [acks_publish_in_order] say what two functions would do in states that, by
      [nothing_routed], the code does not reach.
    - The flusher.  [flush_connection_ends]: when a flush ends, what it has written, and
      that it goes on for ever for a peer that blocks for good behind the deadline;
      [flush_waits_for_session]; [disconnect_code_spec].
    - The cluster.  [cluster_request_refines]: the trie of retained messages, the index
      and the timer together are a map from topics; [retained_expire]: what expires.
      [session_partition_spec], [client_reaches_shard], [rebalance_covers] and
      [diff_topology_migrations]: where sessions and shards are.  [cluster_starts],
      [cluster_closes].  [listener_accepts] and [ticker_wakes]: the two small threads.
    - Configuration.  [config_from_file]: what a document and a command line mean, key by
      key, and that the rest is refused.
    - Handles.  [miot_calls_answered]: the answers of a miot thread are those that its
      handle expects; [lend_and_take_back]: a connection that is lent comes back.
    - Reports.  [ErrorKind_fmt_inj], [ReasonCode_fmt_inj]: a text says which error it was.
      The instances of [Report]: the configuration and the statistics of each thread are
      JSON, and are read back as the numbers they were made of, but for
      [stats_not_json].  [listener_reports], [cluster_reports], [flusher_reports]: the
      numbers add up, or a counter overflows.  [server_address_parses].
    - Threads.  [requests_answered]: the requests that wait go up an order of the threads,
      and all are answered unless a peer blocks the flusher; [deaf_peer_blocks]: then the
      broker stands still.
    - The whole.  [client_served]: a client that connects to a broker that has started
      has a session in the right shard and a CONNACK on its way.  [pings_answered]: from
      the bytes a client writes to the bytes it gets, whatever the interleaving of the
      threads, no ping and no answer is lost, repeated or overtaken; [client_pings] puts
      both together, from the CONNECT of a client to the last answer.
    - Where the code falls short of its intent the theorem says exactly what
      it does: [connect_flags_will_qos], [connect_empty_will_refused],
      [subscription_opt_unwrap], [parse_reserved_panics], [header_unbounded],
      [send_disconnect_deadline], [client_timeout_reversed], [write_timeout_is_read],
      [default_client_connects], [stats_not_json], [ping_drops_connection], [lost_subscription], [retained_match_asserts],
      [unsubscribe_inner_panics], [timer_fires_early], [read_after_error_panics],
      [write_stats_last], [qos12_publish_panics], [unknown_shard_routed],
      [routed_packet_ends_shard], [nothing_routed], [disconnect_ends_shard], [cluster_panics].

    ** Fuel

    Loops that are not structural take fuel.  Those of the decoders take the length
    of their input, of which each turn consumes at least a byte; [match_topic] and
    the operations of a trie recurse on the topic; [try_recvs], [drain_all] and
    [write_packets] take the length of the queue, of which each turn takes an entry;
    [read_packets] takes any amount above the room in the queue upstream, which each
    turn reduces; the loops of the client and of the handshake take the size of what
    the connection will do, of which each turn uses up an event; [accept_all] the
    length of what the listening socket will answer.  The theorems show that [NoFuel]
    is not reached.  [send_disconnect] and [send_connack] are tried again at every look at
    the clock; there [NoFuel] is a peer that blocks for good, and
    [flush_connection_ends] says that no number of looks is enough then.  [flush_connection_loop] and [ticker_loop] run over the list of
    what the other threads do in each turn: there [NoFuel] says that the loop goes on,
    and the theorems say which lists are long enough.

    ** Not modelled

    The other log lines, descriptions and locations of errors and [Arbitrary] instances;
    that a thread counts where it should (Reports has the counters for any order of
    calls, apart from the states of the threads); creating and joining threads, opening and
    connecting sockets and their options, the hash of the cityhash crate (a parameter)
    and uuids (an argument), the parsers of TOML (the interface [Toml]) and of the
    command line.  Calls leaves out threads that panic.  chash.rs, crc.rs, rr.rs and
    consensus.rs are not part of the crate.

    One trie of subscriptions is shared by all shards of a node.  Tries has its
    interleavings; in a shard the trie is part of the state, as it is while the other
    shards leave it alone, and Cluster leaves it to the shards. *)
From stdpp Require Export base list numbers decidable option sets gmap strings.
From stdpp Require Import tactics.

(** ** Outcomes of a computation

    A Rust function that returns [Result<T>] either returns [Ok], returns
    [Err], or panics ([unwrap] on [None], a slice index out of range,
    [unreachable!()]).  [NoFuel] marks the exhaustion of the fuel of a loop
    that is not structural; the theorems show it is never reached. *)
Inductive outcome (E A : Type) : Type :=
| Ok (a : A)
| Err (e : E)
| Panic
| NoFuel.
Arguments Ok {E A} _.
Arguments Err {E A} _.
Arguments Panic {E A}.
Arguments NoFuel {E A}.

#[global] Instance outcome_ret E : MRet (outcome E) := λ A a, Ok a.

#[global] Instance outcome_bind E : MBind (outcome E) := λ A B f m,
  match m with
  | Ok a => f a
  | Err e => Err e
  | Panic => Panic
  | NoFuel => NoFuel
  end.

#[global] Instance outcome_fmap E : FMap (outcome E) := λ A B f m,
  match m with
  | Ok a => Ok (f a)
  | Err e => Err e
  | Panic => Panic
  | NoFuel => NoFuel
  end.

(** [Option::unwrap]. *)
Definition opt_unwrap {E A} (o : option A) : outcome E A :=
  match o with Some a => Ok a | None => Panic end.

(** [Result::unwrap]: an error becomes a panic. *)
Definition res_unwrap {E A} (m : outcome E A) : outcome E A :=
  match m with Err _ => Panic | _ => m end.

Section outcome_lemmas.
Context {E A B : Type}.
Implicit Types (m : outcome E A) (f : A → outcome E B).

Lemma bind_Ok_inv m f b : m ≫= f = Ok b → ∃ a, m = Ok a ∧ f a = Ok b.
Proof. destruct m; naive_solver. Qed.

Lemma bind_Panic_inv m f :
  m ≫= f = Panic → m = Panic ∨ ∃ a, m = Ok a ∧ f a = Panic.
Proof. destruct m; naive_solver. Qed.

Lemma outcome_bind_assoc {C} m f (g : B → outcome E C) :
  (m ≫= f) ≫= g = m ≫= (λ a, f a ≫= g).
Proof. by destruct m. Qed.
End outcome_lemmas.

(** ** Postconditions

    [post m Q R] says that [m] neither panics nor runs out of fuel, that a
    value it returns satisfies [Q] and an error it returns satisfies [R]. *)
Definition post {E A} (m : outcome E A) (Q : A → Prop) (R : E → Prop) : Prop :=
  match m with
  | Ok a => Q a
  | Err e => R e
  | Panic | NoFuel => False
  end.

Section post_lemmas.
Context {E A B : Type}.
Implicit Types (m : outcome E A) (f : A → outcome E B).

Lemma post_Ok (a : A) (Q : A → Prop) (R : E → Prop) : Q a → post (Ok a) Q R.
Proof. done. Qed.

Lemma post_Err (e : E) (Q : A → Prop) (R : E → Prop) : R e → post (Err e) Q R.
Proof. done. Qed.

Lemma post_bind m f (P : A → Prop) (Q : B → Prop) (R : E → Prop) :
  post m P R → (∀ a, m = Ok a → P a → post (f a) Q R) → post (m ≫= f) Q R.
Proof. destruct m; simpl; auto. Qed.

Lemma post_mono m (P Q : A → Prop) (R : E → Prop) :
  post m P R → (∀ a, m = Ok a → P a → Q a) → post m Q R.
Proof. destruct m; simpl; auto. Qed.

Lemma post_err_mono m (Q : A → Prop) (R R' : E → Prop) :
  post m Q R → (∀ e, R e → R' e) → post m Q R'.
Proof. destruct m; simpl; auto. Qed.

Lemma post_inv m (Q : A → Prop) (R : E → Prop) a : post m Q R → m = Ok a → Q a.
Proof. intros H ->; done. Qed.
End post_lemmas.

(** [run] evaluates the binds at the head of the goal whose argument is known. *)
Ltac run := cbn [mbind outcome_bind].

Definition is_Ok {E A} (m : outcome E A) : Prop := ∃ a, m = Ok a.

(** [inv_ok H] takes apart a hypothesis [x ← m; k = Ok v] into one equation per
    bind. *)
Ltac inv_ok H :=
  repeat match type of H with
  | mbind _ ?m = Ok _ =>
      let x := fresh "x" in let Hx := fresh "Hx" in
      apply bind_Ok_inv in H as (x & Hx & H); try inv_ok Hx
  | Ok _ = Ok _ => injection H as H
  | Err _ = Ok _ => discriminate H
  | Panic = Ok _ => discriminate H
  | NoFuel = Ok _ => discriminate H
  end; simplify_eq.

(** ** Folding a fallible step over a list *)
Section foldM.
Context {E A S : Type} (f : S → A → outcome E S).

Fixpoint foldM (s : S) (l : list A) : outcome E S :=
  match l with
  | [] => Ok s
  | x :: l' => s' ← f s x; foldM s' l'
  end.

Lemma foldM_app s l1 l2 : foldM s (l1 ++ l2) = (s' ← foldM s l1; foldM s' l2).
Proof.
  revert s; induction l1 as [|x l1 IH]; intros s; simpl; [done|].
  destruct (f s x); simpl; auto.
Qed.

Lemma foldM_post (I : S → Prop) (R : E → Prop) s l :
  I s → (∀ s x, x ∈ l → I s → post (f s x) I R) → post (foldM s l) I R.
Proof.
  revert s; induction l as [|x l IH]; intros s Hs Hf; simpl; [done|].
  apply (post_bind _ _ I).
  - apply Hf; [left | done].
  - intros s' _ Hs'. apply IH; [done|]. intros; apply Hf; [by right | done].
Qed.
End foldM.

(** A loop that only collects. *)
Lemma foldM_collect {E A B} (step : list B → A → outcome E (list B)) (h : A → list B) l acc :
  (∀ acc x, x ∈ l → step acc x = Ok (acc ++ h x)) → foldM step acc l = Ok (acc ++ (l ≫= h)).
Proof.
  revert acc; induction l as [|x l IH]; intros acc H; cbn [foldM mbind list_bind];
    [by rewrite app_nil_r|].
  rewrite H by left. cbn. rewrite IH; [by rewrite app_assoc|]. intros; apply H; by right.
Qed.

Section mapM.
Context {E A B : Type} (f : A → outcome E B).

Fixpoint mapM_out (l : list A) : outcome E (list B) :=
  match l with
  | [] => Ok []
  | x :: l' => y ← f x; ys ← mapM_out l'; Ok (y :: ys)
  end.

Lemma mapM_out_Ok_Forall2 l ys :
  mapM_out l = Ok ys → Forall2 (λ x y, f x = Ok y) l ys.
Proof.
  revert ys; induction l as [|x l IH]; intros ys H; simpl in H.
  - simplify_eq; constructor.
  - apply bind_Ok_inv in H as (y & Hy & H).
    apply bind_Ok_inv in H as (ys' & Hys & H); simplify_eq.
    constructor; auto.
Qed.

Lemma mapM_out_Forall2 l ys : Forall2 (λ x y, f x = Ok y) l ys → mapM_out l = Ok ys.
Proof. induction 1 as [|x y l ys Ex _ IH]; cbn; [done|]. by rewrite Ex, IH. Qed.

Lemma mapM_out_post (Q : B → Prop) (R : E → Prop) l :
  (∀ x, x ∈ l → post (f x) Q R) → post (mapM_out l) (Forall Q) R.
Proof.
  induction l as [|x l IH]; intros Hf; simpl; [constructor|].
  apply (post_bind _ _ Q); [apply Hf; left|]. intros y _ Hy.
  apply (post_bind _ _ (Forall Q)).
  - apply IH. intros; apply Hf; by right.
  - intros ys _ Hys. by constructor.
Qed.
End mapM.

Lemma mapM_out_fmap {E A B C} (f : B → outcome E C) (g : A → B) l : mapM_out f (g <$> l) = mapM_out (λ x, f (g x)) l.
Proof. induction l as [|x l IH]; [done|]. cbn [fmap list_fmap mapM_out]. destruct (f (g x)); cbn; by rewrite ?IH. Qed.

Lemma mapM_out_ret {E A B} (f : A → B) l : mapM_out (E := E) (λ x, Ok (f x)) l = Ok (f <$> l).
Proof. induction l as [|x l IH]; [done|]. cbn. by rewrite IH. Qed.

(** ** Machine integers

    A [u8], [u16], [u32] or [u64] is a [Z]; the bounds are predicates, so that
    what the Rust types guarantee is a hypothesis of the theorems. *)
Definition is_u8 (z : Z) : Prop := (0 ≤ z < 256)%Z.
Definition is_u16 (z : Z) : Prop := (0 ≤ z < 65536)%Z.
Definition is_u32 (z : Z) : Prop := (0 ≤ z < 4294967296)%Z.
Definition is_u64 (z : Z) : Prop := (0 ≤ z < 18446744073709551616)%Z.

#[global] Instance is_u8_dec z : Decision (is_u8 z).
Proof. unfold is_u8; apply _. Defined.
#[global] Instance is_u16_dec z : Decision (is_u16 z).
Proof. unfold is_u16; apply _. Defined.
#[global] Instance is_u32_dec z : Decision (is_u32 z).
Proof. unfold is_u32; apply _. Defined.
#[global] Instance is_u64_dec z : Decision (is_u64 z).
Proof. unfold is_u64; apply _. Defined.

(** A byte string, [&[u8]] or [Vec<u8>]. *)
Abbreviation bytes := (list Z).
Abbreviation is_bytes := (Forall is_u8).

(** [len s] is [s.len()] as a [Z], for comparisons with values read from the
    wire (which are [Z] so that a large length stays cheap to evaluate). *)
Definition len {A} (s : list A) : Z := Z.of_nat (length s).

Lemma len_app {A} (s t : list A) : len (s ++ t) = (len s + len t)%Z.
Proof. unfold len; rewrite length_app; lia. Qed.

Lemma len_nonneg {A} (s : list A) : (0 ≤ len s)%Z.
Proof. unfold len; lia. Qed.

(** Masks of contiguous bits, as remainders and quotients. *)
Lemma land_ones_mod z n : (0 ≤ n)%Z → Z.land z (Z.ones n) = (z mod 2 ^ n)%Z.
Proof. apply Z.land_ones. Qed.

(** A property that holds of every [u8] is checked by evaluation. *)
Lemma forall_u8 (P : Z → Prop) (f : Z → bool) :
  (∀ z, f z = true → P z) →
  forallb f (seqZ 0 256) = true →
  ∀ z, is_u8 z → P z.
Proof.
  intros HP Hall z Hz. apply HP.
  rewrite forallb_forall in Hall. apply Hall.
  apply list_elem_of_In, elem_of_seqZ. unfold is_u8 in Hz; lia.
Qed.

(** ** Record update

    [r <| f := v |>] is [r] with the field [f] set to [v], the form
    [r.f = v] of the source.  A record declares its fields once, as an
    [Eta] instance: the constructor applied to its projections. *)
Class Eta (R : Type) : Type := eta : R → R.

Ltac build_setter R f :=
  let e := eval cbv delta [eta] in (@eta R _) in
  let e := eval hnf in e in
  let p := eval pattern f in e in
  match p with
  | ?h _ =>
      let t := constr:(λ v, h (λ _, v)) in
      let t := eval cbv beta in t in exact t
  end.

Notation "r <| f := v |>" :=
  (ltac:(let R := type of r in build_setter R f) v r)
  (at level 1, f at next level, left associativity, only parsing).

(** ** Hint databases of the development *)
Create HintDb wf discriminated.
Create HintDb codec discriminated.

#[export] Hint Resolve len_nonneg : wf.

(** ** Lists *)
Lemma take_length_app {A} (s t : list A) : take (length s) (s ++ t) = s.
Proof. by rewrite take_app_length. Qed.

Lemma drop_length_app {A} (s t : list A) : drop (length s) (s ++ t) = t.
Proof. by rewrite drop_app_length. Qed.

Lemma is_bytes_drop n (s : bytes) : is_bytes s → is_bytes (drop n s).
Proof. apply Forall_drop. Qed.

Lemma is_bytes_take n (s : bytes) : is_bytes s → is_bytes (take n s).
Proof. apply Forall_take. Qed.

#[export] Hint Resolve is_bytes_drop is_bytes_take : wf.
