(* ===== verification/Errors.v ===== *)
(** * Errors (src/src/error.rs)

    The error kinds, the MQTT reason codes with their numeric values, the
    [Error] value with its chain of causes, and the forms of the [err!] macro
    that the codecs use.  Descriptions and source locations are text for the
    log and are left out. *)
From S2P Require Import Prelude.

Inductive ErrorKind : Set :=
| EK_NoError
| EK_InvalidInput
| EK_MalformedPacket
| EK_ProtocolError
| EK_UnsupportedProtocolVersion
| EK_InsufficientBytes
| EK_SessionTakenOver
| EK_Disconnected
| EK_SlowClient
| EK_IPCFail
| EK_RxClosed
| EK_TxFinish
| EK_Infallible
| EK_ParseBoolError
| EK_ParseFloatError
| EK_ParseIntError
| EK_TryFromIntError
| EK_TryFromAddrError
| EK_UuidError
| EK_IOError.

Inductive ReasonCode : Set :=
| RC_Success
| RC_QoS1
| RC_QoS2
| RC_DiconnectWillMessage
| RC_NoMatchingSubscribers
| RC_NoSubscriptionExisted
| RC_ContinueAuthentication
| RC_ReAuthenticate
| RC_UnspecifiedError
| RC_MalformedPacket
| RC_ProtocolError
| RC_ImplementationError
| RC_UnsupportedProtocolVersion
| RC_InvalidClientID
| RC_BadLogin
| RC_NotAuthorized
| RC_ServerNotAvailable
| RC_ServerBusy
| RC_Banned
| RC_ServerShutdown
| RC_BadAuthenticationMethod
| RC_KeepAliveTimeout
| RC_SessionTakenOver
| RC_InvalidTopicFilter
| RC_TopicNameInvalid
| RC_PacketIdInuse
| RC_PacketIdNotFound
| RC_ExceededReceiveMaximum
| RC_TopicAliasInvalid
| RC_PacketTooLarge
| RC_ExceedMessageRate
| RC_QuotaExceeded
| RC_AdminAction
| RC_PayloadFormatInvalid
| RC_RetainNotSupported
| RC_QoSNotSupported
| RC_UseAnotherServer
| RC_ServerMoved
| RC_UnsupportedSharedSubscription
| RC_ExceedConnectionRate
| RC_ExceedMaximumConnectTime
| RC_SubscriptionIdNotSupported
| RC_WildcardSubscriptionsNotSupported.

#[global] Instance ErrorKind_eq_dec : EqDecision ErrorKind.
Proof. solve_decision. Defined.
#[global] Instance ReasonCode_eq_dec : EqDecision ReasonCode.
Proof. solve_decision. Defined.

(** [Error]: [cause] is a boxed [dyn std::error::Error]; it is an [Error] of
    this crate or a foreign one ([Utf8Error], [io::Error], ...). *)
Inductive Error : Set :=
| MkError (kind : ErrorKind) (code : option ReasonCode) (cause : Cause)
with Cause : Set :=
| NoCause
| CauseForeign
| CauseError (e : Error).

Definition Error_kind (e : Error) : ErrorKind :=
  let 'MkError k _ _ := e in k.

Definition Error_opt_code (e : Error) : option ReasonCode :=
  let 'MkError _ c _ := e in c.

Abbreviation Result := (outcome Error).

(** [err!(kind, code: c, ..)] *)
Definition err {A} (k : ErrorKind) (c : ReasonCode) : Result A :=
  Err (MkError k (Some c) NoCause).

(** [err!(kind, code: c, cause: e, ..)] where [e] is a foreign error. *)
Definition err_cause {A} (k : ErrorKind) (c : ReasonCode) : Result A :=
  Err (MkError k (Some c) CauseForeign).

(** [err!(kind, desc: ..)] *)
Definition err_desc {A} (k : ErrorKind) : Result A :=
  Err (MkError k None NoCause).

(** [err!(kind, try: Err(e), ..)] where [e] is a foreign error. *)
Definition err_try {A} (k : ErrorKind) : Result A :=
  Err (MkError k None CauseForeign).

Arguments err {A} k c : simpl never.
Arguments err_cause {A} k c : simpl never.
Arguments err_desc {A} k : simpl never.
Arguments err_try {A} k : simpl never.

(** [Error::code]: the reason code reported to the peer. *)
Definition Error_code (e : Error) : ReasonCode :=
  default RC_UnspecifiedError (Error_opt_code e).

(** [Error::kinds]: [downcast_ref::<Error>().unwrap()] panics when the cause
    is not an [Error] of this crate. *)
Fixpoint Error_kinds (e : Error) : Result (list ErrorKind) :=
  match e with
  | MkError k _ NoCause => Ok [k]
  | MkError _ _ CauseForeign => Panic
  | MkError k _ (CauseError e') => ks ← Error_kinds e'; Ok (k :: ks)
  end.

(** [Error::has] *)
Fixpoint Error_has (e : Error) (kind : ErrorKind) : Result bool :=
  match e with
  | MkError k _ c =>
      if decide (k = kind) then Ok true
      else match c with
           | NoCause => Ok false
           | CauseForeign => Panic
           | CauseError e' => Error_has e' kind
           end
  end.

(** [ReasonCode as u8] *)
Definition ReasonCode_as_u8 (c : ReasonCode) : Z :=
  match c with
  | RC_Success => 0x00
  | RC_QoS1 => 0x01
  | RC_QoS2 => 0x02
  | RC_DiconnectWillMessage => 0x04
  | RC_NoMatchingSubscribers => 0x10
  | RC_NoSubscriptionExisted => 0x11
  | RC_ContinueAuthentication => 0x18
  | RC_ReAuthenticate => 0x19
  | RC_UnspecifiedError => 0x80
  | RC_MalformedPacket => 0x81
  | RC_ProtocolError => 0x82
  | RC_ImplementationError => 0x83
  | RC_UnsupportedProtocolVersion => 0x84
  | RC_InvalidClientID => 0x85
  | RC_BadLogin => 0x86
  | RC_NotAuthorized => 0x87
  | RC_ServerNotAvailable => 0x88
  | RC_ServerBusy => 0x89
  | RC_Banned => 0x8A
  | RC_ServerShutdown => 0x8B
  | RC_BadAuthenticationMethod => 0x8C
  | RC_KeepAliveTimeout => 0x8D
  | RC_SessionTakenOver => 0x8E
  | RC_InvalidTopicFilter => 0x8F
  | RC_TopicNameInvalid => 0x90
  | RC_PacketIdInuse => 0x91
  | RC_PacketIdNotFound => 0x92
  | RC_ExceededReceiveMaximum => 0x93
  | RC_TopicAliasInvalid => 0x94
  | RC_PacketTooLarge => 0x95
  | RC_ExceedMessageRate => 0x96
  | RC_QuotaExceeded => 0x97
  | RC_AdminAction => 0x98
  | RC_PayloadFormatInvalid => 0x99
  | RC_RetainNotSupported => 0x9A
  | RC_QoSNotSupported => 0x9B
  | RC_UseAnotherServer => 0x9C
  | RC_ServerMoved => 0x9D
  | RC_UnsupportedSharedSubscription => 0x9E
  | RC_ExceedConnectionRate => 0x9F
  | RC_ExceedMaximumConnectTime => 0xA0
  | RC_SubscriptionIdNotSupported => 0xA1
  | RC_WildcardSubscriptionsNotSupported => 0xA2
  end%Z.

(** [TryFrom<u8> for ReasonCode] *)
Definition ReasonCode_try_from (val : Z) : Result ReasonCode :=
  match val with
  | 0x00 => Ok RC_Success
  | 0x01 => Ok RC_QoS1
  | 0x02 => Ok RC_QoS2
  | 0x04 => Ok RC_DiconnectWillMessage
  | 0x10 => Ok RC_NoMatchingSubscribers
  | 0x11 => Ok RC_NoSubscriptionExisted
  | 0x18 => Ok RC_ContinueAuthentication
  | 0x19 => Ok RC_ReAuthenticate
  | 0x80 => Ok RC_UnspecifiedError
  | 0x81 => Ok RC_MalformedPacket
  | 0x82 => Ok RC_ProtocolError
  | 0x83 => Ok RC_ImplementationError
  | 0x84 => Ok RC_UnsupportedProtocolVersion
  | 0x85 => Ok RC_InvalidClientID
  | 0x86 => Ok RC_BadLogin
  | 0x87 => Ok RC_NotAuthorized
  | 0x88 => Ok RC_ServerNotAvailable
  | 0x89 => Ok RC_ServerBusy
  | 0x8A => Ok RC_Banned
  | 0x8B => Ok RC_ServerShutdown
  | 0x8C => Ok RC_BadAuthenticationMethod
  | 0x8D => Ok RC_KeepAliveTimeout
  | 0x8E => Ok RC_SessionTakenOver
  | 0x8F => Ok RC_InvalidTopicFilter
  | 0x90 => Ok RC_TopicNameInvalid
  | 0x91 => Ok RC_PacketIdInuse
  | 0x92 => Ok RC_PacketIdNotFound
  | 0x93 => Ok RC_ExceededReceiveMaximum
  | 0x94 => Ok RC_TopicAliasInvalid
  | 0x95 => Ok RC_PacketTooLarge
  | 0x96 => Ok RC_ExceedMessageRate
  | 0x97 => Ok RC_QuotaExceeded
  | 0x98 => Ok RC_AdminAction
  | 0x99 => Ok RC_PayloadFormatInvalid
  | 0x9A => Ok RC_RetainNotSupported
  | 0x9B => Ok RC_QoSNotSupported
  | 0x9C => Ok RC_UseAnotherServer
  | 0x9D => Ok RC_ServerMoved
  | 0x9E => Ok RC_UnsupportedSharedSubscription
  | 0x9F => Ok RC_ExceedConnectionRate
  | 0xA0 => Ok RC_ExceedMaximumConnectTime
  | 0xA1 => Ok RC_SubscriptionIdNotSupported
  | 0xA2 => Ok RC_WildcardSubscriptionsNotSupported
  | _ => err EK_MalformedPacket RC_MalformedPacket
  end%Z.

(** ** Lemmas *)

Lemma ReasonCode_try_from_as_u8 c : ReasonCode_try_from (ReasonCode_as_u8 c) = Ok c.
Proof. by destruct c. Qed.

Lemma ReasonCode_as_u8_range c : is_u8 (ReasonCode_as_u8 c).
Proof. unfold is_u8; destruct c; simpl; lia. Qed.

(** The error of a decoder: one of three kinds, and it carries the reason code
    that is sent to the peer. *)
Definition dec_error (e : Error) : Prop :=
  Error_kind e ∈ [EK_MalformedPacket; EK_ProtocolError; EK_InsufficientBytes]
  ∧ Error_opt_code e ∈ [Some RC_MalformedPacket; Some RC_ProtocolError; Some RC_PacketTooLarge;
      Some RC_UnsupportedProtocolVersion; Some RC_PayloadFormatInvalid].

#[global] Instance dec_error_dec e : Decision (dec_error e).
Proof. unfold dec_error; apply _. Defined.

(** [dec_err] proves that a failing branch of a decoder is a [dec_error]. *)
Ltac dec_err :=
  clear;
  solve [unfold err, err_cause, post, dec_error; simpl; split; set_solver].

(** [enum_post] proves the postcondition of a [TryFrom<u8>] conversion: every
    branch is a value or a decoder error. *)
Ltac enum_post :=
  repeat case_match; first [apply post_Ok; done | dec_err].

Lemma ReasonCode_try_from_post val :
  post (ReasonCode_try_from val) (λ c, ReasonCode_as_u8 c = val) dec_error.
Proof. unfold ReasonCode_try_from. enum_post. Qed.

(** ** Errors that leave the state changed

    A method that takes [&mut self] and fails with [?] keeps what it has done so
    far: the state goes on next to a value or an error; a panic ends it. *)
Definition stateful (S A : Type) : Type := S → Result ((A + Error) * S).

#[global] Instance stateful_ret S : MRet (stateful S) := λ A a s, Ok (inl a, s).
#[global] Instance stateful_bind S : MBind (stateful S) := λ A B f m s,
  '(res, s) ← m s;
  match res with inl a => f a s | inr e => Ok (inr e, s) end.

(** A call that fails without touching the state, and one that does not fail. *)
Definition fallible {S A} (r : Result A) : stateful S A := λ s,
  match r with
  | Ok a => Ok (inl a, s)
  | Err e => Ok (inr e, s)
  | Panic => Panic
  | NoFuel => NoFuel
  end.
Definition updates {S A} (f : S → Result (A * S)) : stateful S A := λ s,
  '(a, s) ← f s; Ok (inl a, s).

Fixpoint for_each {S A B} (f : B → A → stateful S B) (acc : B) (l : list A) : stateful S B :=
  match l with
  | [] => mret acc
  | x :: l => acc ← f acc x; for_each f acc l
  end.

(** One step of a run that succeeds. *)
Lemma st_bind {S A B} (m : stateful S A) (f : A → stateful S B) s a s' r :
  m s = Ok (inl a, s') → f a s' = r → (m ≫= f) s = r.
Proof. intros E1 E2. unfold mbind, stateful_bind. rewrite E1. exact E2. Qed.

Lemma st_panics {S A B} (m : stateful S A) (f : A → stateful S B) s : m s = Panic → (m ≫= f) s = Panic.
Proof. intros E. unfold mbind, stateful_bind. by rewrite E. Qed.

Lemma foldM_keeps {S A} (I : S → Prop) (f : S → A → Result S) s l s' :
  (∀ s x s', I s → f s x = Ok s' → I s') → I s → foldM f s l = Ok s' → I s'.
Proof.
  intros Hf. revert s. induction l as [|x l IH]; intros s Hs; [by intros [= <-]|].
  intros (s1 & E1 & E2)%bind_Ok_inv. eapply IH; [|exact E2]. by eapply Hf.
Qed.
