(* ===== verification/Utf8.v ===== *)
(** * Rust strings

    A Rust [String] is UTF-8 text.  It is modelled by its characters, a list
    of Unicode scalar values; [as_bytes] is the UTF-8 encoding that
    [String::as_bytes] exposes and [from_utf8] the strict validation of
    [std::str::from_utf8] (no overlong form, no surrogate, nothing above
    U+10FFFF).  The two are shown to be inverse to each other, which is what
    makes the character model of a string faithful. *)
From S2P Require Import Prelude.
Local Open Scope Z_scope.

Abbreviation rstring := (list Z).

(** A [char]: a Unicode scalar value. *)
Definition is_char (c : Z) : Prop :=
  0 ≤ c < 0x110000 ∧ ¬ (0xD800 ≤ c ≤ 0xDFFF).

#[global] Instance is_char_dec c : Decision (is_char c).
Proof. unfold is_char; apply _. Defined.

Definition utf8_char (c : Z) : bytes :=
  if c <? 0x80 then [c]
  else if c <? 0x800 then [0xC0 + c / 64; 0x80 + c mod 64]
  else if c <? 0x10000 then
    [0xE0 + c / 4096; 0x80 + (c / 64) mod 64; 0x80 + c mod 64]
  else
    [0xF0 + c / 262144; 0x80 + (c / 4096) mod 64;
     0x80 + (c / 64) mod 64; 0x80 + c mod 64].

(** [str::as_bytes] *)
Definition as_bytes (s : rstring) : bytes := s ≫= utf8_char.

(** [str::len]: the length in bytes. *)
Definition str_len (s : rstring) : nat := length (as_bytes s).

Definition is_cont (b : Z) : bool := (0x80 <=? b) && (b <? 0xC0).

(** [std::str::from_utf8] *)
Fixpoint from_utf8 (bs : bytes) : option rstring :=
  match bs with
  | [] => Some []
  | b0 :: r0 =>
    if b0 <? 0x80 then cons b0 <$> from_utf8 r0
    else if (0xC2 <=? b0) && (b0 <? 0xE0) then
      match r0 with
      | b1 :: r1 =>
        if is_cont b1 then
          cons ((b0 - 0xC0) * 64 + (b1 - 0x80)) <$> from_utf8 r1
        else None
      | _ => None
      end
    else if (0xE0 <=? b0) && (b0 <? 0xF0) then
      match r0 with
      | b1 :: b2 :: r2 =>
        let c := (b0 - 0xE0) * 4096 + (b1 - 0x80) * 64 + (b2 - 0x80) in
        if is_cont b1 && is_cont b2 && (0x800 <=? c)
           && negb ((0xD800 <=? c) && (c <=? 0xDFFF))
        then cons c <$> from_utf8 r2
        else None
      | _ => None
      end
    else if (0xF0 <=? b0) && (b0 <? 0xF5) then
      match r0 with
      | b1 :: b2 :: b3 :: r3 =>
        let c := (b0 - 0xF0) * 262144 + (b1 - 0x80) * 4096
                 + (b2 - 0x80) * 64 + (b3 - 0x80) in
        if is_cont b1 && is_cont b2 && is_cont b3
           && (0x10000 <=? c) && (c <? 0x110000)
        then cons c <$> from_utf8 r3
        else None
      | _ => None
      end
    else None
  end.

(** [chars "text"] is the Rust string of an ASCII literal. *)
Fixpoint chars (s : string) : rstring :=
  match s with
  | EmptyString => []
  | String a s' => Z.of_N (Ascii.N_of_ascii a) :: chars s'
  end.

(** [str::split(sep)] on a single character: always at least one piece. *)
Fixpoint split (sep : Z) (s : rstring) : list rstring :=
  match s with
  | [] => [[]]
  | c :: s' =>
      if c =? sep then [] :: split sep s'
      else match split sep s' with
           | w :: ws => (c :: w) :: ws
           | [] => [[c]]
           end
  end.

(** The inverse of [split]: join with the separator. *)
Fixpoint join (sep : Z) (ws : list rstring) : rstring :=
  match ws with
  | [] => []
  | [w] => w
  | w :: ws' => w ++ sep :: join sep ws'
  end.

(** ** Lemmas *)

(** [zbool] turns the boolean tests of the goal into arithmetic facts. *)
Ltac zbool :=
  repeat match goal with
  | |- context [Z.ltb ?a ?b] => destruct (Z.ltb_spec a b); simpl; try lia
  | |- context [Z.leb ?a ?b] => destruct (Z.leb_spec a b); simpl; try lia
  end.

(** [same_head] closes [cons a <$> m = cons b <$> m] by arithmetic. *)
Ltac same_head :=
  match goal with
  | |- (cons ?a <$> _) = (cons ?b <$> _) => replace a with b by lia; reflexivity
  end.

Ltac zdiv := Z.div_mod_to_equations; lia.

(** The four shapes of an encoded character. *)
Lemma utf8_char_1 c : 0 ≤ c < 0x80 → utf8_char c = [c].
Proof. intros; unfold utf8_char; by zbool. Qed.

Lemma utf8_char_2 a b :
  2 ≤ a < 32 → 0 ≤ b < 64 → utf8_char (a * 64 + b) = [0xC0 + a; 0x80 + b].
Proof.
  intros. unfold utf8_char; zbool.
  assert ((a * 64 + b) / 64 = a) as -> by zdiv.
  by assert ((a * 64 + b) mod 64 = b) as -> by zdiv.
Qed.

Lemma utf8_char_3 a b c :
  0 ≤ a < 16 → 0 ≤ b < 64 → 0 ≤ c < 64 → 0x800 ≤ a * 4096 + b * 64 + c →
  utf8_char (a * 4096 + b * 64 + c) = [0xE0 + a; 0x80 + b; 0x80 + c].
Proof.
  intros. unfold utf8_char; zbool.
  assert ((a * 4096 + b * 64 + c) / 4096 = a) as -> by zdiv.
  assert ((a * 4096 + b * 64 + c) / 64 = a * 64 + b) as -> by zdiv.
  assert ((a * 64 + b) mod 64 = b) as -> by zdiv.
  by assert ((a * 4096 + b * 64 + c) mod 64 = c) as -> by zdiv.
Qed.

Lemma utf8_char_4 a b c d :
  0 ≤ a < 5 → 0 ≤ b < 64 → 0 ≤ c < 64 → 0 ≤ d < 64 →
  0x10000 ≤ a * 262144 + b * 4096 + c * 64 + d →
  utf8_char (a * 262144 + b * 4096 + c * 64 + d)
  = [0xF0 + a; 0x80 + b; 0x80 + c; 0x80 + d].
Proof.
  intros. unfold utf8_char; zbool.
  set (z := a * 262144 + b * 4096 + c * 64 + d).
  assert (z / 262144 = a) as -> by (unfold z; zdiv).
  assert (z / 4096 = a * 64 + b) as -> by (unfold z; zdiv).
  assert (z / 64 = a * 4096 + b * 64 + c) as -> by (unfold z; zdiv).
  assert ((a * 64 + b) mod 64 = b) as -> by zdiv.
  assert ((a * 4096 + b * 64 + c) mod 64 = c) as -> by zdiv.
  by assert (z mod 64 = d) as -> by (unfold z; zdiv).
Qed.

Lemma from_utf8_1 c r : 0 ≤ c < 0x80 → from_utf8 (c :: r) = cons c <$> from_utf8 r.
Proof. intros; simpl; by zbool. Qed.

Lemma from_utf8_2 a b r :
  2 ≤ a < 32 → 0 ≤ b < 64 →
  from_utf8 (0xC0 + a :: 0x80 + b :: r) = cons (a * 64 + b) <$> from_utf8 r.
Proof. intros; simpl; unfold is_cont; zbool; same_head. Qed.

Lemma from_utf8_3 a b c r :
  0 ≤ a < 16 → 0 ≤ b < 64 → 0 ≤ c < 64 → 0x800 ≤ a * 4096 + b * 64 + c →
  ¬ (0xD800 ≤ a * 4096 + b * 64 + c ≤ 0xDFFF) →
  from_utf8 (0xE0 + a :: 0x80 + b :: 0x80 + c :: r)
  = cons (a * 4096 + b * 64 + c) <$> from_utf8 r.
Proof. intros; simpl; unfold is_cont; zbool; same_head. Qed.

Lemma from_utf8_4 a b c d r :
  0 ≤ a < 5 → 0 ≤ b < 64 → 0 ≤ c < 64 → 0 ≤ d < 64 →
  0x10000 ≤ a * 262144 + b * 4096 + c * 64 + d < 0x110000 →
  from_utf8 (0xF0 + a :: 0x80 + b :: 0x80 + c :: 0x80 + d :: r)
  = cons (a * 262144 + b * 4096 + c * 64 + d) <$> from_utf8 r.
Proof. intros; simpl; unfold is_cont; zbool; same_head. Qed.

(** Every character has one of the four shapes. *)
Lemma char_shape c :
  is_char c →
  (0 ≤ c < 0x80)
  ∨ (∃ a b, c = a * 64 + b ∧ 2 ≤ a < 32 ∧ 0 ≤ b < 64)
  ∨ (∃ a b d, c = a * 4096 + b * 64 + d ∧ 0 ≤ a < 16 ∧ 0 ≤ b < 64 ∧ 0 ≤ d < 64
      ∧ 0x800 ≤ c ∧ ¬ (0xD800 ≤ c ≤ 0xDFFF))
  ∨ (∃ a b d e, c = a * 262144 + b * 4096 + d * 64 + e ∧ 0 ≤ a < 5 ∧ 0 ≤ b < 64
      ∧ 0 ≤ d < 64 ∧ 0 ≤ e < 64 ∧ 0x10000 ≤ c < 0x110000).
Proof.
  intros [Hc Hs].
  destruct (decide (c < 0x80)); [left; lia|].
  destruct (decide (c < 0x800)); [right; left; exists (c / 64), (c mod 64); zdiv|].
  destruct (decide (c < 0x10000)); right; right.
  - left; exists (c / 4096), ((c / 64) mod 64), (c mod 64). repeat split; zdiv.
  - right; exists (c / 262144), ((c / 4096) mod 64), ((c / 64) mod 64), (c mod 64).
    repeat split; zdiv.
Qed.

Lemma from_utf8_cons c (r : bytes) :
  is_char c → from_utf8 (utf8_char c ++ r) = cons c <$> from_utf8 r.
Proof.
  intros Hc. destruct (char_shape c Hc) as
    [? | [(a&b&->&?&?) | [(a&b&d&->&?&?&?&?&?) | (a&b&d&e&->&?&?&?&?&?)]]].
  - rewrite utf8_char_1 by done. by apply from_utf8_1.
  - rewrite utf8_char_2 by done. by apply from_utf8_2.
  - rewrite utf8_char_3 by done. by apply from_utf8_3.
  - rewrite utf8_char_4 by (done || lia). by apply from_utf8_4.
Qed.

(** Validation accepts the encoding of every string and recovers it. *)
Lemma from_utf8_as_bytes s : Forall is_char s → from_utf8 (as_bytes s) = Some s.
Proof.
  induction 1 as [|c s Hc Hs IH]; [done|].
  change (as_bytes (c :: s)) with (utf8_char c ++ as_bytes s).
  by rewrite from_utf8_cons, IH.
Qed.

Lemma utf8_char_bytes c : is_char c → is_bytes (utf8_char c).
Proof.
  intros Hc. destruct (char_shape c Hc) as
    [? | [(a&b&->&?&?) | [(a&b&d&->&?&?&?&?&?) | (a&b&d&e&->&?&?&?&?&?)]]].
  - rewrite utf8_char_1 by done. repeat constructor; lia.
  - rewrite utf8_char_2 by done. repeat constructor; lia.
  - rewrite utf8_char_3 by done. repeat constructor; lia.
  - rewrite utf8_char_4 by (done || lia). repeat constructor; lia.
Qed.

Lemma as_bytes_bytes s : Forall is_char s → is_bytes (as_bytes s).
Proof.
  induction 1 as [|c s Hc Hs IH]; [constructor|].
  change (as_bytes (c :: s)) with (utf8_char c ++ as_bytes s).
  apply Forall_app; auto using utf8_char_bytes.
Qed.

(** What validation accepts is the encoding of the characters it returns. *)
Lemma from_utf8_sound_n n bs s :
  (length bs ≤ n)%nat → is_bytes bs → from_utf8 bs = Some s →
  Forall is_char s ∧ as_bytes s = bs.
Proof.
  revert bs s; induction n as [|n IH]; intros bs s Hn Hbs H.
  { destruct bs; [|simpl in Hn; lia]. simpl in H; by simplify_eq. }
  destruct bs as [|b0 r0]; [simpl in H; by simplify_eq|].
  assert (∀ (c : Z) (pre r : bytes) (s' : rstring), b0 :: r0 = pre ++ r →
    (0 < length pre)%nat → from_utf8 r = Some s' → is_char c → utf8_char c = pre →
    Forall is_char (c :: s') ∧ as_bytes (c :: s') = b0 :: r0) as Hstep.
  { intros c pre r s' E Hpre Hr Hc Eu.
    assert (is_bytes r) by (rewrite E in Hbs; by apply Forall_app in Hbs as [_ ?]).
    apply IH in Hr as [Hs' Eb]; [|rewrite E, length_app in Hn; lia|done].
    split; [by constructor|].
    change (as_bytes (c :: s')) with (utf8_char c ++ as_bytes s').
    by rewrite Eu, Eb, E. }
  apply Forall_cons in Hbs as [[Hb0 Hb0'] Hr0]. simpl in H. unfold is_cont in H.
  repeat (case_match; try discriminate).
  all: repeat match goal with
    | E : (_ && _)%bool = true |- _ => apply andb_true_iff in E as [? ?]
    | E : negb _ = true |- _ => apply negb_true_iff in E
    | E : (_ && _)%bool = false |- _ => apply andb_false_iff in E
    end.
  all: rewrite ?Z.ltb_lt, ?Z.leb_le, ?Z.ltb_ge, ?Z.leb_gt in *.
  all: apply fmap_Some in H as (s' & Hs' & ->).
  - apply (Hstep b0 [b0] r0); try done; [simpl; lia|split; lia|by apply utf8_char_1].
  - eapply (Hstep _ [b0; _]); [done|simpl; lia|done|split; lia|].
    rewrite utf8_char_2 by lia. repeat f_equal; lia.
  - eapply (Hstep _ [b0; _; _]); [done|simpl; lia|done|split; lia|].
    rewrite utf8_char_3 by lia. repeat f_equal; lia.
  - eapply (Hstep _ [b0; _; _; _]); [done|simpl; lia|done|split; lia|].
    rewrite utf8_char_4 by lia. repeat f_equal; lia.
Qed.

Lemma from_utf8_sound bs s :
  is_bytes bs → from_utf8 bs = Some s → Forall is_char s ∧ as_bytes s = bs.
Proof. by apply (from_utf8_sound_n (length bs)). Qed.

(** Splitting and joining. *)
Lemma split_nonempty sep s : split sep s ≠ [].
Proof. destruct s; simpl; repeat case_match; done. Qed.

Lemma join_split sep s : join sep (split sep s) = s.
Proof.
  induction s as [|c s IH]; simpl; [done|].
  destruct (Z.eqb_spec c sep) as [->|].
  - destruct (split sep s) eqn:E; [by apply split_nonempty in E|]. by rewrite <-IH.
  - destruct (split sep s) as [|w [|w' ws]] eqn:E; simpl in *; congruence.
Qed.

Lemma split_no_sep sep s : Forall (λ w, sep ∉ w) (split sep s).
Proof.
  induction s as [|c s IH]; simpl; [by repeat constructor; apply not_elem_of_nil|].
  destruct (Z.eqb_spec c sep) as [->|]; [constructor; [apply not_elem_of_nil|done]|].
  destruct (split sep s) as [|w ws]; inversion_clear IH; constructor; try done; set_solver.
Qed.

Lemma split_chars sep s w c : w ∈ split sep s → c ∈ w → c ∈ s.
Proof.
  revert w; induction s as [|x s IH]; intros w; simpl.
  - intros ->%list_elem_of_singleton. by intros ?%not_elem_of_nil.
  - destruct (Z.eqb_spec x sep).
    + intros [->|Hw]%elem_of_cons Hc; [by apply not_elem_of_nil in Hc|right; by eapply IH].
    + destruct (split sep s) as [|w' ws] eqn:E.
      * intros ->%list_elem_of_singleton ->%list_elem_of_singleton. by left.
      * intros [->|Hw]%elem_of_cons Hc.
        { apply elem_of_cons in Hc as [->|Hc]; [by left|]. right. eapply IH; [by left|done]. }
        right. eapply IH; [by right|done].
Qed.
