(* ===== verification/Text.v ===== *)
(** * Text of the standard library

    What [ToString] and [FromStr] of the standard library do for integers, booleans and
    socket addresses, which the configuration goes through. *)
From S2P Require Import Prelude Errors Utf8.
Local Open Scope Z_scope.

(** ** Numbers *)

(** [char::to_digit] for a radix of 10 or 16 *)
Definition to_digit (radix c : Z) : option Z :=
  let d := if (48 <=? c) && (c <=? 57) then c - 48
           else if (97 <=? c) && (c <=? 102) then c - 87
           else if (65 <=? c) && (c <=? 70) then c - 55
           else radix in
  if d <? radix then Some d else None.

(** The digits of a [w]-bit number; a result that does not fit is an error. *)
Fixpoint parse_digits (w acc : Z) (s : rstring) : option Z :=
  match s with
  | [] => Some acc
  | c :: s =>
      d ← to_digit 10 c;
      if acc * 10 + d <? 2 ^ w then parse_digits w (acc * 10 + d) s else None
  end.

(** [<uw as FromStr>::from_str] *)
Definition parse_uint (w : Z) (s : rstring) : option Z :=
  match s with
  | [] => None
  | [c] => if c =? 43 then None else parse_digits w 0 [c]
  | c :: s' => if c =? 43 then parse_digits w 0 s' else parse_digits w 0 s
  end.

(** [to_string] of an integer *)
Fixpoint decimal (fuel : nat) (n : Z) : rstring :=
  match fuel with
  | O => []
  | S fuel => if n <? 10 then [48 + n] else decimal fuel (n / 10) ++ [48 + n mod 10]
  end.

Definition decimal_of (n : Z) : rstring := decimal (S (Z.to_nat (Z.log2 n))) n.

Definition int_to_string (n : Z) : rstring := if n <? 0 then 45 :: decimal_of (- n) else decimal_of n.

(** [to_string] and [FromStr] of a boolean *)
Definition bool_to_string (b : bool) : rstring := chars (if b then "true" else "false").
Definition parse_bool (s : rstring) : option bool :=
  if decide (s = chars "true") then Some true else if decide (s = chars "false") then Some false else None.

(** ** Socket addresses *)

Inductive SocketAddr : Set :=
| SA_V4 (ip : list Z) (port : Z)
| SA_V6 (ip : list Z) (port scope_id : Z).

(** The parser of std::net: each part is read off the front of the text, or nothing is. *)
Local Abbreviation reader A := (rstring → option (A * rstring)).

Definition read_char (c : Z) : reader () :=
  λ s, match s with x :: s' => if x =? c then Some ((), s') else None | [] => None end.

Fixpoint read_digits (radix w : Z) (max_digits : option nat) (result : Z) (count : nat) (s : rstring)
    : option (Z * nat * rstring) :=
  match s with
  | [] => Some (result, count, [])
  | c :: s' =>
      match to_digit radix c with
      | None => Some (result, count, s)
      | Some d =>
          if 2 ^ w <=? result * radix + d then None
          else if from_option (λ m, bool_decide (m < S count)%nat) false max_digits then None
          else read_digits radix w max_digits (result * radix + d) (S count) s'
      end
  end.

Definition read_number (radix : Z) (max_digits : option nat) (allow_zero_prefix : bool) (w : Z) : reader Z :=
  λ s,
    let has_leading_zero := match s with c :: _ => c =? 48 | [] => false end in
    '(result, count, s') ← read_digits radix w max_digits 0 0 s;
    if bool_decide (count = 0%nat) then None
    else if negb allow_zero_prefix && has_leading_zero && bool_decide (1 < count)%nat then None
    else Some (result, s').

(** A separator stands in front of every part but the first. *)
Definition read_separator {A} (sep : Z) (first : bool) (inner : reader A) : reader A :=
  λ s, if first then inner s else '(_, s) ← read_char sep s; inner s.

Fixpoint read_octets (k : nat) (first : bool) : reader (list Z) :=
  λ s, match k with
       | O => Some ([], s)
       | S k =>
           '(x, s) ← read_separator 46 first (read_number 10 (Some 3%nat) false 8) s;
           '(xs, s) ← read_octets k false s;
           Some (x :: xs, s)
       end.

Definition read_ipv4 : reader (list Z) := read_octets 4 true.

(** At most [k] groups of an IPv6 address; the last two may be an IPv4 address. *)
Fixpoint read_groups (k : nat) (first : bool) (s : rstring) : list Z * bool * rstring :=
  match k with
  | O => ([], false, s)
  | S k' =>
      let v4 := if bool_decide (k' = 0%nat) then None else read_separator 58 first read_ipv4 s in
      match v4 with
      | Some ([a; b; c; d], s') => ([a * 256 + b; c * 256 + d], true, s')
      | _ =>
          match read_separator 58 first (read_number 16 (Some 4%nat) true 16) s with
          | Some (g, s') => let '(gs, v4, s'') := read_groups k' false s' in (g :: gs, v4, s'')
          | None => ([], false, s)
          end
      end
  end.

Definition read_ipv6 : reader (list Z) :=
  λ s,
    let '(head, head_ipv4, s) := read_groups 8 true s in
    if bool_decide (length head = 8%nat) then Some (head, s)
    else if head_ipv4 then None
    else
      '(_, s) ← read_char 58 s;
      '(_, s) ← read_char 58 s;
      let '(tail, _, s) := read_groups (7 - length head) true s in
      Some (head ++ replicate (8 - length head - length tail) 0 ++ tail, s).

Definition read_port : reader Z := λ s, '(_, s) ← read_char 58 s; read_number 10 None true 16 s.

Definition read_socket_addr_v4 : reader SocketAddr :=
  λ s, '(ip, s) ← read_ipv4 s; '(port, s) ← read_port s; Some (SA_V4 ip port, s).

Definition read_scope_id : reader Z := λ s, '(_, s) ← read_char 37 s; read_number 10 None true 32 s.

Definition read_socket_addr_v6 : reader SocketAddr :=
  λ s,
    '(_, s) ← read_char 91 s;
    '(ip, s) ← read_ipv6 s;
    let '(scope_id, s) := default (0, s) (read_scope_id s) in
    '(_, s) ← read_char 93 s;
    '(port, s) ← read_port s;
    Some (SA_V6 ip port scope_id, s).

(** [<SocketAddr as FromStr>::from_str] *)
Definition parse_socket_addr (s : rstring) : option SocketAddr :=
  let read := match read_socket_addr_v4 s with Some r => Some r | None => read_socket_addr_v6 s end in
  match read with Some (a, []) => Some a | _ => None end.

(** ** Lemmas *)

Lemma to_digit_10 d : 0 ≤ d < 10 → to_digit 10 (48 + d) = Some d.
Proof.
  intros Hd. unfold to_digit. rewrite (proj2 (Z.leb_le _ _)) by lia. rewrite (proj2 (Z.leb_le _ 57)) by lia.
  cbn [andb]. replace (48 + d - 48) with d by lia. by rewrite (proj2 (Z.ltb_lt _ _)) by lia.
Qed.

Lemma parse_digits_app w acc s t : parse_digits w acc (s ++ t) = (a ← parse_digits w acc s; parse_digits w a t).
Proof.
  revert acc. induction s as [|c s IH]; intros acc; [done|]. cbn. destruct (to_digit 10 c) as [d|]; [|done]. cbn.
  by destruct (_ <? _); [apply IH|].
Qed.

Lemma parse_decimal w fuel n :
  0 ≤ n → (Z.to_nat (Z.log2 n) < fuel)%nat →
  parse_digits w 0 (decimal fuel n) = if n <? 2 ^ w then Some n else None.
Proof.
  revert n. induction fuel as [|fuel IH]; intros n Hn Hf; [lia|]. cbn [decimal]. destruct (Z.ltb_spec n 10) as [H10|H10].
  - cbn. rewrite to_digit_10 by lia. by destruct n.
  - assert (Z.log2 (n / 10) < Z.log2 n) as Hlog.
    { apply Z.log2_lt_pow2; [apply Z.div_str_pos; lia|]. pose proof (Z.log2_spec n ltac:(lia)) as [_ H].
      rewrite Z.pow_succ_r in H by apply Z.log2_nonneg. apply Z.div_lt_upper_bound; lia. }
    rewrite parse_digits_app, IH by (try apply Z.div_pos; pose proof (Z.log2_nonneg (n / 10)); lia).
    pose proof (Z.div_mod n 10 ltac:(lia)) as Hdm. pose proof (Z.mod_pos_bound n 10 ltac:(lia)).
    destruct (Z.ltb_spec (n / 10) (2 ^ w)) as [Hw|Hw]; cbn.
    + rewrite to_digit_10 by done. cbn. by replace (n / 10 * 10 + n mod 10) with n by lia.
    + by rewrite (proj2 (Z.ltb_ge _ _)) by lia.
Qed.

Lemma decimal_head fuel n : 0 ≤ n → ∃ c s, decimal (S fuel) n = c :: s ∧ 48 ≤ c ≤ 57.
Proof.
  revert n. induction fuel as [|fuel IH]; intros n Hn; cbn [decimal].
  - destruct (Z.ltb_spec n 10); [exists (48 + n), []; split; [done|lia]|].
    exists (48 + n mod 10), []. pose proof (Z.mod_pos_bound n 10). split; [done|lia].
  - destruct (Z.ltb_spec n 10); [exists (48 + n), []; split; [done|lia]|].
    destruct (IH (n / 10) ltac:(apply Z.div_pos; lia)) as (c & s & E & Hc). cbn [decimal] in E. rewrite E. by exists c, (s ++ [48 + n mod 10]).
Qed.

(** An integer that is printed and read as an unsigned number of [w] bits is itself or is refused. *)
Lemma parse_to_string w n :
  parse_uint w (int_to_string n) = if (0 <=? n) && (n <? 2 ^ w) then Some n else None.
Proof.
  unfold int_to_string. destruct (Z.ltb_spec n 0) as [Hn|Hn].
  - rewrite (proj2 (Z.leb_gt _ _)) by lia. unfold parse_uint. cbn [Z.eqb Pos.eqb]. by destruct (decimal_of _).
  - rewrite (proj2 (Z.leb_le _ _)) by lia. cbn [andb].
    rewrite <-(parse_decimal w (S (Z.to_nat (Z.log2 n))) n) by lia. fold (decimal_of n).
    destruct (decimal_head (Z.to_nat (Z.log2 n)) n Hn) as (c & s & E & Hc). fold (decimal_of n) in E. rewrite E. unfold parse_uint.
    rewrite (proj2 (Z.eqb_neq _ _)) by lia. by destruct s.
Qed.

Lemma parse_bool_to_string b : parse_bool (bool_to_string b) = Some b.
Proof. by destruct b. Qed.

(** No boolean is a number. *)
Lemma parse_uint_bool w b : parse_uint w (bool_to_string b) = None.
Proof. by destruct b. Qed.

Example ex_addresses :
  parse_socket_addr <$> [chars "0.0.0.0:1883"; chars "127.0.0.1:65536"; chars "1.2.3:80"; chars "01.2.3.4:80"; chars "1.2.3.4";
    chars "[::1]:1883"; chars "[fe80::a:1.2.3.4%7]:00080"; chars "[1:2:3:4:5:6:7:8]:9"; chars "[1:2]:9"; chars "localhost:1883"]
  = [Some (SA_V4 [0; 0; 0; 0] 1883); None; None; None; None;
     Some (SA_V6 [0; 0; 0; 0; 0; 0; 0; 1] 1883 0); Some (SA_V6 [0xfe80; 0; 0; 0; 0; 10; 0x102; 0x304] 80 7);
     Some (SA_V6 [1; 2; 3; 4; 5; 6; 7; 8] 9 0); None; None].
Proof. lazy. reflexivity. Qed.

Example ex_numbers :
  (parse_uint 16 <$> [chars "65535"; chars "65536"; chars "+7"; chars "-7"; chars ""; chars "+"; chars "1.5"]
    = [Some 65535; None; Some 7; None; None; None; None])
  ∧ int_to_string (-1883) = chars "-1883".
Proof. split; lazy; reflexivity. Qed.
