(* ===== verification/Format.v ===== *)
(** * Formatted text (the macros of std::fmt, and src/src/error.rs)

    [format!] with the holes that the source uses, the texts of error kinds and reason
    codes, and a reader of JSON objects of numbers, to say what the JSON that is written
    with [format!] means. *)
From Stdlib Require Import Ascii.
From S2P Require Import Prelude Errors Utf8 Text.
Local Open Scope Z_scope.

(** ** [format!] *)

Inductive piece : Set := Lit (c : Z) | Hole | HoleDebug | HoleUpperHex.

(** The pieces of a template; [None] is for a template that does not compile. *)
Fixpoint template (t : string) : option (list piece) :=
  match t with
  | EmptyString => Some []
  | String "{" (String "{" t) => cons (Lit 123) <$> template t
  | String "}" (String "}" t) => cons (Lit 125) <$> template t
  | String "{" (String "}" t) => cons Hole <$> template t
  | String "{" (String ":" (String "?" (String "}" t))) => cons HoleDebug <$> template t
  | String "{" (String ":" (String "X" (String "}" t))) => cons HoleUpperHex <$> template t
  | String "{" _ | String "}" _ => None
  | String a t => cons (Lit (Z.of_N (N_of_ascii a))) <$> template t
  end.

Inductive fmt_arg : Set := A_Str (s : rstring) | A_Int (n : Z).

(** [{}] *)
Definition fmt_display (a : fmt_arg) : rstring :=
  match a with A_Str s => s | A_Int n => int_to_string n end.

(** [{:?}]: the names that the source prints so have no character to escape. *)
Definition fmt_debug (a : fmt_arg) : rstring :=
  match a with A_Str s => 34 :: s ++ [34] | A_Int n => int_to_string n end.

(** [{:X}] of an unsigned integer *)
Definition upper_digit (d : Z) : Z := if d <? 10 then 48 + d else 55 + d.
Fixpoint upper_hex (fuel : nat) (n : Z) : rstring :=
  match fuel with
  | O => []
  | S fuel => if n <? 16 then [upper_digit n] else upper_hex fuel (n / 16) ++ [upper_digit (n mod 16)]
  end.
Definition fmt_upper_hex (a : fmt_arg) : rstring :=
  match a with A_Str s => s | A_Int n => upper_hex (S (Z.to_nat (Z.log2 n))) n end.

(** Each hole takes the next argument. *)
Fixpoint render (ps : list piece) (args : list fmt_arg) : rstring :=
  match ps with
  | [] => []
  | Lit c :: ps => c :: render ps args
  | hole :: ps =>
      match args with
      | [] => []
      | a :: args =>
          match hole with HoleDebug => fmt_debug a | HoleUpperHex => fmt_upper_hex a | _ => fmt_display a end
            ++ render ps args
      end
  end.

Definition format (t : string) (args : list fmt_arg) : rstring :=
  match template t with Some ps => render ps args | None => [] end.

(** ** Texts of errors *)

Definition ErrorKind_fmt (kind : ErrorKind) : rstring :=
  match kind with
  | EK_NoError => chars "NoError"
  | EK_InvalidInput => chars "InvalidInput"
  | EK_ProtocolError => chars "ProtocolError"
  | EK_UnsupportedProtocolVersion => chars "UnsupportedProtocolVersion"
  | EK_InsufficientBytes => chars "InsufficientBytes"
  | EK_MalformedPacket => chars "MalformedPacket"
  | EK_SessionTakenOver => chars "SessionTakenOver"
  | EK_Disconnected => chars "Disconnected"
  | EK_SlowClient => chars "SlowClient"
  | EK_IPCFail => chars "IPCFail"
  | EK_RxClosed => chars "RxClosed"
  | EK_TxFinish => chars "TxFinish"
  | EK_Infallible => chars "Infallible"
  | EK_ParseBoolError => chars "ParseBoolError"
  | EK_ParseFloatError => chars "ParseFloatError"
  | EK_ParseIntError => chars "ParseIntError"
  | EK_TryFromIntError => chars "TryFromIntError"
  | EK_TryFromAddrError => chars "TryFromAddrError"
  | EK_UuidError => chars "UuidError"
  | EK_IOError => chars "IOError"
  end.

Definition ReasonCode_fmt (code : ReasonCode) : rstring :=
  match code with
  | RC_Success => chars "Success"
  | RC_QoS1 => chars "Granted QoS 1"
  | RC_QoS2 => chars "Granted QoS 2"
  | RC_DiconnectWillMessage => chars "Disconnect with Will Message"
  | RC_NoMatchingSubscribers => chars "No matching subscribers"
  | RC_NoSubscriptionExisted => chars "No subscription existed"
  | RC_ContinueAuthentication => chars "Continue authentication"
  | RC_ReAuthenticate => chars "Re-authenticate"
  | RC_UnspecifiedError => chars "Unspecified error"
  | RC_MalformedPacket => chars "Malformed Packet"
  | RC_ProtocolError => chars "Protocol Error"
  | RC_ImplementationError => chars "Implementation specific error"
  | RC_UnsupportedProtocolVersion => chars "Unsupported Protocol Version"
  | RC_InvalidClientID => chars "Client Identifier not valid"
  | RC_BadLogin => chars "Bad User Name or Password"
  | RC_NotAuthorized => chars "Not authorized"
  | RC_ServerNotAvailable => chars "Server unavailable"
  | RC_ServerBusy => chars "Server busy"
  | RC_Banned => chars "Banned"
  | RC_ServerShutdown => chars "Server shutting down"
  | RC_BadAuthenticationMethod => chars "Bad authentication method"
  | RC_KeepAliveTimeout => chars "Keep Alive timeout"
  | RC_SessionTakenOver => chars "Session taken over"
  | RC_InvalidTopicFilter => chars "Topic Filter invalid"
  | RC_TopicNameInvalid => chars "Topic Name invalid"
  | RC_PacketIdInuse => chars "Packet Identifier in use"
  | RC_PacketIdNotFound => chars "Packet Identifier not found"
  | RC_ExceededReceiveMaximum => chars "Receive Maximum exceeded"
  | RC_TopicAliasInvalid => chars "Topic Alias invalid"
  | RC_PacketTooLarge => chars "Packet too large"
  | RC_ExceedMessageRate => chars "Message rate too high"
  | RC_QuotaExceeded => chars "Quota exceeded"
  | RC_AdminAction => chars "Administrative action"
  | RC_PayloadFormatInvalid => chars "Payload format invalid"
  | RC_RetainNotSupported => chars "Retain not supported"
  | RC_QoSNotSupported => chars "QoS not supported"
  | RC_UseAnotherServer => chars "Use another server"
  | RC_ServerMoved => chars "Server moved"
  | RC_UnsupportedSharedSubscription => chars "Shared Subscriptions not supported"
  | RC_ExceedConnectionRate => chars "Connection rate exceeded"
  | RC_ExceedMaximumConnectTime => chars "Maximum connect time"
  | RC_SubscriptionIdNotSupported => chars "Subscription Identifiers not supported"
  | RC_WildcardSubscriptionsNotSupported => chars "Wildcard Subscriptions not supported"
  end.

(** ** Reading JSON

    Objects whose values are unsigned 64-bit integers, as RFC 8259 writes them; keys
    with escapes are not read. *)

Fixpoint skip_ws (s : rstring) : rstring :=
  match s with
  | c :: s' => if (c =? 32) || (c =? 9) || (c =? 10) || (c =? 13) then skip_ws s' else s
  | [] => []
  end.

(** The rest of a key, up to its quote. *)
Fixpoint read_key (s : rstring) : option (rstring * rstring) :=
  match s with
  | [] => None
  | c :: s => if c =? 34 then Some ([], s)
              else if (c <? 32) || (c =? 92) then None
              else '(k, s) ← read_key s; Some (c :: k, s)
  end.

Definition read_member (s : rstring) : option (rstring * Z * rstring) :=
  '(_, s) ← read_char 34 (skip_ws s);
  '(k, s) ← read_key s;
  '(_, s) ← read_char 58 (skip_ws s);
  '(v, s) ← read_number 10 None false 64 (skip_ws s);
  Some (k, v, skip_ws s).

(** Members up to the brace that closes the object. *)
Fixpoint read_members (fuel : nat) (s : rstring) : option (list (rstring * Z) * rstring) :=
  match fuel with
  | O => None
  | S fuel =>
      '(k, v, s) ← read_member s;
      match s with
      | c :: s => if c =? 44 then '(ms, s) ← read_members fuel s; Some ((k, v) :: ms, s)
                  else if c =? 125 then Some ([(k, v)], s)
                  else None
      | [] => None
      end
  end.

(** Each member takes a character at least. *)
Definition json_object (s : rstring) : option (list (rstring * Z)) :=
  '(_, s) ← read_char 123 (skip_ws s);
  '(ms, s) ← match read_char 125 (skip_ws s) with
              | Some (_, s) => Some ([], s)
              | None => read_members (length s) s
              end;
  match skip_ws s with [] => Some ms | _ => None end.

(** ** Theorems *)

Example ex_format :
  format "{{ {:?}: {}, x = {:X} }}" [A_Str (chars "n"); A_Int 25; A_Int 0xc0ffee]
    = chars "{ " ++ 34 :: 110 :: 34 :: chars ": 25, x = C0FFEE }"
  ∧ template "{{}" = None.
Proof. split; lazy; reflexivity. Qed.

(** Texts that are distinct on a list of all values *)
Lemma texts_inj {A} (fmt : A → rstring) (all : list A) :
  (∀ a, a ∈ all) → NoDup (fmt <$> all) → Inj (=) (=) fmt.
Proof.
  intros Hall Hnd a b E.
  destruct (proj1 (list_elem_of_lookup all a) (Hall a)) as [i Hi].
  destruct (proj1 (list_elem_of_lookup all b) (Hall b)) as [j Hj].
  assert (i = j) as ->.
  { eapply (NoDup_lookup (fmt <$> all)); [done|by rewrite list_lookup_fmap, Hi|by rewrite list_lookup_fmap, Hj, E]. }
  congruence.
Qed.

Definition error_kinds : list ErrorKind :=
  [EK_NoError; EK_InvalidInput; EK_MalformedPacket; EK_ProtocolError; EK_UnsupportedProtocolVersion; EK_InsufficientBytes;
   EK_SessionTakenOver; EK_Disconnected; EK_SlowClient; EK_IPCFail; EK_RxClosed; EK_TxFinish; EK_Infallible;
   EK_ParseBoolError; EK_ParseFloatError; EK_ParseIntError; EK_TryFromIntError; EK_TryFromAddrError; EK_UuidError; EK_IOError].

Definition reason_codes : list ReasonCode :=
  seqZ 0 256 ≫= λ c, match ReasonCode_try_from c with Ok code => [code] | _ => [] end.

(** A text in the log says which error it was. *)
Lemma ErrorKind_fmt_inj : Inj (=) (=) ErrorKind_fmt.
Proof.
  apply (texts_inj _ error_kinds).
  - intros []; apply list_elem_of_In; cbn; tauto.
  - apply (bool_decide_unpack _). lazy. exact I.
Qed.

Lemma ReasonCode_fmt_inj : Inj (=) (=) ReasonCode_fmt.
Proof.
  apply (texts_inj _ reason_codes).
  - intros c. apply (bool_decide_unpack _). destruct c; lazy; exact I.
  - apply (bool_decide_unpack _). lazy. exact I.
Qed.

(** *** Numbers in JSON *)

Definition no_digit (s : rstring) : Prop := match s with c :: _ => to_digit 10 c = None | [] => True end.

Lemma read_digits_parse w ds acc count v rest :
  parse_digits w acc ds = Some v → no_digit rest →
  read_digits 10 w None acc count (ds ++ rest) = Some (v, (count + length ds)%nat, rest).
Proof.
  intros Hp Hrest. revert acc count Hp. induction ds as [|c ds IH]; intros acc count Hp; cbn in Hp |- *.
  - injection Hp as <-. rewrite Nat.add_0_r. destruct rest as [|c rest]; [done|]. cbn in Hrest |- *. by rewrite Hrest.
  - destruct (to_digit 10 c) as [d|]; [|done]. cbn in Hp. destruct (Z.ltb_spec (acc * 10 + d) (2 ^ w)) as [Hw|Hw]; [|done].
    rewrite (proj2 (Z.leb_gt _ _)) by done. rewrite IH by done. by rewrite Nat.add_succ_comm.
Qed.

(** A number of two digits or more does not start with a zero. *)
Lemma decimal_no_zero fuel n :
  0 < n → (Z.to_nat (Z.log2 n) < fuel)%nat → ∃ c s, decimal fuel n = c :: s ∧ 49 ≤ c ≤ 57.
Proof.
  revert n. induction fuel as [|fuel IH]; intros n Hn Hf; [lia|]. cbn [decimal].
  destruct (Z.ltb_spec n 10) as [H10|H10]; [exists (48 + n), []; split; [done|lia]|].
  assert (0 < n / 10) as Hq by (apply Z.div_str_pos; lia).
  assert (Z.log2 (n / 10) < Z.log2 n) as Hlog.
  { apply Z.log2_lt_pow2; [done|]. pose proof (Z.log2_spec n ltac:(lia)) as [_ H].
    rewrite Z.pow_succ_r in H by apply Z.log2_nonneg. apply Z.div_lt_upper_bound; lia. }
  destruct (IH (n / 10) Hq ltac:(pose proof (Z.log2_nonneg (n / 10)); lia)) as (c & s & -> & Hc). by eexists _, _.
Qed.

Lemma read_number_to_string zero w n rest :
  0 ≤ n < 2 ^ w → no_digit rest → read_number 10 None zero w (int_to_string n ++ rest) = Some (n, rest).
Proof.
  intros Hn Hrest. unfold int_to_string. rewrite (proj2 (Z.ltb_ge _ _)) by lia. unfold decimal_of.
  assert (parse_digits w 0 (decimal (S (Z.to_nat (Z.log2 n))) n) = Some n) as Hp
    by (rewrite parse_decimal by lia; by rewrite (proj2 (Z.ltb_lt _ _)) by lia).
  unfold read_number. rewrite (read_digits_parse _ _ _ _ _ _ Hp Hrest). cbn [mbind option_bind].
  destruct (Z.eq_dec n 0) as [->|Hnz]; [by destruct zero|].
  destruct (decimal_no_zero (S (Z.to_nat (Z.log2 n))) n ltac:(lia) ltac:(lia)) as (c & s & E & Hc). rewrite E.
  cbn [app length Nat.add]. rewrite (proj2 (Z.eqb_neq _ _)) by lia. by rewrite andb_false_r.
Qed.

(** *** Members of an object *)

(** A key that needs no escape *)
Definition plain_key (k : rstring) : Prop := Forall (λ c, c ≠ 34 ∧ 32 ≤ c ∧ c ≠ 92) k.

Lemma read_key_plain k rest : plain_key k → read_key (k ++ 34 :: rest) = Some (k, rest).
Proof.
  induction 1 as [|c k (H1 & H2 & H3) Hk IH]; [done|]. cbn.
  rewrite (proj2 (Z.eqb_neq _ _)) by done. rewrite (proj2 (Z.ltb_ge _ _)) by done. rewrite (proj2 (Z.eqb_neq _ _)) by done.
  cbn. by rewrite IH.
Qed.

(** A member as the reports write it, and what comes behind it *)
Definition member_text (m : rstring * Z) : rstring := 34 :: m.1 ++ 34 :: 58 :: 32 :: int_to_string m.2.

Lemma int_to_string_head n rest : 0 ≤ n → ∃ c s, int_to_string n ++ rest = c :: s ∧ 48 ≤ c ≤ 57.
Proof.
  intros Hn. unfold int_to_string. rewrite (proj2 (Z.ltb_ge _ _)) by lia.
  destruct (decimal_head (Z.to_nat (Z.log2 n)) n Hn) as (c & s & E & Hc). unfold decimal_of. rewrite E. by eexists _, _.
Qed.

Lemma skip_ws_int n rest : 0 ≤ n → skip_ws (int_to_string n ++ rest) = int_to_string n ++ rest.
Proof.
  intros Hn. destruct (int_to_string_head n rest Hn) as (c & s & -> & Hc). cbn.
  by rewrite !(proj2 (Z.eqb_neq c _)) by lia.
Qed.

Lemma read_member_text k v rest :
  plain_key k → 0 ≤ v < 2 ^ 64 → no_digit rest →
  read_member (member_text (k, v) ++ rest) = Some (k, v, skip_ws rest).
Proof.
  intros Hk Hv Hrest. unfold read_member, member_text. cbn [fst snd app skip_ws Z.eqb Pos.eqb orb read_char mbind option_bind].
  rewrite <-app_assoc. cbn [app]. rewrite read_key_plain by done. cbn [mbind option_bind skip_ws Z.eqb Pos.eqb orb read_char app].
  rewrite skip_ws_int by lia. by rewrite read_number_to_string.
Qed.

(** [object_text ms s]: behind an opening brace, [s] is the members [ms] and the closing
    brace.  The separators are those of the reports. *)
Inductive object_text : list (rstring * Z) → rstring → Prop :=
| object_last k v sep :
    sep ∈ [chars "}"; chars " }"] → object_text [(k, v)] (member_text (k, v) ++ sep)
| object_more k v sep ms s :
    sep ∈ [chars ","; chars ", "] → object_text ms s → object_text ((k, v) :: ms) (member_text (k, v) ++ sep ++ s).

(** What can be read: plain keys, and numbers of a [usize] or less. *)
Definition readable (m : rstring * Z) : Prop := plain_key m.1 ∧ 0 ≤ m.2 < 2 ^ 64.

Lemma read_members_text ms s fuel w :
  object_text ms s → Forall readable ms → (length ms ≤ fuel)%nat → w ∈ [[]; [32]] →
  read_members fuel (w ++ s) = Some (ms, []).
Proof.
  intros Ho. revert fuel w.
  assert (∀ w s, w ∈ [[]; [32]] → read_member (w ++ s) = read_member s) as Hw.
  { intros w t [->|[->|[]%elem_of_nil]%elem_of_cons]%elem_of_cons; done. }
  induction Ho as [k v sep Hsep|k v sep ms s Hsep Ho IH];
    intros [|fuel] w [[Hk Hv] Hms]%Forall_cons Hf Hin; cbn [length] in Hf; try lia;
    cbn [read_members]; rewrite Hw by done; (rewrite read_member_text; [|done|done|]);
    apply elem_of_cons in Hsep as [->|[->|[]%elem_of_nil]%elem_of_cons]; try done.
  - change (('(ms', s') ← read_members fuel ([] ++ s); Some ((k, v) :: ms', s')) = Some ((k, v) :: ms, [])).
    by rewrite IH by (try set_solver; try lia; done).
  - change (('(ms', s') ← read_members fuel ([32] ++ s); Some ((k, v) :: ms', s')) = Some ((k, v) :: ms, [])).
    by rewrite IH by (try set_solver; try lia; done).
Qed.

Lemma object_text_length ms s : object_text ms s → (length ms ≤ length s)%nat.
Proof.
  induction 1; cbn [length app]; rewrite ?length_app; unfold member_text; cbn [length]; rewrite ?length_app; cbn [length]; lia.
Qed.

(** An object is read as the members it was written from. *)
Lemma json_object_text ms s :
  object_text ms s → Forall readable ms → json_object (chars "{ " ++ s) = Some ms.
Proof.
  intros Ho Hms.
  assert (read_char 125 (skip_ws s) = None) as Hne by (destruct Ho; done).
  change (json_object (123 :: 32 :: s) = Some ms). unfold json_object. cbn [skip_ws Z.eqb Pos.eqb orb read_char mbind option_bind].
  rewrite Hne. pose proof (object_text_length _ _ Ho). change (32 :: s) with ([32] ++ s).
  rewrite (read_members_text ms s) by (try set_solver; try done; rewrite length_app; cbn; lia). done.
Qed.
