(* ===== verification/Util.v ===== *)
(** * Helper functions (src/src/util.rs)

    [advance], the test for code points allowed in an MQTT string, and the
    powers of two used to size the cluster; with the slice operations of the
    language that the codecs share. *)
From S2P Require Import Prelude Errors.
Local Open Scope Z_scope.

(** [util::is_valid_utf8_code_point] *)
Definition is_valid_utf8_code_point (c : Z) : bool :=
  let invalid :=
    ((0xD800 <=? c) && (c <=? 0xDFFF)) || (c <=? 0x1F)
    || ((0x7F <=? c) && (c <=? 0x9F)) in
  negb invalid.

(** [util::advance] *)
Definition advance (stream : bytes) (n : nat) : Result bytes :=
  if (n <=? length stream)%nat then Ok (drop n stream)
  else err EK_InsufficientBytes RC_MalformedPacket.

(** [&s[a..b]]: panics unless [a <= b <= s.len()]. *)
Definition slice {A} (s : list A) (a b : nat) : Result (list A) :=
  if ((a <=? b) && (b <=? length s))%nat then Ok (take (b - a) (drop a s)) else Panic.

(** [data[a..b].copy_from_slice(src)]: panics on a bad range or when the
    lengths differ. *)
Definition copy_into (data : bytes) (a b : nat) (src : bytes) : Result bytes :=
  if ((a <=? b) && (b <=? length data) && (length src =? b - a))%nat
  then Ok (take a data ++ src ++ drop b data) else Panic.

(** [util::is_power_of_2], at [u32]. *)
Definition is_power_of_2 (n : Z) : bool :=
  negb (n =? 0) && (Z.land n (n - 1) =? 0).

(** [iter.skip_while(p)] *)
Fixpoint skip_while {A} (p : A → bool) (l : list A) : list A :=
  match l with
  | [] => []
  | x :: l' => if p x then skip_while p l' else l
  end.

(** [util::ceil_power_of_2] *)
Definition ceil_power_of_2 (n : Z) : Z :=
  match head (skip_while (λ i, Z.shiftl 1 i <? n) (seqZ 0 32)) with
  | Some i => Z.shiftl 1 i
  | None => Z.shiftl 1 32
  end.

(** ** Lemmas *)

Lemma advance_post s n :
  post (advance s n) (λ s', (n ≤ length s)%nat ∧ s' = drop n s) dec_error.
Proof.
  unfold advance. destruct (Nat.leb_spec n (length s)).
  - by apply post_Ok.
  - dec_err.
Qed.

Lemma advance_le s n : (n ≤ length s)%nat → advance s n = Ok (drop n s).
Proof. intros. unfold advance. by destruct (Nat.leb_spec n (length s)); [|lia]. Qed.

Lemma advance_app s t n : n = length s → advance (s ++ t) n = Ok t.
Proof.
  intros ->. rewrite advance_le by (rewrite length_app; lia). by rewrite drop_app_length.
Qed.

Lemma slice_app {A} (s t r : list A) a b :
  a = length s → b = (length s + length t)%nat → slice (s ++ t ++ r) a b = Ok t.
Proof.
  intros -> ->. unfold slice. rewrite !length_app.
  destruct (Nat.leb_spec (length s) (length s + length t)); [|lia].
  destruct (Nat.leb_spec (length s + length t) (length s + (length t + length r))); [|lia].
  simpl. rewrite drop_app_length.
  replace (_ - _)%nat with (length t) by lia. by rewrite take_app_length.
Qed.

Lemma slice_Ok {A} (s : list A) a b :
  (a ≤ b ≤ length s)%nat → slice s a b = Ok (take (b - a) (drop a s)).
Proof.
  intros [? ?]. unfold slice.
  destruct (Nat.leb_spec a b); [|lia]. by destruct (Nat.leb_spec b (length s)); [|lia].
Qed.

Lemma copy_into_Ok (data src : bytes) a b :
  (a ≤ b ≤ length data)%nat → length src = (b - a)%nat →
  copy_into data a b src = Ok (take a data ++ src ++ drop b data).
Proof.
  intros [? ?] ?. unfold copy_into.
  destruct (Nat.leb_spec a b); [|lia]. destruct (Nat.leb_spec b (length data)); [|lia].
  by destruct (Nat.eqb_spec (length src) (b - a)).
Qed.

Lemma skip_while_head {A} (p : A → bool) l x r :
  skip_while p l = x :: r → p x = false ∧ ∃ l', l = l' ++ x :: r ∧ Forall (λ y, p y = true) l'.
Proof.
  induction l as [|y l IH]; simpl; [done|].
  destruct (p y) eqn:Ep; intros H.
  - destruct (IH H) as (? & l' & -> & ?). split; [done|]. exists (y :: l'). by split; [|constructor].
  - simplify_eq. split; [done|]. exists []. by split.
Qed.

Lemma skip_while_nil {A} (p : A → bool) l :
  skip_while p l = [] → Forall (λ y, p y = true) l.
Proof. induction l as [|y l IH]; simpl; [done|]. destruct (p y) eqn:E; [auto|done]. Qed.

Lemma skip_while_app {A} (p : A → bool) l x r :
  Forall (λ y, p y = true) l → p x = false → skip_while p (l ++ x :: r) = x :: r.
Proof.
  intros Hl Hx. induction Hl as [|y l Hy Hl IH]; cbn; [by rewrite Hx|by rewrite Hy].
Qed.

(** The split of a list at the first element that fails a test is unique. *)
Lemma skip_while_split {A} (p : A → bool) l1 l2 x1 x2 r1 r2 :
  l1 ++ x1 :: r1 = l2 ++ x2 :: r2 →
  Forall (λ y, p y = true) l1 → Forall (λ y, p y = true) l2 → p x1 = false → p x2 = false →
  l1 = l2 ∧ x1 = x2 ∧ r1 = r2.
Proof.
  intros E H1 H2 Hx1 Hx2. pose proof (f_equal (skip_while p) E) as Es.
  rewrite !skip_while_app in Es by done. simplify_eq. by apply app_inv_tail in E.
Qed.

(** ** Powers of two *)

Lemma skip_while_seqZ (p : Z → bool) a n :
  match head (skip_while p (seqZ a n)) with
  | Some i => a ≤ i < a + n ∧ p i = false ∧ ∀ j, a ≤ j < i → p j = true
  | None => ∀ j, a ≤ j < a + n → p j = true
  end.
Proof.
  destruct (skip_while p (seqZ a n)) as [|i r] eqn:E; cbn.
  - apply skip_while_nil in E. intros j Hj. eapply Forall_forall in E; [exact E|].
    by apply elem_of_seqZ.
  - apply skip_while_head in E as (Hi & l & E & Hl).
    assert (i ∈ seqZ a n) as Hin%elem_of_seqZ by (rewrite E; set_solver).
    split; [done|]. split; [done|]. intros j Hj.
    assert (j ∈ seqZ a n) as Hj' by (apply elem_of_seqZ; lia). rewrite E in Hj'.
    apply elem_of_app in Hj' as [Hj'|Hj']; [by eapply Forall_forall in Hl|].
    assert (seqZ a n !! length l = Some i) as Hli by (rewrite E; by apply list_lookup_middle).
    apply list_elem_of_lookup in Hj' as [k Hk].
    assert (seqZ a n !! (length l + k)%nat = Some j) as Hlj.
    { rewrite E, lookup_app_r by lia. by replace (length l + k - length l)%nat with k by lia. }
    apply lookup_seqZ in Hli, Hlj. lia.
Qed.

Lemma pow2_land_pred n : 0 < n → Z.land n (n - 1) = 0 → n = 2 ^ Z.log2 n.
Proof.
  intros Hn Hl. pose proof (Z.log2_spec n Hn) as [Hlo Hhi].
  destruct (Z.eq_dec n (2 ^ Z.log2 n)) as [|Hne]; [done|exfalso].
  assert (Z.log2 (n - 1) = Z.log2 n) as Hlog.
  { apply Z.log2_unique; [apply Z.log2_nonneg|]. rewrite <-Z.add_1_r in *. lia. }
  assert (Z.testbit (Z.land n (n - 1)) (Z.log2 n) = true) as Ht.
  { rewrite Z.land_spec, Z.bit_log2 by done. rewrite <-Hlog at 1. rewrite Z.bit_log2; [done|].
    pose proof (Z.pow_pos_nonneg 2 (Z.log2 n) ltac:(lia) (Z.log2_nonneg n)). lia. }
  by rewrite Hl, Z.bits_0 in Ht.
Qed.

Lemma land_pred_pow2 k : 0 ≤ k → Z.land (2 ^ k) (2 ^ k - 1) = 0.
Proof.
  intros Hk. rewrite Z.sub_1_r, <-Z.ones_equiv.
  rewrite Z.land_ones by done. apply Z.mod_same. lia.
Qed.

(** ** Theorems *)

(** [is_power_of_2] decides whether its argument is a power of two. *)
Theorem is_power_of_2_spec n :
  is_u32 n → is_power_of_2 n = true ↔ ∃ k, 0 ≤ k ∧ n = 2 ^ k.
Proof.
  intros [Hn _]. unfold is_power_of_2. rewrite andb_true_iff, negb_true_iff, Z.eqb_neq, Z.eqb_eq.
  split.
  - intros [? ?]. exists (Z.log2 n). split; [apply Z.log2_nonneg|]. apply pow2_land_pred; [lia|done].
  - intros (k & Hk & ->). split; [|by apply land_pred_pow2]. pose proof (Z.pow_pos_nonneg 2 k). lia.
Qed.

Lemma is_power_of_2_spec_witness : is_power_of_2 64 = true ↔ ∃ k, 0 ≤ k ∧ 64 = 2 ^ k.
Proof. by apply (is_power_of_2_spec 64). Defined.

(** [ceil_power_of_2] is the least power of two that is at least its argument,
    over the whole range of u32: the result needs 33 bits at the top. *)
Theorem ceil_power_of_2_spec n :
  is_u32 n →
  is_power_of_2 (ceil_power_of_2 n) = true ∧ n ≤ ceil_power_of_2 n ≤ 2 ^ 32
  ∧ ∀ k, 0 ≤ k → n ≤ 2 ^ k → ceil_power_of_2 n ≤ 2 ^ k.
Proof.
  intros [Hn Hn']. unfold ceil_power_of_2.
  pose proof (skip_while_seqZ (λ i, Z.shiftl 1 i <? n) 0 32) as Hs.
  assert (∀ i, 0 ≤ i → Z.shiftl 1 i = 2 ^ i) as Hsh
    by (intros; by rewrite Z.shiftl_mul_pow2, Z.mul_1_l by done).
  assert (∀ i, 0 ≤ i → is_power_of_2 (2 ^ i) = true) as Hp.
  { intros i Hi. unfold is_power_of_2. rewrite land_pred_pow2 by done.
    pose proof (Z.pow_pos_nonneg 2 i ltac:(lia) Hi). by destruct (Z.eqb_spec (2 ^ i) 0); [lia|]. }
  destruct (head _) as [i|].
  - destruct Hs as (Hi & Hge%Z.ltb_ge & Hlt). rewrite Hsh in * by lia.
    split; [apply Hp; lia|]. split; [split; [done|apply Z.pow_le_mono_r; lia]|].
    intros k Hk Hnk. apply Z.pow_le_mono_r; [lia|]. apply Z.nlt_ge; intros Hki.
    specialize (Hlt k ltac:(lia)). apply Z.ltb_lt in Hlt. rewrite Hsh in Hlt by done. lia.
  - rewrite Hsh by lia. split; [by apply Hp|]. split; [lia|].
    intros k Hk Hnk. apply Z.pow_le_mono_r; [lia|]. apply Z.nlt_ge; intros Hki.
    specialize (Hs k ltac:(lia)). apply Z.ltb_lt in Hs. rewrite Hsh in Hs by done. lia.
Qed.

Lemma ceil_power_of_2_spec_witness :
  is_power_of_2 (ceil_power_of_2 5) = true ∧ 5 ≤ ceil_power_of_2 5 ≤ 2 ^ 32
  ∧ ∀ k, 0 ≤ k → 5 ≤ 2 ^ k → ceil_power_of_2 5 ≤ 2 ^ k.
Proof. by apply (ceil_power_of_2_spec 5). Defined.
