(* ===== verification/Types.v ===== *)
(** * Wire types (src/src/types.rs, the [Packetize] trait of src/src/lib.rs)

    The trait [Packetize] is a record of its two operations; each type of the
    source that implements it is a value of that record.  [Lawful] states what
    an implementation promises to the packet codecs that use it: decoding never
    panics and consumes between one byte and the whole stream, a failure is a
    decoder error, what it returns is well formed; encoding never panics and
    yields bytes; and decoding undoes encoding, whatever follows on the stream. *)
From S2P Require Import Prelude Errors Utf8 Util.
Local Open Scope Z_scope.

(** ** Blob *)

Inductive Blob : Type :=
| Blob_Small (data : bytes) (size : nat)
| Blob_Large (data : bytes).

(** [Blob::as_ref] *)
Definition Blob_as_ref (b : Blob) : Result bytes :=
  match b with
  | Blob_Small data size => slice data 0 size
  | Blob_Large data => Ok data
  end.

(** [[0_u8; 32]] *)
Definition zeros32 : bytes := replicate 32 0.

(** ** The trait *)

Record Packetize (A : Type) : Type := MkPacketize {
  decode : bytes → Result (A * nat);
  encode : A → Result Blob;
}.
Arguments MkPacketize {A} _ _.
Arguments decode {A} _ _.
Arguments encode {A} _ _.

(** [v.encode()?.as_ref()] *)
Definition encoded {A} (c : Packetize A) (v : A) : Result bytes :=
  b ← encode c v; Blob_as_ref b.

(** [data.extend_from_slice(v.encode()?.as_ref())] *)
Definition emit {A} (c : Packetize A) (v : A) (data : bytes) : Result bytes :=
  bs ← encoded c v; Ok (data ++ bs).

(** [if let Some(v) = opt { data.extend_from_slice(v.encode()?.as_ref()) }] *)
Definition emit_opt {A} (c : Packetize A) (o : option A) (data : bytes) : Result bytes :=
  match o with Some v => emit c v data | None => Ok data end.

(** [u32::try_from(n)] for a [usize]. *)
Definition u32_try_from (n : nat) : Result Z :=
  if Z.of_nat n <? 4294967296 then Ok (Z.of_nat n) else err_try EK_TryFromIntError.

(** ** Integers *)

Definition u8_decode (stream : bytes) : Result (Z * nat) :=
  match stream with
  | b :: _ => Ok (b, 1%nat)
  | [] => err EK_InsufficientBytes RC_MalformedPacket
  end.

Definition u8_encode (val : Z) : Result Blob :=
  d ← copy_into zeros32 0 1 [val]; Ok (Blob_Small d 1).

Definition u8 : Packetize Z := MkPacketize u8_decode u8_encode.

Definition u16_from_be_bytes (a b : Z) : Z := a * 256 + b.
Definition u16_to_be_bytes (z : Z) : bytes := [Z.shiftr z 8; Z.land z 0xFF].

Definition u16_decode (stream : bytes) : Result (Z * nat) :=
  match stream with
  | a :: b :: _ => Ok (u16_from_be_bytes a b, 2%nat)
  | _ => err EK_InsufficientBytes RC_MalformedPacket
  end.

Definition u16_encode (val : Z) : Result Blob :=
  d ← copy_into zeros32 0 2 (u16_to_be_bytes val); Ok (Blob_Small d 2).

Definition u16 : Packetize Z := MkPacketize u16_decode u16_encode.

Definition u32_from_be_bytes (a b c d : Z) : Z :=
  a * 16777216 + b * 65536 + c * 256 + d.
Definition u32_to_be_bytes (z : Z) : bytes :=
  [Z.shiftr z 24; Z.land (Z.shiftr z 16) 0xFF; Z.land (Z.shiftr z 8) 0xFF; Z.land z 0xFF].

Definition u32_decode (stream : bytes) : Result (Z * nat) :=
  match stream with
  | a :: b :: c :: d :: _ => Ok (u32_from_be_bytes a b c d, 4%nat)
  | _ => err EK_InsufficientBytes RC_MalformedPacket
  end.

Definition u32_encode (val : Z) : Result Blob :=
  d ← copy_into zeros32 0 4 (u32_to_be_bytes val); Ok (Blob_Small d 4).

Definition u32 : Packetize Z := MkPacketize u32_decode u32_encode.

(** ** VarU32 *)

Definition VarU32_MAX : Z := 268435455.

(** The loop [for i in 0..n] over the first [n] bytes of the stream. *)
Fixpoint VarU32_loop (s : bytes) (i : nat) (out : Z) : Result (Z * nat) :=
  match s with
  | [] => err EK_MalformedPacket RC_MalformedPacket
  | b :: s' =>
      let out := out + Z.shiftl (Z.land b 0x7f) (7 * Z.of_nat i) in
      if b <? 0x80 then Ok (out, S i) else VarU32_loop s' (S i) out
  end.

Definition VarU32_decode (stream : bytes) : Result (Z * nat) :=
  let n := Nat.min (length stream) 4 in
  VarU32_loop (take n stream) 0 0.

Definition VarU32_encode (val : Z) : Result Blob :=
  if val <? 128 then
    d ← copy_into zeros32 0 1 [Z.land val 0x7f];
    Ok (Blob_Small d 1)
  else if val <? 16384 then
    d ← copy_into zeros32 0 2
      [Z.lor (Z.land val 0x7f) 0x80; Z.land (Z.shiftr val 7) 0x7f];
    Ok (Blob_Small d 2)
  else if val <? 2097152 then
    d ← copy_into zeros32 0 3
      [Z.lor (Z.land val 0x7f) 0x80; Z.lor (Z.land (Z.shiftr val 7) 0x7f) 0x80;
       Z.land (Z.shiftr val 14) 0x7f];
    Ok (Blob_Small d 3)
  else if val <=? VarU32_MAX then
    d ← copy_into zeros32 0 4
      [Z.lor (Z.land val 0x7f) 0x80; Z.lor (Z.land (Z.shiftr val 7) 0x7f) 0x80;
       Z.lor (Z.land (Z.shiftr val 14) 0x7f) 0x80; Z.land (Z.shiftr val 21) 0x7f];
    Ok (Blob_Small d 4)
  else err_desc EK_ProtocolError.

Definition VarU32 : Packetize Z := MkPacketize VarU32_decode VarU32_encode.

(** ** String and Vec<u8> *)

Definition String_decode (stream : bytes) : Result (rstring * nat) :=
  '(l, _) ← u16_decode stream;
  let l := Z.to_nat l in
  if (length stream <? l + 2)%nat then err EK_InsufficientBytes RC_MalformedPacket
  else
    bs ← slice stream 2 (2 + l);
    match from_utf8 bs with
    | Some s =>
        if negb (forallb is_valid_utf8_code_point s)
        then err EK_MalformedPacket RC_MalformedPacket
        else Ok (s, (2 + l)%nat)
    | None => err_cause EK_MalformedPacket RC_MalformedPacket
    end.

Definition String_encode (s : rstring) : Result Blob :=
  if negb (forallb is_valid_utf8_code_point s) then err_desc EK_ProtocolError
  else
    let n := str_len s in
    if (65535 <? Z.of_nat n) then err_desc EK_ProtocolError
    else if (n <? 30)%nat then
      d ← copy_into zeros32 0 2 (u16_to_be_bytes (Z.of_nat n));
      d ← copy_into d 2 (2 + n) (as_bytes s);
      Ok (Blob_Small d (2 + n))
    else Ok (Blob_Large (u16_to_be_bytes (Z.of_nat n) ++ as_bytes s)).

Definition String_ : Packetize rstring := MkPacketize String_decode String_encode.

Definition Vec_decode (stream : bytes) : Result (bytes * nat) :=
  '(l, _) ← u16_decode stream;
  let l := Z.to_nat l in
  if (length stream <? l + 2)%nat then err EK_InsufficientBytes RC_MalformedPacket
  else
    bs ← slice stream 2 (2 + l);
    Ok (bs, (2 + l)%nat).

Definition Vec_encode (v : bytes) : Result Blob :=
  let n := length v in
  if (65535 <? Z.of_nat n) then err_desc EK_ProtocolError
  else Ok (Blob_Large (u16_to_be_bytes (Z.of_nat n) ++ v)).

Definition Vec_ : Packetize bytes := MkPacketize Vec_decode Vec_encode.

(** ** UserProperty *)

Abbreviation UserProperty_t := (rstring * rstring)%type.

Definition UserProperty_decode (stream : bytes) : Result (UserProperty_t * nat) :=
  '(key, m) ← String_decode stream;
  s ← advance stream m;
  '(val, n) ← String_decode s;
  Ok ((key, val), (m + n)%nat).

Definition UserProperty_encode (p : UserProperty_t) : Result Blob :=
  key_blob ← String_encode p.1;
  val_blob ← String_encode p.2;
  key ← Blob_as_ref key_blob;
  val ← Blob_as_ref val_blob;
  let m := length key in
  let n := length val in
  if (m + n <? 32)%nat then
    d ← copy_into zeros32 0 m key;
    d ← copy_into d m (m + n) val;
    Ok (Blob_Small d (m + n))
  else Ok (Blob_Large (key ++ val)).

Definition UserProperty : Packetize UserProperty_t :=
  MkPacketize UserProperty_decode UserProperty_encode.

(** ** TopicName and TopicFilter: newtypes of [String] *)

Definition TopicName_validate (t : rstring) : Result () :=
  if (str_len t =? 0)%nat then err EK_MalformedPacket RC_MalformedPacket
  else if existsb (λ ch, (ch =? 35) || (ch =? 43) || (ch =? 0)) t
  then err EK_MalformedPacket RC_MalformedPacket
  else Ok ().

Definition TopicName_decode (stream : bytes) : Result (rstring * nat) :=
  '(val, n) ← String_decode stream;
  _ ← TopicName_validate val;
  Ok (val, n).

Definition TopicName_encode (t : rstring) : Result Blob :=
  _ ← TopicName_validate t;
  String_encode t.

Definition TopicName : Packetize rstring := MkPacketize TopicName_decode TopicName_encode.

(** [iter_topic_path], the same for both types: [self.split('/')] *)
Definition iter_topic_path (t : rstring) : list rstring := split 47 t.

Definition TopicFilter_validate (t : rstring) : Result () :=
  if (str_len t =? 0)%nat then err EK_MalformedPacket RC_MalformedPacket
  else if existsb (λ ch, ch =? 0) t then err EK_MalformedPacket RC_MalformedPacket
  else
    let levels := iter_topic_path t in
    if existsb (λ l, existsb (λ c, (c =? 35) || (c =? 43)) l)
         (List.filter (λ l, 1 <? str_len l)%nat levels)
    then err EK_MalformedPacket RC_MalformedPacket
    else
      match skip_while (λ l, negb (bool_decide (l = [35]))) levels with
      | _ :: _ :: _ => err EK_MalformedPacket RC_MalformedPacket
      | _ => Ok ()
      end.

Definition TopicFilter_decode (stream : bytes) : Result (rstring * nat) :=
  '(val, n) ← String_decode stream;
  _ ← TopicFilter_validate val;
  Ok (val, n).

Definition TopicFilter_encode (t : rstring) : Result Blob :=
  _ ← TopicFilter_validate t;
  String_encode t.

Definition TopicFilter : Packetize rstring :=
  MkPacketize TopicFilter_decode TopicFilter_encode.

(** ** ClientID

    [ClientID::from_connect]; [uuid] is the identifier that the uuid library
    generates. *)
Definition ClientID_from_connect (uuid client_id : rstring) : rstring :=
  match str_len client_id with
  | O => uuid
  | S _ => client_id
  end.

(** ** MqttProtocol *)

Inductive MqttProtocol : Set := MqttProtocol_V4 | MqttProtocol_V5.

#[global] Instance MqttProtocol_eq_dec : EqDecision MqttProtocol.
Proof. solve_decision. Defined.

Definition MqttProtocol_try_from (val : Z) : Result MqttProtocol :=
  match val with
  | 4 => Ok MqttProtocol_V4
  | 5 => Ok MqttProtocol_V5
  | _ => err EK_MalformedPacket RC_UnsupportedProtocolVersion
  end.

Definition MqttProtocol_into_u8 (p : MqttProtocol) : Z :=
  match p with MqttProtocol_V4 => 4 | MqttProtocol_V5 => 5 end.

(** ** What a codec promises *)

(** The kinds of error an encoder returns. *)
Definition enc_error (e : Error) : Prop :=
  Error_kind e ∈ [EK_MalformedPacket; EK_ProtocolError; EK_TryFromIntError].

#[global] Instance enc_error_dec e : Decision (enc_error e).
Proof. unfold enc_error; apply _. Defined.

Class Lawful {A} (c : Packetize A) (wf : A → Prop) : Prop := {
  law_decode s : is_bytes s →
    post (decode c s) (λ r, (0 < r.2 ≤ length s)%nat ∧ wf r.1) dec_error;
  law_encode v : wf v → post (encoded c v) is_bytes enc_error;
  law_roundtrip v bs rest : wf v → encoded c v = Ok bs →
    decode c (bs ++ rest) = Ok (v, length bs);
}.

Lemma post_enc_desc {A} k (Q : A → Prop) :
  k ∈ [EK_MalformedPacket; EK_ProtocolError; EK_TryFromIntError] →
  post (err_desc k) Q enc_error.
Proof. done. Qed.

Lemma post_enc_try {A} k (Q : A → Prop) :
  k ∈ [EK_MalformedPacket; EK_ProtocolError; EK_TryFromIntError] →
  post (err_try k) Q enc_error.
Proof. done. Qed.

Lemma post_enc_err {A} k c (Q : A → Prop) :
  k ∈ [EK_MalformedPacket; EK_ProtocolError; EK_TryFromIntError] →
  post (err k c) Q enc_error.
Proof. done. Qed.

(** ** Small blobs *)

(** A blob built by copying [src] into the inline array reads back as [src]. *)
Lemma small_blob src n :
  n = length src → (n ≤ 32)%nat →
  (b ← (d ← copy_into zeros32 0 n src; Ok (Blob_Small d n)); Blob_as_ref b) = Ok src.
Proof.
  intros -> Hn.
  rewrite copy_into_Ok by (unfold zeros32; rewrite ?length_replicate; lia).
  simpl. rewrite slice_Ok by (rewrite length_app; lia).
  rewrite drop_0, Nat.sub_0_r. by rewrite take_app_length.
Qed.

Lemma small_blob2 s1 s2 m n :
  m = length s1 → n = (m + length s2)%nat → (n ≤ 32)%nat →
  (b ← (d ← copy_into zeros32 0 m s1; d ← copy_into d m n s2; Ok (Blob_Small d n));
   Blob_as_ref b) = Ok (s1 ++ s2).
Proof.
  intros -> -> Hn.
  rewrite copy_into_Ok by (unfold zeros32; rewrite ?length_replicate; lia).
  simpl. rewrite copy_into_Ok.
  2:{ rewrite length_app, length_drop. unfold zeros32; rewrite length_replicate. lia. }
  2:{ lia. }
  simpl. rewrite take_app_length, slice_Ok.
  2:{ rewrite !length_app. lia. }
  rewrite drop_0, Nat.sub_0_r, (app_assoc s1 s2).
  by rewrite <-length_app, take_app_length.
Qed.

(** ** Integers are lawful *)

Lemma u8_encoded v : encoded u8 v = Ok [v].
Proof. by apply (small_blob [v] 1); [|lia]. Qed.

Lemma u16_encoded v : encoded u16 v = Ok (u16_to_be_bytes v).
Proof. by apply (small_blob (u16_to_be_bytes v) 2); [|lia]. Qed.

Lemma u32_encoded v : encoded u32 v = Ok (u32_to_be_bytes v).
Proof. by apply (small_blob (u32_to_be_bytes v) 4); [|lia]. Qed.

#[export] Instance u8_lawful : Lawful u8 is_u8.
Proof.
  split.
  - intros s Hs; simpl. destruct s as [|b s]; simpl; [dec_err|].
    inversion Hs; subst. simpl; split; [lia|done].
  - intros v Hv. rewrite u8_encoded. by repeat constructor; destruct Hv.
  - intros v bs rest _ H. rewrite u8_encoded in H; by simplify_eq.
Qed.

Lemma land_255 z : Z.land z 0xFF = z mod 256.
Proof. apply (Z.land_ones z 8); lia. Qed.

Lemma shiftr_div z n k : 0 ≤ n → 2 ^ n = k → Z.shiftr z n = z / k.
Proof. intros ? <-. by apply Z.shiftr_div_pow2. Qed.

Lemma u16_to_be_bytes_eq z : u16_to_be_bytes z = [z / 256; z mod 256].
Proof. unfold u16_to_be_bytes. by rewrite land_255, (shiftr_div z 8 256). Qed.

Lemma u32_to_be_bytes_eq z :
  u32_to_be_bytes z = [z / 16777216; (z / 65536) mod 256; (z / 256) mod 256; z mod 256].
Proof.
  unfold u32_to_be_bytes. rewrite !land_255.
  by rewrite (shiftr_div z 24 16777216), (shiftr_div z 16 65536), (shiftr_div z 8 256).
Qed.

#[export] Instance u16_lawful : Lawful u16 is_u16.
Proof.
  split.
  - intros s Hs; simpl.
    destruct s as [|a [|b s]]; simpl; try dec_err.
    inversion Hs as [|? ? [? ?] Hs']; subst. inversion Hs' as [|? ? [? ?] ?]; subst.
    unfold is_u16, u16_from_be_bytes; simpl; split; lia.
  - intros v [? ?]. rewrite u16_encoded, u16_to_be_bytes_eq.
    repeat constructor; zdiv.
  - intros v bs rest [? ?] E. rewrite u16_encoded, u16_to_be_bytes_eq in E.
    simplify_eq; simpl. unfold u16_from_be_bytes. do 2 f_equal. zdiv.
Qed.

#[export] Instance u32_lawful : Lawful u32 is_u32.
Proof.
  split.
  - intros s Hs; simpl.
    destruct s as [|a [|b [|c [|d s]]]]; simpl; try dec_err.
    repeat match goal with H : is_bytes (_ :: _) |- _ => inversion_clear H end.
    unfold is_u8, is_u32, u32_from_be_bytes in *; simpl; split; lia.
  - intros v [? ?]. rewrite u32_encoded, u32_to_be_bytes_eq.
    repeat constructor; zdiv.
  - intros v bs rest [? ?] E. rewrite u32_encoded, u32_to_be_bytes_eq in E.
    simplify_eq; simpl. unfold u32_from_be_bytes. do 2 f_equal. zdiv.
Qed.

(** ** VarU32 is lawful *)

(** The variable byte integer as MQTT defines it: base 128, least significant
    digit first, the high bit set on every digit but the last. *)
Definition varint_bytes (z : Z) : bytes :=
  if z <? 128 then [z]
  else if z <? 16384 then [z mod 128 + 128; z / 128]
  else if z <? 2097152 then [z mod 128 + 128; (z / 128) mod 128 + 128; z / 16384]
  else [z mod 128 + 128; (z / 128) mod 128 + 128; (z / 16384) mod 128 + 128; z / 2097152].

Lemma land_127 z : Z.land z 0x7f = z mod 128.
Proof. apply (Z.land_ones z 7); lia. Qed.

Lemma lor_128 x : 0 ≤ x < 128 → Z.lor x 0x80 = x + 128.
Proof.
  intros Hx.
  apply (forall_u8 (λ x, x < 128 → Z.lor x 0x80 = x + 128)
    (λ x, (128 <=? x) || (Z.lor x 0x80 =? x + 128))); [|vm_compute; done| |]; [|unfold is_u8; lia|lia].
  intros z H ?. apply orb_true_iff in H as [H|H]; lia.
Qed.

Lemma VarU32_encoded z :
  0 ≤ z ≤ VarU32_MAX → encoded VarU32 z = Ok (varint_bytes z).
Proof.
  unfold VarU32_MAX; intros Hz. unfold encoded; simpl. unfold VarU32_encode, varint_bytes.
  rewrite !land_127, (shiftr_div z 7 128), (shiftr_div z 14 16384),
    (shiftr_div z 21 2097152) by done.
  rewrite !lor_128 by (apply Z.mod_pos_bound; lia).
  destruct (Z.ltb_spec z 128).
  { rewrite Z.mod_small by lia. by apply small_blob; [|lia]. }
  destruct (Z.ltb_spec z 16384).
  { rewrite (Z.mod_small (z / 128)) by zdiv. by apply small_blob; [|lia]. }
  destruct (Z.ltb_spec z 2097152).
  { rewrite (Z.mod_small (z / 16384)) by zdiv. by apply small_blob; [|lia]. }
  unfold VarU32_MAX. destruct (Z.leb_spec z 268435455); [|lia].
  rewrite (Z.mod_small (z / 2097152)) by zdiv. by apply small_blob; [|lia].
Qed.

Lemma VarU32_encode_large z : VarU32_MAX < z → encoded VarU32 z = err_desc EK_ProtocolError.
Proof.
  unfold VarU32_MAX. intros Hz. unfold encoded; simpl. unfold VarU32_encode, VarU32_MAX.
  destruct (Z.ltb_spec z 128); [lia|]. destruct (Z.ltb_spec z 16384); [lia|].
  destruct (Z.ltb_spec z 2097152); [lia|]. by destruct (Z.leb_spec z 268435455); [lia|].
Qed.

Lemma VarU32_encoded_inv z bs :
  is_u32 z → encoded VarU32 z = Ok bs → 0 ≤ z ≤ VarU32_MAX ∧ bs = varint_bytes z.
Proof.
  intros [? ?] E. destruct (Z.leb_spec z VarU32_MAX).
  - rewrite VarU32_encoded in E by lia. by simplify_eq.
  - by rewrite VarU32_encode_large in E by lia.
Qed.

(** One turn of the decoding loop. *)
Lemma VarU32_loop_last b s i out :
  0 ≤ b < 128 → VarU32_loop (b :: s) i out = Ok (out + b * 2 ^ (7 * Z.of_nat i), S i).
Proof.
  intros. simpl. rewrite land_127, Z.mod_small, Z.shiftl_mul_pow2 by lia.
  by destruct (Z.ltb_spec b 128); [|lia].
Qed.

Lemma VarU32_loop_more b s i out :
  0 ≤ b < 128 →
  VarU32_loop (b + 128 :: s) i out = VarU32_loop s (S i) (out + b * 2 ^ (7 * Z.of_nat i)).
Proof.
  intros. simpl. rewrite land_127, Z.shiftl_mul_pow2 by lia.
  destruct (Z.ltb_spec (b + 128) 128); [lia|].
  by replace ((b + 128) mod 128) with b by zdiv.
Qed.

Lemma VarU32_decode_take s :
  VarU32_decode s = VarU32_loop (take 4 s) 0 0.
Proof.
  unfold VarU32_decode. destruct (Nat.min_spec (length s) 4) as [[? ->]|[? ->]]; [|done].
  by rewrite !take_ge by lia.
Qed.

Lemma pow7_0 : 2 ^ (7 * Z.of_nat 0) = 1. Proof. done. Qed.
Lemma pow7_1 : 2 ^ (7 * Z.of_nat 1) = 128. Proof. done. Qed.
Lemma pow7_2 : 2 ^ (7 * Z.of_nat 2) = 16384. Proof. done. Qed.
Lemma pow7_3 : 2 ^ (7 * Z.of_nat 3) = 2097152. Proof. done. Qed.

Lemma VarU32_decode_varint z rest :
  0 ≤ z ≤ VarU32_MAX →
  VarU32_decode (varint_bytes z ++ rest) = Ok (z, length (varint_bytes z)).
Proof.
  unfold VarU32_MAX; intros Hz. rewrite VarU32_decode_take. unfold varint_bytes.
  destruct (Z.ltb_spec z 128); cbn [take app length].
  { rewrite VarU32_loop_last, pow7_0 by lia. do 2 f_equal. lia. }
  destruct (Z.ltb_spec z 16384); cbn [take app length].
  { rewrite VarU32_loop_more, VarU32_loop_last, pow7_0, pow7_1 by zdiv. do 2 f_equal. zdiv. }
  destruct (Z.ltb_spec z 2097152); cbn [take app length].
  { rewrite !VarU32_loop_more, VarU32_loop_last, pow7_0, pow7_1, pow7_2 by zdiv.
    do 2 f_equal. zdiv. }
  rewrite !VarU32_loop_more, VarU32_loop_last, pow7_0, pow7_1, pow7_2, pow7_3 by zdiv.
  do 2 f_equal. zdiv.
Qed.

Lemma varint_bytes_bytes z : 0 ≤ z ≤ VarU32_MAX → is_bytes (varint_bytes z).
Proof.
  unfold VarU32_MAX, varint_bytes; intros ?.
  repeat (case_match; rewrite ?Z.ltb_lt, ?Z.ltb_ge in *); repeat constructor; zdiv.
Qed.

Lemma varint_bytes_len z : (1 ≤ length (varint_bytes z) ≤ 4)%nat.
Proof. unfold varint_bytes; repeat case_match; simpl; lia. Qed.

Lemma VarU32_loop_post s i out :
  is_bytes s → (i + length s ≤ 4)%nat → 0 ≤ out < 2 ^ (7 * Z.of_nat i) →
  post (VarU32_loop s i out)
    (λ r, (i < r.2 ≤ i + length s)%nat ∧ 0 ≤ r.1 ≤ VarU32_MAX) dec_error.
Proof.
  revert i out; induction s as [|b s IH]; intros i out Hs Hi Hout; [dec_err|].
  inversion Hs as [|? ? Hb Hs']; subst. cbn [length] in Hi |- *.
  assert (0 ≤ b mod 128 < 128) as Hm by (apply Z.mod_pos_bound; lia).
  simpl. rewrite land_127, Z.shiftl_mul_pow2 by lia.
  assert (0 ≤ out + b mod 128 * 2 ^ (7 * Z.of_nat i) < 2 ^ (7 * Z.of_nat (S i))) as Hout'.
  { replace (7 * Z.of_nat (S i)) with (7 * Z.of_nat i + 7) by lia.
    rewrite Z.pow_add_r by lia. change (2 ^ 7) with 128.
    assert (b mod 128 * 2 ^ (7 * Z.of_nat i) ≤ 127 * 2 ^ (7 * Z.of_nat i))
      by (apply Z.mul_le_mono_nonneg_r; lia).
    assert (0 ≤ b mod 128 * 2 ^ (7 * Z.of_nat i)) by (apply Z.mul_nonneg_nonneg; lia).
    lia. }
  destruct (Z.ltb_spec b 128).
  - simpl. split; [lia|]. split; [lia|]. unfold VarU32_MAX.
    assert (2 ^ (7 * Z.of_nat (S i)) ≤ 2 ^ 28) by (apply Z.pow_le_mono_r; lia).
    change (2 ^ 28) with 268435456 in *. lia.
  - eapply post_mono; [apply IH; [done|lia|done]|]. intros [z n] _; simpl. lia.
Qed.

Lemma VarU32_decode_post s :
  is_bytes s →
  post (VarU32_decode s)
    (λ r, (0 < r.2 ≤ length s)%nat ∧ (r.2 ≤ 4)%nat ∧ 0 ≤ r.1 ≤ VarU32_MAX) dec_error.
Proof.
  intros Hs. rewrite VarU32_decode_take.
  eapply post_mono; [apply VarU32_loop_post|].
  - auto with wf.
  - rewrite length_take; lia.
  - simpl; lia.
  - intros [z n] _. rewrite length_take; cbn [fst snd]. lia.
Qed.

#[export] Instance VarU32_lawful : Lawful VarU32 is_u32.
Proof.
  split.
  - intros s Hs. eapply post_mono; [by apply VarU32_decode_post|].
    unfold is_u32, VarU32_MAX. intros [z n] _; simpl. lia.
  - intros v [? ?]. destruct (Z.leb_spec v VarU32_MAX).
    + rewrite VarU32_encoded by lia. by apply varint_bytes_bytes.
    + rewrite VarU32_encode_large by lia. apply post_enc_desc; set_solver.
  - intros v bs rest Hv H. apply VarU32_encoded_inv in H as [? ->]; [|done].
    by apply VarU32_decode_varint.
Qed.

(** ** Strings and byte vectors are lawful *)

Abbreviation wf_string := (Forall is_char).

(** The length-prefixed form that [String] and [Vec<u8>] share. *)
Definition prefixed (bs : bytes) : bytes := u16_to_be_bytes (len bs) ++ bs.

Lemma length_u16_be z : length (u16_to_be_bytes z) = 2%nat.
Proof. done. Qed.

Lemma length_prefixed bs : length (prefixed bs) = (2 + length bs)%nat.
Proof. done. Qed.

Lemma prefixed_bytes bs : len bs ≤ 65535 → is_bytes bs → is_bytes (prefixed bs).
Proof.
  intros Hl Hbs. unfold prefixed. rewrite u16_to_be_bytes_eq.
  pose proof (len_nonneg bs). repeat constructor; try zdiv. done.
Qed.

Lemma u16_decode_be z r :
  is_u16 z → u16_decode (u16_to_be_bytes z ++ r) = Ok (z, 2%nat).
Proof.
  intros [? ?]. rewrite u16_to_be_bytes_eq; simpl. unfold u16_from_be_bytes.
  do 2 f_equal. zdiv.
Qed.

(** The inline representation of a short string is invisible: the encoding is
    the prefixed text in every case. *)
Lemma String_encoded_eq s :
  encoded String_ s =
  if negb (forallb is_valid_utf8_code_point s) then err_desc EK_ProtocolError
  else if 65535 <? len (as_bytes s) then err_desc EK_ProtocolError
  else Ok (prefixed (as_bytes s)).
Proof.
  unfold encoded. cbn [encode String_]. unfold String_encode, str_len.
  destruct (negb _); [done|]. fold (len (as_bytes s)).
  destruct (Z.ltb_spec 65535 (len (as_bytes s))); [done|].
  destruct (Nat.ltb_spec (length (as_bytes s)) 30); [|done].
  apply small_blob2; [done|done|lia].
Qed.

Lemma String_encoded s bs :
  encoded String_ s = Ok bs →
  forallb is_valid_utf8_code_point s = true ∧ len (as_bytes s) ≤ 65535
  ∧ bs = prefixed (as_bytes s).
Proof.
  rewrite String_encoded_eq. destruct (forallb _ _); simpl; [|done].
  destruct (Z.ltb_spec 65535 (len (as_bytes s))); [done|]. naive_solver.
Qed.

Lemma Vec_encoded_eq v :
  encoded Vec_ v = if 65535 <? len v then err_desc EK_ProtocolError else Ok (prefixed v).
Proof.
  unfold encoded. cbn [encode Vec_]. unfold Vec_encode. fold (len v). by case_match.
Qed.

Lemma Vec_encoded v bs : encoded Vec_ v = Ok bs → len v ≤ 65535 ∧ bs = prefixed v.
Proof.
  rewrite Vec_encoded_eq. destruct (Z.ltb_spec 65535 (len v)); [done|]. naive_solver.
Qed.

(** Reading the prefix and slicing the body. *)
Lemma prefixed_slice bs rest :
  slice (prefixed bs ++ rest) 2 (2 + length bs) = Ok bs.
Proof. unfold prefixed. rewrite <-app_assoc. by apply slice_app. Qed.

Lemma prefixed_decode_len bs rest :
  len bs ≤ 65535 → u16_decode (prefixed bs ++ rest) = Ok (len bs, 2%nat).
Proof.
  intros. unfold prefixed. rewrite <-app_assoc. apply u16_decode_be.
  pose proof (len_nonneg bs). unfold is_u16; lia.
Qed.

Lemma prefixed_short bs rest :
  (length (prefixed bs ++ rest) <? Z.to_nat (len bs) + 2)%nat = false.
Proof.
  apply Nat.ltb_ge. unfold len. rewrite length_app, length_prefixed. lia.
Qed.

Lemma Vec_decode_prefixed v rest :
  len v ≤ 65535 → Vec_decode (prefixed v ++ rest) = Ok (v, length (prefixed v)).
Proof.
  intros. unfold Vec_decode. rewrite prefixed_decode_len by done; run.
  rewrite prefixed_short. unfold len. rewrite Nat2Z.id, prefixed_slice. done.
Qed.

Lemma String_decode_prefixed s rest :
  wf_string s → forallb is_valid_utf8_code_point s = true → len (as_bytes s) ≤ 65535 →
  String_decode (prefixed (as_bytes s) ++ rest) = Ok (s, length (prefixed (as_bytes s))).
Proof.
  intros Hs Hv Hl. unfold String_decode. rewrite prefixed_decode_len by done; run.
  rewrite prefixed_short. unfold len. rewrite Nat2Z.id, prefixed_slice; run.
  by rewrite from_utf8_as_bytes, Hv.
Qed.

(** Both decoders read a prefix and a slice; the postcondition of that part. *)
Lemma u16_decode_post s :
  is_bytes s →
  post (u16_decode s) (λ r, r.2 = 2%nat ∧ (2 ≤ length s)%nat ∧ is_u16 r.1) dec_error.
Proof.
  intros Hs. destruct s as [|a [|b s]]; simpl; try dec_err.
  apply Forall_cons in Hs as [[? ?] Hs]. apply Forall_cons in Hs as [[? ?] _].
  unfold is_u16, u16_from_be_bytes; simpl. lia.
Qed.

Lemma Vec_decode_post s :
  is_bytes s →
  post (Vec_decode s) (λ r, (0 < r.2 ≤ length s)%nat ∧ is_bytes r.1) dec_error.
Proof.
  intros Hs. unfold Vec_decode. eapply post_bind; [by apply u16_decode_post|].
  intros [l n] _ (_ & ? & ?); simpl in *.
  destruct (Nat.ltb_spec (length s) (Z.to_nat l + 2)); [dec_err|].
  rewrite slice_Ok by lia; simpl. split; [lia|]. auto with wf.
Qed.

Lemma String_decode_post s :
  is_bytes s →
  post (String_decode s) (λ r, (0 < r.2 ≤ length s)%nat ∧ wf_string r.1) dec_error.
Proof.
  intros Hs. unfold String_decode. eapply post_bind; [by apply u16_decode_post|].
  intros [l n] _ (_ & ? & ?); simpl in *.
  destruct (Nat.ltb_spec (length s) (Z.to_nat l + 2)); [dec_err|].
  rewrite slice_Ok by lia; simpl.
  destruct (from_utf8 _) as [t|] eqn:E; [|dec_err].
  apply from_utf8_sound in E as [? _]; [|auto with wf].
  destruct (negb _); [dec_err|]. simpl. split; [lia|done].
Qed.

#[export] Instance String_lawful : Lawful String_ wf_string.
Proof.
  split.
  - intros; by apply String_decode_post.
  - intros s Hs. rewrite String_encoded_eq.
    destruct (negb _); [apply post_enc_desc; set_solver|].
    destruct (Z.ltb_spec 65535 (len (as_bytes s))); [apply post_enc_desc; set_solver|].
    by apply prefixed_bytes, as_bytes_bytes.
  - intros s bs rest Hs (? & ? & ->)%String_encoded. by apply String_decode_prefixed.
Qed.

#[export] Instance Vec_lawful : Lawful Vec_ is_bytes.
Proof.
  split.
  - intros; by apply Vec_decode_post.
  - intros v Hv. rewrite Vec_encoded_eq.
    destruct (Z.ltb_spec 65535 (len v)); [apply post_enc_desc; set_solver|].
    by apply prefixed_bytes.
  - intros v bs rest Hv (? & ->)%Vec_encoded. by apply Vec_decode_prefixed.
Qed.

(** ** Validated strings are lawful *)

Lemma TopicName_validate_post t (Q : () → Prop) : Q () → post (TopicName_validate t) Q dec_error.
Proof. intros. unfold TopicName_validate. repeat case_match; [dec_err|dec_err|done]. Qed.

Lemma TopicFilter_validate_post t (Q : () → Prop) : Q () → post (TopicFilter_validate t) Q dec_error.
Proof. intros. unfold TopicFilter_validate. repeat case_match; try dec_err; done. Qed.

(** A string codec with a validation in front of it. *)
Section validated.
Context (validate : rstring → Result ()).
Context (validate_post : ∀ t (Q : () → Prop), Q () → post (validate t) Q dec_error).
Context (validate_kind : ∀ t e, validate t = Err e → enc_error e).

Let vdec (stream : bytes) : Result (rstring * nat) :=
  '(val, n) ← String_decode stream; _ ← validate val; Ok (val, n).
Let venc (t : rstring) : Result Blob := _ ← validate t; String_encode t.

Lemma validated_encoded t bs :
  encoded (MkPacketize vdec venc) t = Ok bs →
  validate t = Ok () ∧ encoded String_ t = Ok bs.
Proof.
  unfold encoded; cbn [encode]. unfold venc. intros E.
  destruct (validate t) as [[]|e| |]; run; try done.
Qed.

Lemma validated_lawful : Lawful (MkPacketize vdec venc) wf_string.
Proof using validate_post validate_kind.
  split.
  - intros s Hs. cbn [decode]. unfold vdec.
    eapply post_bind; [by apply String_decode_post|]. intros [v n] _ [? ?]; simpl in *.
    by eapply post_bind; [apply (validate_post _ (λ _, True))|].
  - intros t Ht. unfold encoded; cbn [encode]. unfold venc.
    pose proof (validate_post t (λ _, True) I) as Hp.
    destruct (validate t) as [[]|e| |] eqn:E; try done; run.
    + by apply (law_encode (c := String_)).
    + by eapply validate_kind.
  - intros t bs rest Ht [Hv E]%validated_encoded. cbn [decode]. unfold vdec.
    pose proof (law_roundtrip (c := String_) t bs rest Ht E) as Hd.
    cbn [decode String_] in Hd. rewrite Hd; run. by rewrite Hv.
Qed.
End validated.

Lemma TopicName_validate_kind t e : TopicName_validate t = Err e → enc_error e.
Proof.
  unfold TopicName_validate, err; intros E; repeat case_match; simplify_eq; unfold enc_error; set_solver.
Qed.

Lemma TopicFilter_validate_kind t e : TopicFilter_validate t = Err e → enc_error e.
Proof.
  unfold TopicFilter_validate, err; intros E.
  repeat case_match; simplify_eq; unfold enc_error; set_solver.
Qed.

#[export] Instance TopicName_lawful : Lawful TopicName wf_string.
Proof.
  apply (validated_lawful TopicName_validate TopicName_validate_post TopicName_validate_kind).
Qed.

#[export] Instance TopicFilter_lawful : Lawful TopicFilter wf_string.
Proof.
  apply (validated_lawful TopicFilter_validate TopicFilter_validate_post TopicFilter_validate_kind).
Qed.

(** ** Cursors

    [at_ s n r]: reading [s] from offset [n], what is left is [r]. *)
Definition at_ (s : bytes) (n : nat) (r : bytes) : Prop :=
  (n ≤ length s)%nat ∧ drop n s = r.

Lemma at_start s : at_ s 0 s.
Proof. split; [lia|done]. Qed.

Lemma at_skip s n bs r : at_ s n (bs ++ r) → at_ s (n + length bs) r.
Proof.
  intros [Hn Hd]. split.
  - pose proof (f_equal length Hd) as Hl. rewrite length_drop, length_app in Hl. lia.
  - rewrite <-drop_drop, Hd. by rewrite drop_app_length.
Qed.

Lemma at_advance s n r : at_ s n r → advance s n = Ok r.
Proof. intros [Hn <-]. by apply advance_le. Qed.

Lemma at_length s n r : at_ s n r → length s = (n + length r)%nat.
Proof. intros [Hn <-]. rewrite length_drop. lia. Qed.

Lemma at_slice s n bs r : at_ s n (bs ++ r) → slice s n (n + length bs) = Ok bs.
Proof.
  intros Hat. pose proof (at_length _ _ _ Hat) as Hl. rewrite length_app in Hl.
  destruct Hat as [Hn Hd]. rewrite slice_Ok by lia.
  replace (_ - _)%nat with (length bs) by lia. by rewrite Hd, take_app_length.
Qed.

(** ** UserProperty is lawful *)

Definition wf_user_property (p : UserProperty_t) : Prop := wf_string p.1 ∧ wf_string p.2.

Lemma UserProperty_encoded p bs :
  encoded UserProperty p = Ok bs →
  ∃ k v, encoded String_ p.1 = Ok k ∧ encoded String_ p.2 = Ok v ∧ bs = k ++ v.
Proof.
  unfold encoded; cbn [encode UserProperty String_]. unfold UserProperty_encode.
  destruct (String_encode p.1) as [kb|e| |]; run; try done.
  destruct (String_encode p.2) as [vb|e| |]; run; try done.
  destruct (Blob_as_ref kb) as [k|e| |] eqn:Ek; run; try done.
  destruct (Blob_as_ref vb) as [v|e| |] eqn:Ev; run; try done.
  intros H. exists k, v. do 2 (split; [done|]).
  destruct (Nat.ltb_spec (length k + length v) 32).
  - rewrite (small_blob2 k v) in H by (done || lia). by simplify_eq.
  - simpl in H. by simplify_eq.
Qed.

Lemma UserProperty_encode_post p :
  wf_user_property p → post (encoded UserProperty p) is_bytes enc_error.
Proof.
  intros [Hk Hv].
  pose proof (law_encode (c := String_) _ Hk) as HK.
  pose proof (law_encode (c := String_) _ Hv) as HV. revert HK HV.
  unfold encoded; cbn [encode UserProperty String_]. unfold UserProperty_encode.
  destruct (String_encode p.1) as [kb|e| |]; run; try done.
  destruct (String_encode p.2) as [vb|e| |]; run; try done.
  destruct (Blob_as_ref kb) as [k|e| |] eqn:Ek; run; try done.
  destruct (Blob_as_ref vb) as [v|e| |] eqn:Ev; run; try done.
  intros HK HV. destruct (Nat.ltb_spec (length k + length v) 32).
  - rewrite (small_blob2 k v) by (done || lia). by apply Forall_app.
  - simpl. by apply Forall_app.
Qed.

#[export] Instance UserProperty_lawful : Lawful UserProperty wf_user_property.
Proof.
  split.
  - intros s Hs. cbn [decode UserProperty]. unfold UserProperty_decode.
    eapply post_bind; [by apply String_decode_post|]. intros [k m] _ [? ?]; simpl in *.
    eapply post_bind; [apply advance_post|]. intros s' _ [? ->].
    eapply post_bind; [apply String_decode_post; auto with wf|].
    intros [v n] _ [Hn ?]; simpl in *. rewrite length_drop in Hn.
    by split; [lia|].
  - apply UserProperty_encode_post.
  - intros p bs rest [Hk Hv] (k & v & Ek & Ev & ->)%UserProperty_encoded.
    cbn [decode UserProperty]. unfold UserProperty_decode.
    pose proof (law_roundtrip (c := String_) _ _ (v ++ rest) Hk Ek) as Hdk.
    pose proof (law_roundtrip (c := String_) _ _ rest Hv Ev) as Hdv.
    cbn [decode String_] in Hdk, Hdv.
    rewrite <-app_assoc, Hdk; run. rewrite advance_app by done; run.
    rewrite Hdv; run. rewrite length_app. by destruct p.
Qed.

(** ** Sequences of values *)

(** [for v in vs.iter() { data.extend_from_slice(v.encode()?.as_ref()) }] *)
Definition emit_all {A} (c : Packetize A) (vs : list A) (data : bytes) : Result bytes :=
  foldM (λ data v, emit c v data) data vs.

Lemma emit_eq {A} (c : Packetize A) v data :
  emit c v data = (bs ← encoded c v; Ok (data ++ bs)).
Proof. done. Qed.

Lemma emit_all_cons {A} (c : Packetize A) v vs data :
  emit_all c (v :: vs) data = (bs ← encoded c v; emit_all c vs (data ++ bs)).
Proof. unfold emit_all, emit; cbn [foldM]. by destruct (encoded c v). Qed.

Lemma emit_all_app {A} (c : Packetize A) us vs data :
  emit_all c (us ++ vs) data = (data ← emit_all c us data; emit_all c vs data).
Proof. apply foldM_app. Qed.

(** What is written before the sequence stays in front. *)
Lemma emit_all_start {A} (c : Packetize A) vs data :
  emit_all c vs data = (bs ← emit_all c vs []; Ok (data ++ bs)).
Proof.
  revert data; induction vs as [|v vs IH]; intros data.
  - unfold emit_all; cbn [foldM]; run. by rewrite app_nil_r.
  - rewrite !emit_all_cons. destruct (encoded c v) as [bs| | |]; run; [|done..].
    rewrite IH, (IH ([] ++ bs)). destruct (emit_all c vs []); run; [|done..].
    by rewrite app_nil_l, app_assoc.
Qed.

Lemma emit_all_cons_Ok {A} (c : Packetize A) v vs bs :
  emit_all c (v :: vs) [] = Ok bs →
  ∃ b bs', encoded c v = Ok b ∧ emit_all c vs [] = Ok bs' ∧ bs = b ++ bs'.
Proof.
  rewrite emit_all_cons. intros (b & Eb & E)%bind_Ok_inv.
  rewrite emit_all_start in E. apply bind_Ok_inv in E as (bs' & E' & E); simplify_eq.
  by exists b, bs'.
Qed.

Section sequences.
Context {A} (c : Packetize A) (wf : A → Prop) `{!Lawful c wf}.

(** Encodings are never empty: a decoder consumes at least a byte. *)
Lemma law_encoded_pos v bs : wf v → encoded c v = Ok bs → (0 < length bs)%nat.
Proof.
  intros Hv E. pose proof (law_encode v Hv) as Hb. rewrite E in Hb; cbn in Hb.
  pose proof (law_decode (bs ++ [])) as Hd.
  rewrite (law_roundtrip v bs [] Hv E), app_nil_r in Hd. cbn in Hd. naive_solver lia.
Qed.

Lemma emit_all_post vs data :
  Forall wf vs → is_bytes data → post (emit_all c vs data) is_bytes enc_error.
Proof.
  intros Hvs Hd. apply foldM_post; [done|]. intros d v Hv Hd'. unfold emit.
  eapply post_bind; [apply law_encode; by eapply Forall_forall in Hvs|].
  intros bs _ Hbs. by apply Forall_app.
Qed.

Lemma emit_all_length vs bs :
  Forall wf vs → emit_all c vs [] = Ok bs → (length vs ≤ length bs)%nat.
Proof.
  intros Hvs. revert bs; induction Hvs as [|v vs Hv Hvs IH]; intros bs E; [simpl; lia|].
  apply emit_all_cons_Ok in E as (b & bs' & Eb & E & ->).
  apply law_encoded_pos in Eb; [|done]. apply IH in E. rewrite length_app; simpl; lia.
Qed.
End sequences.

(** ** Topics *)

(** A level other than [#]: the single-level wildcard alone, or no wildcard. *)
Definition plain_level (l : rstring) : Prop := l = [43] ∨ ((35 ∉ l) ∧ (43 ∉ l)).

Lemma utf8_char_pos c : (1 ≤ length (utf8_char c))%nat.
Proof. unfold utf8_char. repeat case_match; cbn; lia. Qed.

Lemma str_len_cons c s : str_len (c :: s) = (length (utf8_char c) + str_len s)%nat.
Proof. unfold str_len. change (as_bytes (c :: s)) with (utf8_char c ++ as_bytes s). apply length_app. Qed.

Lemma str_len_0 s : str_len s = 0%nat ↔ s = [].
Proof.
  split; [|by intros ->]. destruct s as [|c s]; [done|].
  rewrite str_len_cons. pose proof (utf8_char_pos c). lia.
Qed.

Lemma existsb_In {A} (p : A → bool) l : existsb p l = false ↔ ∀ x, x ∈ l → p x = false.
Proof.
  split.
  - intros H x Hx. destruct (p x) eqn:E; [|done].
    rewrite <-H. symmetry. apply existsb_exists. exists x. by split; [apply list_elem_of_In|].
  - intros H. destruct (existsb p l) eqn:E; [|done].
    apply existsb_exists in E as (x & Hx%list_elem_of_In & Hp). by rewrite (H x Hx) in Hp.
Qed.

Lemma level_ok l :
  ((1 <? str_len l)%nat = true → existsb (λ c, (c =? 35) || (c =? 43)) l = false)
  ↔ l = [35] ∨ plain_level l.
Proof.
  rewrite existsb_In. setoid_rewrite orb_false_iff. setoid_rewrite Z.eqb_neq. split.
  - intros H. destruct (Nat.ltb_spec 1 (str_len l)) as [Hl|Hl].
    + right; right. split; intros Hin; by destruct (H eq_refl _ Hin).
    + destruct l as [|c l]; [right; right; set_solver|].
      rewrite str_len_cons in Hl. pose proof (utf8_char_pos c).
      assert (l = []) as -> by (apply str_len_0; lia).
      destruct (decide (c = 35)) as [->|]; [by left|]. right.
      destruct (decide (c = 43)) as [->|]; [by left|]. right. set_solver.
  - intros [->|[->|[H1 H2]]]; [done|done|]. intros _ c Hc. split; intros ->; done.
Qed.

Lemma hash_last ls l :
  (match skip_while (λ l, negb (bool_decide (l = [35]))) (ls ++ [l]) with
   | _ :: _ :: _ => err EK_MalformedPacket RC_MalformedPacket : Result ()
   | _ => Ok () end) = Ok () ↔ [35] ∉ ls.
Proof.
  induction ls as [|l' ls IH]; cbn [app skip_while].
  - case_bool_decide; set_solver.
  - case_bool_decide as Hl; cbn [negb].
    + subst. destruct (ls ++ [l]) eqn:E; [by destruct ls|]. set_solver.
    + rewrite IH. set_solver.
Qed.

(** ** Theorems *)

Lemma TopicName_validate_Ok t :
  TopicName_validate t = Ok () ↔ t ≠ [] ∧ (35 ∉ t) ∧ (43 ∉ t) ∧ (0 ∉ t).
Proof.
  unfold TopicName_validate. rewrite <-str_len_0.
  destruct (Nat.eqb_spec (str_len t) 0); [naive_solver|].
  destruct (existsb _ t) eqn:E; [split; [done|]|split; [|done]].
  - intros (_ & ? & ? & ?). apply existsb_exists in E as (c & Hc%list_elem_of_In & Hp).
    rewrite !orb_true_iff, !Z.eqb_eq in Hp. naive_solver.
  - intros _. rewrite existsb_In in E. setoid_rewrite orb_false_iff in E.
    setoid_rewrite orb_false_iff in E. setoid_rewrite Z.eqb_neq in E.
    split; [done|]. split_and!; intros Hin; destruct (E _ Hin) as [[? ?] ?]; done.
Qed.

(** A topic name is accepted exactly when it is not empty and has no wildcard
    and no NUL. *)
Theorem topic_name_valid t :
  TopicName_validate t = Ok () ↔ t ≠ [] ∧ (35 ∉ t) ∧ (43 ∉ t) ∧ (0 ∉ t).
Proof. apply TopicName_validate_Ok. Qed.

Lemma TopicFilter_validate_Ok t :
  TopicFilter_validate t = Ok () ↔
  t ≠ [] ∧ (0 ∉ t) ∧ ∃ ls l, iter_topic_path t = ls ++ [l] ∧ Forall plain_level ls
                           ∧ (l = [35] ∨ plain_level l).
Proof.
  unfold TopicFilter_validate. rewrite <-str_len_0.
  destruct (Nat.eqb_spec (str_len t) 0); [naive_solver|].
  destruct (existsb _ t) eqn:E0.
  { split; [done|]. intros (_ & ? & _). apply existsb_exists in E0 as (c & Hc%list_elem_of_In & ->%Z.eqb_eq).
    done. }
  assert (0 ∉ t) as H0. { rewrite existsb_In in E0. intros Hin. by specialize (E0 _ Hin). }
  destruct (exists_last (split_nonempty 47 t)) as (ls & l & El).
  unfold iter_topic_path. rewrite El.
  assert (existsb (existsb (λ c, (c =? 35) || (c =? 43)))
    (List.filter (λ l, 1 <? str_len l)%nat (ls ++ [l])) = false
    ↔ Forall (λ l, l = [35] ∨ plain_level l) (ls ++ [l])) as Hw.
  { rewrite existsb_In, Forall_forall. split.
    - intros H x Hx. apply level_ok. intros Hlen. apply H, list_elem_of_In, filter_In.
      by rewrite <-list_elem_of_In.
    - intros H x [Hx%list_elem_of_In Hlen]%list_elem_of_In%filter_In. by apply level_ok; [apply H|]. }
  destruct (existsb _ (List.filter _ _)) eqn:Ew.
  - split; [done|]. intros (_ & _ & ls' & l' & [-> ->]%app_inj_tail & Hls & Hl).
    exfalso. apply diff_true_false, Hw, Forall_app. split; [eapply Forall_impl; [done|naive_solver]|by constructor].
  - destruct Hw as [Hw _]. specialize (Hw eq_refl). apply Forall_app in Hw as [Hls Hl].
    rewrite hash_last. split.
    + intros Hh. split; [done|]. split; [done|]. exists ls, l. split; [done|]. split; [|by inversion Hl].
      rewrite Forall_forall in Hls |- *. intros x Hx. destruct (Hls x Hx) as [->|?]; done.
    + intros (_ & _ & ls' & l' & [-> ->]%app_inj_tail & Hls' & _) Hin.
      eapply Forall_forall in Hls'; [|exact Hin]. destruct Hls' as [?|[? _]]; [done|set_solver].
Qed.

(** A topic filter is accepted exactly when it is not empty, has no NUL, every
    level is a single-level wildcard or has no wildcard in it, except the last,
    which may be the multi-level wildcard. *)
Theorem topic_filter_valid t :
  TopicFilter_validate t = Ok () ↔
  t ≠ [] ∧ (0 ∉ t) ∧ ∃ ls l, iter_topic_path t = ls ++ [l] ∧ Forall plain_level ls
                           ∧ (l = [35] ∨ plain_level l).
Proof. apply TopicFilter_validate_Ok. Qed.

(** A variable-length integer up to the maximum is written in the fewest bytes
    that hold it, seven bits each, and read back whatever follows it. *)
Theorem varu32_roundtrip z rest :
  0 ≤ z ≤ VarU32_MAX →
  ∃ bs, encoded VarU32 z = Ok bs ∧ is_bytes bs ∧ (1 ≤ length bs ≤ 4)%nat
    ∧ z < 2 ^ (7 * len bs) ∧ ((1 < length bs)%nat → 2 ^ (7 * (len bs - 1)) ≤ z)
    ∧ VarU32_decode (bs ++ rest) = Ok (z, length bs).
Proof.
  intros Hz. exists (varint_bytes z). rewrite VarU32_encoded by done.
  split; [done|]. split; [by apply varint_bytes_bytes|]. split; [apply varint_bytes_len|].
  split; [|split; [|by apply VarU32_decode_varint]]; revert Hz;
    unfold VarU32_MAX, varint_bytes, len;
    repeat (case_match; rewrite ?Z.ltb_lt, ?Z.ltb_ge in *); cbn; lia.
Qed.

Lemma varu32_roundtrip_witness :
  ∃ bs, encoded VarU32 16384 = Ok bs ∧ is_bytes bs ∧ (1 ≤ length bs ≤ 4)%nat
    ∧ 16384 < 2 ^ (7 * len bs) ∧ ((1 < length bs)%nat → 2 ^ (7 * (len bs - 1)) ≤ 16384)
    ∧ VarU32_decode (bs ++ [7]) = Ok (16384, length bs).
Proof. by apply (varu32_roundtrip 16384 [7]). Defined.

Lemma VarU32_loop_Err s i out e :
  VarU32_loop s i out = Err e → Error_kind e = EK_MalformedPacket ∧ Forall (λ b, 128 ≤ b) s.
Proof.
  revert i out. induction s as [|b s IH]; cbn [VarU32_loop]; intros i out E.
  - by injection E as <-.
  - destruct (Z.ltb_spec b 128); [done|]. apply IH in E as [? ?]. split; [done|by constructor].
Qed.

(** Reading a variable-length integer from any bytes: at most four bytes are
    taken, the value fits 28 bits (the additions on u32 cannot overflow), and the
    only failure is a malformed packet; an integer above the maximum is not
    written. *)
Theorem varu32_bounds s :
  is_bytes s →
  match VarU32_decode s with
  | Ok (z, n) => 0 ≤ z ≤ VarU32_MAX ∧ (1 ≤ n ≤ 4)%nat ∧ (n ≤ length s)%nat
  | Err e => Error_kind e = EK_MalformedPacket ∧ Forall (λ b, 128 ≤ b) (take 4 s)
  | Panic | NoFuel => False
  end ∧ ∀ z, VarU32_MAX < z → encoded VarU32 z = err_desc EK_ProtocolError.
Proof.
  intros Hs. split; [|intros; by apply VarU32_encode_large].
  pose proof (VarU32_decode_post s Hs) as Hp.
  destruct (VarU32_decode s) as [[z n]|e| |] eqn:E; cbn in Hp; [|clear Hp|done|done].
  - destruct Hp as ([? ?] & ? & ? & ?). split_and!; lia.
  - rewrite VarU32_decode_take in E. by eapply VarU32_loop_Err.
Qed.

Lemma varu32_bounds_witness :
  match VarU32_decode [128; 128; 128; 128; 1] with
  | Ok (z, n) => 0 ≤ z ≤ VarU32_MAX ∧ (1 ≤ n ≤ 4)%nat ∧ (n ≤ 5)%nat
  | Err e => Error_kind e = EK_MalformedPacket ∧ Forall (λ b, 128 ≤ b) [128; 128; 128; 128]
  | Panic | NoFuel => False
  end ∧ ∀ z, VarU32_MAX < z → encoded VarU32 z = err_desc EK_ProtocolError.
Proof. apply (varu32_bounds [128; 128; 128; 128; 1]). by repeat constructor. Defined.

(** Strings: a Rust string without control characters and of at most 65535
    bytes is written and read back; any other is refused, whatever the branch of
    the encoder (inline or heap). *)
Theorem string_roundtrip s rest :
  wf_string s →
  if forallb is_valid_utf8_code_point s && (len (as_bytes s) <=? 65535) then
    ∃ bs, encoded String_ s = Ok bs ∧ bs = u16_to_be_bytes (len (as_bytes s)) ++ as_bytes s
      ∧ String_decode (bs ++ rest) = Ok (s, length bs)
  else encoded String_ s = err_desc EK_ProtocolError.
Proof.
  intros Hs. rewrite String_encoded_eq.
  destruct (forallb _ s) eqn:Ev; cbn [negb andb]; [|done].
  destruct (Z.leb_spec (len (as_bytes s)) 65535), (Z.ltb_spec 65535 (len (as_bytes s))); try lia; [|done].
  exists (prefixed (as_bytes s)). split; [done|]. split; [done|]. by apply String_decode_prefixed.
Qed.

Lemma string_roundtrip_witness :
  ∃ bs, encoded String_ [233] = Ok bs ∧ bs = u16_to_be_bytes (len (as_bytes [233])) ++ as_bytes [233]
      ∧ String_decode (bs ++ [1]) = Ok ([233], length bs).
Proof.
  apply (string_roundtrip [233] [1]). apply (bool_decide_unpack _); by vm_compute.
Defined.
