(* ===== verification/V5Header.v ===== *)
(** * Packet types, quality of service and the fixed header (src/src/v5/mod.rs)

    The enumerations of the protocol with their numeric values, the fixed
    header with its constructors and validation, the [dec_field!] macro, and
    the two functions that put a length in front of encoded data. *)
From S2P Require Import Prelude Errors Utf8 Util Types.
Local Open Scope Z_scope.

(** ** PacketType *)

Inductive PacketType : Set :=
| PT_Connect | PT_ConnAck | PT_Publish | PT_PubAck | PT_PubRec | PT_PubRel
| PT_PubComp | PT_Subscribe | PT_SubAck | PT_UnSubscribe | PT_UnsubAck
| PT_PingReq | PT_PingResp | PT_Disconnect | PT_Auth.

#[global] Instance PacketType_eq_dec : EqDecision PacketType.
Proof. solve_decision. Defined.

Definition PacketType_try_from (val : Z) : Result PacketType :=
  match val with
  | 1 => Ok PT_Connect
  | 2 => Ok PT_ConnAck
  | 3 => Ok PT_Publish
  | 4 => Ok PT_PubAck
  | 5 => Ok PT_PubRec
  | 6 => Ok PT_PubRel
  | 7 => Ok PT_PubComp
  | 8 => Ok PT_Subscribe
  | 9 => Ok PT_SubAck
  | 10 => Ok PT_UnSubscribe
  | 11 => Ok PT_UnsubAck
  | 12 => Ok PT_PingReq
  | 13 => Ok PT_PingResp
  | 14 => Ok PT_Disconnect
  | 15 => Ok PT_Auth
  | _ => err EK_MalformedPacket RC_MalformedPacket
  end.

Definition PacketType_into_u8 (t : PacketType) : Z :=
  match t with
  | PT_Connect => 1 | PT_ConnAck => 2 | PT_Publish => 3 | PT_PubAck => 4
  | PT_PubRec => 5 | PT_PubRel => 6 | PT_PubComp => 7 | PT_Subscribe => 8
  | PT_SubAck => 9 | PT_UnSubscribe => 10 | PT_UnsubAck => 11 | PT_PingReq => 12
  | PT_PingResp => 13 | PT_Disconnect => 14 | PT_Auth => 15
  end.

(** ** QoS *)

Inductive QoS : Set := QoS_AtMostOnce | QoS_AtLeastOnce | QoS_ExactlyOnce.

#[global] Instance QoS_eq_dec : EqDecision QoS.
Proof. solve_decision. Defined.

Definition QoS_try_from (val : Z) : Result QoS :=
  match val with
  | 0 => Ok QoS_AtMostOnce
  | 1 => Ok QoS_AtLeastOnce
  | 2 => Ok QoS_ExactlyOnce
  | _ => err EK_MalformedPacket RC_MalformedPacket
  end.

Definition QoS_into_u8 (q : QoS) : Z :=
  match q with QoS_AtMostOnce => 0 | QoS_AtLeastOnce => 1 | QoS_ExactlyOnce => 2 end.

(** ** PayloadFormat *)

Inductive PayloadFormat : Set := PF_Binary | PF_Utf8.

#[global] Instance PayloadFormat_eq_dec : EqDecision PayloadFormat.
Proof. solve_decision. Defined.

Definition PayloadFormat_try_from (val : Z) : Result PayloadFormat :=
  match val with
  | 0 => Ok PF_Binary
  | 1 => Ok PF_Utf8
  | _ => err EK_MalformedPacket RC_MalformedPacket
  end.

Definition PayloadFormat_into_u8 (p : PayloadFormat) : Z :=
  match p with PF_Binary => 0 | PF_Utf8 => 1 end.

Definition PayloadFormat_is_utf8 (p : PayloadFormat) : bool := bool_decide (p = PF_Utf8).

(** ** Decoding a field at an offset: the [dec_field!] macro *)

Definition dec_field {A} (c : Packetize A) (stream : bytes) (n : nat) : Result (A * nat) :=
  s ← advance stream n;
  '(val, m) ← decode c s;
  Ok (val, (n + m)%nat).

(** The form with a predicate: [dec_field!(T, stream, n; pred)]. *)
Definition dec_field_if {A} (c : Packetize A) (stream : bytes) (n : nat) (pred : bool)
    : Result (option A * nat) :=
  if pred then
    s ← advance stream n;
    '(val, m) ← decode c s;
    Ok (Some val, (n + m)%nat)
  else Ok (None, n).

(** ** FixedHeader *)

Record FixedHeader := MkFixedHeader { byte1 : Z; remaining_len : Z }.

#[global] Instance FixedHeader_eq_dec : EqDecision FixedHeader.
Proof. solve_decision. Defined.

Definition HDR_RETAIN : Z := 1.
Definition HDR_QOS : Z := 6.
Definition HDR_DUP : Z := 8.
Definition HDR_PKT_TYPE : Z := 240.

(** The [fixed_byte!] macro. *)
Definition fixed_byte (pkt_type : Z) (retain : bool) (qos : QoS) (dup : bool) : Z :=
  let retain := if retain then 1 else 0 in
  let qos := Z.shiftl (QoS_into_u8 qos) 1 in
  let dup := if dup then 8 else 0 in
  let pkt_type := Z.land (Z.shiftl pkt_type 4) 0xFF in
  Z.lor (Z.lor (Z.lor pkt_type retain) qos) dup.

Definition FixedHeader_new (pkt_type : PacketType) (rem : Z) : Result FixedHeader :=
  if VarU32_MAX <? rem then err_desc EK_ProtocolError
  else Ok (MkFixedHeader (Z.land (Z.shiftl (PacketType_into_u8 pkt_type) 4) 0xFF) rem).

Definition FixedHeader_new_publish (retain : bool) (qos : QoS) (dup : bool) (rem : Z)
    : Result FixedHeader :=
  if VarU32_MAX <? rem then err_desc EK_ProtocolError
  else Ok (MkFixedHeader (fixed_byte (PacketType_into_u8 PT_Publish) retain qos dup) rem).

Definition FixedHeader_new_pubrel (rem : Z) : Result FixedHeader :=
  if VarU32_MAX <? rem then err_desc EK_ProtocolError
  else Ok (MkFixedHeader
    (fixed_byte (PacketType_into_u8 PT_PubRel) false QoS_AtLeastOnce false) rem).

Definition FixedHeader_new_subscribe (rem : Z) : Result FixedHeader :=
  if VarU32_MAX <? rem then err_desc EK_ProtocolError
  else Ok (MkFixedHeader
    (fixed_byte (PacketType_into_u8 PT_Subscribe) false QoS_AtLeastOnce false) rem).

Definition FixedHeader_new_unsubscribe (rem : Z) : Result FixedHeader :=
  if VarU32_MAX <? rem then err_desc EK_ProtocolError
  else Ok (MkFixedHeader
    (fixed_byte (PacketType_into_u8 PT_UnSubscribe) false QoS_AtLeastOnce false) rem).

(** [FixedHeader::unwrap]: panics on a reserved packet type or QoS. *)
Definition FixedHeader_unwrap (fh : FixedHeader) : Result (PacketType * bool * QoS * bool) :=
  pkt_type ← res_unwrap (PacketType_try_from (Z.shiftr (byte1 fh) 4));
  let retain := 0 <? Z.land (byte1 fh) HDR_RETAIN in
  qos ← res_unwrap (QoS_try_from (Z.shiftr (Z.land (byte1 fh) HDR_QOS) 1));
  let dup := 0 <? Z.land (byte1 fh) HDR_DUP in
  Ok (pkt_type, retain, qos, dup).

(** [FixedHeader::len] *)
Definition FixedHeader_len (fh : FixedHeader) : Result Z :=
  let n := remaining_len fh in
  val ← (if n <? 128 then Ok 1
         else if n <? 16384 then Ok 2
         else if n <? 2097152 then Ok 3
         else if n <? VarU32_MAX then Ok 4
         else err EK_MalformedPacket RC_MalformedPacket);
  Ok (1 + val).

(** [FixedHeader::validate].  The guarded arms come first; a packet whose guard
    fails falls through to the last two arms. *)
Definition FixedHeader_validate (fh : FixedHeader) : Result () :=
  _ ← QoS_try_from (Z.shiftr (Z.land (byte1 fh) HDR_QOS) 1);
  _ ← PacketType_try_from (Z.shiftr (Z.land (byte1 fh) HDR_PKT_TYPE) 4);
  '(pkt_type, retain, qos, dup) ← FixedHeader_unwrap fh;
  let at_most := bool_decide (qos = QoS_AtMostOnce) && negb retain && negb dup in
  let at_least := bool_decide (qos = QoS_AtLeastOnce) && negb retain && negb dup in
  let rest : Result () :=
    if retain || dup || negb (bool_decide (qos = QoS_AtMostOnce))
    then err EK_MalformedPacket RC_MalformedPacket else Ok () in
  match pkt_type with
  | PT_Publish => Ok ()
  | PT_PubRel | PT_Subscribe | PT_UnSubscribe => if at_least then Ok () else rest
  | PT_PingReq | PT_PingResp => rest
  | _ => if at_most then Ok () else rest
  end.

Definition FixedHeader_decode (stream : bytes) : Result (FixedHeader * nat) :=
  '(b1, n) ← dec_field u8 stream 0;
  '(rem, n) ← dec_field VarU32 stream n;
  let fh := MkFixedHeader b1 rem in
  _ ← FixedHeader_validate fh;
  Ok (fh, n).

Definition FixedHeader_encode (fh : FixedHeader) : Result Blob :=
  _ ← FixedHeader_validate fh;
  b1 ← encoded u8 (byte1 fh);
  rem ← encoded VarU32 (remaining_len fh);
  let m := length b1 in
  let n := length rem in
  d ← copy_into zeros32 0 m b1;
  d ← copy_into d m (m + n) rem;
  Ok (Blob_Small d (m + n)).

Definition FixedHeader_ : Packetize FixedHeader :=
  MkPacketize FixedHeader_decode FixedHeader_encode.

(** ** Prefixing encoded data *)

(** [data.copy_within(..a, dest)] *)
Definition copy_within (data : bytes) (a dest : nat) : Result bytes :=
  if ((a <=? length data) && (dest + a <=? length data))%nat
  then Ok (take dest data ++ take a data ++ drop (dest + a) data) else Panic.

Definition insert_fixed_header (fh : FixedHeader) (data : bytes) : Result bytes :=
  let a := length data in
  fh_bytes ← encoded FixedHeader_ fh;
  let n := length fh_bytes in
  let data := data ++ fh_bytes in
  data ← copy_within data a n;
  copy_into data 0 n fh_bytes.

Definition insert_property_len (n : nat) (data : bytes) : Result bytes :=
  let a := length data in
  n ← u32_try_from n;
  bs ← encoded VarU32 n;
  let m := length bs in
  let data := data ++ bs in
  data ← copy_within data a m;
  copy_into data 0 m bs.

(** The tail that every packet encoder shares: build the fixed header for the
    length of [data] and put it in front.
    [let fh = FixedHeader::new..(VarU32(data.len().try_into()?))?;
     data = insert_fixed_header(fh, data)?; Ok(Blob::Large { data })] *)
Definition finish_packet (new : Z → Result FixedHeader) (data : bytes) : Result Blob :=
  n ← u32_try_from (length data);
  fh ← new n;
  data ← insert_fixed_header fh data;
  Ok (Blob_Large data).

(** ** Lemmas *)

Lemma PacketType_try_from_into t : PacketType_try_from (PacketType_into_u8 t) = Ok t.
Proof. by destruct t. Qed.

Lemma QoS_try_from_into q : QoS_try_from (QoS_into_u8 q) = Ok q.
Proof. by destruct q. Qed.

Lemma PayloadFormat_try_from_into p : PayloadFormat_try_from (PayloadFormat_into_u8 p) = Ok p.
Proof. by destruct p. Qed.

Lemma PacketType_try_from_post z :
  post (PacketType_try_from z) (λ t, PacketType_into_u8 t = z) dec_error.
Proof. unfold PacketType_try_from. enum_post. Qed.

Lemma QoS_try_from_post z : post (QoS_try_from z) (λ q, QoS_into_u8 q = z) dec_error.
Proof. unfold QoS_try_from. enum_post. Qed.

Lemma PayloadFormat_try_from_post z :
  post (PayloadFormat_try_from z) (λ p, PayloadFormat_into_u8 p = z) dec_error.
Proof. unfold PayloadFormat_try_from. enum_post. Qed.

Lemma dec_field_post_strong {A} (c : Packetize A) (Q : A → nat → Prop) s n :
  is_bytes s →
  (∀ s', is_bytes s' →
    post (decode c s') (λ r, (0 < r.2 ≤ length s')%nat ∧ Q r.1 r.2) dec_error) →
  post (dec_field c s n)
    (λ r, ∃ m, r.2 = (n + m)%nat ∧ (n < r.2 ≤ length s)%nat ∧ Q r.1 m) dec_error.
Proof.
  intros Hs Hc. unfold dec_field. eapply post_bind; [apply advance_post|].
  intros s' _ [? ->]. eapply post_bind; [apply Hc; auto with wf|].
  intros [v m] _ [Hm ?]; simpl in *. rewrite length_drop in Hm.
  exists m. split; [done|]. split; [lia|done].
Qed.

Section field_lemmas.
Context {A} (c : Packetize A) (wf : A → Prop) `{!Lawful c wf}.

Lemma dec_field_post s n :
  is_bytes s →
  post (dec_field c s n) (λ r, (n < r.2 ≤ length s)%nat ∧ wf r.1) dec_error.
Proof.
  intros Hs. unfold dec_field. eapply post_bind; [apply advance_post|].
  intros s' _ [? ->]. eapply post_bind; [by apply law_decode; auto with wf|].
  intros [v m] _ [Hm ?]; simpl in *. rewrite length_drop in Hm. split; [lia|done].
Qed.

Lemma dec_field_at s n v bs r :
  wf v → encoded c v = Ok bs → at_ s n (bs ++ r) →
  dec_field c s n = Ok (v, (n + length bs)%nat).
Proof.
  intros Hv He Hat. unfold dec_field. rewrite (at_advance _ _ _ Hat); run.
  by rewrite (law_roundtrip _ _ _ Hv He).
Qed.

Lemma dec_field_if_post s n p :
  is_bytes s → (n ≤ length s)%nat →
  post (dec_field_if c s n p)
    (λ r, (n ≤ r.2 ≤ length s)%nat ∧ (if p then ∃ v, r.1 = Some v ∧ wf v else r.1 = None))
    dec_error.
Proof.
  intros Hs Hn. unfold dec_field_if. destruct p; [|simpl; split; [lia|done]].
  eapply post_bind; [apply advance_post|].
  intros s' _ [? ->]. eapply post_bind; [by apply law_decode; auto with wf|].
  intros [v m] _ [Hm ?]; simpl in *. rewrite length_drop in Hm. split; [lia|eauto].
Qed.

(** An optional field that is written exactly when the predicate holds. *)
Lemma dec_field_if_at s n (o : option A) bs r :
  option_Forall wf o → from_option (encoded c) (Ok []) o = Ok bs → at_ s n (bs ++ r) →
  dec_field_if c s n (bool_decide (is_Some o)) = Ok (o, (n + length bs)%nat).
Proof.
  intros Hv He Hat. unfold dec_field_if. destruct o as [v|]; simpl in *.
  - rewrite (at_advance _ _ _ Hat); run. inversion Hv; subst.
    by rewrite (law_roundtrip v bs _) by done.
  - simplify_eq. simpl. by rewrite Nat.add_0_r.
Qed.
End field_lemmas.

(** [validate] looks at the first byte only. *)
Lemma FixedHeader_validate_byte1 b r :
  FixedHeader_validate (MkFixedHeader b r) = FixedHeader_validate (MkFixedHeader b 0).
Proof. done. Qed.

(** On every byte, [validate] returns or reports a decoder error: the [unwrap]
    it calls never panics, because the two conversions before it succeeded. *)
Lemma FixedHeader_validate_post fh :
  is_u8 (byte1 fh) →
  post (FixedHeader_validate fh) (λ _, is_Ok (FixedHeader_unwrap fh))
    (λ e, dec_error e ∧ enc_error e).
Proof.
  destruct fh as [b r]; cbn [byte1]. rewrite FixedHeader_validate_byte1.
  change (FixedHeader_unwrap (MkFixedHeader b r)) with (FixedHeader_unwrap (MkFixedHeader b 0)).
  revert b. apply (forall_u8 _ (λ b,
    match FixedHeader_validate (MkFixedHeader b 0) with
    | Ok _ => match FixedHeader_unwrap (MkFixedHeader b 0) with Ok _ => true | _ => false end
    | Err e => bool_decide (dec_error e ∧ enc_error e)
    | _ => false
    end)); [|by vm_compute].
  intros z. destruct (FixedHeader_validate _) as [[]|e| |]; simpl; try done.
  - destruct (FixedHeader_unwrap _) as [u| | |]; try done. by exists u.
  - by intros ?%bool_decide_eq_true_1.
Qed.

Lemma FixedHeader_encoded fh bs :
  is_u32 (remaining_len fh) → encoded FixedHeader_ fh = Ok bs →
  FixedHeader_validate fh = Ok () ∧ 0 ≤ remaining_len fh ≤ VarU32_MAX
  ∧ bs = byte1 fh :: varint_bytes (remaining_len fh).
Proof.
  intros Hr. unfold encoded at 1; cbn [encode FixedHeader_]. unfold FixedHeader_encode.
  destruct (FixedHeader_validate fh) as [[]|e| |]; run; try done.
  rewrite u8_encoded; run.
  destruct (encoded VarU32 (remaining_len fh)) as [rem|e| |] eqn:E; run; try done.
  apply VarU32_encoded_inv in E as [? ->]; [|done].
  pose proof (varint_bytes_len (remaining_len fh)).
  intros E. pose proof (small_blob2 [byte1 fh] (varint_bytes (remaining_len fh))
    1 (1 + length (varint_bytes (remaining_len fh)))) as Hb.
  cbn [length] in E, Hb. rewrite Hb in E by (done || lia). by simplify_eq.
Qed.

Lemma FixedHeader_encoded_Ok fh :
  FixedHeader_validate fh = Ok () → 0 ≤ remaining_len fh ≤ VarU32_MAX →
  encoded FixedHeader_ fh = Ok (byte1 fh :: varint_bytes (remaining_len fh)).
Proof.
  intros Hv Hr. unfold encoded at 1; cbn [encode FixedHeader_]. unfold FixedHeader_encode.
  rewrite Hv, u8_encoded, VarU32_encoded by done; run.
  pose proof (varint_bytes_len (remaining_len fh)).
  apply (small_blob2 [byte1 fh]); (done || cbn [length]; lia).
Qed.

Definition wf_fh (fh : FixedHeader) : Prop := is_u8 (byte1 fh) ∧ is_u32 (remaining_len fh).

(** A decoded header is valid, and it is two to five bytes long. *)
Lemma FixedHeader_decode_post s :
  is_bytes s →
  post (FixedHeader_decode s)
    (λ r, (2 ≤ r.2 ≤ 5)%nat ∧ (r.2 ≤ length s)%nat ∧ is_u8 (byte1 r.1)
          ∧ 0 ≤ remaining_len r.1 ≤ VarU32_MAX ∧ FixedHeader_validate r.1 = Ok ()) dec_error.
Proof.
  intros Hs. unfold FixedHeader_decode.
  eapply post_bind; [apply (dec_field_post_strong u8 (λ b m, m = 1%nat ∧ is_u8 b)); [done|]|].
  { intros s' Hs'. destruct s' as [|b s']; simpl; [dec_err|].
    apply Forall_cons in Hs' as [? _]. split; [lia|done]. }
  intros [b n] _ (m & ? & ? & -> & Hb); cbn [fst snd] in *; subst n.
  eapply post_bind;
    [apply (dec_field_post_strong VarU32 (λ z m, (m ≤ 4)%nat ∧ 0 ≤ z ≤ VarU32_MAX)); [done|]|].
  { intros s' Hs'. by apply VarU32_decode_post. }
  intros [z n] _ (m & ? & ? & ? & ?); cbn [fst snd] in *; subst n.
  pose proof (FixedHeader_validate_post (MkFixedHeader b z) Hb) as Hp.
  destruct (FixedHeader_validate (MkFixedHeader b z)) as [[]|e| |] eqn:E; try done; run.
  - apply post_Ok; cbn [fst snd byte1 remaining_len]. do 2 (split; [lia|]). done.
  - by destruct Hp.
Qed.

#[export] Instance FixedHeader_lawful : Lawful FixedHeader_ wf_fh.
Proof.
  split.
  - intros s Hs. eapply post_mono; [by apply FixedHeader_decode_post|].
    intros [fh n] _ (? & ? & ? & ? & _). unfold wf_fh, is_u32, VarU32_MAX in *; cbn [fst snd] in *.
    split; [lia|]. split; [done|]. lia.
  - intros fh [Hb Hr]. pose proof (FixedHeader_validate_post fh Hb) as Hp.
    destruct (FixedHeader_validate fh) as [[]|e| |] eqn:E; try done.
    + destruct (Z.leb_spec (remaining_len fh) VarU32_MAX).
      * destruct Hr. rewrite FixedHeader_encoded_Ok by (done || lia).
        constructor; [done|]. apply varint_bytes_bytes; lia.
      * unfold encoded at 1; cbn [encode FixedHeader_]. unfold FixedHeader_encode.
        rewrite E, u8_encoded, VarU32_encode_large by done; run.
        apply post_enc_desc; set_solver.
    + unfold encoded at 1; cbn [encode FixedHeader_]. unfold FixedHeader_encode.
      rewrite E. by destruct Hp.
  - intros fh bs rest [Hb Hr] (Hv & Hl & ->)%FixedHeader_encoded; [|done].
    cbn [decode FixedHeader_]. unfold FixedHeader_decode. destruct fh as [b r]; cbn [byte1 remaining_len] in *.
    rewrite (dec_field_at u8 is_u8 _ 0 b [b] (varint_bytes r ++ rest)); [|done|apply u8_encoded|apply at_start].
    run. rewrite (dec_field_at VarU32 is_u32 _ _ r (varint_bytes r) rest);
      [|done|by apply VarU32_encoded|].
    + run. rewrite Hv; run. done.
    + apply (at_skip _ 0 [b]), at_start.
Qed.

(** ** Prefixing *)

(** Appending the prefix, shifting and overwriting puts it in front. *)
Lemma shift_prefix (data pre : bytes) :
  (d ← copy_within (data ++ pre) (length data) (length pre); copy_into d 0 (length pre) pre)
  = Ok (pre ++ data).
Proof.
  unfold copy_within. rewrite length_app.
  destruct (Nat.leb_spec (length data) (length data + length pre)); [|lia].
  destruct (Nat.leb_spec (length pre + length data) (length data + length pre)); [|lia].
  cbn [andb]; run. rewrite (drop_ge (data ++ pre)) by (rewrite length_app; lia).
  rewrite app_nil_r, take_app_length.
  assert (length (take (length pre) (data ++ pre)) = length pre) as Hl
    by (rewrite length_take, length_app; lia).
  rewrite copy_into_Ok by (rewrite ?length_app, ?Hl; lia).
  rewrite take_0, app_nil_l, drop_app_length' by done. done.
Qed.

Lemma insert_fixed_header_eq fh data :
  insert_fixed_header fh data = (fb ← encoded FixedHeader_ fh; Ok (fb ++ data)).
Proof.
  unfold insert_fixed_header. destruct (encoded FixedHeader_ fh); run; [|done..].
  apply shift_prefix.
Qed.

Lemma u32_try_from_Ok n z : u32_try_from n = Ok z → z = Z.of_nat n ∧ is_u32 z.
Proof.
  unfold u32_try_from, is_u32.
  destruct (Z.ltb_spec (Z.of_nat n) 4294967296); [|done]. intros; simplify_eq. lia.
Qed.

Lemma u32_try_from_post n :
  post (u32_try_from n) (λ z, z = Z.of_nat n ∧ is_u32 z) enc_error.
Proof.
  destruct (u32_try_from n) eqn:E.
  - by apply u32_try_from_Ok in E.
  - unfold u32_try_from in E. case_match; [done|]. unfold err_try in E; simplify_eq.
    unfold enc_error; set_solver.
  - unfold u32_try_from in E; by case_match.
  - unfold u32_try_from in E; by case_match.
Qed.

Lemma insert_property_len_Ok data bs :
  insert_property_len (length data) data = Ok bs ↔
  len data ≤ VarU32_MAX ∧ bs = varint_bytes (len data) ++ data.
Proof.
  unfold insert_property_len. pose proof (len_nonneg data). split.
  - intros E. apply bind_Ok_inv in E as (z & Ez & E).
    apply u32_try_from_Ok in Ez as [-> Hz]. fold (len data) in *.
    apply bind_Ok_inv in E as (pre & Ep & E). apply VarU32_encoded_inv in Ep as [? ->]; [|done].
    rewrite shift_prefix in E. simplify_eq. split; [lia|done].
  - intros [? ->]. unfold u32_try_from. fold (len data).
    unfold VarU32_MAX in *. destruct (Z.ltb_spec (len data) 4294967296); [|lia]. run.
    rewrite VarU32_encoded by (unfold VarU32_MAX; lia). run. apply shift_prefix.
Qed.

Lemma insert_property_len_post data :
  is_bytes data → post (insert_property_len (length data) data) is_bytes enc_error.
Proof.
  intros Hd. unfold insert_property_len. eapply post_bind; [apply u32_try_from_post|].
  intros z _ [-> Hz]. eapply post_bind; [by apply (law_encode (c := VarU32))|].
  intros pre _ Hpre. rewrite shift_prefix. by apply Forall_app.
Qed.

(** ** Headers the encoders build *)

(** [new] builds a valid header with first byte [b] for every length in range. *)
Definition header_for (new : Z → Result FixedHeader) (b : Z) : Prop :=
  is_u8 b ∧ FixedHeader_validate (MkFixedHeader b 0) = Ok ()
  ∧ ∀ r, new r = if VarU32_MAX <? r then err_desc EK_ProtocolError else Ok (MkFixedHeader b r).

Lemma header_for_new t :
  t ∉ [PT_Publish; PT_PubRel; PT_Subscribe; PT_UnSubscribe] →
  header_for (FixedHeader_new t) (PacketType_into_u8 t * 16).
Proof.
  intros Ht. unfold header_for, is_u8.
  destruct t; try (exfalso; apply Ht; set_solver); by repeat split.
Qed.

Lemma header_for_publish retain qos dup :
  header_for (FixedHeader_new_publish retain qos dup) (fixed_byte 3 retain qos dup).
Proof. unfold header_for, is_u8. destruct retain, qos, dup; by repeat split. Qed.

Lemma header_for_pubrel : header_for FixedHeader_new_pubrel 98.
Proof. by repeat split. Qed.

Lemma header_for_subscribe : header_for FixedHeader_new_subscribe 130.
Proof. by repeat split. Qed.

Lemma header_for_unsubscribe : header_for FixedHeader_new_unsubscribe 162.
Proof. by repeat split. Qed.

(** A complete packet: first byte, remaining length, body. *)
Definition framed (b : Z) (data : bytes) : bytes := b :: varint_bytes (len data) ++ data.

Lemma finish_packet_Ok new b data blob bs :
  header_for new b → finish_packet new data = Ok blob → Blob_as_ref blob = Ok bs →
  len data ≤ VarU32_MAX ∧ bs = framed b data.
Proof.
  intros (Hb & Hv & Hn) E Hbs. unfold finish_packet in E.
  apply bind_Ok_inv in E as (z & Ez & E). apply u32_try_from_Ok in Ez as [-> Hz].
  fold (len data) in *. rewrite Hn in E.
  destruct (Z.ltb_spec VarU32_MAX (len data)); [done|]. cbn [mbind outcome_bind] in E.
  rewrite insert_fixed_header_eq, FixedHeader_encoded_Ok in E;
    [|by rewrite FixedHeader_validate_byte1|cbn [remaining_len]; split; [apply len_nonneg|done]].
  cbn in E. simplify_eq. cbn in Hbs. by simplify_eq.
Qed.

Lemma finish_packet_post new b data :
  header_for new b → is_bytes data →
  post (blob ← finish_packet new data; Blob_as_ref blob) is_bytes enc_error.
Proof.
  intros (Hb & Hv & Hn) Hd. unfold finish_packet.
  pose proof (u32_try_from_post (length data)) as Hp.
  destruct (u32_try_from (length data)) as [z|e| |]; try done. destruct Hp as [-> Hz]; run.
  fold (len data) in *. rewrite Hn.
  destruct (Z.ltb_spec VarU32_MAX (len data)); [apply post_enc_desc; set_solver|]; run.
  pose proof (len_nonneg data).
  rewrite insert_fixed_header_eq, FixedHeader_encoded_Ok;
    [|by rewrite FixedHeader_validate_byte1|done]. run. simpl.
  constructor; [done|]. apply Forall_app. split; [|done]. by apply varint_bytes_bytes.
Qed.

(** Decoding the header of a complete packet leaves the cursor at its body. *)
Lemma dec_header_framed new b data rest :
  header_for new b → len data ≤ VarU32_MAX →
  dec_field FixedHeader_ (framed b data ++ rest) 0
    = Ok (MkFixedHeader b (len data), S (length (varint_bytes (len data))))
  ∧ at_ (framed b data ++ rest) (S (length (varint_bytes (len data)))) (data ++ rest)
  ∧ FixedHeader_validate (MkFixedHeader b (len data)) = Ok ().
Proof.
  intros (Hb & Hv & Hn) Hl. pose proof (len_nonneg data).
  assert (at_ (framed b data ++ rest) 0
    ((b :: varint_bytes (len data)) ++ data ++ rest)) as Hat.
  { unfold framed. split; [lia|]. rewrite drop_0. simpl. by rewrite app_assoc. }
  split; [|split; [|done]].
  - apply (dec_field_at FixedHeader_ wf_fh _ 0 _ (b :: varint_bytes (len data)) (data ++ rest));
      [|by apply FixedHeader_encoded_Ok|done].
    split; [done|]. cbn [remaining_len]. unfold is_u32, VarU32_MAX in *. lia.
  - apply (at_skip _ 0 (b :: varint_bytes (len data)) _ Hat).
Qed.

Lemma length_framed b data :
  length (framed b data) = (S (length (varint_bytes (len data))) + length data)%nat.
Proof. unfold framed. cbn [length]. rewrite length_app. lia. Qed.

(** ** Theorems *)

(** Putting the header or the property length in front of the data, by
    appending it, moving the data up in place and copying it to the front, is
    concatenation; no slice operation is out of range. *)
Theorem insert_in_front fh data :
  insert_fixed_header fh data = (fb ← encoded FixedHeader_ fh; Ok (fb ++ data))
  ∧ insert_property_len (length data) data
    = (n ← u32_try_from (length data); bs ← encoded VarU32 n; Ok (bs ++ data)).
Proof.
  split; [apply insert_fixed_header_eq|]. unfold insert_property_len.
  destruct (u32_try_from (length data)) as [n| | |]; run; [|done..].
  destruct (encoded VarU32 n); run; [|done..]. apply shift_prefix.
Qed.

(** The flags [validate] accepts for a packet type, as the low four bits. *)
Definition flags_allowed (t : PacketType) (flags : Z) : Prop :=
  match t with
  | PT_Publish => Z.land (Z.shiftr flags 1) 3 ≠ 3
  | PT_PubRel | PT_Subscribe | PT_UnSubscribe => flags = 0 ∨ flags = 2
  | _ => flags = 0
  end.

#[global] Instance flags_allowed_dec t flags : Decision (flags_allowed t flags).
Proof. destruct t; cbn; apply _. Defined.

Definition accepted (m : Result ()) : bool := if m is Ok _ then true else false.

Lemma accepted_Ok m : accepted m = true ↔ m = Ok ().
Proof. by destruct m as [[]| | |]. Qed.

(** Which first bytes are accepted: every packet type with zero flags, PUBLISH
    with any flags but QoS 3, and PUBREL, SUBSCRIBE and UNSUBSCRIBE with the flags
    0010 that MQTT requires but also with 0000; type 0 is refused.  An accepted
    header can be unwrapped. *)
Theorem fixed_header_valid b rem :
  is_u8 b →
  (FixedHeader_validate (MkFixedHeader b rem) = Ok () ↔
   ∃ t, Z.shiftr b 4 = PacketType_into_u8 t ∧ flags_allowed t (Z.land b 15))
  ∧ (FixedHeader_validate (MkFixedHeader b rem) = Ok () →
     is_Ok (FixedHeader_unwrap (MkFixedHeader b rem))).
Proof.
  intros Hb. split.
  - revert b Hb. apply (forall_u8 (λ b, FixedHeader_validate (MkFixedHeader b rem) = Ok () ↔
      ∃ t, Z.shiftr b 4 = PacketType_into_u8 t ∧ flags_allowed t (Z.land b 15)) (λ b,
      match PacketType_try_from (Z.shiftr b 4) with
      | Ok t => eqb (accepted (FixedHeader_validate (MkFixedHeader b 0)))
                  (bool_decide (flags_allowed t (Z.land b 15)))
      | _ => negb (accepted (FixedHeader_validate (MkFixedHeader b 0)))
      end)); [|by vm_compute].
    intros b H. rewrite FixedHeader_validate_byte1.
    pose proof (PacketType_try_from_post (Z.shiftr b 4)) as Ht.
    destruct (PacketType_try_from (Z.shiftr b 4)) as [t| | |] eqn:Et; cbn in Ht; try done.
    + apply eqb_prop in H. rewrite <-accepted_Ok, H, bool_decide_eq_true. split.
      * intros ?. by exists t.
      * intros (t' & Ht' & Hf). rewrite <-Ht in Ht'.
        assert (t = t') as ->; [|done].
        apply (f_equal PacketType_try_from) in Ht'. rewrite !PacketType_try_from_into in Ht'.
        by simplify_eq.
    + rewrite <-accepted_Ok. destruct (accepted _); [done|]. split; [done|].
      intros (t' & Ht' & _). by rewrite Ht', PacketType_try_from_into in Et.
  - intros E. pose proof (FixedHeader_validate_post (MkFixedHeader b rem) Hb) as Hp.
    by rewrite E in Hp.
Qed.

Lemma fixed_header_valid_witness :
  (FixedHeader_validate (MkFixedHeader 96 0) = Ok () ↔
   ∃ t, Z.shiftr 96 4 = PacketType_into_u8 t ∧ flags_allowed t (Z.land 96 15))
  ∧ (FixedHeader_validate (MkFixedHeader 96 0) = Ok () →
     is_Ok (FixedHeader_unwrap (MkFixedHeader 96 0))).
Proof. by apply (fixed_header_valid 96 0). Defined.

(** [len] is the length of the encoding, except for the largest packet: it
    refuses the remaining length [VarU32::MAX] that [encode] writes. *)
Theorem fixed_header_len fh bs :
  is_u32 (remaining_len fh) → encoded FixedHeader_ fh = Ok bs →
  FixedHeader_len fh = (if remaining_len fh =? VarU32_MAX
                        then err EK_MalformedPacket RC_MalformedPacket else Ok (len bs)).
Proof.
  intros Hr (_ & Hb & ->)%FixedHeader_encoded; [|done]. revert Hb.
  unfold FixedHeader_len, varint_bytes, VarU32_MAX.
  generalize (remaining_len fh). intros r Hb.
  destruct (Z.eqb_spec r 268435455) as [->|]; [done|].
  destruct (Z.ltb_spec r 128); [done|]. destruct (Z.ltb_spec r 16384); [done|].
  destruct (Z.ltb_spec r 2097152); [done|]. by destruct (Z.ltb_spec r 268435455); [|lia].
Qed.

Lemma fixed_header_len_witness :
  FixedHeader_len (MkFixedHeader 48 VarU32_MAX) = err EK_MalformedPacket RC_MalformedPacket.
Proof.
  apply (fixed_header_len (MkFixedHeader 48 VarU32_MAX) [48; 255; 255; 255; 127]); [done|].
  by vm_compute.
Defined.
