(* ===== verification/V5Property.v ===== *)
(** * Properties (src/src/v5/mod.rs)

    The property types and values of MQTT v5, their codec, and what the ten
    property lists of the protocol share: the decoding loop with its check for
    repeated properties, the encoding of a list behind its length, and the
    [dec_props!] macro that reads an optional list inside a packet.  The
    section at the end proves, once for all of them, that such a list is a
    lawful codec. *)
From S2P Require Import Prelude Errors Utf8 Util Types V5Header.
Local Open Scope Z_scope.

Inductive PropertyType : Set :=
| PropT_PayloadFormatIndicator
| PropT_MessageExpiryInterval
| PropT_ContentType
| PropT_ResponseTopic
| PropT_CorrelationData
| PropT_SubscriptionIdentifier
| PropT_SessionExpiryInterval
| PropT_AssignedClientIdentifier
| PropT_ServerKeepAlive
| PropT_AuthenticationMethod
| PropT_AuthenticationData
| PropT_RequestProblemInformation
| PropT_WillDelayInterval
| PropT_RequestResponseInformation
| PropT_ResponseInformation
| PropT_ServerReference
| PropT_ReasonString
| PropT_ReceiveMaximum
| PropT_TopicAliasMaximum
| PropT_TopicAlias
| PropT_MaximumQoS
| PropT_RetainAvailable
| PropT_UserProp
| PropT_MaximumPacketSize
| PropT_WildcardSubscriptionAvailable
| PropT_SubscriptionIdentifierAvailable
| PropT_SharedSubscriptionAvailable.

#[global] Instance PropertyType_eq_dec : EqDecision PropertyType.
Proof. solve_decision. Defined.

(** [PropertyType as u32] *)
Definition PropertyType_as_u32 (t : PropertyType) : Z :=
  match t with
  | PropT_PayloadFormatIndicator => 1
  | PropT_MessageExpiryInterval => 2
  | PropT_ContentType => 3
  | PropT_ResponseTopic => 8
  | PropT_CorrelationData => 9
  | PropT_SubscriptionIdentifier => 11
  | PropT_SessionExpiryInterval => 17
  | PropT_AssignedClientIdentifier => 18
  | PropT_ServerKeepAlive => 19
  | PropT_AuthenticationMethod => 21
  | PropT_AuthenticationData => 22
  | PropT_RequestProblemInformation => 23
  | PropT_WillDelayInterval => 24
  | PropT_RequestResponseInformation => 25
  | PropT_ResponseInformation => 26
  | PropT_ServerReference => 28
  | PropT_ReasonString => 31
  | PropT_ReceiveMaximum => 33
  | PropT_TopicAliasMaximum => 34
  | PropT_TopicAlias => 35
  | PropT_MaximumQoS => 36
  | PropT_RetainAvailable => 37
  | PropT_UserProp => 38
  | PropT_MaximumPacketSize => 39
  | PropT_WildcardSubscriptionAvailable => 40
  | PropT_SubscriptionIdentifierAvailable => 41
  | PropT_SharedSubscriptionAvailable => 42
  end.

Definition PropertyType_try_from (val : Z) : Result PropertyType :=
  match val with
  | 1 => Ok PropT_PayloadFormatIndicator
  | 2 => Ok PropT_MessageExpiryInterval
  | 3 => Ok PropT_ContentType
  | 8 => Ok PropT_ResponseTopic
  | 9 => Ok PropT_CorrelationData
  | 11 => Ok PropT_SubscriptionIdentifier
  | 17 => Ok PropT_SessionExpiryInterval
  | 18 => Ok PropT_AssignedClientIdentifier
  | 19 => Ok PropT_ServerKeepAlive
  | 21 => Ok PropT_AuthenticationMethod
  | 22 => Ok PropT_AuthenticationData
  | 23 => Ok PropT_RequestProblemInformation
  | 24 => Ok PropT_WillDelayInterval
  | 25 => Ok PropT_RequestResponseInformation
  | 26 => Ok PropT_ResponseInformation
  | 28 => Ok PropT_ServerReference
  | 31 => Ok PropT_ReasonString
  | 33 => Ok PropT_ReceiveMaximum
  | 34 => Ok PropT_TopicAliasMaximum
  | 35 => Ok PropT_TopicAlias
  | 36 => Ok PropT_MaximumQoS
  | 37 => Ok PropT_RetainAvailable
  | 38 => Ok PropT_UserProp
  | 39 => Ok PropT_MaximumPacketSize
  | 40 => Ok PropT_WildcardSubscriptionAvailable
  | 41 => Ok PropT_SubscriptionIdentifierAvailable
  | 42 => Ok PropT_SharedSubscriptionAvailable
  | _ => err EK_MalformedPacket RC_MalformedPacket
  end.

Inductive Property : Type :=
| P_PayloadFormatIndicator (val : Z)
| P_MessageExpiryInterval (val : Z)
| P_ContentType (val : rstring)
| P_ResponseTopic (val : rstring)
| P_CorrelationData (val : bytes)
| P_SubscriptionIdentifier (val : Z)
| P_SessionExpiryInterval (val : Z)
| P_AssignedClientIdentifier (val : rstring)
| P_ServerKeepAlive (val : Z)
| P_AuthenticationMethod (val : rstring)
| P_AuthenticationData (val : bytes)
| P_RequestProblemInformation (val : Z)
| P_WillDelayInterval (val : Z)
| P_RequestResponseInformation (val : Z)
| P_ResponseInformation (val : rstring)
| P_ServerReference (val : rstring)
| P_ReasonString (val : rstring)
| P_ReceiveMaximum (val : Z)
| P_TopicAliasMaximum (val : Z)
| P_TopicAlias (val : Z)
| P_MaximumQoS (val : QoS)
| P_RetainAvailable (val : Z)
| P_UserProp (val : UserProperty_t)
| P_MaximumPacketSize (val : Z)
| P_WildcardSubscriptionAvailable (val : Z)
| P_SubscriptionIdentifierAvailable (val : Z)
| P_SharedSubscriptionAvailable (val : Z).

Definition to_property_type (p : Property) : PropertyType :=
  match p with
  | P_PayloadFormatIndicator _ => PropT_PayloadFormatIndicator
  | P_MessageExpiryInterval _ => PropT_MessageExpiryInterval
  | P_ContentType _ => PropT_ContentType
  | P_ResponseTopic _ => PropT_ResponseTopic
  | P_CorrelationData _ => PropT_CorrelationData
  | P_SubscriptionIdentifier _ => PropT_SubscriptionIdentifier
  | P_SessionExpiryInterval _ => PropT_SessionExpiryInterval
  | P_AssignedClientIdentifier _ => PropT_AssignedClientIdentifier
  | P_ServerKeepAlive _ => PropT_ServerKeepAlive
  | P_AuthenticationMethod _ => PropT_AuthenticationMethod
  | P_AuthenticationData _ => PropT_AuthenticationData
  | P_RequestProblemInformation _ => PropT_RequestProblemInformation
  | P_WillDelayInterval _ => PropT_WillDelayInterval
  | P_RequestResponseInformation _ => PropT_RequestResponseInformation
  | P_ResponseInformation _ => PropT_ResponseInformation
  | P_ServerReference _ => PropT_ServerReference
  | P_ReasonString _ => PropT_ReasonString
  | P_ReceiveMaximum _ => PropT_ReceiveMaximum
  | P_TopicAliasMaximum _ => PropT_TopicAliasMaximum
  | P_TopicAlias _ => PropT_TopicAlias
  | P_MaximumQoS _ => PropT_MaximumQoS
  | P_RetainAvailable _ => PropT_RetainAvailable
  | P_UserProp _ => PropT_UserProp
  | P_MaximumPacketSize _ => PropT_MaximumPacketSize
  | P_WildcardSubscriptionAvailable _ => PropT_WildcardSubscriptionAvailable
  | P_SubscriptionIdentifierAvailable _ => PropT_SubscriptionIdentifierAvailable
  | P_SharedSubscriptionAvailable _ => PropT_SharedSubscriptionAvailable
  end.

(** The [dec_prop!] macro. *)
Definition dec_prop {A} (C : A → Property) (c : Packetize A) (stream : bytes)
    : Result (Property * nat) :=
  '(val, n) ← decode c stream;
  Ok (C val, n).

(** The [enc_prop!] macro: the property identifier, then the value. *)
Definition enc_prop {A} (pt : PropertyType) (c : Packetize A) (val : A) (data : bytes)
    : Result bytes :=
  data ← emit VarU32 (PropertyType_as_u32 pt) data;
  emit c val data.

(** [enc_prop!(opt: ..)] *)
Definition enc_prop_opt {A} (pt : PropertyType) (c : Packetize A) (o : option A) (data : bytes)
    : Result bytes :=
  match o with Some val => enc_prop pt c val data | None => Ok data end.

(** [for val in vals.iter() { enc_prop!(data, pt, val) }] *)
Definition enc_prop_all {A} (pt : PropertyType) (c : Packetize A) (vals : list A) (data : bytes)
    : Result bytes :=
  foldM (λ data val, enc_prop pt c val data) data vals.

(** [let val: u8 = if val { 1 } else { 0 }] *)
Definition bool_as_u8 (b : bool) : Z := if b then 1 else 0.

(** [if payload_format_indicator.is_utf8() { enc_prop!(PayloadFormatIndicator, Utf8) }] *)
Definition enc_payload_format (pf : PayloadFormat) (data : bytes) : Result bytes :=
  if PayloadFormat_is_utf8 pf
  then enc_prop PropT_PayloadFormatIndicator u8 (PayloadFormat_into_u8 PF_Utf8) data
  else Ok data.

(** The arms of the match in [Property::decode]. *)
Definition Property_decode_value (pt : PropertyType) (stream : bytes) : Result (Property * nat) :=
  match pt with
  | PropT_PayloadFormatIndicator => dec_prop P_PayloadFormatIndicator u8 stream
  | PropT_MessageExpiryInterval => dec_prop P_MessageExpiryInterval u32 stream
  | PropT_ContentType => dec_prop P_ContentType String_ stream
  | PropT_ResponseTopic => dec_prop P_ResponseTopic TopicName stream
  | PropT_CorrelationData => dec_prop P_CorrelationData Vec_ stream
  | PropT_SubscriptionIdentifier => dec_prop P_SubscriptionIdentifier VarU32 stream
  | PropT_SessionExpiryInterval => dec_prop P_SessionExpiryInterval u32 stream
  | PropT_AssignedClientIdentifier => dec_prop P_AssignedClientIdentifier String_ stream
  | PropT_ServerKeepAlive => dec_prop P_ServerKeepAlive u16 stream
  | PropT_AuthenticationMethod => dec_prop P_AuthenticationMethod String_ stream
  | PropT_AuthenticationData => dec_prop P_AuthenticationData Vec_ stream
  | PropT_RequestProblemInformation => dec_prop P_RequestProblemInformation u8 stream
  | PropT_WillDelayInterval => dec_prop P_WillDelayInterval u32 stream
  | PropT_RequestResponseInformation => dec_prop P_RequestResponseInformation u8 stream
  | PropT_ResponseInformation => dec_prop P_ResponseInformation String_ stream
  | PropT_ServerReference => dec_prop P_ServerReference String_ stream
  | PropT_ReasonString => dec_prop P_ReasonString String_ stream
  | PropT_ReceiveMaximum => dec_prop P_ReceiveMaximum u16 stream
  | PropT_TopicAliasMaximum => dec_prop P_TopicAliasMaximum u16 stream
  | PropT_TopicAlias => dec_prop P_TopicAlias u16 stream
  | PropT_MaximumQoS =>
      '(val, n) ← u8_decode stream;
      qos ← QoS_try_from val;
      Ok (P_MaximumQoS qos, n)
  | PropT_RetainAvailable => dec_prop P_RetainAvailable u8 stream
  | PropT_UserProp => dec_prop P_UserProp UserProperty stream
  | PropT_MaximumPacketSize => dec_prop P_MaximumPacketSize u32 stream
  | PropT_WildcardSubscriptionAvailable => dec_prop P_WildcardSubscriptionAvailable u8 stream
  | PropT_SubscriptionIdentifierAvailable => dec_prop P_SubscriptionIdentifierAvailable u8 stream
  | PropT_SharedSubscriptionAvailable => dec_prop P_SharedSubscriptionAvailable u8 stream
  end.

Definition Property_decode (stream : bytes) : Result (Property * nat) :=
  '(prop_type, n) ← dec_field VarU32 stream 0;
  stream ← advance stream n;
  pt ← PropertyType_try_from prop_type;
  '(property, m) ← Property_decode_value pt stream;
  Ok (property, (n + m)%nat).

Definition Property_encode (p : Property) : Result Blob :=
  data ← match p with
  | P_PayloadFormatIndicator val => enc_prop PropT_PayloadFormatIndicator u8 val []
  | P_MessageExpiryInterval val => enc_prop PropT_MessageExpiryInterval u32 val []
  | P_ContentType val => enc_prop PropT_ContentType String_ val []
  | P_ResponseTopic val => enc_prop PropT_ResponseTopic TopicName val []
  | P_CorrelationData val => enc_prop PropT_CorrelationData Vec_ val []
  | P_SubscriptionIdentifier val => enc_prop PropT_SubscriptionIdentifier VarU32 val []
  | P_SessionExpiryInterval val => enc_prop PropT_SessionExpiryInterval u32 val []
  | P_AssignedClientIdentifier val => enc_prop PropT_AssignedClientIdentifier String_ val []
  | P_ServerKeepAlive val => enc_prop PropT_ServerKeepAlive u16 val []
  | P_AuthenticationMethod val => enc_prop PropT_AuthenticationMethod String_ val []
  | P_AuthenticationData val => enc_prop PropT_AuthenticationData Vec_ val []
  | P_RequestProblemInformation val => enc_prop PropT_RequestProblemInformation u8 val []
  | P_WillDelayInterval val => enc_prop PropT_WillDelayInterval u32 val []
  | P_RequestResponseInformation val => enc_prop PropT_RequestResponseInformation u8 val []
  | P_ResponseInformation val => enc_prop PropT_ResponseInformation String_ val []
  | P_ServerReference val => enc_prop PropT_ServerReference String_ val []
  | P_ReasonString val => enc_prop PropT_ReasonString String_ val []
  | P_ReceiveMaximum val => enc_prop PropT_ReceiveMaximum u16 val []
  | P_TopicAliasMaximum val => enc_prop PropT_TopicAliasMaximum u16 val []
  | P_TopicAlias val => enc_prop PropT_TopicAlias u16 val []
  | P_MaximumQoS val => enc_prop PropT_MaximumQoS u8 (QoS_into_u8 val) []
  | P_RetainAvailable val => enc_prop PropT_RetainAvailable u8 val []
  | P_UserProp val => enc_prop PropT_UserProp UserProperty val []
  | P_MaximumPacketSize val => enc_prop PropT_MaximumPacketSize u32 val []
  | P_WildcardSubscriptionAvailable val => enc_prop PropT_WildcardSubscriptionAvailable u8 val []
  | P_SubscriptionIdentifierAvailable val => enc_prop PropT_SubscriptionIdentifierAvailable u8 val []
  | P_SharedSubscriptionAvailable val => enc_prop PropT_SharedSubscriptionAvailable u8 val []
  end;
  Ok (Blob_Large data).

Definition Property_ : Packetize Property := MkPacketize Property_decode Property_encode.

(** ** The decoding loop of a property list

    [while n < limit { .. }] of every [decode] of a property list: [dups] holds
    the types seen so far, [dup_ok] the types that may repeat, [step] is the
    match on the property. *)
Section props_loop.
Context {St : Type}.
Context (dup_ok : list PropertyType) (step : St → Property → Result St).

Fixpoint dec_props_loop (fuel : nat) (stream : bytes) (limit : Z) (n : nat)
    (dups : list PropertyType) (props : St) : Result (St * nat) :=
  if Z.of_nat n <? limit then
    match fuel with
    | O => NoFuel
    | S fuel =>
        '(property, m) ← dec_field Property_ stream n;
        let pt := to_property_type property in
        if negb (bool_decide (pt ∈ dup_ok)) && bool_decide (pt ∈ dups)
        then err EK_ProtocolError RC_ProtocolError
        else
          props ← step props property;
          dec_props_loop fuel stream limit m (pt :: dups) props
    end
  else Ok (props, n).

(** The length of the list, then the loop.  Every turn consumes a byte, so the
    length of the stream is enough fuel. *)
Definition dec_properties (init : St) (stream : bytes) : Result (St * nat) :=
  '(l, n) ← dec_field VarU32 stream 0;
  let limit := l + Z.of_nat n in
  dec_props_loop (length stream) stream limit n [] init.
End props_loop.

(** [data = insert_property_len(data.len(), data)?; Ok(Blob::Large { data })] *)
Definition finish_properties (data : bytes) : Result Blob :=
  data ← insert_property_len (length data) data;
  Ok (Blob_Large data).

(** The [dec_props!] macro. *)
Definition dec_props {A} (c : Packetize A) (stream : bytes) (n : nat)
    : Result (option A * nat) :=
  s ← advance stream n;
  '(p, m) ← VarU32_decode s;
  if p =? 0 then Ok (None, (n + m)%nat)
  else
    s ← advance stream n;
    '(properties, r) ← decode c s;
    if Z.of_nat r =? Z.of_nat m + p then Ok (Some properties, (n + r)%nat)
    else err EK_ProtocolError RC_ProtocolError.

(** [dec_props!(T, stream, n; pred)] *)
Definition dec_props_if {A} (c : Packetize A) (stream : bytes) (n : nat) (pred : bool)
    : Result (option A * nat) :=
  if pred then dec_props c stream n else Ok (None, n).

(** [if let Some(properties) = &self.properties { .. } else { VarU32(0) }] *)
Definition emit_props {A} (c : Packetize A) (o : option A) (data : bytes) : Result bytes :=
  match o with
  | Some p => emit c p data
  | None => emit VarU32 0 data
  end.

(** ** Lemmas on single properties *)

(** The values a property can carry, as the Rust types bound them. *)
Definition wf_property (p : Property) : Prop :=
  match p with
  | P_PayloadFormatIndicator v => is_u8 v
  | P_MessageExpiryInterval v => is_u32 v
  | P_ContentType v => wf_string v
  | P_ResponseTopic v => wf_string v
  | P_CorrelationData v => is_bytes v
  | P_SubscriptionIdentifier v => is_u32 v
  | P_SessionExpiryInterval v => is_u32 v
  | P_AssignedClientIdentifier v => wf_string v
  | P_ServerKeepAlive v => is_u16 v
  | P_AuthenticationMethod v => wf_string v
  | P_AuthenticationData v => is_bytes v
  | P_RequestProblemInformation v => is_u8 v
  | P_WillDelayInterval v => is_u32 v
  | P_RequestResponseInformation v => is_u8 v
  | P_ResponseInformation v => wf_string v
  | P_ServerReference v => wf_string v
  | P_ReasonString v => wf_string v
  | P_ReceiveMaximum v => is_u16 v
  | P_TopicAliasMaximum v => is_u16 v
  | P_TopicAlias v => is_u16 v
  | P_MaximumQoS _ => True
  | P_RetainAvailable v => is_u8 v
  | P_UserProp v => wf_user_property v
  | P_MaximumPacketSize v => is_u32 v
  | P_WildcardSubscriptionAvailable v => is_u8 v
  | P_SubscriptionIdentifierAvailable v => is_u8 v
  | P_SharedSubscriptionAvailable v => is_u8 v
  end.

Lemma PropertyType_try_from_as_u32 pt : PropertyType_try_from (PropertyType_as_u32 pt) = Ok pt.
Proof. by destruct pt. Qed.

Lemma PropertyType_try_from_post z :
  post (PropertyType_try_from z) (λ pt, PropertyType_as_u32 pt = z) dec_error.
Proof. unfold PropertyType_try_from. enum_post. Qed.

Lemma PropertyType_encoded pt :
  encoded VarU32 (PropertyType_as_u32 pt) = Ok [PropertyType_as_u32 pt].
Proof. by destruct pt. Qed.

Lemma PropertyType_as_u32_range pt : is_u8 (PropertyType_as_u32 pt).
Proof. unfold is_u8; destruct pt; simpl; lia. Qed.

Lemma enc_prop_eq {A} pt (c : Packetize A) v data :
  enc_prop pt c v data = (bs ← encoded c v; Ok (data ++ PropertyType_as_u32 pt :: bs)).
Proof.
  unfold enc_prop, emit. rewrite PropertyType_encoded; run.
  destruct (encoded c v); run; [|done..]. by rewrite <-app_assoc.
Qed.

(** [PropOf pt c C]: the property [C v] is written as the identifier of [pt] and
    the value [v] in the codec [c]. *)
Class PropOf {A} (pt : PropertyType) (c : Packetize A) (C : A → Property) : Prop :=
  prop_of v : Property_encode (C v) = (data ← enc_prop pt c v []; Ok (Blob_Large data)).

#[export] Instance PropOf_PayloadFormatIndicator : PropOf PropT_PayloadFormatIndicator u8 P_PayloadFormatIndicator.
Proof. done. Qed.
#[export] Instance PropOf_MessageExpiryInterval : PropOf PropT_MessageExpiryInterval u32 P_MessageExpiryInterval.
Proof. done. Qed.
#[export] Instance PropOf_ContentType : PropOf PropT_ContentType String_ P_ContentType.
Proof. done. Qed.
#[export] Instance PropOf_ResponseTopic : PropOf PropT_ResponseTopic TopicName P_ResponseTopic.
Proof. done. Qed.
#[export] Instance PropOf_CorrelationData : PropOf PropT_CorrelationData Vec_ P_CorrelationData.
Proof. done. Qed.
#[export] Instance PropOf_SubscriptionIdentifier : PropOf PropT_SubscriptionIdentifier VarU32 P_SubscriptionIdentifier.
Proof. done. Qed.
#[export] Instance PropOf_SessionExpiryInterval : PropOf PropT_SessionExpiryInterval u32 P_SessionExpiryInterval.
Proof. done. Qed.
#[export] Instance PropOf_AssignedClientIdentifier : PropOf PropT_AssignedClientIdentifier String_ P_AssignedClientIdentifier.
Proof. done. Qed.
#[export] Instance PropOf_ServerKeepAlive : PropOf PropT_ServerKeepAlive u16 P_ServerKeepAlive.
Proof. done. Qed.
#[export] Instance PropOf_AuthenticationMethod : PropOf PropT_AuthenticationMethod String_ P_AuthenticationMethod.
Proof. done. Qed.
#[export] Instance PropOf_AuthenticationData : PropOf PropT_AuthenticationData Vec_ P_AuthenticationData.
Proof. done. Qed.
#[export] Instance PropOf_RequestProblemInformation : PropOf PropT_RequestProblemInformation u8 P_RequestProblemInformation.
Proof. done. Qed.
#[export] Instance PropOf_WillDelayInterval : PropOf PropT_WillDelayInterval u32 P_WillDelayInterval.
Proof. done. Qed.
#[export] Instance PropOf_RequestResponseInformation : PropOf PropT_RequestResponseInformation u8 P_RequestResponseInformation.
Proof. done. Qed.
#[export] Instance PropOf_ResponseInformation : PropOf PropT_ResponseInformation String_ P_ResponseInformation.
Proof. done. Qed.
#[export] Instance PropOf_ServerReference : PropOf PropT_ServerReference String_ P_ServerReference.
Proof. done. Qed.
#[export] Instance PropOf_ReasonString : PropOf PropT_ReasonString String_ P_ReasonString.
Proof. done. Qed.
#[export] Instance PropOf_ReceiveMaximum : PropOf PropT_ReceiveMaximum u16 P_ReceiveMaximum.
Proof. done. Qed.
#[export] Instance PropOf_TopicAliasMaximum : PropOf PropT_TopicAliasMaximum u16 P_TopicAliasMaximum.
Proof. done. Qed.
#[export] Instance PropOf_TopicAlias : PropOf PropT_TopicAlias u16 P_TopicAlias.
Proof. done. Qed.
#[export] Instance PropOf_RetainAvailable : PropOf PropT_RetainAvailable u8 P_RetainAvailable.
Proof. done. Qed.
#[export] Instance PropOf_UserProp : PropOf PropT_UserProp UserProperty P_UserProp.
Proof. done. Qed.
#[export] Instance PropOf_MaximumPacketSize : PropOf PropT_MaximumPacketSize u32 P_MaximumPacketSize.
Proof. done. Qed.
#[export] Instance PropOf_WildcardSubscriptionAvailable : PropOf PropT_WildcardSubscriptionAvailable u8 P_WildcardSubscriptionAvailable.
Proof. done. Qed.
#[export] Instance PropOf_SubscriptionIdentifierAvailable : PropOf PropT_SubscriptionIdentifierAvailable u8 P_SubscriptionIdentifierAvailable.
Proof. done. Qed.
#[export] Instance PropOf_SharedSubscriptionAvailable : PropOf PropT_SharedSubscriptionAvailable u8 P_SharedSubscriptionAvailable.
Proof. done. Qed.

Lemma prop_encoded {A} pt (c : Packetize A) C `{!PropOf pt c C} v :
  encoded Property_ (C v) = (bs ← encoded c v; Ok (PropertyType_as_u32 pt :: bs)).
Proof.
  unfold encoded at 1; cbn [encode Property_]. rewrite (prop_of (c := c)), enc_prop_eq.
  destruct (encoded c v); by run.
Qed.

Lemma qos_prop_encoded q :
  encoded Property_ (P_MaximumQoS q) = Ok [36; QoS_into_u8 q].
Proof. by destruct q. Qed.

(** Decoding the identifier of a property leaves its value. *)
Lemma Property_decode_at pt bs rest :
  Property_decode ((PropertyType_as_u32 pt :: bs) ++ rest) =
  ('(p, m) ← Property_decode_value pt (bs ++ rest); Ok (p, S m)).
Proof.
  pose proof (PropertyType_as_u32_range pt) as [? ?].
  unfold Property_decode.
  rewrite (dec_field_at VarU32 is_u32 _ 0 (PropertyType_as_u32 pt) [PropertyType_as_u32 pt]
    (bs ++ rest)); [|unfold is_u32; lia|apply PropertyType_encoded|apply at_start].
  run. rewrite advance_le by (cbn [length app]; lia); run.
  rewrite PropertyType_try_from_as_u32; run. done.
Qed.

Section dec_prop_lemmas.
Context {A} (c : Packetize A) (wf : A → Prop) `{!Lawful c wf} (C : A → Property).

Lemma dec_prop_post s :
  (∀ v, wf v → wf_property (C v)) → is_bytes s →
  post (dec_prop C c s) (λ r, (0 < r.2 ≤ length s)%nat ∧ wf_property r.1) dec_error.
Proof using All.
  intros Hwf Hs. unfold dec_prop. eapply post_bind; [by apply law_decode|].
  intros [v n] _ [? ?]; apply post_Ok; cbn [fst snd] in *. split; [done|auto].
Qed.

Lemma prop_roundtrip pt `{!PropOf pt c C} v bs rest :
  (∀ s, Property_decode_value pt s = dec_prop C c s) →
  wf v → encoded Property_ (C v) = Ok bs →
  Property_decode (bs ++ rest) = Ok (C v, length bs).
Proof using All.
  intros Hpt Hv E. rewrite (prop_encoded pt c C) in E.
  destruct (encoded c v) as [b| | |] eqn:Eb; try done.
  cbn [mbind outcome_bind] in E; simplify_eq.
  rewrite Property_decode_at, Hpt. unfold dec_prop.
  by rewrite (law_roundtrip v b rest Hv Eb).
Qed.

Lemma prop_encode_post pt `{!PropOf pt c C} v :
  wf v → post (encoded Property_ (C v)) is_bytes enc_error.
Proof using All.
  intros Hv. rewrite (prop_encoded pt c C).
  eapply post_bind; [by apply law_encode|]. intros bs _ Hbs.
  constructor; [apply PropertyType_as_u32_range|done].
Qed.
End dec_prop_lemmas.

Lemma Property_decode_value_post pt s :
  is_bytes s →
  post (Property_decode_value pt s) (λ r, (0 < r.2 ≤ length s)%nat ∧ wf_property r.1) dec_error.
Proof.
  intros Hs. destruct pt; cbn [Property_decode_value].
  all: try (eapply dec_prop_post; [apply _|done|done]).
  eapply post_bind; [by apply (law_decode (c := u8))|]. intros [v n] _ [? ?].
  eapply post_bind; [apply QoS_try_from_post|]. intros q _ _. done.
Qed.

#[export] Instance Property_lawful : Lawful Property_ wf_property.
Proof.
  split.
  - intros s Hs. cbn [decode Property_]. unfold Property_decode.
    eapply post_bind; [by apply (dec_field_post VarU32 is_u32)|].
    intros [z n] _ [? _]; cbn [fst snd] in *.
    eapply post_bind; [apply advance_post|]. intros s' _ [? ->].
    eapply post_bind; [apply PropertyType_try_from_post|]. intros pt _ _.
    eapply post_bind; [apply Property_decode_value_post; auto with wf|].
    intros [p m] _ [Hm ?]; apply post_Ok; cbn [fst snd] in *.
    rewrite length_drop in Hm. split; [lia|done].
  - intros p Hp; destruct p; try (eapply prop_encode_post; cycle 1; [apply _|exact Hp|apply _]).
    rewrite qos_prop_encoded. repeat constructor; destruct val; simpl; lia.
  - intros p bs rest Hp E; cbn [decode Property_].
    destruct p; try (eapply prop_roundtrip; cycle 1; [apply _|done|exact Hp|exact E|apply _]).
    rewrite qos_prop_encoded in E; simplify_eq. by destruct val.
Qed.

(** ** What a property list promises to the packets that carry it

    Besides being a lawful codec, the encoding is the length of the list and
    the list itself, and it is the empty list exactly for the values that
    [is_empty] recognises. *)
Class PropsCodec {A} (c : Packetize A) (wf : A → Prop) (is_empty : A → bool) : Prop := {
  props_lawful :: Lawful c wf;
  props_shape p bs : wf p → encoded c p = Ok bs →
    ∃ d, bs = varint_bytes (len d) ++ d ∧ len d ≤ VarU32_MAX ∧ (d = [] ↔ is_empty p = true);
}.

(** [normalize] on an optional property list: an empty one becomes [None]. *)
Definition norm_props {A} (is_empty : A → bool) (o : option A) : option A :=
  match o with
  | Some p => if is_empty p then None else Some p
  | None => None
  end.

Lemma norm_props_nonempty {A} (is_empty : A → bool) o :
  option_Forall (λ p, is_empty p = false) o → norm_props is_empty o = o.
Proof. intros [|p Hp]; [done|]. cbn [norm_props]. by rewrite Hp. Qed.

(** ** Encoders as folds over a list of properties *)

Lemma enc_prop_emit {A} pt (c : Packetize A) C `{!PropOf pt c C} v data :
  enc_prop pt c v data = emit_all Property_ [C v] data.
Proof.
  rewrite enc_prop_eq, emit_all_cons, (prop_encoded pt c C).
  by destruct (encoded c v).
Qed.

Lemma enc_prop_opt_emit {A} pt (c : Packetize A) C `{!PropOf pt c C} o data :
  enc_prop_opt pt c o data = emit_all Property_ (C <$> option_list o) data.
Proof. destruct o; [|done]. apply (enc_prop_emit pt c C). Qed.

Lemma enc_prop_all_emit {A} pt (c : Packetize A) C `{!PropOf pt c C} vs data :
  enc_prop_all pt c vs data = emit_all Property_ (C <$> vs) data.
Proof.
  revert data; induction vs as [|v vs IH]; intros data; [done|].
  change (C <$> v :: vs) with ([C v] ++ (C <$> vs)).
  rewrite emit_all_app, <-(enc_prop_emit pt c C). unfold enc_prop_all; cbn [foldM].
  destruct (enc_prop pt c v data); run; [apply IH|done..].
Qed.

(** The properties of a value, slot by slot: [pts] are the property types in the
    order the encoder writes them, and the properties of a slot have its type;
    there is at most one unless the type may repeat. *)
Definition slots_ok (dup_ok pts : list PropertyType) (slots : list (list Property)) : Prop :=
  NoDup pts ∧
  Forall2 (λ pt seg, Forall (λ q, to_property_type q = pt) seg
                     ∧ (pt ∈ dup_ok ∨ (length seg ≤ 1)%nat)) pts slots.

(** No property repeats, apart from those that may. *)
Fixpoint norep (dup_ok dups : list PropertyType) (l : list Property) : Prop :=
  match l with
  | [] => True
  | q :: l =>
      let pt := to_property_type q in
      (pt ∈ dup_ok ∨ pt ∉ dups) ∧ norep dup_ok (pt :: dups) l
  end.

Lemma norep_app dup_ok dups l1 l2 :
  norep dup_ok dups (l1 ++ l2) ↔
  norep dup_ok dups l1 ∧ norep dup_ok (reverse (to_property_type <$> l1) ++ dups) l2.
Proof.
  revert dups; induction l1 as [|q l1 IH]; intros dups; [naive_solver|].
  cbn [app norep fmap list_fmap]. rewrite IH, reverse_cons, <-app_assoc. naive_solver.
Qed.

Lemma norep_slot dup_ok dups pt seg :
  Forall (λ q, to_property_type q = pt) seg → pt ∉ dups →
  pt ∈ dup_ok ∨ (length seg ≤ 1)%nat → norep dup_ok dups seg.
Proof.
  intros Hseg Hpt [Hok|Hlen].
  - clear Hpt. revert dups; induction Hseg as [|q seg <- Hseg IH]; intros dups; [done|].
    split; [by left|apply IH].
  - destruct seg as [|q [|? ?]]; cbn [length] in Hlen; [done| |lia].
    inversion Hseg; subst. split; [by right|done].
Qed.

Lemma slots_ok_norep dup_ok pts slots :
  slots_ok dup_ok pts slots → norep dup_ok [] (concat slots).
Proof.
  intros [Hnd Hs].
  cut (∀ dups, (∀ pt, pt ∈ pts → pt ∉ dups) → norep dup_ok dups (concat slots)).
  { intros H; apply H; set_solver. }
  induction Hs as [|pt seg pts slots [Hseg Hlen] Hs IH]; intros dups Hdups; [done|].
  apply NoDup_cons in Hnd as [Hpt Hnd]. cbn [concat]. apply norep_app. split.
  - eapply norep_slot; [done| |done]. apply Hdups; left.
  - apply IH; [done|]. intros pt' Hpt'. rewrite elem_of_app, elem_of_reverse, list_elem_of_fmap.
    intros [(q & -> & Hq)|Hin]; [|by apply (Hdups pt'); [right|]].
    eapply Forall_forall in Hseg; [|done]. congruence.
Qed.

(** ** Property lists are lawful *)
Section prop_list.
Context {St P : Type} (c : Packetize P) (wf : P → Prop) (is_empty : P → bool).
Context (dup_ok : list PropertyType) (step : St → Property → Result St) (init : St).
Context (fin : St → Result P) (wf_st : St → Prop).
Context (pts : list PropertyType) (slots : P → list (list Property)).

Context (H_dec : ∀ s, decode c s =
  '(st, n) ← dec_properties dup_ok step init s; p ← fin st; Ok (p, n)).
Context (H_enc : ∀ p, encode c p =
  data ← emit_all Property_ (concat (slots p)) []; finish_properties data).
Context (H_slots : ∀ p, slots_ok dup_ok pts (slots p)).
Context (H_empty : ∀ p, concat (slots p) = [] ↔ is_empty p = true).
Context (H_wf : ∀ p, wf p → Forall (Forall wf_property) (slots p)).
Context (H_fold : ∀ p, wf p → (st ← foldM step init (concat (slots p)); fin st) = Ok p).
Context (H_init : wf_st init).
Context (H_step : ∀ st q, wf_st st → wf_property q → post (step st q) wf_st dec_error).
Context (H_fin : ∀ st, wf_st st → post (fin st) wf dec_error).

Lemma dec_props_loop_post fuel s limit n dups st :
  is_bytes s → (length s < fuel + n)%nat → (n ≤ length s)%nat → wf_st st →
  post (dec_props_loop dup_ok step fuel s limit n dups st)
    (λ r, (n ≤ r.2 ≤ length s)%nat ∧ wf_st r.1) dec_error.
Proof using H_step.
  intros Hs. revert n dups st; induction fuel as [|fuel IH]; intros n dups st Hf Hn Hst;
    cbn [dec_props_loop]; destruct (Z.of_nat n <? limit); try (apply post_Ok; cbn [fst snd]; split; [lia|done]).
  { lia. }
  eapply post_bind; [by apply (dec_field_post Property_ wf_property)|].
  intros [q m] _ [Hm Hq]; cbn [fst snd] in *.
  destruct (_ && _); [dec_err|].
  eapply post_bind; [by apply H_step|]. intros st' _ Hst'.
  eapply post_mono; [apply IH; [lia|lia|done]|]. intros [st'' r] _ [? ?]; cbn [fst snd] in *.
  split; [lia|done].
Qed.

Lemma dec_properties_post s :
  is_bytes s →
  post (dec_properties dup_ok step init s)
    (λ r, (0 < r.2 ≤ length s)%nat ∧ wf_st r.1) dec_error.
Proof using H_step H_init.
  intros Hs. unfold dec_properties.
  eapply post_bind; [by apply (dec_field_post VarU32 is_u32)|].
  intros [l n] _ [? ?]; cbn [fst snd] in *.
  eapply post_mono; [apply dec_props_loop_post; [done|lia|lia|done]|].
  intros [st m] _ [? ?]; cbn [fst snd] in *. split; [lia|done].
Qed.

(** The loop over the encoding of a list of properties, up to what follows it. *)
Lemma dec_props_loop_prefix l k s limit n dups st st' bs r :
  Forall wf_property l → emit_all Property_ l [] = Ok bs → at_ s n (bs ++ r) →
  norep dup_ok dups l → foldM step st l = Ok st' → Z.of_nat (n + length bs) ≤ limit →
  dec_props_loop dup_ok step (length l + k) s limit n dups st
    = dec_props_loop dup_ok step k s limit (n + length bs)
        (reverse (to_property_type <$> l) ++ dups) st'.
Proof using Type.
  intros Hl. revert n dups st bs.
  induction Hl as [|q l Hq Hl IH]; intros n dups st bs E Hat Hrep Hfold Hlim.
  - unfold emit_all in E; cbn [foldM] in E, Hfold; simplify_eq. cbn [length].
    by rewrite !Nat.add_0_r.
  - apply emit_all_cons_Ok in E as (b & bs' & Eb & E & ->).
    pose proof (law_encoded_pos Property_ wf_property q b Hq Eb) as Hpos.
    rewrite <-app_assoc in Hat. destruct Hrep as [Hdup Hrep].
    cbn [foldM] in Hfold. apply bind_Ok_inv in Hfold as (st1 & Hst1 & Hfold).
    rewrite length_app in *. cbn [length Nat.add dec_props_loop].
    destruct (Z.ltb_spec (Z.of_nat n) limit); [|lia].
    rewrite (dec_field_at Property_ wf_property _ _ _ _ _ Hq Eb Hat); run.
    replace (negb _ && _) with false.
    2:{ destruct Hdup; [rewrite (bool_decide_eq_true_2 (_ ∈ dup_ok)) by done; done|].
        rewrite (bool_decide_eq_false_2 (_ ∈ dups)) by done. by rewrite andb_false_r. }
    rewrite Hst1; run.
    rewrite (IH (n + length b)%nat _ st1 bs'); [|done|by apply at_skip|done|done|lia].
    cbn [fmap list_fmap]. rewrite reverse_cons, <-app_assoc. f_equal. lia.
Qed.

(** Reading back the encoding of a list of properties. *)
Lemma dec_props_loop_at l fuel s n dups st st' bs r :
  Forall wf_property l → emit_all Property_ l [] = Ok bs → at_ s n (bs ++ r) →
  norep dup_ok dups l → foldM step st l = Ok st' → (length l ≤ fuel)%nat →
  dec_props_loop dup_ok step fuel s (Z.of_nat (n + length bs)) n dups st
    = Ok (st', (n + length bs)%nat).
Proof using Type.
  intros Hl E Hat Hrep Hfold Hfuel. replace fuel with (length l + (fuel - length l))%nat by lia.
  erewrite dec_props_loop_prefix by done.
  destruct (fuel - length l)%nat; cbn [dec_props_loop]; by rewrite Z.ltb_irrefl.
Qed.

(** The start of the list: its length. *)
Lemma dec_properties_start d rest :
  len d ≤ VarU32_MAX →
  let lb := varint_bytes (len d) in
  dec_properties dup_ok step init ((lb ++ d) ++ rest)
  = dec_props_loop dup_ok step (length lb + length d + length rest) ((lb ++ d) ++ rest)
      (Z.of_nat (length lb + length d)) (length lb) [] init
  ∧ at_ ((lb ++ d) ++ rest) (length lb) (d ++ rest).
Proof using Type.
  intros Hd. cbv zeta. pose proof (len_nonneg d).
  assert (at_ ((varint_bytes (len d) ++ d) ++ rest) 0 (varint_bytes (len d) ++ d ++ rest))
    as Hat by (rewrite <-app_assoc; apply at_start).
  split; [|exact (at_skip _ _ _ _ Hat)]. unfold dec_properties.
  rewrite (dec_field_at VarU32 is_u32 _ _ (len d) (varint_bytes (len d)) (d ++ rest));
    [|unfold is_u32, VarU32_MAX in *; lia|by apply VarU32_encoded|done]; run.
  rewrite !length_app, Nat.add_0_l. f_equal. unfold len; lia.
Qed.

(** A property that repeats after a list that does not is refused. *)
Lemma dec_properties_repeat l1 q l2 d st rest :
  Forall wf_property (l1 ++ q :: l2) → emit_all Property_ (l1 ++ q :: l2) [] = Ok d →
  len d ≤ VarU32_MAX → norep dup_ok [] l1 → foldM step init l1 = Ok st →
  to_property_type q ∉ dup_ok → to_property_type q ∈ to_property_type <$> l1 →
  dec_properties dup_ok step init ((varint_bytes (len d) ++ d) ++ rest)
    = err EK_ProtocolError RC_ProtocolError.
Proof using Type.
  intros Hwf E Hd Hrep Hfold Hok Hin.
  pose proof (emit_all_length Property_ wf_property _ _ Hwf E) as Hlen.
  apply Forall_app in Hwf as [Hl1 [Hq Hl2]%Forall_cons].
  destruct (dec_properties_start d rest Hd) as [-> Hat].
  rewrite emit_all_app in E. apply bind_Ok_inv in E as (d1 & E1 & E).
  rewrite emit_all_start in E. apply bind_Ok_inv in E as (d2 & E2 & Ed).
  apply emit_all_cons_Ok in E2 as (b & d3 & Eb & _ & ->). simplify_eq.
  pose proof (law_encoded_pos Property_ wf_property q b Hq Eb) as Hpos.
  rewrite length_app in Hlen. cbn [length] in Hlen. rewrite !length_app in *.
  match goal with |- dec_props_loop _ _ ?f _ _ _ _ _ = _ =>
    replace f with (length l1 + S (f - length l1 - 1))%nat by lia end.
  rewrite <-!app_assoc in Hat.
  erewrite dec_props_loop_prefix; [|exact Hl1|exact E1|rewrite <-!app_assoc; exact Hat|done|done|lia].
  apply at_skip in Hat. cbn [dec_props_loop].
  match goal with |- context [?a <? ?b] => destruct (Z.ltb_spec a b); [|lia] end.
  rewrite <-!app_assoc.
  rewrite (dec_field_at Property_ wf_property _ _ _ _ _ Hq Eb Hat); run.
  rewrite (bool_decide_eq_false_2 (_ ∈ dup_ok)), (bool_decide_eq_true_2 (_ ∈ _ ++ [])) by
    (rewrite ?app_nil_r, ?elem_of_reverse; done). done.
Qed.

Lemma props_encoded p bs :
  encoded c p = Ok bs →
  ∃ d, emit_all Property_ (concat (slots p)) [] = Ok d
       ∧ len d ≤ VarU32_MAX ∧ bs = varint_bytes (len d) ++ d.
Proof using H_enc.
  unfold encoded. rewrite H_enc. intros (blob & (d & Ed & E)%bind_Ok_inv & Eb)%bind_Ok_inv.
  unfold finish_properties in E. apply bind_Ok_inv in E as (bs' & E & Eb'); simplify_eq.
  apply insert_property_len_Ok in E as [? ->]. cbn in Eb; simplify_eq. by exists d.
Qed.

Lemma props_wf_list p : wf p → Forall wf_property (concat (slots p)).
Proof using H_wf. intros Hp. by apply Forall_concat, H_wf. Qed.

Lemma dec_properties_at p bs rest :
  wf p → encoded c p = Ok bs →
  ∃ st, foldM step init (concat (slots p)) = Ok st ∧
        dec_properties dup_ok step init (bs ++ rest) = Ok (st, length bs).
Proof using H_enc H_slots H_wf H_fold.
  intros Hp (d & Ed & Hd & ->)%props_encoded.
  pose proof (H_fold p Hp) as Hf. apply bind_Ok_inv in Hf as (st & Hst & _).
  exists st. split; [done|]. destruct (dec_properties_start d rest Hd) as [-> Hat].
  rewrite (length_app (varint_bytes (len d)) d).
  apply (dec_props_loop_at (concat (slots p)) _ _ _ _ _ _ _ rest);
    [by apply props_wf_list|done|exact Hat|by eapply slots_ok_norep|done|].
  pose proof (emit_all_length Property_ wf_property _ _ (props_wf_list p Hp) Ed). lia.
Qed.

Lemma prop_list_lawful : Lawful c wf.
Proof using All.
  split.
  - intros s Hs. rewrite H_dec. eapply post_bind; [by apply dec_properties_post|].
    intros [st n] _ [Hn Hst]; cbn [fst snd] in *.
    eapply post_bind; [by apply H_fin|]. intros p _ Hp. by apply post_Ok.
  - intros p Hp. unfold encoded. rewrite H_enc.
    pose proof (emit_all_post Property_ wf_property (concat (slots p)) [] (props_wf_list p Hp)
      ltac:(constructor)) as Hd.
    destruct (emit_all _ _ _) as [d|e| |]; try done. run. unfold finish_properties.
    pose proof (insert_property_len_post d Hd) as Hi.
    by destruct (insert_property_len _ _).
  - intros p bs rest Hp E. rewrite H_dec.
    destruct (dec_properties_at p bs rest Hp E) as (st & Hst & ->); run.
    pose proof (H_fold p Hp) as Hf. rewrite Hst in Hf. cbn [mbind outcome_bind] in Hf.
    by rewrite Hf.
Qed.

Lemma prop_list_codec : PropsCodec c wf is_empty.
Proof using All.
  split; [by apply prop_list_lawful|]. intros p bs Hp (d & Ed & Hd & ->)%props_encoded.
  exists d. do 2 (split; [done|]). rewrite <-H_empty. split.
  - intros ->. pose proof (emit_all_length Property_ wf_property _ _ (props_wf_list p Hp) Ed).
    apply length_zero_iff_nil. simpl in *; lia.
  - intros E. rewrite E in Ed. by unfold emit_all in Ed; cbn [foldM] in Ed; simplify_eq.
Qed.
End prop_list.

(** ** Optional property lists inside a packet *)

Definition encoded_props {A} (c : Packetize A) (o : option A) : Result bytes :=
  match o with Some p => encoded c p | None => encoded VarU32 0 end.

Lemma emit_props_eq {A} (c : Packetize A) o data :
  emit_props c o data = (bs ← encoded_props c o; Ok (data ++ bs)).
Proof. by destruct o. Qed.

Section dec_props_lemmas.
Context {A} (c : Packetize A) (wf : A → Prop) (is_empty : A → bool).
Context `{!PropsCodec c wf is_empty}.

Lemma encoded_props_post o :
  option_Forall wf o → post (encoded_props c o) is_bytes enc_error.
Proof using All. intros [|p Hp]; [by repeat constructor|by apply law_encode]. Qed.

Lemma encoded_props_pos o bs :
  option_Forall wf o → encoded_props c o = Ok bs → (0 < length bs)%nat.
Proof using All.
  intros [|p Hp] E; cbn [encoded_props] in E; [|by apply (law_encoded_pos c wf p)].
  rewrite VarU32_encoded in E by done. simplify_eq. cbn; lia.
Qed.

Lemma dec_props_post s n :
  is_bytes s →
  post (dec_props c s n) (λ r, (n < r.2 ≤ length s)%nat ∧ option_Forall wf r.1) dec_error.
Proof using All.
  intros Hs. unfold dec_props. eapply post_bind; [apply advance_post|]. intros s' _ [? ->].
  eapply post_bind; [apply VarU32_decode_post; auto with wf|].
  intros [p m] _ ([? Hm] & _ & _); cbn [fst snd] in *. rewrite length_drop in Hm.
  destruct (p =? 0); [apply post_Ok; split; [cbn; lia|constructor]|].
  rewrite advance_le by done; run.
  eapply post_bind; [apply law_decode; auto with wf|].
  intros [v r] _ [[? Hr] Hv]; cbn [fst snd] in *. rewrite length_drop in Hr.
  destruct (_ =? _); [|dec_err]. apply post_Ok. split; [cbn; lia|by constructor].
Qed.

Lemma dec_props_at s n o bs r :
  option_Forall wf o → encoded_props c o = Ok bs → at_ s n (bs ++ r) →
  dec_props c s n = Ok (norm_props is_empty o, (n + length bs)%nat).
Proof using All.
  intros Hwf E Hat. unfold dec_props. rewrite (at_advance _ _ _ Hat); run.
  destruct Hwf as [|p Hp]; cbn [encoded_props norm_props] in *.
  - rewrite VarU32_encoded in E by done. simplify_eq. by rewrite VarU32_decode_varint by done.
  - destruct (props_shape p bs Hp E) as (d & -> & Hd & Hemp).
    pose proof (len_nonneg d). rewrite <-app_assoc, VarU32_decode_varint by done; run.
    rewrite app_assoc.
    destruct (Z.eqb_spec (len d) 0) as [E0|E0].
    + assert (d = []) as -> by (apply length_zero_iff_nil; unfold len in E0; lia).
      rewrite (proj1 Hemp) by done. by rewrite app_nil_r.
    + rewrite (law_roundtrip (c := c) p _ r Hp E); run. rewrite length_app.
      destruct (Z.eqb_spec (Z.of_nat (length (varint_bytes (len d)) + length d))
        (Z.of_nat (length (varint_bytes (len d))) + len d)); [|unfold len in *; lia].
      destruct (is_empty p); [|done]. destruct d; [done|]. by destruct Hemp as [_ Hemp]; discriminate Hemp.
Qed.
End dec_props_lemmas.

(** ** Discharging the obligations of [prop_list_codec]

    A slot is [C <$> option_list o] for an optional field, [C <$> l] for a
    repeated one. *)

(** [Option::is_none] *)
Definition is_none {A} (o : option A) : bool :=
  match o with None => true | Some _ => false end.

Lemma enc_slot_opt {A} pt (c : Packetize A) C `{!PropOf pt c C} o data l (k : bytes → Result Blob) :
  (∀ data, k data = (d ← emit_all Property_ l data; finish_properties d)) →
  (d ← enc_prop_opt pt c o data; k d)
  = (d ← emit_all Property_ ((C <$> option_list o) ++ l) data; finish_properties d).
Proof.
  intros Hk. rewrite (enc_prop_opt_emit pt c C), emit_all_app.
  destruct (emit_all _ _ data); run; [apply Hk|done..].
Qed.

Lemma enc_slot_all {A} pt (c : Packetize A) C `{!PropOf pt c C} vs data l (k : bytes → Result Blob) :
  (∀ data, k data = (d ← emit_all Property_ l data; finish_properties d)) →
  (d ← enc_prop_all pt c vs data; k d)
  = (d ← emit_all Property_ ((C <$> vs) ++ l) data; finish_properties d).
Proof.
  intros Hk. rewrite (enc_prop_all_emit pt c C), emit_all_app.
  destruct (emit_all _ _ data); run; [apply Hk|done..].
Qed.

Lemma enc_slot_one {A} pt (c : Packetize A) C `{!PropOf pt c C} v data l (k : bytes → Result Blob) :
  (∀ data, k data = (d ← emit_all Property_ l data; finish_properties d)) →
  (d ← enc_prop pt c v data; k d)
  = (d ← emit_all Property_ ([C v] ++ l) data; finish_properties d).
Proof.
  intros Hk. rewrite (enc_prop_emit pt c C), emit_all_app.
  destruct (emit_all _ _ data); run; [apply Hk|done..].
Qed.

(** A field whose value is converted before it is written. *)
Lemma enc_slot_map {A B} pt (c : Packetize B) (f : A → B) (C : A → Property) o data l
    (k : bytes → Result Blob) :
  (∀ v data, enc_prop pt c (f v) data = emit_all Property_ [C v] data) →
  (∀ data, k data = (d ← emit_all Property_ l data; finish_properties d)) →
  (d ← enc_prop_opt pt c (f <$> o) data; k d)
  = (d ← emit_all Property_ ((C <$> option_list o) ++ l) data; finish_properties d).
Proof.
  intros Hf Hk. destruct o as [v|]; [|apply Hk].
  cbn [fmap option_fmap option_map enc_prop_opt option_list list_fmap].
  rewrite Hf, emit_all_app. destruct (emit_all _ _ data); run; [apply Hk|done..].
Qed.

Lemma enc_prop_bool pt C `{!PropOf pt u8 C} v data :
  enc_prop pt u8 (bool_as_u8 v) data = emit_all Property_ [C (bool_as_u8 v)] data.
Proof. apply (enc_prop_emit pt u8 C). Qed.

Lemma enc_prop_qos v data :
  enc_prop PropT_MaximumQoS u8 (QoS_into_u8 v) data = emit_all Property_ [P_MaximumQoS v] data.
Proof. rewrite enc_prop_eq, emit_all_cons, qos_prop_encoded, u8_encoded. done. Qed.

(** The slot of a payload format: binary is the default and is not written. *)
Definition pf_slot (pf : PayloadFormat) : list Property :=
  match pf with PF_Binary => [] | PF_Utf8 => [P_PayloadFormatIndicator 1] end.

Lemma enc_slot_pf pf data l (k : bytes → Result Blob) :
  (∀ data, k data = (d ← emit_all Property_ l data; finish_properties d)) →
  (d ← enc_payload_format pf data; k d)
  = (d ← emit_all Property_ (pf_slot pf ++ l) data; finish_properties d).
Proof.
  intros Hk. destruct pf; [apply Hk|].
  by apply (enc_slot_one PropT_PayloadFormatIndicator u8 P_PayloadFormatIndicator).
Qed.

Lemma slot_types_pf (dup_ok : list PropertyType) pf :
  Forall (λ q, to_property_type q = PropT_PayloadFormatIndicator) (pf_slot pf)
  ∧ (PropT_PayloadFormatIndicator ∈ dup_ok ∨ (length (pf_slot pf) ≤ 1)%nat).
Proof. destruct pf; cbn; (split; [repeat constructor|right; lia]). Qed.

Lemma slot_nil_pf pf : pf_slot pf = [] ↔ bool_decide (pf = PF_Binary) = true.
Proof. by destruct pf. Qed.

Lemma slot_wf_pf pf : Forall wf_property (pf_slot pf).
Proof. by destruct pf; repeat constructor. Qed.

Lemma fold_slot_pf {St} (step : St → Property → Result St) (upd : PayloadFormat → St) pf rest :
  step (upd PF_Binary) (P_PayloadFormatIndicator 1) = Ok (upd PF_Utf8) →
  foldM step (upd PF_Binary) (pf_slot pf ++ rest) = foldM step (upd pf) rest.
Proof. intros H. destruct pf; [done|]. cbn. by rewrite H. Qed.

Lemma slot_types_opt {A} (dup_ok : list PropertyType) pt (C : A → Property) o :
  (∀ v, to_property_type (C v) = pt) →
  Forall (λ q, to_property_type q = pt) (C <$> option_list o)
  ∧ (pt ∈ dup_ok ∨ (length (C <$> option_list o) ≤ 1)%nat).
Proof.
  intros HC. destruct o; cbn; (split; [repeat constructor; apply HC|right; lia]).
Qed.

Lemma slot_types_one (dup_ok : list PropertyType) pt q :
  to_property_type q = pt →
  Forall (λ q, to_property_type q = pt) [q] ∧ (pt ∈ dup_ok ∨ (length [q] ≤ 1)%nat).
Proof. intros Hq. split; [by constructor|right; cbn; lia]. Qed.

Lemma slot_types_all {A} (dup_ok : list PropertyType) pt (C : A → Property) l :
  (∀ v, to_property_type (C v) = pt) → pt ∈ dup_ok →
  Forall (λ q, to_property_type q = pt) (C <$> l)
  ∧ (pt ∈ dup_ok ∨ (length (C <$> l) ≤ 1)%nat).
Proof. intros HC Hpt. split; [by apply Forall_fmap, Forall_true|by left]. Qed.

Lemma slot_nil_opt {A} (C : A → Property) o : C <$> option_list o = [] ↔ is_none o = true.
Proof. by destruct o. Qed.

Lemma slot_nil_all {A} (C : A → Property) (l : list A) :
  C <$> l = [] ↔ (length l =? 0)%nat = true.
Proof. by destruct l. Qed.

Lemma slot_wf_opt {A} (C : A → Property) (Q : A → Prop) o :
  option_Forall Q o → (∀ v, Q v → wf_property (C v)) → Forall wf_property (C <$> option_list o).
Proof. intros [|v Hv] HQ; repeat constructor; auto. Qed.

Lemma slot_wf_any {A} (C : A → Property) o :
  (∀ v, wf_property (C v)) → Forall wf_property (C <$> option_list o).
Proof. intros HC. destruct o; repeat constructor; auto. Qed.

Lemma slot_wf_all {A} (C : A → Property) (Q : A → Prop) l :
  Forall Q l → (∀ v, Q v → wf_property (C v)) → Forall wf_property (C <$> l).
Proof. intros Hl HQ. apply Forall_fmap. by eapply Forall_impl. Qed.

Section fold_slots.
Context {A St : Type} (step : St → Property → Result St) (C : A → Property).

Lemma fold_slot_opt (upd : option A → St) o rest :
  (∀ v, o = Some v → step (upd None) (C v) = Ok (upd (Some v))) →
  foldM step (upd None) ((C <$> option_list o) ++ rest) = foldM step (upd o) rest.
Proof. intros H. destruct o as [v|]; [|done]. cbn. by rewrite H. Qed.

Lemma fold_slot_all (upd : list A → St) l rest :
  (∀ l v, step (upd l) (C v) = Ok (upd (l ++ [v]))) →
  foldM step (upd []) ((C <$> l) ++ rest) = foldM step (upd l) rest.
Proof.
  intros H. change l with ([] ++ l) at 2. generalize (@nil A) as l0.
  induction l as [|v l IH]; intros l0; [by rewrite app_nil_r|].
  cbn. rewrite H; run. by rewrite IH, <-app_assoc.
Qed.
End fold_slots.

(** A value of a field type, to find out which field a property sets. *)
Ltac field_witness A :=
  lazymatch A with
  | Z => constr:(1%Z)
  | bool => constr:(true)
  | QoS => constr:(QoS_AtMostOnce)
  | list Z => constr:(@nil Z)
  | (list Z * list Z)%type => constr:((@nil Z, @nil Z))
  end.

(** [fold_slots] runs the decoder's match over the slots of a value: it finds the
    field each slot sets by running the match on a sample. *)
Ltac slot_step :=
  first [reflexivity
        | intros ? ->; reflexivity
        | intros [] ->; reflexivity
        | let v := fresh "v" in intros v ->;
          match goal with
          | H : option_Forall _ (Some v) |- _ =>
              let Hnz := fresh in
              inversion H as [|? [_ Hnz]]; subst; cbn;
              rewrite (proj2 (Z.eqb_neq v 0) Hnz); reflexivity
          end ].

Ltac fold_slots :=
  repeat
  lazymatch goal with
  | |- context [foldM ?step ?st ((?C <$> option_list ?o) ++ ?rest)] =>
      lazymatch type of o with
      | option ?A =>
          let w := field_witness A in
          let r := eval cbn in (step st (C w)) in
          lazymatch r with
          | Ok ?s =>
              lazymatch eval pattern (Some w) in s with
              | ?f _ => rewrite (fold_slot_opt step C f o rest) by slot_step
              end
          end
      end
  | |- context [foldM ?step ?st (pf_slot ?pf ++ ?rest)] =>
      let r := eval cbn in (step st (P_PayloadFormatIndicator 1)) in
      lazymatch r with
      | Ok ?s =>
          lazymatch eval pattern PF_Utf8 in s with
          | ?f _ => rewrite (fold_slot_pf step f pf rest) by reflexivity
          end
      end
  | |- context [foldM ?step ?st ((?C <$> ?l) ++ ?rest)] =>
      lazymatch type of l with
      | list ?A =>
          let w := field_witness A in
          let r := eval cbn in (step st (C w)) in
          lazymatch r with
          | Ok ?s =>
              lazymatch eval pattern [w] in s with
              | ?f _ => rewrite (fold_slot_all step C f l rest) by (intros; reflexivity)
              end
          end
      end
  end; cbv beta.

(** [props_slots]: the slots hold the types they should. *)
Ltac props_slots :=
  split;
  [ apply (bool_decide_unpack _); vm_compute; exact I
  | repeat apply Forall2_cons_2;
    first [ apply Forall2_nil_2
          | apply slot_types_one; reflexivity
          | apply slot_types_pf
          | apply slot_types_opt; reflexivity
          | apply slot_types_all; [reflexivity | set_solver] ] ].

(** [props_enc]: the encoder writes the slots in order. *)
Ltac props_enc :=
  cbn [concat];
  repeat first
    [ reflexivity
    | eapply enc_slot_opt; [apply _|intros ?]
    | eapply enc_slot_all; [apply _|intros ?]
    | apply enc_slot_pf; intros ?
    | eapply enc_slot_map; [apply enc_prop_qos|intros ?]
    | eapply enc_slot_map; [intros ? ?; eapply enc_prop_bool; apply _|intros ?]
    | eapply enc_slot_one; [apply _|intros ?] ].

(** [props_empty]: a value without properties is an empty one. *)
Ltac props_empty :=
  cbn [concat];
  rewrite ?app_nil, ?andb_true_iff, ?slot_nil_opt, ?slot_nil_all, ?slot_nil_pf; tauto.

Lemma dec_properties_ret {St} dup_ok step (init : St) s :
  dec_properties dup_ok step init s
  = ('(st, n) ← dec_properties dup_ok step init s; p ← Ok st; Ok (p, n)).
Proof. by destruct (dec_properties _ _ _ s) as [[]| | |]. Qed.

(** [props_wf]: the properties of a well-formed value are well formed. *)
Ltac props_wf :=
  repeat apply Forall_cons_2; try apply Forall_nil_2;
  first [ apply slot_wf_pf
        | eapply slot_wf_opt; [eassumption | cbn; first [done | naive_solver]]
        | eapply slot_wf_all; [eassumption | cbn; first [done | naive_solver]]
        | repeat constructor; done
        | apply slot_wf_any; intros []; done ].

(** [props_step wf]: the decoder's match keeps values well formed. *)
Ltac props_field :=
  first [ assumption
        | constructor; first [done | split; [done|lia]]
        | apply Forall_app_2; [assumption|by constructor] ].

Ltac props_step wf :=
  lazymatch goal with |- post (_ _ ?q) _ _ => destruct q end; cbn in *;
  try dec_err;
  unfold PayloadFormat_try_from; repeat case_match; simplify_eq; try dec_err;
  cbn; unfold wf; cbn;
  repeat (split; [props_field|]); props_field.

(** ** Theorems *)

(** Every property survives encoding and decoding, whatever follows it on the
    stream. *)
Theorem property_roundtrip p bs rest :
  wf_property p → encoded Property_ p = Ok bs →
  Property_decode (bs ++ rest) = Ok (p, length bs)
  ∧ head bs = Some (PropertyType_as_u32 (to_property_type p)).
Proof.
  intros Hp E. split; [by apply (law_roundtrip (c := Property_))|].
  destruct p;
    first [ rewrite qos_prop_encoded in E; by simplify_eq
          | erewrite prop_encoded in E by apply _; apply bind_Ok_inv in E as (b & _ & E);
            by simplify_eq ].
Qed.

Lemma property_roundtrip_witness :
  Property_decode ([36; 1] ++ [9]) = Ok (P_MaximumQoS QoS_AtLeastOnce, 2%nat)
  ∧ head [36; 1] = Some (PropertyType_as_u32 PropT_MaximumQoS).
Proof. by apply (property_roundtrip (P_MaximumQoS QoS_AtLeastOnce) [36; 1] [9]). Defined.

(** A property list in which a property other than the repeatable ones occurs
    twice is refused with a protocol error, by the decoding loop that every packet
    shares and whatever the packet's match on the properties does. *)
Theorem repeated_property_refused {St} dup_ok (step : St → Property → Result St) init
    l1 q l2 d st rest :
  Forall wf_property (l1 ++ q :: l2) → emit_all Property_ (l1 ++ q :: l2) [] = Ok d →
  len d ≤ VarU32_MAX → norep dup_ok [] l1 → foldM step init l1 = Ok st →
  to_property_type q ∉ dup_ok → to_property_type q ∈ to_property_type <$> l1 →
  dec_properties dup_ok step init ((varint_bytes (len d) ++ d) ++ rest)
    = err EK_ProtocolError RC_ProtocolError.
Proof. apply dec_properties_repeat. Qed.

Lemma repeated_property_refused_witness :
  dec_properties [PropT_UserProp] (λ n _, Ok (S n)) 0%nat
    (([4] ++ [36; 1; 36; 0]) ++ [9]) = err EK_ProtocolError RC_ProtocolError.
Proof.
  apply (repeated_property_refused [PropT_UserProp] (λ n _, Ok (S n)) 0%nat
    [P_MaximumQoS QoS_AtLeastOnce] (P_MaximumQoS QoS_AtMostOnce) [] [36; 1; 36; 0] 1%nat [9]).
  - by repeat constructor.
  - by vm_compute.
  - done.
  - split; [right; set_solver|done].
  - done.
  - set_solver.
  - set_solver.
Defined.
