(* ===== verification/V5Codec.v ===== *)
(** * What the packet codecs share

    Every packet encoder appends fields to a buffer and ends with
    [finish_packet]; every packet decoder reads the fixed header and then the
    fields at increasing offsets.  This file holds the lemmas and tactics for
    both, and [PacketCodec], the interface between the packets of the protocol
    and the [Packet] enumeration. *)
From S2P Require Import Prelude Errors Utf8 Util Types V5Header V5Property.
Local Open Scope Z_scope.

(** ** Appending fields *)

Lemma emit_inv {A} (c : Packetize A) v data d :
  emit c v data = Ok d → ∃ bs, encoded c v = Ok bs ∧ d = data ++ bs.
Proof. unfold emit. intros (bs & E & ?)%bind_Ok_inv; simplify_eq. by exists bs. Qed.

Lemma emit_props_inv {A} (c : Packetize A) o data d :
  emit_props c o data = Ok d → ∃ bs, encoded_props c o = Ok bs ∧ d = data ++ bs.
Proof. rewrite emit_props_eq. intros (bs & E & ?)%bind_Ok_inv; simplify_eq. by exists bs. Qed.

Lemma emit_opt_inv {A} (c : Packetize A) o data d :
  emit_opt c o data = Ok d →
  ∃ bs, from_option (encoded c) (Ok []) o = Ok bs ∧ d = data ++ bs.
Proof.
  destruct o as [v|]; cbn [emit_opt from_option]; [apply emit_inv|].
  intros E; simplify_eq. exists []. by rewrite app_nil_r.
Qed.

Lemma emit_all_inv {A} (c : Packetize A) vs data d :
  emit_all c vs data = Ok d → ∃ bs, emit_all c vs [] = Ok bs ∧ d = data ++ bs.
Proof. rewrite emit_all_start. intros (bs & E & ?)%bind_Ok_inv; simplify_eq. by exists bs. Qed.

(** [inv_emit E] turns [E : data ← emit ..; ..; k = Ok b] into one equation per
    field and an equation for the last step. *)
Ltac inv_emit E :=
  repeat lazymatch type of E with
  | mbind _ (emit _ _ _) = Ok _ =>
      let d := fresh "d" in let bs := fresh "bs" in let H := fresh "He" in
      apply bind_Ok_inv in E as (d & H & E); apply emit_inv in H as (bs & H & ->)
  | mbind _ (emit_props _ _ _) = Ok _ =>
      let d := fresh "d" in let bs := fresh "bs" in let H := fresh "He" in
      apply bind_Ok_inv in E as (d & H & E); apply emit_props_inv in H as (bs & H & ->)
  | mbind _ (emit_opt _ _ _) = Ok _ =>
      let d := fresh "d" in let bs := fresh "bs" in let H := fresh "He" in
      apply bind_Ok_inv in E as (d & H & E); apply emit_opt_inv in H as (bs & H & ->)
  | mbind _ (emit_all _ _ _) = Ok _ =>
      let d := fresh "d" in let bs := fresh "bs" in let H := fresh "He" in
      apply bind_Ok_inv in E as (d & H & E); apply emit_all_inv in H as (bs & H & ->)
  end;
  rewrite <-?app_assoc, ?app_nil_l in E.

Section emit_post.
Context {A} (c : Packetize A) (wf : A → Prop) `{!Lawful c wf}.

Lemma emit_post v data :
  wf v → is_bytes data → post (emit c v data) is_bytes enc_error.
Proof using All.
  intros Hv Hd. unfold emit. eapply post_bind; [by apply law_encode|].
  intros bs _ Hbs. by apply Forall_app.
Qed.

Lemma emit_opt_post o data :
  option_Forall wf o → is_bytes data → post (emit_opt c o data) is_bytes enc_error.
Proof using All. intros [|v Hv] Hd; [done|by apply emit_post]. Qed.
End emit_post.

Lemma emit_props_post {A} (c : Packetize A) wf is_empty `{!PropsCodec c wf is_empty} o data :
  option_Forall wf o → is_bytes data → post (emit_props c o data) is_bytes enc_error.
Proof.
  intros Ho Hd. rewrite emit_props_eq. eapply post_bind; [by eapply encoded_props_post|].
  intros bs _ Hbs. by apply Forall_app.
Qed.

Lemma option_encoded_post {A} (c : Packetize A) wf `{!Lawful c wf} o :
  option_Forall wf o → post (from_option (encoded c) (Ok []) o) is_bytes enc_error.
Proof. intros [|v Hv]; [constructor|by apply law_encode]. Qed.

(** ** Optional property lists behind a flag *)

Section dec_props_if.
Context {A} (c : Packetize A) (wf : A → Prop) (is_empty : A → bool).
Context `{!PropsCodec c wf is_empty}.

Lemma dec_props_if_post s n pred :
  is_bytes s → (n ≤ length s)%nat →
  post (dec_props_if c s n pred)
    (λ r, (n ≤ r.2 ≤ length s)%nat ∧ option_Forall wf r.1 ∧ (pred = false → r.1 = None))
    dec_error.
Proof using All.
  intros Hs Hn. unfold dec_props_if. destruct pred.
  - eapply post_mono; [by eapply dec_props_post|]. intros [o m] _ [? ?]; cbn [fst snd] in *.
    split_and!; (done || lia).
  - apply post_Ok; cbn. split_and!; (done || lia || constructor).
Qed.

Lemma dec_props_if_at s n o bs r :
  option_Forall wf o → from_option (encoded c) (Ok []) o = Ok bs → at_ s n (bs ++ r) →
  dec_props_if c s n (bool_decide (is_Some o))
    = Ok (norm_props is_empty o, (n + length bs)%nat).
Proof using All.
  intros Ho E Hat. destruct o as [v|]; cbn [from_option] in E.
  - by apply (dec_props_at c wf is_empty s n (Some v) bs r).
  - simplify_eq. cbn. by rewrite Nat.add_0_r.
Qed.
End dec_props_if.

(** ** A byte with a check on its value *)

Section checked_u8.
Context {B} (check : Z → Result B) (wf : Z → Prop).
Context (check_post : ∀ z, is_u8 z → post (check z) (λ _, wf z) dec_error).
Context (check_wf : ∀ z, wf z → is_u8 z ∧ ∃ b, check z = Ok b).

Lemma checked_u8_lawful :
  Lawful (MkPacketize
    (λ s, '(z, n) ← dec_field u8 s 0; _ ← check z; Ok (z, n))
    (λ z, _ ← check z; u8_encode z)) wf.
Proof using All.
  split.
  - intros s Hs. cbn [decode]. eapply post_bind; [by apply (dec_field_post u8 is_u8)|].
    intros [z n] _ [? ?]; cbn [fst snd] in *.
    eapply post_bind; [by apply check_post|]. intros b _ ?. apply post_Ok; cbn. split; [lia|done].
  - intros z [Hz [b Hb]]%check_wf. unfold encoded; cbn [encode]. rewrite Hb; run.
    by apply (law_encode (c := u8)).
  - intros z bs rest [Hz [b Hb]]%check_wf. unfold encoded; cbn [encode]. rewrite Hb; run.
    intros E. cbn [decode].
    rewrite (dec_field_at u8 is_u8 _ 0 z bs rest Hz E (at_start _)); run. by rewrite Hb.
Qed.

(** Written without the check, the byte is the same. *)
Lemma checked_u8_encoded z dec :
  wf z → encoded (MkPacketize dec (λ z, _ ← check z; u8_encode z)) z = encoded u8 z.
Proof using check_wf. intros [_ [b Hb]]%check_wf. unfold encoded; cbn [encode]. by rewrite Hb. Qed.
End checked_u8.

(** ** The rest of a packet, up to its remaining length *)

Lemma tail_at s n bs r m :
  at_ s n (bs ++ r) → m = Z.of_nat (n + length bs) →
  (m <=? len s) = true ∧ Z.to_nat m = (n + length bs)%nat
  ∧ slice s n (n + length bs) = Ok bs ∧ ((m =? Z.of_nat n) = true ↔ bs = []).
Proof.
  intros Hat ->. pose proof (at_length _ _ _ Hat) as Hlen. rewrite length_app in Hlen.
  split_and!.
  - apply Z.leb_le. unfold len. lia.
  - lia.
  - by eapply at_slice.
  - rewrite Z.eqb_eq. destruct bs; cbn [length]; [naive_solver lia|]. split; [lia|done].
Qed.

(** ** The stream a packet decoder is given

    [packet_stream t s]: if [s] starts with a valid fixed header, then it is the
    header of a packet of type [t] and [s] is exactly that packet: header and
    remaining length. *)
Definition packet_stream (t : PacketType) (s : bytes) : Prop :=
  ∀ fh n, FixedHeader_decode s = Ok (fh, n) →
    len s = Z.of_nat n + remaining_len fh
    ∧ ∀ pt retain qos dup, FixedHeader_unwrap fh = Ok (pt, retain, qos, dup) → pt = t.

Lemma dec_header_post t s :
  is_bytes s → packet_stream t s →
  post (dec_field FixedHeader_ s 0)
    (λ r, FixedHeader_validate r.1 = Ok () ∧ (2 ≤ r.2 ≤ length s)%nat
          ∧ 0 ≤ remaining_len r.1 ∧ len s = Z.of_nat r.2 + remaining_len r.1
          ∧ ∃ retain qos dup, FixedHeader_unwrap r.1 = Ok (t, retain, qos, dup)) dec_error.
Proof.
  intros Hs Hp. unfold dec_field. rewrite advance_le, drop_0 by lia; run.
  eapply post_bind; [by apply FixedHeader_decode_post|].
  intros [fh n] E ([? _] & ? & Hb & [? _] & Hv). apply post_Ok; cbn [fst snd Nat.add] in *.
  destruct (Hp fh n E) as [Hl Ht]. do 4 (split; [done || lia|]).
  pose proof (FixedHeader_validate_post fh Hb) as Hu. rewrite Hv in Hu.
  destruct Hu as [[[[pt r] q] d] Hu]. rewrite <-(Ht _ _ _ _ Hu). eauto.
Qed.

(** ** What a packet codec promises

    A packet decoder that is given exactly one packet of a type it handles does
    not panic, fails with a decoder error only, and returns a well-formed packet
    of that type.  An encoder does not panic; what it writes is one complete
    packet with a valid header of the packet's type; and decoding that gives the
    packet back, with empty optional parts normalised away, for the packets that
    are [stable]: those whose normal form the decoder accepts. *)

Abbreviation always_stable := (λ _, True).
Class PacketCodec {A} (c : Packetize A) (wf stable : A → Prop) (normalize : A → A)
    (type_of : A → PacketType) (types : list PacketType) : Prop := {
  pkt_decode t s : t ∈ types → is_bytes s → packet_stream t s →
    post (decode c s) (λ r, (0 < r.2 ≤ length s)%nat ∧ wf r.1 ∧ type_of r.1 = t) dec_error;
  pkt_encode v : wf v → post (encoded c v) is_bytes enc_error;
  pkt_framed v bs : wf v → encoded c v = Ok bs →
    ∃ b data, bs = framed b data ∧ len data ≤ VarU32_MAX ∧ is_u8 b
      ∧ Z.shiftr b 4 = PacketType_into_u8 (type_of v)
      ∧ FixedHeader_validate (MkFixedHeader b 0) = Ok ();
  pkt_roundtrip v bs rest : wf v → stable v → encoded c v = Ok bs →
    decode c (bs ++ rest) = Ok (normalize v, length bs);
}.

(** [read_field Hv He Hat]: the field whose encoding is next on the stream. *)
Ltac read_field c wf He Hat :=
  lazymatch type of He with
  | encoded _ ?v = Ok ?bs =>
      erewrite (dec_field_at c wf _ _ v bs); [|try done|exact He|exact Hat]; run;
      apply at_skip in Hat
  end.

Ltac read_field_if c wf He Hat :=
  lazymatch type of He with
  | from_option _ _ ?o = Ok ?bs =>
      erewrite (dec_field_if_at c wf _ _ o bs); [|try done|exact He|exact Hat]; run;
      apply at_skip in Hat
  end.

Ltac read_props_if c wf is_empty He Hat :=
  lazymatch type of He with
  | from_option _ _ ?o = Ok ?bs =>
      erewrite (dec_props_if_at c wf is_empty _ _ o bs); [|try done|exact He|exact Hat]; run;
      apply at_skip in Hat
  end.

Ltac read_props c wf is_empty He Hat :=
  lazymatch type of He with
  | encoded_props _ ?o = Ok ?bs =>
      erewrite (dec_props_at c wf is_empty _ _ o bs); [|try done|exact He|exact Hat]; run;
      apply at_skip in Hat
  end.

(** [check_field c wf]: the postcondition of reading a field. *)
Ltac check_field c wf :=
  eapply post_bind; [by apply (dec_field_post c wf)|];
  let v := fresh "v" in let n := fresh "n" in
  intros [v n] _ [? ?]; cbn [fst snd] in *.

Ltac check_field_if c wf :=
  eapply post_bind; [apply (dec_field_if_post c wf); [done|lia]|];
  let v := fresh "v" in let n := fresh "n" in
  intros [v n] _ [? ?]; cbn [fst snd] in *.

Ltac check_props c wf is_empty :=
  eapply post_bind; [by apply (dec_props_post c wf is_empty)|];
  let v := fresh "v" in let n := fresh "n" in
  intros [v n] _ [? ?]; cbn [fst snd] in *.

(** [check_emit]: the postcondition of appending one field after another and
    finishing the packet. *)
Ltac check_emit :=
  repeat lazymatch goal with
  | |- post (mbind _ (mbind _ _)) _ _ => rewrite outcome_bind_assoc
  | |- post (mbind _ (emit ?c ?v _)) _ _ =>
      eapply post_bind; [eapply emit_post; [apply _|try done|done]|intros ? _ ?]
  | |- post (mbind _ (emit_opt ?c ?v _)) _ _ =>
      eapply post_bind; [eapply emit_opt_post; [apply _|try done|done]|intros ? _ ?]
  | |- post (mbind _ (emit_props ?c ?v _)) _ _ =>
      eapply post_bind; [eapply emit_props_post; [apply _|try done|done]|intros ? _ ?]
  | |- post (mbind _ (emit_all ?c ?v _)) _ _ =>
      eapply post_bind; [eapply emit_all_post; [apply _|try done|done]|intros ? _ ?]
  end.
