(* ===== verification/V5PubAck.v ===== *)
(** * PUBACK, PUBREC, PUBREL, PUBCOMP (src/src/v5/pubaclc.rs) *)
From S2P Require Import Prelude Errors Utf8 Util Types V5Header V5Property V5Codec.
Local Open Scope Z_scope.

(** ** Properties *)

Record PubProperties := MkPubProperties {
  pubp_reason_string : option rstring;
  pubp_user_properties : list UserProperty_t;
}.
#[export] Instance PubProperties_eta : Eta PubProperties :=
  λ p, MkPubProperties (pubp_reason_string p) (pubp_user_properties p).

Definition PubProperties_default : PubProperties := MkPubProperties None [].

Definition PubProperties_step (props : PubProperties) (property : Property)
    : Result PubProperties :=
  match property with
  | P_ReasonString val => Ok (props <| pubp_reason_string := Some val |>)
  | P_UserProp val =>
      Ok (props <| pubp_user_properties := pubp_user_properties props ++ [val] |>)
  | _ => err EK_ProtocolError RC_ProtocolError
  end.

Definition PubProperties_decode (stream : bytes) : Result (PubProperties * nat) :=
  dec_properties [PropT_UserProp] PubProperties_step PubProperties_default stream.

Definition PubProperties_encode (p : PubProperties) : Result Blob :=
  data ← enc_prop_opt PropT_ReasonString String_ (pubp_reason_string p) [];
  data ← enc_prop_all PropT_UserProp UserProperty (pubp_user_properties p) data;
  finish_properties data.

Definition PubProperties_ : Packetize PubProperties :=
  MkPacketize PubProperties_decode PubProperties_encode.

Definition PubProperties_is_empty (p : PubProperties) : bool :=
  is_none (pubp_reason_string p) && (length (pubp_user_properties p) =? 0)%nat.

Definition wf_PubProperties (p : PubProperties) : Prop :=
  option_Forall wf_string (pubp_reason_string p)
  ∧ Forall wf_user_property (pubp_user_properties p).

#[export] Instance PubProperties_codec :
  PropsCodec PubProperties_ wf_PubProperties PubProperties_is_empty.
Proof.
  apply (prop_list_codec _ _ _ [PropT_UserProp] PubProperties_step PubProperties_default Ok
    wf_PubProperties [PropT_ReasonString; PropT_UserProp]
    (λ p, [P_ReasonString <$> option_list (pubp_reason_string p);
           P_UserProp <$> pubp_user_properties p])); try done.
  - intros s. apply dec_properties_ret.
  - intros p. unfold PubProperties_; cbn [encode]; unfold PubProperties_encode. props_enc.
  - intros p. props_slots.
  - intros p. unfold PubProperties_is_empty. props_empty.
  - intros p (? & ?). props_wf.
  - intros [? ?] (? & ?). cbn in *. unfold PubProperties_default. fold_slots. done.
  - repeat constructor.
  - intros [? ?] q (? & ?) Hq. props_step wf_PubProperties.
Qed.

(** ** Packets *)

Record Pub := MkPub {
  pub_packet_type : PacketType;
  pub_packet_id : Z;
  pub_code : ReasonCode;
  pub_properties : option PubProperties;
}.

Definition Pub_validate (p : Pub) : Result () :=
  invalid_code ← match pub_packet_type p with
  | PT_PubAck | PT_PubRec =>
      Ok match pub_code p with
         | RC_Success | RC_NoMatchingSubscribers | RC_UnspecifiedError
         | RC_ImplementationError | RC_NotAuthorized | RC_TopicNameInvalid
         | RC_PacketIdInuse | RC_PacketIdNotFound | RC_QuotaExceeded
         | RC_PayloadFormatInvalid => false
         | _ => true
         end
  | PT_PubRel | PT_PubComp =>
      Ok match pub_code p with
         | RC_Success | RC_PacketIdNotFound => false
         | _ => true
         end
  | _ => Panic
  end;
  if invalid_code : bool then err EK_MalformedPacket RC_MalformedPacket else Ok ().

Definition Pub_decode (stream : bytes) : Result (Pub * nat) :=
  '(fh, n) ← dec_field FixedHeader_ stream 0;
  _ ← FixedHeader_validate fh;
  '(packet_type, _, _, _) ← FixedHeader_unwrap fh;
  '(packet_id, n) ← dec_field u16 stream n;
  '(packet, n) ←
    (if remaining_len fh =? 2 then Ok (MkPub packet_type packet_id RC_Success None, n)
     else if remaining_len fh =? 3 then
       '(val, n) ← dec_field u8 stream n;
       code ← ReasonCode_try_from val;
       Ok (MkPub packet_type packet_id code None, n)
     else
       '(val, n) ← dec_field u8 stream n;
       code ← ReasonCode_try_from val;
       '(properties, n) ← dec_props PubProperties_ stream n;
       Ok (MkPub packet_type packet_id code properties, n));
  _ ← Pub_validate packet;
  Ok (packet, n).

(** The constructor of the fixed header, by packet type. *)
Definition Pub_header (p : Pub) (remlen : Z) : Result FixedHeader :=
  match pub_packet_type p with
  | PT_PubAck => FixedHeader_new PT_PubAck remlen
  | PT_PubRel => FixedHeader_new_pubrel remlen
  | PT_PubRec => FixedHeader_new PT_PubRec remlen
  | PT_PubComp => FixedHeader_new PT_PubComp remlen
  | _ => err_desc EK_ProtocolError
  end.

Definition Pub_encode (p : Pub) : Result Blob :=
  data ← emit u16 (pub_packet_id p) [];
  data ← emit u8 (ReasonCode_as_u8 (pub_code p)) data;
  data ← emit_props PubProperties_ (pub_properties p) data;
  finish_packet (Pub_header p) data.

Definition Pub_ : Packetize Pub := MkPacketize Pub_decode Pub_encode.

Definition Pub_new_pub_ack (packet_id : Z) : Pub := MkPub PT_PubAck packet_id RC_Success None.

Definition Pub_normalize (p : Pub) : Pub :=
  MkPub (pub_packet_type p) (pub_packet_id p) (pub_code p)
    (norm_props PubProperties_is_empty (pub_properties p)).

(** ** Packets are lawful *)

Definition pub_types : list PacketType := [PT_PubAck; PT_PubRec; PT_PubRel; PT_PubComp].

Definition wf_Pub (p : Pub) : Prop :=
  pub_packet_type p ∈ pub_types ∧ is_u16 (pub_packet_id p) ∧ Pub_validate p = Ok ()
  ∧ option_Forall wf_PubProperties (pub_properties p).

Lemma Pub_validate_post p :
  pub_packet_type p ∈ pub_types → post (Pub_validate p) (λ _, True) dec_error.
Proof.
  intros Ht. unfold Pub_validate. destruct p as [t i k o]; cbn in *.
  assert (∀ b : bool, post (if b then err EK_MalformedPacket RC_MalformedPacket else Ok ())
    (λ _ : (), True) dec_error) as Hb by (intros []; [dec_err|done]).
  destruct t; run; try apply Hb; set_solver.
Qed.

(** The first byte of an encoded packet. *)
Definition Pub_byte1 (p : Pub) : Z :=
  match pub_packet_type p with
  | PT_PubRel => 98
  | t => PacketType_into_u8 t * 16
  end.

Lemma Pub_header_for p :
  pub_packet_type p ∈ pub_types → header_for (Pub_header p) (Pub_byte1 p).
Proof.
  destruct p as [t i k o]; unfold Pub_header, Pub_byte1; cbn. intros Ht.
  destruct t; try set_solver; cbn; by repeat split.
Qed.

Lemma Pub_unwrap p r :
  pub_packet_type p ∈ pub_types →
  FixedHeader_unwrap (MkFixedHeader (Pub_byte1 p) r)
  = Ok (pub_packet_type p, false,
        if decide (pub_packet_type p = PT_PubRel) then QoS_AtLeastOnce else QoS_AtMostOnce, false).
Proof.
  destruct p as [t i k o]; unfold Pub_byte1; cbn [pub_packet_type]. intros Ht.
  destruct t; try set_solver; done.
Qed.

Lemma Pub_encoded p bs :
  pub_packet_type p ∈ pub_types → encoded Pub_ p = Ok bs →
  ∃ b1 b2 b3, encoded u16 (pub_packet_id p) = Ok b1
    ∧ encoded u8 (ReasonCode_as_u8 (pub_code p)) = Ok b2
    ∧ encoded_props PubProperties_ (pub_properties p) = Ok b3
    ∧ len (b1 ++ b2 ++ b3) ≤ VarU32_MAX
    ∧ bs = framed (Pub_byte1 p) (b1 ++ b2 ++ b3).
Proof.
  intros Ht (blob & E & Hb)%bind_Ok_inv. cbn [encode Pub_] in E. unfold Pub_encode in E.
  inv_emit E. eapply finish_packet_Ok in E as [? ->]; [|by apply Pub_header_for|done].
  do 3 eexists. by do 4 (split; [done|]).
Qed.

#[export] Instance Pub_codec : PacketCodec Pub_ wf_Pub always_stable Pub_normalize pub_packet_type pub_types.
Proof.
  split.
  - intros t s Ht Hs Hp. cbn [decode Pub_]. unfold Pub_decode.
    eapply post_bind; [by eapply dec_header_post|].
    intros [fh n] _ (Hv & Hn & Hr & Hl & retain & qos & dup & Hu); cbn [fst snd] in *.
    rewrite Hv, Hu; run. check_field u16 is_u16.
    apply (post_bind _ _ (λ r, (0 < r.2 ≤ length s)%nat ∧ pub_packet_type r.1 = t
      ∧ is_u16 (pub_packet_id r.1) ∧ option_Forall wf_PubProperties (pub_properties r.1))).
    + destruct (_ =? 2).
      { apply post_Ok; cbn. split_and!; try done; try lia; constructor. }
      destruct (_ =? 3).
      { check_field u8 is_u8. eapply post_bind; [apply ReasonCode_try_from_post|].
        intros code _ _. apply post_Ok; cbn. split_and!; try done; try lia; constructor. }
      check_field u8 is_u8. eapply post_bind; [apply ReasonCode_try_from_post|].
      intros code _ _. check_props PubProperties_ wf_PubProperties PubProperties_is_empty.
      apply post_Ok; cbn. split_and!; (done || lia).
    + intros [p m] _ (? & ? & ? & ?); cbn [fst snd] in *.
      eapply post_bind; [apply Pub_validate_post; by subst|]. intros [] Hval _.
      apply post_Ok; cbn. split; [lia|]. subst; done.
  - intros p (Ht & Hi & Hv & Hp). unfold encoded; cbn [encode Pub_]. unfold Pub_encode.
    check_emit; [apply ReasonCode_as_u8_range|].
    by eapply finish_packet_post; [apply Pub_header_for|].
  - intros p bs (Ht & Hi & Hv & Hp) (b1 & b2 & b3 & _ & _ & _ & Hl & ->)%Pub_encoded; [|done].
    exists (Pub_byte1 p), (b1 ++ b2 ++ b3).
    destruct (Pub_header_for p Ht) as (? & ? & _). do 3 (split; [done|]). split; [|done].
    unfold Pub_byte1. destruct (pub_packet_type p); done.
  - intros p bs rest (Ht & Hi & Hv & Hp) _ (b1 & b2 & b3 & E1 & E2 & E3 & Hl & ->)%Pub_encoded;
      [|done].
    destruct (dec_header_framed _ _ _ rest (Pub_header_for p Ht) Hl) as (Eh & Hat & Hval).
    cbn [decode Pub_]. unfold Pub_decode. rewrite Eh; run. rewrite Hval; run.
    rewrite (Pub_unwrap p _ Ht); run. rewrite <-!app_assoc in Hat.
    assert (4 ≤ len (b1 ++ b2 ++ b3)) as Hlen.
    { eapply encoded_props_pos in E3; [|apply _|done].
      rewrite u16_encoded in E1. rewrite u8_encoded in E2. simplify_eq.
      unfold len. rewrite !length_app. cbn [length u16_to_be_bytes]. lia. }
    cbn [remaining_len]. read_field u16 is_u16 E1 Hat.
    destruct (Z.eqb_spec (len (b1 ++ b2 ++ b3)) 2); [lia|].
    destruct (Z.eqb_spec (len (b1 ++ b2 ++ b3)) 3); [lia|].
    pose proof (ReasonCode_as_u8_range (pub_code p)). read_field u8 is_u8 E2 Hat.
    rewrite ReasonCode_try_from_as_u8; run.
    read_props PubProperties_ wf_PubProperties PubProperties_is_empty E3 Hat.
    unfold Pub_validate in *; cbn [pub_packet_type pub_code]. rewrite Hv; run.
    rewrite length_framed, !length_app. do 2 f_equal. lia.
Qed.
