(* ===== verification/V5Session.v ===== *)
(** * PINGREQ, PINGRESP, DISCONNECT and AUTH
    (src/src/v5/ping.rs, src/src/v5/disconnect.rs, src/src/v5/auth.rs) *)
From S2P Require Import Prelude Errors Utf8 Util Types V5Header V5Property V5Codec.
Local Open Scope Z_scope.

(** ** PINGREQ and PINGRESP *)

(** [PingReq::decode] and [PingResp::decode], the same text. *)
Definition Ping_decode (stream : bytes) : Result (() * nat) :=
  '(fh, n) ← dec_field FixedHeader_ stream 0;
  _ ← FixedHeader_validate fh;
  Ok ((), n).

(** [PingReq::encode] and [PingResp::encode], which differ in the packet type. *)
Definition Ping_encode (t : PacketType) : Result Blob :=
  fh ← FixedHeader_new t 0;
  bs ← encoded FixedHeader_ fh;
  data ← copy_into zeros32 0 2 bs;
  Ok (Blob_Small data 2).

Definition PingReq_ : Packetize () := MkPacketize Ping_decode (λ _, Ping_encode PT_PingReq).
Definition PingResp_ : Packetize () := MkPacketize Ping_decode (λ _, Ping_encode PT_PingResp).

(** ** DISCONNECT *)

Inductive DisconnReasonCode : Set :=
| DRC_NormalDisconnect
| DRC_DiconnectWillMessage
| DRC_UnspecifiedError
| DRC_MalformedPacket
| DRC_ProtocolError
| DRC_ImplementationError
| DRC_NotAuthorized
| DRC_ServerBusy
| DRC_ServerShutdown
| DRC_KeepAliveTimeout
| DRC_SessionTakenOver
| DRC_InvalidTopicFilter
| DRC_TopicNameInvalid
| DRC_ExceededReceiveMaximum
| DRC_TopicAliasInvalid
| DRC_PacketTooLarge
| DRC_ExceedMessageRate
| DRC_QuotaExceeded
| DRC_AdminAction
| DRC_PayloadFormatInvalid
| DRC_RetainNotSupported
| DRC_QoSNotSupported
| DRC_UseAnotherServer
| DRC_ServerMoved
| DRC_UnsupportedSharedSubscription
| DRC_ExceedConnectionRate
| DRC_ExceedMaximumConnectTime
| DRC_SubscriptionIdNotSupported
| DRC_WildcardSubscriptionsNotSupported.

#[global] Instance DisconnReasonCode_eq_dec : EqDecision DisconnReasonCode.
Proof. solve_decision. Defined.

(** [code as u8] *)
Definition DisconnReasonCode_as_u8 (c : DisconnReasonCode) : Z :=
  match c with
  | DRC_NormalDisconnect => 0x00
  | DRC_DiconnectWillMessage => 0x04
  | DRC_UnspecifiedError => 0x80
  | DRC_MalformedPacket => 0x81
  | DRC_ProtocolError => 0x82
  | DRC_ImplementationError => 0x83
  | DRC_NotAuthorized => 0x87
  | DRC_ServerBusy => 0x89
  | DRC_ServerShutdown => 0x8B
  | DRC_KeepAliveTimeout => 0x8D
  | DRC_SessionTakenOver => 0x8E
  | DRC_InvalidTopicFilter => 0x8F
  | DRC_TopicNameInvalid => 0x90
  | DRC_ExceededReceiveMaximum => 0x93
  | DRC_TopicAliasInvalid => 0x94
  | DRC_PacketTooLarge => 0x95
  | DRC_ExceedMessageRate => 0x96
  | DRC_QuotaExceeded => 0x97
  | DRC_AdminAction => 0x98
  | DRC_PayloadFormatInvalid => 0x99
  | DRC_RetainNotSupported => 0x9A
  | DRC_QoSNotSupported => 0x9B
  | DRC_UseAnotherServer => 0x9C
  | DRC_ServerMoved => 0x9D
  | DRC_UnsupportedSharedSubscription => 0x9E
  | DRC_ExceedConnectionRate => 0x9F
  | DRC_ExceedMaximumConnectTime => 0xA0
  | DRC_SubscriptionIdNotSupported => 0xA1
  | DRC_WildcardSubscriptionsNotSupported => 0xA2
  end.

Definition DisconnReasonCode_try_from (val : Z) : Result DisconnReasonCode :=
  match val with
  | 0x00 => Ok DRC_NormalDisconnect
  | 0x04 => Ok DRC_DiconnectWillMessage
  | 0x80 => Ok DRC_UnspecifiedError
  | 0x81 => Ok DRC_MalformedPacket
  | 0x82 => Ok DRC_ProtocolError
  | 0x83 => Ok DRC_ImplementationError
  | 0x87 => Ok DRC_NotAuthorized
  | 0x89 => Ok DRC_ServerBusy
  | 0x8B => Ok DRC_ServerShutdown
  | 0x8D => Ok DRC_KeepAliveTimeout
  | 0x8E => Ok DRC_SessionTakenOver
  | 0x8F => Ok DRC_InvalidTopicFilter
  | 0x90 => Ok DRC_TopicNameInvalid
  | 0x93 => Ok DRC_ExceededReceiveMaximum
  | 0x94 => Ok DRC_TopicAliasInvalid
  | 0x95 => Ok DRC_PacketTooLarge
  | 0x96 => Ok DRC_ExceedMessageRate
  | 0x97 => Ok DRC_QuotaExceeded
  | 0x98 => Ok DRC_AdminAction
  | 0x99 => Ok DRC_PayloadFormatInvalid
  | 0x9A => Ok DRC_RetainNotSupported
  | 0x9B => Ok DRC_QoSNotSupported
  | 0x9C => Ok DRC_UseAnotherServer
  | 0x9D => Ok DRC_ServerMoved
  | 0x9E => Ok DRC_UnsupportedSharedSubscription
  | 0x9F => Ok DRC_ExceedConnectionRate
  | 0xA0 => Ok DRC_ExceedMaximumConnectTime
  | 0xA1 => Ok DRC_SubscriptionIdNotSupported
  | 0xA2 => Ok DRC_WildcardSubscriptionsNotSupported
  | _ => err EK_MalformedPacket RC_MalformedPacket
  end.

Record DisconnProperties := MkDisconnProperties {
  disconn_session_expiry_interval : option Z;
  disconn_reason_string : option rstring;
  disconn_user_properties : list UserProperty_t;
  disconn_server_reference : option rstring;
}.
#[export] Instance DisconnProperties_eta : Eta DisconnProperties :=
  λ p, MkDisconnProperties (disconn_session_expiry_interval p) (disconn_reason_string p)
    (disconn_user_properties p) (disconn_server_reference p).

Definition DisconnProperties_default : DisconnProperties :=
  MkDisconnProperties None None [] None.

Definition DisconnProperties_step (props : DisconnProperties) (property : Property)
    : Result DisconnProperties :=
  match property with
  | P_SessionExpiryInterval val =>
      Ok (props <| disconn_session_expiry_interval := Some val |>)
  | P_ReasonString val => Ok (props <| disconn_reason_string := Some val |>)
  | P_ServerReference val => Ok (props <| disconn_server_reference := Some val |>)
  | P_UserProp val =>
      Ok (props <| disconn_user_properties := disconn_user_properties props ++ [val] |>)
  | _ => err EK_ProtocolError RC_ProtocolError
  end.

Definition DisconnProperties_decode (stream : bytes) : Result (DisconnProperties * nat) :=
  dec_properties [PropT_UserProp] DisconnProperties_step DisconnProperties_default stream.

Definition DisconnProperties_encode (p : DisconnProperties) : Result Blob :=
  data ← enc_prop_opt PropT_SessionExpiryInterval u32 (disconn_session_expiry_interval p) [];
  data ← enc_prop_opt PropT_ReasonString String_ (disconn_reason_string p) data;
  data ← enc_prop_opt PropT_ServerReference String_ (disconn_server_reference p) data;
  data ← enc_prop_all PropT_UserProp UserProperty (disconn_user_properties p) data;
  finish_properties data.

Definition DisconnProperties_ : Packetize DisconnProperties :=
  MkPacketize DisconnProperties_decode DisconnProperties_encode.

Definition DisconnProperties_is_empty (p : DisconnProperties) : bool :=
  is_none (disconn_session_expiry_interval p) && is_none (disconn_reason_string p)
  && (length (disconn_user_properties p) =? 0)%nat && is_none (disconn_server_reference p).

Record Disconnect := MkDisconnect {
  disconn_code : DisconnReasonCode;
  disconn_properties : option DisconnProperties;
}.

Definition Disconnect_decode (stream : bytes) : Result (Disconnect * nat) :=
  '(fh, n) ← dec_field FixedHeader_ stream 0;
  _ ← FixedHeader_validate fh;
  if remaining_len fh =? 0 then Ok (MkDisconnect DRC_NormalDisconnect None, n)
  else if remaining_len fh <? 2 then
    '(code, n) ← dec_field u8 stream n;
    code ← DisconnReasonCode_try_from code;
    Ok (MkDisconnect code None, n)
  else
    '(code, n) ← dec_field u8 stream n;
    code ← DisconnReasonCode_try_from code;
    '(properties, n) ← dec_props DisconnProperties_ stream n;
    Ok (MkDisconnect code properties, n).

Definition Disconnect_encode (p : Disconnect) : Result Blob :=
  data ← emit u8 (DisconnReasonCode_as_u8 (disconn_code p)) [];
  data ← emit_props DisconnProperties_ (disconn_properties p) data;
  finish_packet (FixedHeader_new PT_Disconnect) data.

Definition Disconnect_ : Packetize Disconnect := MkPacketize Disconnect_decode Disconnect_encode.

Definition Disconnect_normalize (p : Disconnect) : Disconnect :=
  MkDisconnect (disconn_code p) (norm_props DisconnProperties_is_empty (disconn_properties p)).

(** ** AUTH *)

Inductive AuthReasonCode : Set :=
| ARC_Success
| ARC_ContinueAuthentication
| ARC_ReAuthenticate.

#[global] Instance AuthReasonCode_eq_dec : EqDecision AuthReasonCode.
Proof. solve_decision. Defined.

(** [code as u8] *)
Definition AuthReasonCode_as_u8 (c : AuthReasonCode) : Z :=
  match c with
  | ARC_Success => 0x00
  | ARC_ContinueAuthentication => 0x18
  | ARC_ReAuthenticate => 0x19
  end.

Definition AuthReasonCode_try_from (val : Z) : Result AuthReasonCode :=
  match val with
  | 0x00 => Ok ARC_Success
  | 0x18 => Ok ARC_ContinueAuthentication
  | 0x19 => Ok ARC_ReAuthenticate
  | _ => err EK_ProtocolError RC_ProtocolError
  end.

Record AuthProperties := MkAuthProperties {
  auth_authentication_method : rstring;
  auth_authentication_data : bytes;
  auth_reason_string : option rstring;
  auth_user_properties : list UserProperty_t;
}.

(** The two mandatory properties are collected in local variables of [decode]:
    the state of its loop. *)
Record AuthState := MkAuthState {
  as_authentication_method : option rstring;
  as_authentication_data : option bytes;
  as_reason_string : option rstring;
  as_user_properties : list UserProperty_t;
}.
#[export] Instance AuthState_eta : Eta AuthState :=
  λ p, MkAuthState (as_authentication_method p) (as_authentication_data p)
    (as_reason_string p) (as_user_properties p).

Definition AuthState_default : AuthState := MkAuthState None None None [].

Definition AuthProperties_step (props : AuthState) (property : Property) : Result AuthState :=
  match property with
  | P_AuthenticationMethod val => Ok (props <| as_authentication_method := Some val |>)
  | P_AuthenticationData val => Ok (props <| as_authentication_data := Some val |>)
  | P_ReasonString val => Ok (props <| as_reason_string := Some val |>)
  | P_UserProp val => Ok (props <| as_user_properties := as_user_properties props ++ [val] |>)
  | _ => err EK_ProtocolError RC_ProtocolError
  end.

(** The end of [AuthProperties::decode]: both mandatory properties are present. *)
Definition AuthProperties_finish (st : AuthState) : Result AuthProperties :=
  method ← match as_authentication_method st with
           | Some val => Ok val
           | None => err EK_ProtocolError RC_ProtocolError
           end;
  data ← match as_authentication_data st with
         | Some val => Ok val
         | None => err EK_ProtocolError RC_ProtocolError
         end;
  Ok (MkAuthProperties method data (as_reason_string st) (as_user_properties st)).

Definition AuthProperties_decode (stream : bytes) : Result (AuthProperties * nat) :=
  '(st, n) ← dec_properties [PropT_UserProp] AuthProperties_step AuthState_default stream;
  p ← AuthProperties_finish st;
  Ok (p, n).

Definition AuthProperties_encode (p : AuthProperties) : Result Blob :=
  data ← enc_prop PropT_AuthenticationMethod String_ (auth_authentication_method p) [];
  data ← enc_prop PropT_AuthenticationData Vec_ (auth_authentication_data p) data;
  data ← enc_prop_opt PropT_ReasonString String_ (auth_reason_string p) data;
  data ← enc_prop_all PropT_UserProp UserProperty (auth_user_properties p) data;
  finish_properties data.

Definition AuthProperties_ : Packetize AuthProperties :=
  MkPacketize AuthProperties_decode AuthProperties_encode.

Record Auth := MkAuth {
  auth_code : AuthReasonCode;
  auth_properties : option AuthProperties;
}.

Definition Auth_decode (stream : bytes) : Result (Auth * nat) :=
  '(fh, n) ← dec_field FixedHeader_ stream 0;
  _ ← FixedHeader_validate fh;
  if remaining_len fh =? 0 then Ok (MkAuth ARC_Success None, n)
  else
    '(code, n) ← dec_field u8 stream n;
    code ← AuthReasonCode_try_from code;
    '(properties, n) ← dec_props AuthProperties_ stream n;
    Ok (MkAuth code properties, n).

Definition Auth_encode (p : Auth) : Result Blob :=
  data ← emit u8 (AuthReasonCode_as_u8 (auth_code p)) [];
  data ← emit_props AuthProperties_ (auth_properties p) data;
  finish_packet (FixedHeader_new PT_Auth) data.

Definition Auth_ : Packetize Auth := MkPacketize Auth_decode Auth_encode.

(** [Auth::normalize] does nothing. *)
Definition Auth_normalize (p : Auth) : Auth := p.

(** ** Pings are lawful *)

Lemma Ping_encoded t :
  t ∈ [PT_PingReq; PT_PingResp] →
  (b ← Ping_encode t; Blob_as_ref b) = Ok (framed (PacketType_into_u8 t * 16) []).
Proof. intros Ht. destruct t; try set_solver; done. Qed.

Lemma Ping_codec (c : Packetize ()) t :
  t ∈ [PT_PingReq; PT_PingResp] → c = MkPacketize Ping_decode (λ _, Ping_encode t) →
  PacketCodec c (λ _, True) always_stable id (λ _, t) [t].
Proof.
  intros Ht ->.
  assert (header_for (FixedHeader_new t) (PacketType_into_u8 t * 16)) as Hf.
  { apply header_for_new. set_solver. }
  assert (∀ v, encoded (MkPacketize Ping_decode (λ _, Ping_encode t)) v
    = Ok (framed (PacketType_into_u8 t * 16) [])) as He by (intros; by apply Ping_encoded).
  split.
  - intros t' s Ht' Hs Hp. cbn [decode]. unfold Ping_decode.
    eapply post_bind; [by eapply dec_header_post|].
    intros [fh n] _ (Hv & Hn & _); cbn [fst snd] in *. rewrite Hv; run.
    apply post_Ok; cbn. split; [lia|]. set_solver.
  - intros [] _. rewrite He. destruct Hf as (? & _). apply Forall_cons_2; [done|by repeat constructor].
  - intros v bs _ E. rewrite He in E; simplify_eq. exists (PacketType_into_u8 t * 16), [].
    destruct Hf as (? & ? & _). do 3 (split; [done|]). split; [|done]. by destruct t.
  - intros [] bs rest _ _ E. rewrite He in E; simplify_eq.
    destruct (dec_header_framed _ _ [] rest Hf) as (Eh & Hat & Hval); [done|].
    cbn [decode]. unfold Ping_decode. rewrite Eh; run. by rewrite Hval.
Qed.

#[export] Instance PingReq_codec : PacketCodec PingReq_ (λ _, True) always_stable id (λ _, PT_PingReq) [PT_PingReq].
Proof. apply Ping_codec; [set_solver|done]. Qed.
#[export] Instance PingResp_codec : PacketCodec PingResp_ (λ _, True) always_stable id (λ _, PT_PingResp) [PT_PingResp].
Proof. apply Ping_codec; [set_solver|done]. Qed.

(** ** DISCONNECT is lawful *)

Lemma DisconnReasonCode_try_from_as c : DisconnReasonCode_try_from (DisconnReasonCode_as_u8 c) = Ok c.
Proof. by destruct c. Qed.

Lemma DisconnReasonCode_as_u8_range c : is_u8 (DisconnReasonCode_as_u8 c).
Proof. unfold is_u8; destruct c; simpl; lia. Qed.

Lemma DisconnReasonCode_try_from_post val :
  post (DisconnReasonCode_try_from val) (λ c, DisconnReasonCode_as_u8 c = val) dec_error.
Proof. unfold DisconnReasonCode_try_from. enum_post. Qed.

Definition wf_DisconnProperties (p : DisconnProperties) : Prop :=
  option_Forall is_u32 (disconn_session_expiry_interval p)
  ∧ option_Forall wf_string (disconn_reason_string p)
  ∧ Forall wf_user_property (disconn_user_properties p)
  ∧ option_Forall wf_string (disconn_server_reference p).

#[export] Instance DisconnProperties_codec :
  PropsCodec DisconnProperties_ wf_DisconnProperties DisconnProperties_is_empty.
Proof.
  apply (prop_list_codec _ _ _ [PropT_UserProp] DisconnProperties_step DisconnProperties_default
    Ok wf_DisconnProperties
    [PropT_SessionExpiryInterval; PropT_ReasonString; PropT_ServerReference; PropT_UserProp]
    (λ p, [P_SessionExpiryInterval <$> option_list (disconn_session_expiry_interval p);
           P_ReasonString <$> option_list (disconn_reason_string p);
           P_ServerReference <$> option_list (disconn_server_reference p);
           P_UserProp <$> disconn_user_properties p])); try done.
  - intros s. apply dec_properties_ret.
  - intros p. unfold DisconnProperties_; cbn [encode]; unfold DisconnProperties_encode. props_enc.
  - intros p. props_slots.
  - intros p. unfold DisconnProperties_is_empty. props_empty.
  - intros p (? & ? & ? & ?). props_wf.
  - intros [? ? ? ?] (? & ? & ? & ?). cbn in *. unfold DisconnProperties_default. fold_slots. done.
  - repeat constructor.
  - intros [? ? ? ?] q (? & ? & ? & ?) Hq. props_step wf_DisconnProperties.
Qed.

Definition wf_Disconnect (p : Disconnect) : Prop :=
  option_Forall wf_DisconnProperties (disconn_properties p).

Lemma Disconnect_encoded p bs :
  encoded Disconnect_ p = Ok bs →
  ∃ b1 b2, encoded u8 (DisconnReasonCode_as_u8 (disconn_code p)) = Ok b1
    ∧ encoded_props DisconnProperties_ (disconn_properties p) = Ok b2
    ∧ len (b1 ++ b2) ≤ VarU32_MAX ∧ bs = framed 224 (b1 ++ b2).
Proof.
  intros (blob & E & Hb)%bind_Ok_inv. cbn [encode Disconnect_] in E. unfold Disconnect_encode in E.
  inv_emit E. eapply finish_packet_Ok in E as [? ->]; [|apply header_for_new; set_solver|done].
  do 2 eexists. by do 3 (split; [done|]).
Qed.

#[export] Instance Disconnect_codec :
  PacketCodec Disconnect_ wf_Disconnect always_stable Disconnect_normalize (λ _, PT_Disconnect) [PT_Disconnect].
Proof.
  assert (header_for (FixedHeader_new PT_Disconnect) 224) as Hf
    by (apply (header_for_new PT_Disconnect); set_solver).
  split.
  - intros t s ->%list_elem_of_singleton Hs Hp. cbn [decode Disconnect_]. unfold Disconnect_decode.
    eapply post_bind; [by eapply dec_header_post|].
    intros [fh n] _ (Hv & Hn & _); cbn [fst snd] in *. rewrite Hv; run.
    destruct (_ =? 0).
    { apply post_Ok; cbn. split_and!; (done || lia || constructor). }
    destruct (_ <? 2).
    { check_field u8 is_u8. eapply post_bind; [apply DisconnReasonCode_try_from_post|].
      intros code _ _. apply post_Ok; cbn. split_and!; (done || lia || constructor). }
    check_field u8 is_u8. eapply post_bind; [apply DisconnReasonCode_try_from_post|].
    intros code _ _. check_props DisconnProperties_ wf_DisconnProperties DisconnProperties_is_empty.
    apply post_Ok; cbn. split_and!; (done || lia).
  - intros p Hp. unfold encoded; cbn [encode Disconnect_]. unfold Disconnect_encode.
    check_emit; [apply DisconnReasonCode_as_u8_range|]. by eapply finish_packet_post.
  - intros p bs Hp (b1 & b2 & _ & _ & Hl & ->)%Disconnect_encoded.
    exists 224, (b1 ++ b2). destruct Hf as (? & ? & _). by do 4 (split; [done|]).
  - intros p bs rest Hp _ (b1 & b2 & E1 & E2 & Hl & ->)%Disconnect_encoded.
    destruct (dec_header_framed _ _ _ rest Hf Hl) as (Eh & Hat & Hval).
    assert (2 ≤ len (b1 ++ b2)).
    { pose proof (encoded_props_pos _ _ _ _ _ Hp E2). rewrite u8_encoded in E1; simplify_eq.
      unfold len. rewrite !length_app. cbn [length]. lia. }
    cbn [decode Disconnect_]. unfold Disconnect_decode. rewrite Eh; run. rewrite Hval; run.
    rewrite <-!app_assoc in Hat. cbn [remaining_len].
    destruct (Z.eqb_spec (len (b1 ++ b2)) 0); [lia|].
    destruct (Z.ltb_spec (len (b1 ++ b2)) 2); [lia|].
    pose proof (DisconnReasonCode_as_u8_range (disconn_code p)). read_field u8 is_u8 E1 Hat.
    rewrite DisconnReasonCode_try_from_as; run.
    read_props DisconnProperties_ wf_DisconnProperties DisconnProperties_is_empty E2 Hat.
    rewrite length_framed, !length_app. do 2 f_equal. lia.
Qed.

(** ** AUTH is lawful *)

Lemma AuthReasonCode_try_from_as c : AuthReasonCode_try_from (AuthReasonCode_as_u8 c) = Ok c.
Proof. by destruct c. Qed.

Lemma AuthReasonCode_as_u8_range c : is_u8 (AuthReasonCode_as_u8 c).
Proof. unfold is_u8; destruct c; simpl; lia. Qed.

Lemma AuthReasonCode_try_from_post val :
  post (AuthReasonCode_try_from val) (λ c, AuthReasonCode_as_u8 c = val) dec_error.
Proof. unfold AuthReasonCode_try_from. enum_post. Qed.

Definition wf_AuthProperties (p : AuthProperties) : Prop :=
  wf_string (auth_authentication_method p) ∧ is_bytes (auth_authentication_data p)
  ∧ option_Forall wf_string (auth_reason_string p)
  ∧ Forall wf_user_property (auth_user_properties p).

Definition wf_AuthState (p : AuthState) : Prop :=
  option_Forall wf_string (as_authentication_method p)
  ∧ option_Forall is_bytes (as_authentication_data p)
  ∧ option_Forall wf_string (as_reason_string p)
  ∧ Forall wf_user_property (as_user_properties p).

#[export] Instance AuthProperties_codec :
  PropsCodec AuthProperties_ wf_AuthProperties (λ _, false).
Proof.
  apply (prop_list_codec _ _ _ [PropT_UserProp] AuthProperties_step AuthState_default
    AuthProperties_finish wf_AuthState
    [PropT_AuthenticationMethod; PropT_AuthenticationData; PropT_ReasonString; PropT_UserProp]
    (λ p, [[P_AuthenticationMethod (auth_authentication_method p)];
           [P_AuthenticationData (auth_authentication_data p)];
           P_ReasonString <$> option_list (auth_reason_string p);
           P_UserProp <$> auth_user_properties p])); try done.
  - intros p. unfold AuthProperties_; cbn [encode]; unfold AuthProperties_encode. props_enc.
  - intros p. props_slots.
  - intros p (? & ? & ? & ?). props_wf.
  - intros [? ? ? ?] (? & ? & ? & ?). cbn in *. unfold AuthState_default. fold_slots. done.
  - repeat constructor.
  - intros [? ? ? ?] q (? & ? & ? & ?) Hq. props_step wf_AuthState.
  - intros [[?|] [?|] ? ?] (H1 & H2 & ? & ?); cbn in *; try dec_err.
    inversion H1; inversion H2; subst. done.
Qed.

Definition wf_Auth (p : Auth) : Prop := option_Forall wf_AuthProperties (auth_properties p).

Lemma Auth_encoded p bs :
  encoded Auth_ p = Ok bs →
  ∃ b1 b2, encoded u8 (AuthReasonCode_as_u8 (auth_code p)) = Ok b1
    ∧ encoded_props AuthProperties_ (auth_properties p) = Ok b2
    ∧ len (b1 ++ b2) ≤ VarU32_MAX ∧ bs = framed 240 (b1 ++ b2).
Proof.
  intros (blob & E & Hb)%bind_Ok_inv. cbn [encode Auth_] in E. unfold Auth_encode in E.
  inv_emit E. eapply finish_packet_Ok in E as [? ->]; [|apply header_for_new; set_solver|done].
  do 2 eexists. by do 3 (split; [done|]).
Qed.

#[export] Instance Auth_codec :
  PacketCodec Auth_ wf_Auth always_stable Auth_normalize (λ _, PT_Auth) [PT_Auth].
Proof.
  assert (header_for (FixedHeader_new PT_Auth) 240) as Hf
    by (apply (header_for_new PT_Auth); set_solver).
  split.
  - intros t s ->%list_elem_of_singleton Hs Hp. cbn [decode Auth_]. unfold Auth_decode.
    eapply post_bind; [by eapply dec_header_post|].
    intros [fh n] _ (Hv & Hn & _); cbn [fst snd] in *. rewrite Hv; run.
    destruct (_ =? 0).
    { apply post_Ok; cbn. split_and!; (done || lia || constructor). }
    check_field u8 is_u8. eapply post_bind; [apply AuthReasonCode_try_from_post|].
    intros code _ _. check_props AuthProperties_ wf_AuthProperties (λ _ : AuthProperties, false).
    apply post_Ok; cbn. split_and!; (done || lia).
  - intros p Hp. unfold encoded; cbn [encode Auth_]. unfold Auth_encode.
    check_emit; [apply AuthReasonCode_as_u8_range|]. by eapply finish_packet_post.
  - intros p bs Hp (b1 & b2 & _ & _ & Hl & ->)%Auth_encoded.
    exists 240, (b1 ++ b2). destruct Hf as (? & ? & _). by do 4 (split; [done|]).
  - intros p bs rest Hp _ (b1 & b2 & E1 & E2 & Hl & ->)%Auth_encoded.
    destruct (dec_header_framed _ _ _ rest Hf Hl) as (Eh & Hat & Hval).
    cbn [decode Auth_]. unfold Auth_decode. rewrite Eh; run. rewrite Hval; run.
    rewrite <-!app_assoc in Hat. cbn [remaining_len].
    destruct (Z.eqb_spec (len (b1 ++ b2)) 0) as [E0|_].
    { rewrite u8_encoded in E1; simplify_eq. }
    pose proof (AuthReasonCode_as_u8_range (auth_code p)). read_field u8 is_u8 E1 Hat.
    rewrite AuthReasonCode_try_from_as; run.
    read_props AuthProperties_ wf_AuthProperties (λ _ : AuthProperties, false) E2 Hat.
    rewrite length_framed, !length_app. destruct p as [code []]; do 2 f_equal; lia.
Qed.
