(* ===== verification/V5ConnAck.v ===== *)
(** * CONNACK (src/src/v5/connack.rs) *)
From S2P Require Import Prelude Errors Utf8 Util Types V5Header V5Property V5Codec.
Local Open Scope Z_scope.

(** ** Flags *)

Definition ConnackFlags_SESSION_PRESENT : Z := 1.

(** [ConnackFlags::unwrap]: the [session_present] flag. *)
Definition ConnackFlags_unwrap (flags : Z) : Result bool :=
  if 0 <? Z.land flags 0xFE then err EK_MalformedPacket RC_MalformedPacket
  else Ok (0 <? Z.land flags ConnackFlags_SESSION_PRESENT).

Definition ConnackFlags_decode (stream : bytes) : Result (Z * nat) :=
  '(flags, n) ← dec_field u8 stream 0;
  _ ← ConnackFlags_unwrap flags;
  Ok (flags, n).

Definition ConnackFlags_encode (flags : Z) : Result Blob :=
  _ ← ConnackFlags_unwrap flags;
  u8_encode flags.

Definition ConnackFlags_ : Packetize Z := MkPacketize ConnackFlags_decode ConnackFlags_encode.

(** ** Reason codes *)

Inductive ConnackReasonCode : Set :=
| CRC_Success
| CRC_UnspecifiedError
| CRC_MalformedPacket
| CRC_ProtocolError
| CRC_ImplementationError
| CRC_UnsupportedProtocolVersion
| CRC_InvalidClientID
| CRC_BadLogin
| CRC_NotAuthorized
| CRC_ServerUnavailable
| CRC_ServerBusy
| CRC_Banned
| CRC_BadAuthenticationMethod
| CRC_TopicNameInvalid
| CRC_PacketTooLarge
| CRC_QuotaExceeded
| CRC_PayloadFormatInvalid
| CRC_RetainNotSupported
| CRC_InvalidQoS
| CRC_UseAnotherServer
| CRC_ServerMoved
| CRC_ExceedConnectionRate.

#[global] Instance ConnackReasonCode_eq_dec : EqDecision ConnackReasonCode.
Proof. solve_decision. Defined.

(** [code as u8] *)
Definition ConnackReasonCode_as_u8 (c : ConnackReasonCode) : Z :=
  match c with
  | CRC_Success => 0x00
  | CRC_UnspecifiedError => 0x80
  | CRC_MalformedPacket => 0x81
  | CRC_ProtocolError => 0x82
  | CRC_ImplementationError => 0x83
  | CRC_UnsupportedProtocolVersion => 0x84
  | CRC_InvalidClientID => 0x85
  | CRC_BadLogin => 0x86
  | CRC_NotAuthorized => 0x87
  | CRC_ServerUnavailable => 0x88
  | CRC_ServerBusy => 0x89
  | CRC_Banned => 0x8A
  | CRC_BadAuthenticationMethod => 0x8C
  | CRC_TopicNameInvalid => 0x90
  | CRC_PacketTooLarge => 0x95
  | CRC_QuotaExceeded => 0x97
  | CRC_PayloadFormatInvalid => 0x99
  | CRC_RetainNotSupported => 0x9A
  | CRC_InvalidQoS => 0x9B
  | CRC_UseAnotherServer => 0x9C
  | CRC_ServerMoved => 0x9D
  | CRC_ExceedConnectionRate => 0x9F
  end.

Definition ConnackReasonCode_try_from (val : Z) : Result ConnackReasonCode :=
  match val with
  | 0x00 => Ok CRC_Success
  | 0x80 => Ok CRC_UnspecifiedError
  | 0x81 => Ok CRC_MalformedPacket
  | 0x82 => Ok CRC_ProtocolError
  | 0x83 => Ok CRC_ImplementationError
  | 0x84 => Ok CRC_UnsupportedProtocolVersion
  | 0x85 => Ok CRC_InvalidClientID
  | 0x86 => Ok CRC_BadLogin
  | 0x87 => Ok CRC_NotAuthorized
  | 0x88 => Ok CRC_ServerUnavailable
  | 0x89 => Ok CRC_ServerBusy
  | 0x8A => Ok CRC_Banned
  | 0x8C => Ok CRC_BadAuthenticationMethod
  | 0x90 => Ok CRC_TopicNameInvalid
  | 0x95 => Ok CRC_PacketTooLarge
  | 0x97 => Ok CRC_QuotaExceeded
  | 0x99 => Ok CRC_PayloadFormatInvalid
  | 0x9A => Ok CRC_RetainNotSupported
  | 0x9B => Ok CRC_InvalidQoS
  | 0x9C => Ok CRC_UseAnotherServer
  | 0x9D => Ok CRC_ServerMoved
  | 0x9F => Ok CRC_ExceedConnectionRate
  | _ => err EK_MalformedPacket RC_MalformedPacket
  end.

(** ** Properties *)

Record ConnAckProperties := MkConnAckProperties {
  cap_session_expiry_interval : option Z;
  cap_receive_maximum : option Z;
  cap_maximum_qos : option QoS;
  cap_retain_available : option bool;
  cap_max_packet_size : option Z;
  cap_assigned_client_identifier : option rstring;
  cap_topic_alias_max : option Z;
  cap_reason_string : option rstring;
  cap_wildcard_subscription_available : option bool;
  cap_subscription_identifiers_available : option bool;
  cap_shared_subscription_available : option bool;
  cap_server_keep_alive : option Z;
  cap_response_information : option rstring;
  cap_server_reference : option rstring;
  cap_authentication_method : option rstring;
  cap_authentication_data : option bytes;
  cap_user_properties : list UserProperty_t;
}.
#[export] Instance ConnAckProperties_eta : Eta ConnAckProperties :=
  λ p, MkConnAckProperties
    (cap_session_expiry_interval p) (cap_receive_maximum p)
    (cap_maximum_qos p) (cap_retain_available p)
    (cap_max_packet_size p) (cap_assigned_client_identifier p)
    (cap_topic_alias_max p) (cap_reason_string p)
    (cap_wildcard_subscription_available p) (cap_subscription_identifiers_available p)
    (cap_shared_subscription_available p) (cap_server_keep_alive p)
    (cap_response_information p) (cap_server_reference p)
    (cap_authentication_method p) (cap_authentication_data p)
    (cap_user_properties p).

Definition ConnAckProperties_default : ConnAckProperties :=
  MkConnAckProperties None None None None None None None None None None None None None None None None [].

Definition ConnAckProperties_step (props : ConnAckProperties) (property : Property)
    : Result ConnAckProperties :=
  match property with
  | P_SessionExpiryInterval val => Ok (props <| cap_session_expiry_interval := Some val |>)
  | P_ReceiveMaximum val =>
      if val =? 0 then err EK_ProtocolError RC_ProtocolError
      else Ok (props <| cap_receive_maximum := Some val |>)
  | P_MaximumQoS val => Ok (props <| cap_maximum_qos := Some val |>)
  | P_RetainAvailable 0 => Ok (props <| cap_retain_available := Some false |>)
  | P_RetainAvailable 1 => Ok (props <| cap_retain_available := Some true |>)
  | P_RetainAvailable _ => err EK_ProtocolError RC_ProtocolError
  | P_MaximumPacketSize val =>
      if val =? 0 then err EK_ProtocolError RC_ProtocolError
      else Ok (props <| cap_max_packet_size := Some val |>)
  | P_AssignedClientIdentifier val => Ok (props <| cap_assigned_client_identifier := Some val |>)
  | P_TopicAliasMaximum val => Ok (props <| cap_topic_alias_max := Some val |>)
  | P_ReasonString val => Ok (props <| cap_reason_string := Some val |>)
  | P_WildcardSubscriptionAvailable 0 => Ok (props <| cap_wildcard_subscription_available := Some false |>)
  | P_WildcardSubscriptionAvailable 1 => Ok (props <| cap_wildcard_subscription_available := Some true |>)
  | P_WildcardSubscriptionAvailable _ => err EK_ProtocolError RC_ProtocolError
  | P_SubscriptionIdentifierAvailable 0 => Ok (props <| cap_subscription_identifiers_available := Some false |>)
  | P_SubscriptionIdentifierAvailable 1 => Ok (props <| cap_subscription_identifiers_available := Some true |>)
  | P_SubscriptionIdentifierAvailable _ => err EK_ProtocolError RC_ProtocolError
  | P_SharedSubscriptionAvailable 0 => Ok (props <| cap_shared_subscription_available := Some false |>)
  | P_SharedSubscriptionAvailable 1 => Ok (props <| cap_shared_subscription_available := Some true |>)
  | P_SharedSubscriptionAvailable _ => err EK_ProtocolError RC_ProtocolError
  | P_ServerKeepAlive val => Ok (props <| cap_server_keep_alive := Some val |>)
  | P_ResponseInformation val => Ok (props <| cap_response_information := Some val |>)
  | P_ServerReference val => Ok (props <| cap_server_reference := Some val |>)
  | P_AuthenticationMethod val => Ok (props <| cap_authentication_method := Some val |>)
  | P_AuthenticationData val => Ok (props <| cap_authentication_data := Some val |>)
  | P_UserProp val =>
      Ok (props <| cap_user_properties := cap_user_properties props ++ [val] |>)
  | _ => err EK_ProtocolError RC_ProtocolError
  end.

Definition ConnAckProperties_decode (stream : bytes) : Result (ConnAckProperties * nat) :=
  dec_properties [PropT_UserProp] ConnAckProperties_step ConnAckProperties_default stream.

Definition ConnAckProperties_encode (p : ConnAckProperties) : Result Blob :=
  data ← enc_prop_opt PropT_SessionExpiryInterval u32 (cap_session_expiry_interval p) [];
  data ← enc_prop_opt PropT_ReceiveMaximum u16 (cap_receive_maximum p) data;
  data ← enc_prop_opt PropT_MaximumQoS u8 (QoS_into_u8 <$> cap_maximum_qos p) data;
  data ← enc_prop_opt PropT_RetainAvailable u8 (bool_as_u8 <$> cap_retain_available p) data;
  data ← enc_prop_opt PropT_MaximumPacketSize u32 (cap_max_packet_size p) data;
  data ← enc_prop_opt PropT_AssignedClientIdentifier String_ (cap_assigned_client_identifier p) data;
  data ← enc_prop_opt PropT_TopicAliasMaximum u16 (cap_topic_alias_max p) data;
  data ← enc_prop_opt PropT_ReasonString String_ (cap_reason_string p) data;
  data ← enc_prop_opt PropT_WildcardSubscriptionAvailable u8 (bool_as_u8 <$> cap_wildcard_subscription_available p) data;
  data ← enc_prop_opt PropT_SubscriptionIdentifierAvailable u8 (bool_as_u8 <$> cap_subscription_identifiers_available p) data;
  data ← enc_prop_opt PropT_SharedSubscriptionAvailable u8 (bool_as_u8 <$> cap_shared_subscription_available p) data;
  data ← enc_prop_opt PropT_ServerKeepAlive u16 (cap_server_keep_alive p) data;
  data ← enc_prop_opt PropT_ResponseInformation String_ (cap_response_information p) data;
  data ← enc_prop_opt PropT_ServerReference String_ (cap_server_reference p) data;
  data ← enc_prop_opt PropT_AuthenticationMethod String_ (cap_authentication_method p) data;
  data ← enc_prop_opt PropT_AuthenticationData Vec_ (cap_authentication_data p) data;
  data ← enc_prop_all PropT_UserProp UserProperty (cap_user_properties p) data;
  finish_properties data.

Definition ConnAckProperties_ : Packetize ConnAckProperties :=
  MkPacketize ConnAckProperties_decode ConnAckProperties_encode.

Definition ConnAckProperties_is_empty (p : ConnAckProperties) : bool :=
  is_none (cap_session_expiry_interval p)
  && is_none (cap_receive_maximum p)
  && is_none (cap_maximum_qos p)
  && is_none (cap_retain_available p)
  && is_none (cap_max_packet_size p)
  && is_none (cap_assigned_client_identifier p)
  && is_none (cap_topic_alias_max p)
  && is_none (cap_reason_string p)
  && is_none (cap_wildcard_subscription_available p)
  && is_none (cap_subscription_identifiers_available p)
  && is_none (cap_shared_subscription_available p)
  && is_none (cap_server_keep_alive p)
  && is_none (cap_response_information p)
  && is_none (cap_server_reference p)
  && is_none (cap_authentication_method p)
  && is_none (cap_authentication_data p)
  && (length (cap_user_properties p) =? 0)%nat.

(** ** Packet *)

Record ConnAck := MkConnAck {
  connack_flags : Z;
  connack_code : ConnackReasonCode;
  connack_properties : option ConnAckProperties;
}.

Definition ConnAck_new_success (ps : option ConnAckProperties) : ConnAck :=
  MkConnAck 0 CRC_Success ps.

Definition ConnAck_set_session_present (p : ConnAck) : ConnAck :=
  MkConnAck (Z.lor (connack_flags p) ConnackFlags_SESSION_PRESENT)
    (connack_code p) (connack_properties p).

Definition ConnAck_from_reason_code (code : ConnackReasonCode) : ConnAck := MkConnAck 0 code None.

Definition ConnAck_normalize (p : ConnAck) : ConnAck :=
  MkConnAck (connack_flags p) (connack_code p)
    (norm_props ConnAckProperties_is_empty (connack_properties p)).

Definition ConnAck_decode (stream : bytes) : Result (ConnAck * nat) :=
  '(fh, n) ← dec_field FixedHeader_ stream 0;
  _ ← FixedHeader_validate fh;
  '(flags, n) ← dec_field ConnackFlags_ stream n;
  '(code, n) ← dec_field u8 stream n;
  code ← ConnackReasonCode_try_from code;
  '(properties, n) ← dec_props ConnAckProperties_ stream n;
  Ok (MkConnAck flags code properties, n).

(** The flags are written as a plain byte. *)
Definition ConnAck_encode (p : ConnAck) : Result Blob :=
  data ← emit u8 (connack_flags p) [];
  data ← emit u8 (ConnackReasonCode_as_u8 (connack_code p)) data;
  data ← emit_props ConnAckProperties_ (connack_properties p) data;
  finish_packet (FixedHeader_new PT_ConnAck) data.

Definition ConnAck_ : Packetize ConnAck := MkPacketize ConnAck_decode ConnAck_encode.

(** ** CONNACK is lawful *)

Lemma ConnackReasonCode_try_from_as c : ConnackReasonCode_try_from (ConnackReasonCode_as_u8 c) = Ok c.
Proof. by destruct c. Qed.

Lemma ConnackReasonCode_as_u8_range c : is_u8 (ConnackReasonCode_as_u8 c).
Proof. unfold is_u8; destruct c; simpl; lia. Qed.

Lemma ConnackReasonCode_try_from_post val :
  post (ConnackReasonCode_try_from val) (λ c, ConnackReasonCode_as_u8 c = val) dec_error.
Proof. unfold ConnackReasonCode_try_from. enum_post. Qed.

(** Only the [session_present] bit may be set. *)
Definition wf_ConnackFlags (flags : Z) : Prop := flags = 0 ∨ flags = 1.

Lemma ConnackFlags_unwrap_post flags :
  is_u8 flags → post (ConnackFlags_unwrap flags) (λ _, wf_ConnackFlags flags) dec_error.
Proof.
  revert flags. apply (forall_u8 _ (λ z,
    match ConnackFlags_unwrap z with
    | Ok _ => (z =? 0) || (z =? 1)
    | Err e => bool_decide (dec_error e)
    | _ => false
    end)); [|by vm_compute].
  intros z. unfold wf_ConnackFlags. destruct (ConnackFlags_unwrap z); cbn; try done.
  - intros [?%Z.eqb_eq|?%Z.eqb_eq]%orb_true_iff; lia.
  - by intros ?%bool_decide_eq_true_1.
Qed.

Lemma ConnackFlags_unwrap_wf flags :
  wf_ConnackFlags flags → is_u8 flags ∧ ∃ b, ConnackFlags_unwrap flags = Ok b.
Proof. intros [-> | ->]; (split; [done|eauto]). Qed.

#[export] Instance ConnackFlags_lawful : Lawful ConnackFlags_ wf_ConnackFlags.
Proof.
  apply (checked_u8_lawful ConnackFlags_unwrap);
    [apply ConnackFlags_unwrap_post|apply ConnackFlags_unwrap_wf].
Qed.

Definition wf_ConnAckProperties (p : ConnAckProperties) : Prop :=
  option_Forall is_u32 (cap_session_expiry_interval p)
  ∧ option_Forall (λ v, is_u16 v ∧ v ≠ 0) (cap_receive_maximum p)
  ∧ option_Forall (λ v, is_u32 v ∧ v ≠ 0) (cap_max_packet_size p)
  ∧ option_Forall wf_string (cap_assigned_client_identifier p)
  ∧ option_Forall is_u16 (cap_topic_alias_max p)
  ∧ option_Forall wf_string (cap_reason_string p)
  ∧ option_Forall is_u16 (cap_server_keep_alive p)
  ∧ option_Forall wf_string (cap_response_information p)
  ∧ option_Forall wf_string (cap_server_reference p)
  ∧ option_Forall wf_string (cap_authentication_method p)
  ∧ option_Forall is_bytes (cap_authentication_data p)
  ∧ Forall wf_user_property (cap_user_properties p).

#[export] Instance ConnAckProperties_codec :
  PropsCodec ConnAckProperties_ wf_ConnAckProperties ConnAckProperties_is_empty.
Proof.
  apply (prop_list_codec _ _ _ [PropT_UserProp] ConnAckProperties_step ConnAckProperties_default
    Ok wf_ConnAckProperties
    [PropT_SessionExpiryInterval; PropT_ReceiveMaximum; PropT_MaximumQoS; PropT_RetainAvailable; PropT_MaximumPacketSize; PropT_AssignedClientIdentifier; PropT_TopicAliasMaximum; PropT_ReasonString; PropT_WildcardSubscriptionAvailable; PropT_SubscriptionIdentifierAvailable; PropT_SharedSubscriptionAvailable; PropT_ServerKeepAlive; PropT_ResponseInformation; PropT_ServerReference; PropT_AuthenticationMethod; PropT_AuthenticationData; PropT_UserProp]
    (λ p, [P_SessionExpiryInterval <$> option_list (cap_session_expiry_interval p);
           P_ReceiveMaximum <$> option_list (cap_receive_maximum p);
           P_MaximumQoS <$> option_list (cap_maximum_qos p);
           (λ b, P_RetainAvailable (bool_as_u8 b)) <$> option_list (cap_retain_available p);
           P_MaximumPacketSize <$> option_list (cap_max_packet_size p);
           P_AssignedClientIdentifier <$> option_list (cap_assigned_client_identifier p);
           P_TopicAliasMaximum <$> option_list (cap_topic_alias_max p);
           P_ReasonString <$> option_list (cap_reason_string p);
           (λ b, P_WildcardSubscriptionAvailable (bool_as_u8 b)) <$> option_list (cap_wildcard_subscription_available p);
           (λ b, P_SubscriptionIdentifierAvailable (bool_as_u8 b)) <$> option_list (cap_subscription_identifiers_available p);
           (λ b, P_SharedSubscriptionAvailable (bool_as_u8 b)) <$> option_list (cap_shared_subscription_available p);
           P_ServerKeepAlive <$> option_list (cap_server_keep_alive p);
           P_ResponseInformation <$> option_list (cap_response_information p);
           P_ServerReference <$> option_list (cap_server_reference p);
           P_AuthenticationMethod <$> option_list (cap_authentication_method p);
           P_AuthenticationData <$> option_list (cap_authentication_data p);
           P_UserProp <$> cap_user_properties p])); try done.
  - intros s. apply dec_properties_ret.
  - intros p. unfold ConnAckProperties_; cbn [encode]; unfold ConnAckProperties_encode. props_enc.
  - intros p. props_slots.
  - intros p. unfold ConnAckProperties_is_empty. props_empty.
  - intros p (? & ? & ? & ? & ? & ? & ? & ? & ? & ? & ? & ?). props_wf.
  - intros [? ? ? ? ? ? ? ? ? ? ? ? ? ? ? ? ?] (? & ? & ? & ? & ? & ? & ? & ? & ? & ? & ? & ?). cbn in *. unfold ConnAckProperties_default. fold_slots. done.
  - repeat constructor.
  - intros [? ? ? ? ? ? ? ? ? ? ? ? ? ? ? ? ?] q (? & ? & ? & ? & ? & ? & ? & ? & ? & ? & ? & ?) Hq. props_step wf_ConnAckProperties.
Qed.

Definition wf_ConnAck (p : ConnAck) : Prop :=
  wf_ConnackFlags (connack_flags p) ∧ option_Forall wf_ConnAckProperties (connack_properties p).

Lemma ConnAck_encoded p bs :
  encoded ConnAck_ p = Ok bs →
  ∃ b1 b2 b3, encoded u8 (connack_flags p) = Ok b1
    ∧ encoded u8 (ConnackReasonCode_as_u8 (connack_code p)) = Ok b2
    ∧ encoded_props ConnAckProperties_ (connack_properties p) = Ok b3
    ∧ len (b1 ++ b2 ++ b3) ≤ VarU32_MAX ∧ bs = framed 32 (b1 ++ b2 ++ b3).
Proof.
  intros (blob & E & Hb)%bind_Ok_inv. cbn [encode ConnAck_] in E. unfold ConnAck_encode in E.
  inv_emit E. eapply finish_packet_Ok in E as [? ->]; [|apply header_for_new; set_solver|done].
  do 3 eexists. by do 4 (split; [done|]).
Qed.

#[export] Instance ConnAck_codec :
  PacketCodec ConnAck_ wf_ConnAck always_stable ConnAck_normalize (λ _, PT_ConnAck) [PT_ConnAck].
Proof.
  assert (header_for (FixedHeader_new PT_ConnAck) 32) as Hf
    by (apply (header_for_new PT_ConnAck); set_solver).
  split.
  - intros t s ->%list_elem_of_singleton Hs Hp. cbn [decode ConnAck_]. unfold ConnAck_decode.
    eapply post_bind; [by eapply dec_header_post|].
    intros [fh n] _ (Hv & Hn & _); cbn [fst snd] in *. rewrite Hv; run.
    check_field ConnackFlags_ wf_ConnackFlags. check_field u8 is_u8.
    eapply post_bind; [apply ConnackReasonCode_try_from_post|]. intros code _ _.
    check_props ConnAckProperties_ wf_ConnAckProperties ConnAckProperties_is_empty.
    apply post_Ok; cbn. split_and!; (done || lia).
  - intros p [Hfl Hp]. unfold encoded; cbn [encode ConnAck_]. unfold ConnAck_encode.
    check_emit; [by apply ConnackFlags_unwrap_wf|apply ConnackReasonCode_as_u8_range|].
    by eapply finish_packet_post.
  - intros p bs Hp (b1 & b2 & b3 & _ & _ & _ & Hl & ->)%ConnAck_encoded.
    exists 32, (b1 ++ b2 ++ b3). destruct Hf as (? & ? & _). by do 4 (split; [done|]).
  - intros p bs rest [Hfl Hp] _ (b1 & b2 & b3 & E1 & E2 & E3 & Hl & ->)%ConnAck_encoded.
    destruct (dec_header_framed _ _ _ rest Hf Hl) as (Eh & Hat & Hval).
    cbn [decode ConnAck_]. unfold ConnAck_decode. rewrite Eh; run. rewrite Hval; run.
    rewrite <-!app_assoc in Hat.
    pose proof E1 as E1'.
    rewrite <-(checked_u8_encoded _ _ ConnackFlags_unwrap_wf _ ConnackFlags_decode Hfl) in E1'.
    read_field ConnackFlags_ wf_ConnackFlags E1' Hat.
    pose proof (ConnackReasonCode_as_u8_range (connack_code p)). read_field u8 is_u8 E2 Hat.
    rewrite ConnackReasonCode_try_from_as; run.
    read_props ConnAckProperties_ wf_ConnAckProperties ConnAckProperties_is_empty E3 Hat.
    rewrite length_framed, !length_app. do 2 f_equal. lia.
Qed.
