(* ===== verification/V5Connect.v ===== *)
(** * CONNECT (src/src/v5/connect.rs) *)
From S2P Require Import Prelude Errors Utf8 Util Types V5Header V5Property V5Codec.
Local Open Scope Z_scope.

(** ** Flags *)

Definition CF_CLEAN_START : Z := 2.
Definition CF_WILL_FLAG : Z := 4.
Definition CF_WILL_QOS_MASK : Z := 24.
Definition CF_WILL_RETAIN : Z := 32.
Definition CF_USERNAME : Z := 64.
Definition CF_PASSWORD : Z := 128.

Definition ConnectFlags_new (flags : list Z) : Z := foldl Z.lor 0 flags.

(** [ConnectFlags::unwrap]: (clean_start, will_flag, will_qos, will_retain).
    The will QoS is read as [self.0 & Self::WILL_QOS_MASK >> 3], and [>>] binds
    tighter than [&]. *)
Definition ConnectFlags_unwrap (flags : Z) : Result (bool * bool * QoS * bool) :=
  let clean_start := 0 <? Z.land flags CF_CLEAN_START in
  let will_flag := 0 <? Z.land flags CF_WILL_FLAG in
  will_qos ← res_unwrap (QoS_try_from (Z.land flags (Z.shiftr CF_WILL_QOS_MASK 3)));
  let will_retain := 0 <? Z.land flags CF_WILL_RETAIN in
  Ok (clean_start, will_flag, will_qos, will_retain).

Definition is_will_flag (flags : Z) : bool := 0 <? Z.land flags CF_WILL_FLAG.
Definition is_username (flags : Z) : bool := 0 <? Z.land flags CF_USERNAME.
Definition is_password (flags : Z) : bool := 0 <? Z.land flags CF_PASSWORD.

Definition ConnectFlags_validate (flags : Z) : Result () :=
  if 0 <? Z.land flags 1 then err EK_MalformedPacket RC_MalformedPacket else Ok ().

Definition ConnectFlags_decode (stream : bytes) : Result (Z * nat) :=
  '(flags, n) ← dec_field u8 stream 0;
  _ ← ConnectFlags_validate flags;
  Ok (flags, n).

Definition ConnectFlags_encode (flags : Z) : Result Blob :=
  _ ← ConnectFlags_validate flags;
  u8_encode flags.

Definition ConnectFlags_ : Packetize Z := MkPacketize ConnectFlags_decode ConnectFlags_encode.

(** ** CONNECT properties *)

Record ConnectProperties := MkConnectProperties {
  cp_session_expiry_interval : option Z;
  cp_receive_maximum : option Z;
  cp_max_packet_size : option Z;
  cp_topic_alias_max : option Z;
  cp_request_response_info : option bool;
  cp_request_problem_info : option bool;
  cp_authentication_method : option rstring;
  cp_authentication_data : option bytes;
  cp_user_properties : list UserProperty_t;
}.
#[export] Instance ConnectProperties_eta : Eta ConnectProperties :=
  λ p, MkConnectProperties (cp_session_expiry_interval p) (cp_receive_maximum p)
    (cp_max_packet_size p) (cp_topic_alias_max p) (cp_request_response_info p)
    (cp_request_problem_info p) (cp_authentication_method p) (cp_authentication_data p)
    (cp_user_properties p).

Definition ConnectProperties_default : ConnectProperties :=
  MkConnectProperties None None None None None None None None [].

Definition ConnectProperties_step (props : ConnectProperties) (property : Property)
    : Result ConnectProperties :=
  match property with
  | P_SessionExpiryInterval val => Ok (props <| cp_session_expiry_interval := Some val |>)
  | P_ReceiveMaximum val =>
      if val =? 0 then err EK_ProtocolError RC_ProtocolError
      else Ok (props <| cp_receive_maximum := Some val |>)
  | P_MaximumPacketSize val =>
      if val =? 0 then err EK_ProtocolError RC_ProtocolError
      else Ok (props <| cp_max_packet_size := Some val |>)
  | P_TopicAliasMaximum val => Ok (props <| cp_topic_alias_max := Some val |>)
  | P_RequestResponseInformation 0 => Ok (props <| cp_request_response_info := Some false |>)
  | P_RequestResponseInformation 1 => Ok (props <| cp_request_response_info := Some true |>)
  | P_RequestResponseInformation _ => err EK_ProtocolError RC_ProtocolError
  | P_RequestProblemInformation 0 => Ok (props <| cp_request_problem_info := Some false |>)
  | P_RequestProblemInformation 1 => Ok (props <| cp_request_problem_info := Some true |>)
  | P_RequestProblemInformation _ => err EK_ProtocolError RC_ProtocolError
  | P_UserProp val =>
      Ok (props <| cp_user_properties := cp_user_properties props ++ [val] |>)
  | P_AuthenticationMethod val => Ok (props <| cp_authentication_method := Some val |>)
  | P_AuthenticationData val => Ok (props <| cp_authentication_data := Some val |>)
  | _ => err EK_ProtocolError RC_ProtocolError
  end.

Definition ConnectProperties_decode (stream : bytes) : Result (ConnectProperties * nat) :=
  dec_properties [PropT_UserProp] ConnectProperties_step ConnectProperties_default stream.

Definition ConnectProperties_encode (p : ConnectProperties) : Result Blob :=
  data ← enc_prop_opt PropT_SessionExpiryInterval u32 (cp_session_expiry_interval p) [];
  data ← enc_prop_opt PropT_ReceiveMaximum u16 (cp_receive_maximum p) data;
  data ← enc_prop_opt PropT_MaximumPacketSize u32 (cp_max_packet_size p) data;
  data ← enc_prop_opt PropT_TopicAliasMaximum u16 (cp_topic_alias_max p) data;
  data ← enc_prop_opt PropT_RequestResponseInformation u8
           (bool_as_u8 <$> cp_request_response_info p) data;
  data ← enc_prop_opt PropT_RequestProblemInformation u8
           (bool_as_u8 <$> cp_request_problem_info p) data;
  data ← enc_prop_opt PropT_AuthenticationMethod String_ (cp_authentication_method p) data;
  data ← enc_prop_opt PropT_AuthenticationData Vec_ (cp_authentication_data p) data;
  data ← enc_prop_all PropT_UserProp UserProperty (cp_user_properties p) data;
  finish_properties data.

Definition ConnectProperties_ : Packetize ConnectProperties :=
  MkPacketize ConnectProperties_decode ConnectProperties_encode.

Definition ConnectProperties_is_empty (p : ConnectProperties) : bool :=
  is_none (cp_session_expiry_interval p) && is_none (cp_receive_maximum p)
  && is_none (cp_max_packet_size p) && is_none (cp_topic_alias_max p)
  && is_none (cp_request_response_info p) && is_none (cp_request_problem_info p)
  && is_none (cp_authentication_method p) && is_none (cp_authentication_data p)
  && (length (cp_user_properties p) =? 0)%nat.

Definition CP_RECEIVE_MAXIMUM : Z := 65535.

Definition ConnectProperties_receive_maximum (p : ConnectProperties) : Z :=
  default CP_RECEIVE_MAXIMUM (cp_receive_maximum p).

Definition ConnectProperties_topic_alias_max (p : ConnectProperties) : option Z :=
  match cp_topic_alias_max p with
  | Some 0 | None => None
  | val => val
  end.

Definition ConnectProperties_request_response_info (p : ConnectProperties) : bool :=
  default false (cp_request_response_info p).

(** As written, this reads the field of the other option. *)
Definition ConnectProperties_request_problem_info (p : ConnectProperties) : bool :=
  default true (cp_request_response_info p).

(** ** Will properties *)

Record WillProperties := MkWillProperties {
  wp_will_delay_interval : option Z;
  wp_payload_format_indicator : PayloadFormat;
  wp_message_expiry_interval : option Z;
  wp_content_type : option rstring;
  wp_response_topic : option rstring;
  wp_correlation_data : option bytes;
  wp_user_properties : list UserProperty_t;
}.
#[export] Instance WillProperties_eta : Eta WillProperties :=
  λ p, MkWillProperties (wp_will_delay_interval p) (wp_payload_format_indicator p)
    (wp_message_expiry_interval p) (wp_content_type p) (wp_response_topic p)
    (wp_correlation_data p) (wp_user_properties p).

Definition WillProperties_default : WillProperties :=
  MkWillProperties None PF_Binary None None None None [].

Definition WillProperties_step (wps : WillProperties) (property : Property)
    : Result WillProperties :=
  match property with
  | P_WillDelayInterval val => Ok (wps <| wp_will_delay_interval := Some val |>)
  | P_PayloadFormatIndicator val =>
      pf ← PayloadFormat_try_from val;
      Ok (wps <| wp_payload_format_indicator := pf |>)
  | P_MessageExpiryInterval val => Ok (wps <| wp_message_expiry_interval := Some val |>)
  | P_ContentType val => Ok (wps <| wp_content_type := Some val |>)
  | P_ResponseTopic val => Ok (wps <| wp_response_topic := Some val |>)
  | P_CorrelationData val => Ok (wps <| wp_correlation_data := Some val |>)
  | P_UserProp val => Ok (wps <| wp_user_properties := wp_user_properties wps ++ [val] |>)
  | _ => err EK_ProtocolError RC_ProtocolError
  end.

Definition WillProperties_decode (stream : bytes) : Result (WillProperties * nat) :=
  dec_properties [PropT_UserProp] WillProperties_step WillProperties_default stream.

Definition WillProperties_encode (p : WillProperties) : Result Blob :=
  data ← enc_prop_opt PropT_WillDelayInterval u32 (wp_will_delay_interval p) [];
  data ← enc_payload_format (wp_payload_format_indicator p) data;
  data ← enc_prop_opt PropT_MessageExpiryInterval u32 (wp_message_expiry_interval p) data;
  data ← enc_prop_opt PropT_ContentType String_ (wp_content_type p) data;
  data ← enc_prop_opt PropT_ResponseTopic TopicName (wp_response_topic p) data;
  data ← enc_prop_opt PropT_CorrelationData Vec_ (wp_correlation_data p) data;
  data ← enc_prop_all PropT_UserProp UserProperty (wp_user_properties p) data;
  finish_properties data.

Definition WillProperties_ : Packetize WillProperties :=
  MkPacketize WillProperties_decode WillProperties_encode.

Definition WillProperties_is_utf8 (p : WillProperties) : bool :=
  bool_decide (wp_payload_format_indicator p = PF_Utf8).

Definition WillProperties_is_empty (p : WillProperties) : bool :=
  is_none (wp_will_delay_interval p)
  && bool_decide (wp_payload_format_indicator p = PF_Binary)
  && is_none (wp_message_expiry_interval p) && is_none (wp_content_type p)
  && is_none (wp_response_topic p) && is_none (wp_correlation_data p)
  && (length (wp_user_properties p) =? 0)%nat.

(** ** Packet *)

Record ConnectPayload := MkConnectPayload {
  cpl_client_id : rstring;
  cpl_will_properties : option WillProperties;
  cpl_will_topic : option rstring;
  cpl_will_payload : option bytes;
  cpl_username : option rstring;
  cpl_password : option bytes;
}.

Record Connect := MkConnect {
  connect_protocol_name : rstring;
  connect_protocol_version : MqttProtocol;
  connect_flags : Z;
  connect_keep_alive : Z;
  connect_properties : option ConnectProperties;
  connect_payload : ConnectPayload;
}.

(** ["MQTT"] *)
Definition MQTT_name : rstring := [77; 81; 84; 84].

Definition Connect_validate (p : Connect) : Result () :=
  let pld := connect_payload p in
  let flags := connect_flags p in
  if negb (bool_decide (connect_protocol_name p = MQTT_name))
  then err EK_ProtocolError RC_UnsupportedProtocolVersion
  else if negb (bool_decide (connect_protocol_version p = MqttProtocol_V5))
  then err EK_ProtocolError RC_UnsupportedProtocolVersion
  else
    _ ← ConnectFlags_validate flags;
    _ ← QoS_try_from (Z.shiftr (Z.land flags CF_WILL_QOS_MASK) 3);
    _ ← (if 0 <? Z.land flags CF_WILL_FLAG then
           if is_none (cpl_will_topic pld) then err EK_MalformedPacket RC_MalformedPacket
           else if is_none (cpl_will_properties pld) then err EK_MalformedPacket RC_MalformedPacket
           else if is_none (cpl_will_payload pld) then err EK_MalformedPacket RC_MalformedPacket
           else Ok ()
         else Ok ());
    match WillProperties_is_utf8 <$> cpl_will_properties pld with
    | Some true =>
        will_payload ← opt_unwrap (cpl_will_payload pld);
        match from_utf8 will_payload with
        | Some _ => Ok ()
        | None => err_cause EK_MalformedPacket RC_MalformedPacket
        end
    | _ => Ok ()
    end.

Definition Connect_decode (stream : bytes) : Result (Connect * nat) :=
  '(fh, n) ← dec_field FixedHeader_ stream 0;
  _ ← FixedHeader_validate fh;
  '(protocol_name, n) ← dec_field String_ stream n;
  '(val, n) ← dec_field u8 stream n;
  protocol_version ← MqttProtocol_try_from val;
  '(flags, n) ← dec_field ConnectFlags_ stream n;
  '(keep_alive, n) ← dec_field u16 stream n;
  '(properties, n) ← dec_props ConnectProperties_ stream n;
  let will_flag := is_will_flag flags in
  '(client_id, n) ← dec_field String_ stream n;
  '(will_properties, n) ← dec_props_if WillProperties_ stream n will_flag;
  '(will_topic, n) ← dec_field_if TopicName stream n will_flag;
  '(will_payload, n) ← dec_field_if Vec_ stream n will_flag;
  '(username, n) ← dec_field_if String_ stream n (is_username flags);
  '(password, n) ← dec_field_if Vec_ stream n (is_password flags);
  let val := MkConnect protocol_name protocol_version flags keep_alive properties
    (MkConnectPayload client_id will_properties will_topic will_payload username password) in
  _ ← Connect_validate val;
  Ok (val, n).

Definition Connect_encode (p : Connect) : Result Blob :=
  let pld := connect_payload p in
  _ ← Connect_validate p;
  data ← emit String_ (connect_protocol_name p) [];
  data ← emit u8 (MqttProtocol_into_u8 (connect_protocol_version p)) data;
  data ← emit u8 (connect_flags p) data;
  data ← emit u16 (connect_keep_alive p) data;
  data ← emit_props ConnectProperties_ (connect_properties p) data;
  data ← emit String_ (cpl_client_id pld) data;
  data ← emit_opt WillProperties_ (cpl_will_properties pld) data;
  data ← emit_opt TopicName (cpl_will_topic pld) data;
  data ← emit_opt Vec_ (cpl_will_payload pld) data;
  data ← emit_opt String_ (cpl_username pld) data;
  data ← emit_opt Vec_ (cpl_password pld) data;
  finish_packet (FixedHeader_new PT_Connect) data.

Definition Connect_ : Packetize Connect := MkPacketize Connect_decode Connect_encode.

Definition Connect_normalize (p : Connect) : Connect :=
  let pld := connect_payload p in
  MkConnect (connect_protocol_name p) (connect_protocol_version p) (connect_flags p)
    (connect_keep_alive p) (norm_props ConnectProperties_is_empty (connect_properties p))
    (MkConnectPayload (cpl_client_id pld)
       (norm_props WillProperties_is_empty (cpl_will_properties pld))
       (cpl_will_topic pld) (cpl_will_payload pld) (cpl_username pld) (cpl_password pld)).

Definition Connect_receive_maximum (p : Connect) : Z :=
  match connect_properties p with
  | Some props => ConnectProperties_receive_maximum props
  | None => CP_RECEIVE_MAXIMUM
  end.

Definition Connect_max_packet_size (p : Connect) (def : Z) : Z :=
  match connect_properties p with
  | Some props => default def (cp_max_packet_size props)
  | None => def
  end.

Definition Connect_session_expiry_interval (p : Connect) : option Z :=
  match connect_properties p with
  | Some props => cp_session_expiry_interval props
  | None => None
  end.

Definition Connect_topic_alias_max (p : Connect) : option Z :=
  match connect_properties p with
  | Some props => ConnectProperties_topic_alias_max props
  | None => None
  end.

(** [ConnectFlags::default()], [Connect::default()] and [ConnectPayload::default()], with the
    identifier from the uuid library *)
Definition ConnectFlags_default : Z := ConnectFlags_new [CF_CLEAN_START].
Definition ConnectPayload_default (uuid : rstring) : ConnectPayload := MkConnectPayload uuid None None None None None.
Definition Connect_default (uuid : rstring) : Connect :=
  MkConnect MQTT_name MqttProtocol_V5 ConnectFlags_default 0 None (ConnectPayload_default uuid).

(** [WillProperties::will_delay_interval()] *)
Definition WILL_DELAY_INTERVAL : Z := 0.
Definition WillProperties_will_delay_interval (p : WillProperties) : Z :=
  default WILL_DELAY_INTERVAL (wp_will_delay_interval p).

(** ** CONNECT is lawful *)

Definition wf_ConnectFlags (flags : Z) : Prop :=
  is_u8 flags ∧ ConnectFlags_validate flags = Ok ().

Lemma ConnectFlags_validate_post flags (Q : () → Prop) :
  (ConnectFlags_validate flags = Ok () → Q ()) →
  post (ConnectFlags_validate flags) Q (λ e, dec_error e ∧ enc_error e).
Proof.
  unfold ConnectFlags_validate. destruct (0 <? _); intros HQ; [|by apply HQ]. clear HQ.
  split; [dec_err|unfold enc_error; set_solver].
Qed.

#[export] Instance ConnectFlags_lawful : Lawful ConnectFlags_ wf_ConnectFlags.
Proof.
  apply (checked_u8_lawful ConnectFlags_validate).
  - intros z Hz. eapply post_err_mono; [by apply ConnectFlags_validate_post|]. by intros e [? _].
  - intros z [? ?]. eauto.
Qed.

Definition wf_ConnectProperties (p : ConnectProperties) : Prop :=
  option_Forall is_u32 (cp_session_expiry_interval p)
  ∧ option_Forall (λ v, is_u16 v ∧ v ≠ 0) (cp_receive_maximum p)
  ∧ option_Forall (λ v, is_u32 v ∧ v ≠ 0) (cp_max_packet_size p)
  ∧ option_Forall is_u16 (cp_topic_alias_max p)
  ∧ option_Forall wf_string (cp_authentication_method p)
  ∧ option_Forall is_bytes (cp_authentication_data p)
  ∧ Forall wf_user_property (cp_user_properties p).

#[export] Instance ConnectProperties_codec :
  PropsCodec ConnectProperties_ wf_ConnectProperties ConnectProperties_is_empty.
Proof.
  apply (prop_list_codec _ _ _ [PropT_UserProp] ConnectProperties_step ConnectProperties_default
    Ok wf_ConnectProperties
    [PropT_SessionExpiryInterval; PropT_ReceiveMaximum; PropT_MaximumPacketSize;
     PropT_TopicAliasMaximum; PropT_RequestResponseInformation; PropT_RequestProblemInformation;
     PropT_AuthenticationMethod; PropT_AuthenticationData; PropT_UserProp]
    (λ p, [P_SessionExpiryInterval <$> option_list (cp_session_expiry_interval p);
           P_ReceiveMaximum <$> option_list (cp_receive_maximum p);
           P_MaximumPacketSize <$> option_list (cp_max_packet_size p);
           P_TopicAliasMaximum <$> option_list (cp_topic_alias_max p);
           (λ b, P_RequestResponseInformation (bool_as_u8 b))
             <$> option_list (cp_request_response_info p);
           (λ b, P_RequestProblemInformation (bool_as_u8 b))
             <$> option_list (cp_request_problem_info p);
           P_AuthenticationMethod <$> option_list (cp_authentication_method p);
           P_AuthenticationData <$> option_list (cp_authentication_data p);
           P_UserProp <$> cp_user_properties p])); try done.
  - intros s. apply dec_properties_ret.
  - intros p. unfold ConnectProperties_; cbn [encode]; unfold ConnectProperties_encode. props_enc.
  - intros p. props_slots.
  - intros p. unfold ConnectProperties_is_empty. props_empty.
  - intros p (? & ? & ? & ? & ? & ? & ?). props_wf.
  - intros [? ? ? ? ? ? ? ? ?] (? & ? & ? & ? & ? & ? & ?). cbn in *.
    unfold ConnectProperties_default. fold_slots. done.
  - repeat constructor.
  - intros [? ? ? ? ? ? ? ? ?] q (? & ? & ? & ? & ? & ? & ?) Hq. props_step wf_ConnectProperties.
Qed.

Definition wf_WillProperties (p : WillProperties) : Prop :=
  option_Forall is_u32 (wp_will_delay_interval p)
  ∧ option_Forall is_u32 (wp_message_expiry_interval p)
  ∧ option_Forall wf_string (wp_content_type p)
  ∧ option_Forall wf_string (wp_response_topic p)
  ∧ option_Forall is_bytes (wp_correlation_data p)
  ∧ Forall wf_user_property (wp_user_properties p).

#[export] Instance WillProperties_codec :
  PropsCodec WillProperties_ wf_WillProperties WillProperties_is_empty.
Proof.
  apply (prop_list_codec _ _ _ [PropT_UserProp] WillProperties_step WillProperties_default
    Ok wf_WillProperties
    [PropT_WillDelayInterval; PropT_PayloadFormatIndicator; PropT_MessageExpiryInterval;
     PropT_ContentType; PropT_ResponseTopic; PropT_CorrelationData; PropT_UserProp]
    (λ p, [P_WillDelayInterval <$> option_list (wp_will_delay_interval p);
           pf_slot (wp_payload_format_indicator p);
           P_MessageExpiryInterval <$> option_list (wp_message_expiry_interval p);
           P_ContentType <$> option_list (wp_content_type p);
           P_ResponseTopic <$> option_list (wp_response_topic p);
           P_CorrelationData <$> option_list (wp_correlation_data p);
           P_UserProp <$> wp_user_properties p])); try done.
  - intros s. apply dec_properties_ret.
  - intros p. unfold WillProperties_; cbn [encode]; unfold WillProperties_encode. props_enc.
  - intros p. props_slots.
  - intros p. unfold WillProperties_is_empty. props_empty.
  - intros p (? & ? & ? & ? & ? & ?). props_wf.
  - intros [? ? ? ? ? ? ?] (? & ? & ? & ? & ? & ?). cbn in *.
    unfold WillProperties_default. fold_slots. done.
  - repeat constructor.
  - intros [? ? ? ? ? ? ?] q (? & ? & ? & ? & ? & ?) Hq. 
    props_step wf_WillProperties.
Qed.

(** The payload holds a field exactly when its flag is set. *)
Definition Connect_flags_agree (p : Connect) : Prop :=
  let pld := connect_payload p in
  let flags := connect_flags p in
  is_will_flag flags = bool_decide (is_Some (cpl_will_properties pld))
  ∧ is_will_flag flags = bool_decide (is_Some (cpl_will_topic pld))
  ∧ is_will_flag flags = bool_decide (is_Some (cpl_will_payload pld))
  ∧ is_username flags = bool_decide (is_Some (cpl_username pld))
  ∧ is_password flags = bool_decide (is_Some (cpl_password pld)).

Definition wf_ConnectPayload (pld : ConnectPayload) : Prop :=
  wf_string (cpl_client_id pld)
  ∧ option_Forall wf_WillProperties (cpl_will_properties pld)
  ∧ option_Forall wf_string (cpl_will_topic pld)
  ∧ option_Forall is_bytes (cpl_will_payload pld)
  ∧ option_Forall wf_string (cpl_username pld)
  ∧ option_Forall is_bytes (cpl_password pld).

Definition wf_Connect (p : Connect) : Prop :=
  wf_string (connect_protocol_name p)
  ∧ wf_ConnectFlags (connect_flags p)
  ∧ is_u16 (connect_keep_alive p)
  ∧ option_Forall wf_ConnectProperties (connect_properties p)
  ∧ wf_ConnectPayload (connect_payload p)
  ∧ Connect_flags_agree p
  ∧ Connect_validate p = Ok ().

(** Empty will properties are written as an empty list, which the decoder takes
    for missing will properties. *)
Definition stable_Connect (p : Connect) : Prop :=
  option_Forall (λ w, WillProperties_is_empty w = false)
    (cpl_will_properties (connect_payload p)).

(** Validation does not panic on a decoded packet, and an accepted packet with
    the will flag has will properties. *)
Lemma Connect_validate_post p :
  (is_Some (cpl_will_properties (connect_payload p)) →
   is_Some (cpl_will_payload (connect_payload p))) →
  post (Connect_validate p)
    (λ _, is_will_flag (connect_flags p) = true →
          is_Some (cpl_will_properties (connect_payload p))) dec_error.
Proof.
  intros Hw. unfold Connect_validate.
  destruct (negb _); [dec_err|]. destruct (negb _); [dec_err|].
  eapply post_bind; [eapply post_err_mono; [by apply (ConnectFlags_validate_post _ (λ _, True))|];
    by intros e [? _]|]. intros _ _ _.
  eapply post_bind; [apply QoS_try_from_post|]. intros _ _ _.
  fold (is_will_flag (connect_flags p)).
  destruct p as [? ? flags ? ? [cid wp wt wpl un pw]]; cbn [connect_flags connect_payload
    cpl_will_topic cpl_will_properties cpl_will_payload] in *.
  eapply (post_bind _ _ (λ _, is_will_flag flags = true → is_Some wp)).
  { destruct (is_will_flag flags); [|done].
    destruct wt, wp, wpl; cbn [is_none]; first [dec_err|apply post_Ok; eauto]. }
  intros _ _ ?. destruct wp as [w|]; [|done].
  cbn [fmap option_fmap option_map]. destruct (WillProperties_is_utf8 w); [|by apply post_Ok].
  destruct (Hw ltac:(eauto)) as [b ->]; cbn [opt_unwrap]; run.
  destruct (from_utf8 b); [by apply post_Ok|dec_err].
Qed.

Lemma MqttProtocol_try_from_into v : MqttProtocol_try_from (MqttProtocol_into_u8 v) = Ok v.
Proof. by destruct v. Qed.

Lemma MqttProtocol_try_from_post z :
  post (MqttProtocol_try_from z) (λ v, MqttProtocol_into_u8 v = z) dec_error.
Proof. unfold MqttProtocol_try_from. enum_post. Qed.

Lemma MqttProtocol_into_u8_range v : is_u8 (MqttProtocol_into_u8 v).
Proof. by destruct v. Qed.

Lemma Connect_encoded p bs :
  encoded Connect_ p = Ok bs →
  ∃ b1 b2 b3 b4 b5 b6 b7 b8 b9 b10 b11,
    let data := b1 ++ b2 ++ b3 ++ b4 ++ b5 ++ b6 ++ b7 ++ b8 ++ b9 ++ b10 ++ b11 in
    let pld := connect_payload p in
    encoded String_ (connect_protocol_name p) = Ok b1
    ∧ encoded u8 (MqttProtocol_into_u8 (connect_protocol_version p)) = Ok b2
    ∧ encoded u8 (connect_flags p) = Ok b3
    ∧ encoded u16 (connect_keep_alive p) = Ok b4
    ∧ encoded_props ConnectProperties_ (connect_properties p) = Ok b5
    ∧ encoded String_ (cpl_client_id pld) = Ok b6
    ∧ from_option (encoded WillProperties_) (Ok []) (cpl_will_properties pld) = Ok b7
    ∧ from_option (encoded TopicName) (Ok []) (cpl_will_topic pld) = Ok b8
    ∧ from_option (encoded Vec_) (Ok []) (cpl_will_payload pld) = Ok b9
    ∧ from_option (encoded String_) (Ok []) (cpl_username pld) = Ok b10
    ∧ from_option (encoded Vec_) (Ok []) (cpl_password pld) = Ok b11
    ∧ len data ≤ VarU32_MAX ∧ bs = framed 16 data.
Proof.
  intros (blob & E & Hb)%bind_Ok_inv. cbn [encode Connect_] in E. unfold Connect_encode in E.
  cbv zeta in E. apply bind_Ok_inv in E as (u & _ & E).
  inv_emit E. eapply finish_packet_Ok in Hb as [? ->]; [|apply header_for_new|exact E]; [|set_solver].
  do 11 eexists. cbv zeta. by do 12 (split; [eassumption|]).
Qed.

Lemma Connect_decode_post s :
  is_bytes s → packet_stream PT_Connect s →
  post (Connect_decode s) (λ r, (0 < r.2 ≤ length s)%nat ∧ wf_Connect r.1) dec_error.
Proof.
  intros Hs Hp. unfold Connect_decode.
  eapply post_bind; [by eapply dec_header_post|].
  intros [fh n] _ (Hv & Hn & _); cbn [fst snd] in *. rewrite Hv; run. clear Hv.
  check_field String_ (Forall is_char). check_field u8 is_u8.
  eapply post_bind; [apply MqttProtocol_try_from_post|]. intros version _ _.
  check_field ConnectFlags_ wf_ConnectFlags. check_field u16 is_u16.
  check_props ConnectProperties_ wf_ConnectProperties ConnectProperties_is_empty.
  check_field String_ (Forall is_char).
  eapply post_bind;
    [apply (dec_props_if_post WillProperties_ wf_WillProperties WillProperties_is_empty); [done|lia]|].
  intros [wp n6] _ (? & Hwp & Hnone); cbn [fst snd] in *.
  check_field_if TopicName (Forall is_char). check_field_if Vec_ (Forall is_u8).
  check_field_if String_ (Forall is_char). check_field_if Vec_ (Forall is_u8).
  eapply post_bind.
  { apply Connect_validate_post; cbn. intros [w ->].
    destruct (is_will_flag v1); [naive_solver|]. by discriminate Hnone. }
  intros [] Hval Hsome. cbn in Hsome. apply post_Ok; cbn [fst snd]. split; [lia|].
  assert (∀ {A} (o : option A) (Q : A → Prop) (b : bool),
    (if b then ∃ v, o = Some v ∧ Q v else o = None) →
    b = bool_decide (is_Some o) ∧ option_Forall Q o) as Hopt.
  { intros A o Q [] H'; [destruct H' as (? & -> & ?)|subst]; (split; [done|by constructor]). }
  repeat match goal with H : if _ then _ else _ |- _ => apply Hopt in H as [? ?] end.
  assert (is_will_flag v1 = bool_decide (is_Some wp)) as Hwill.
  { destruct (is_will_flag v1); [destruct Hsome as [? ->]; done|by rewrite Hnone]. }
  do 4 (split; [done|]). split; [by split_and!|]. split; [by split_and!|done].
Qed.

(** Decoding what was encoded reads the normal form of the packet, and validates
    that. *)
Lemma Connect_decode_encoded p bs rest :
  wf_Connect p → encoded Connect_ p = Ok bs →
  Connect_decode (bs ++ rest)
  = (_ ← Connect_validate (Connect_normalize p); Ok (Connect_normalize p, length bs)).
Proof.
  assert (header_for (FixedHeader_new PT_Connect) 16) as Hf
    by (apply (header_for_new PT_Connect); set_solver).
  intros (Hname & Hfl & ? & ? & (? & ? & ? & ? & ? & ?) & Hagree & Hval)
    (b1 & b2 & b3 & b4 & b5 & b6 & b7 & b8 & b9 & b10 & b11 & H')%Connect_encoded.
  cbv zeta in H'.
  destruct H' as (E1 & E2 & E3 & E4 & E5 & E6 & E7 & E8 & E9 & E10 & E11 & Hl & ->).
  destruct (dec_header_framed _ _ _ rest Hf Hl) as (Eh & Hat & Hh).
  unfold Connect_decode. rewrite Eh; run. rewrite Hh; run.
  rewrite <-!app_assoc in Hat.
  read_field String_ (Forall is_char) E1 Hat.
  pose proof (MqttProtocol_into_u8_range (connect_protocol_version p)).
  read_field u8 is_u8 E2 Hat. rewrite MqttProtocol_try_from_into; run.
  assert (encoded ConnectFlags_ (connect_flags p) = Ok b3) as E3'.
  { unfold encoded; cbn [encode ConnectFlags_]. unfold ConnectFlags_encode.
    by rewrite (proj2 Hfl). }
  read_field ConnectFlags_ wf_ConnectFlags E3' Hat.
  read_field u16 is_u16 E4 Hat.
  read_props ConnectProperties_ wf_ConnectProperties ConnectProperties_is_empty E5 Hat.
  read_field String_ (Forall is_char) E6 Hat.
  destruct Hagree as (A1 & A2 & A3 & A4 & A5).
  rewrite A1 at 1. read_props_if WillProperties_ wf_WillProperties WillProperties_is_empty E7 Hat.
  rewrite A2. read_field_if TopicName (Forall is_char) E8 Hat.
  rewrite <-A2, A3. read_field_if Vec_ (Forall is_u8) E9 Hat.
  rewrite A4. read_field_if String_ (Forall is_char) E10 Hat.
  rewrite A5. read_field_if Vec_ (Forall is_u8) E11 Hat.
  change (MkConnect _ _ _ _ _ _) with (Connect_normalize p).
  destruct (Connect_validate (Connect_normalize p)); run; try done.
  do 2 f_equal. rewrite length_framed, !length_app. lia.
Qed.

(** The default CONNECT is well formed, so it is read back as it is. *)
Lemma Connect_default_wf uuid : wf_string uuid → wf_Connect (Connect_default uuid).
Proof.
  intros Hu. unfold wf_Connect, wf_ConnectPayload. split_and!; try done; try exact Hu; try constructor.
  all: unfold is_char; repeat constructor; lia.
Qed.

Lemma Connect_normalize_validate p :
  stable_Connect p → Connect_validate (Connect_normalize p) = Connect_validate p.
Proof.
  intros Hst. unfold Connect_validate, Connect_normalize. cbn [connect_payload cpl_will_properties].
  by rewrite (norm_props_nonempty _ _ Hst).
Qed.

(** Validation insists on will properties under the will flag. *)
Lemma Connect_validate_no_will p :
  Connect_flags_agree p → Connect_validate p = Ok () →
  is_Some (cpl_will_properties (connect_payload p)) →
  WillProperties_is_empty <$> cpl_will_properties (connect_payload p) = Some true →
  Connect_validate (Connect_normalize p) = err EK_MalformedPacket RC_MalformedPacket.
Proof.
  intros (A1 & A2 & _) Hval Hw He. unfold Connect_validate in *.
  unfold Connect_normalize; cbn [connect_payload cpl_will_properties cpl_will_topic
    connect_protocol_name connect_protocol_version connect_flags cpl_will_payload].
  destruct (negb _); [done|]. destruct (negb _); [done|].
  apply bind_Ok_inv in Hval as ([] & -> & Hval). apply bind_Ok_inv in Hval as (q & -> & Hval). run.
  fold (is_will_flag (connect_flags p)) in *.
  destruct Hw as [w Hw]. rewrite Hw in *. rewrite A1 in *. cbn in He. simplify_eq.
  destruct (cpl_will_topic (connect_payload p)); [|done]. cbn [norm_props is_none].
  unfold norm_props; cbn. by rewrite He.
Qed.

#[export] Instance Connect_codec :
  PacketCodec Connect_ wf_Connect stable_Connect Connect_normalize (λ _, PT_Connect) [PT_Connect].
Proof.
  assert (header_for (FixedHeader_new PT_Connect) 16) as Hf
    by (apply (header_for_new PT_Connect); set_solver).
  split.
  - intros t s ->%list_elem_of_singleton Hs Hp. eapply post_mono; [by apply Connect_decode_post|].
    intros r _ [? ?]. done.
  - intros p (? & [? ?] & ? & ? & (? & ? & ? & ? & ? & ?) & _ & Hval).
    unfold encoded; cbn [encode Connect_]. unfold Connect_encode. rewrite Hval; run.
    check_emit; [apply MqttProtocol_into_u8_range|]. by eapply finish_packet_post.
  - intros p bs Hp (b1 & b2 & b3 & b4 & b5 & b6 & b7 & b8 & b9 & b10 & b11 & H)%Connect_encoded.
    cbv zeta in H. destruct H as (_ & _ & _ & _ & _ & _ & _ & _ & _ & _ & _ & Hl & ->).
    eexists 16, _. destruct Hf as (? & ? & _). by do 4 (split; [done|]).
  - intros p bs rest Hp Hst E. cbn [decode Connect_].
    rewrite (Connect_decode_encoded p bs rest Hp E), Connect_normalize_validate by done.
    destruct Hp as (_ & _ & _ & _ & _ & _ & Hval). by rewrite Hval.
Qed.

(** ** Theorems *)

(** The will QoS of the flags is not what [unwrap] returns: the mask is shifted
    instead of the masked bits, so on valid flags the result only depends on the
    clean-start bit. *)
Theorem connect_flags_will_qos flags :
  wf_ConnectFlags flags →
  ∃ will_flag will_retain,
    let clean_start := 0 <? Z.land flags CF_CLEAN_START in
    ConnectFlags_unwrap flags
    = Ok (clean_start, will_flag, if clean_start then QoS_ExactlyOnce else QoS_AtMostOnce,
          will_retain).
Proof.
  intros [Hf Hv].
  exists (0 <? Z.land flags CF_WILL_FLAG), (0 <? Z.land flags CF_WILL_RETAIN). cbv zeta.
  revert flags Hf Hv.
  apply (forall_u8 (λ z, ConnectFlags_validate z = Ok () → ConnectFlags_unwrap z
    = Ok (0 <? Z.land z CF_CLEAN_START, 0 <? Z.land z CF_WILL_FLAG,
          if 0 <? Z.land z CF_CLEAN_START then QoS_ExactlyOnce else QoS_AtMostOnce,
          0 <? Z.land z CF_WILL_RETAIN)) (λ z,
    match ConnectFlags_validate z, ConnectFlags_unwrap z with
    | Ok _, Ok (c, w, q, r) =>
        eqb c (0 <? Z.land z CF_CLEAN_START) && eqb w (0 <? Z.land z CF_WILL_FLAG)
        && bool_decide (q = if c then QoS_ExactlyOnce else QoS_AtMostOnce)
        && eqb r (0 <? Z.land z CF_WILL_RETAIN)
    | Ok _, _ => false
    | _, _ => true
    end)); [|by vm_compute].
  intros z H Hv. rewrite Hv in H. destruct (ConnectFlags_unwrap z) as [[[[c w] q] r]| | |]; try done.
  rewrite !andb_true_iff, !eqb_true_iff, bool_decide_eq_true in H.
  by destruct H as [[[-> ->] ->] ->].
Qed.

Lemma connect_flags_will_qos_witness :
  ∃ will_flag will_retain, ConnectFlags_unwrap 6
    = Ok (true, will_flag, QoS_ExactlyOnce, will_retain).
Proof. apply (connect_flags_will_qos 6). by split. Defined.

(** A CONNECT packet with a will whose will properties are all default is
    encoded, but the decoder takes the empty list on the wire for missing will
    properties and refuses the packet. *)
Theorem connect_empty_will_refused p w bs rest :
  wf_Connect p → cpl_will_properties (connect_payload p) = Some w →
  WillProperties_is_empty w = true → encoded Connect_ p = Ok bs →
  Connect_decode (bs ++ rest) = err EK_MalformedPacket RC_MalformedPacket.
Proof.
  intros Hp Hw He E. rewrite (Connect_decode_encoded p bs rest Hp E).
  destruct Hp as (_ & _ & _ & _ & _ & Hagree & Hval).
  rewrite Connect_validate_no_will; rewrite ?Hw; cbn; rewrite ?He; try done.
Qed.

Lemma connect_empty_will_refused_witness :
  Connect_decode ([16; 21; 0; 4; 77; 81; 84; 84; 5; 6; 0; 60; 0; 0; 1; 99; 0; 0; 1; 116; 0; 1; 1]
    ++ []) = err EK_MalformedPacket RC_MalformedPacket.
Proof.
  apply (connect_empty_will_refused (MkConnect MQTT_name MqttProtocol_V5 6 60 None
    (MkConnectPayload [99] (Some WillProperties_default) (Some [116]) (Some [1]) None None))
    WillProperties_default); [|done|done|by vm_compute].
  split; [apply (bool_decide_unpack _); by vm_compute|]. split; [by split|]. split; [done|].
  split; [by constructor|]. split; [|split; [by repeat split|done]].
  split; [apply (bool_decide_unpack _); by vm_compute|].
  split; [constructor; split_and!; constructor|].
  split; [constructor; apply (bool_decide_unpack _); by vm_compute|].
  split; [constructor; apply (bool_decide_unpack _); by vm_compute|]. split; constructor.
Defined.
