(* ===== verification/V5Publish.v ===== *)
(** * PUBLISH (src/src/v5/publish.rs) *)
From S2P Require Import Prelude Errors Utf8 Util Types V5Header V5Property V5Codec.
Local Open Scope Z_scope.

(** ** Properties *)

Record PublishProperties := MkPublishProperties {
  pp_payload_format_indicator : PayloadFormat;
  pp_message_expiry_interval : option Z;
  pp_topic_alias : option Z;
  pp_response_topic : option rstring;
  pp_correlation_data : option bytes;
  pp_subscribtion_identifier : list Z;
  pp_content_type : option rstring;
  pp_user_properties : list UserProperty_t;
}.
#[export] Instance PublishProperties_eta : Eta PublishProperties :=
  λ p, MkPublishProperties (pp_payload_format_indicator p) (pp_message_expiry_interval p)
    (pp_topic_alias p) (pp_response_topic p) (pp_correlation_data p)
    (pp_subscribtion_identifier p) (pp_content_type p) (pp_user_properties p).

Definition PublishProperties_default : PublishProperties :=
  MkPublishProperties PF_Binary None None None None [] None [].

Definition PublishProperties_step (props : PublishProperties) (property : Property)
    : Result PublishProperties :=
  match property with
  | P_PayloadFormatIndicator val =>
      pf ← PayloadFormat_try_from val;
      Ok (props <| pp_payload_format_indicator := pf |>)
  | P_MessageExpiryInterval val => Ok (props <| pp_message_expiry_interval := Some val |>)
  | P_TopicAlias val =>
      if val =? 0 then err EK_ProtocolError RC_ProtocolError
      else Ok (props <| pp_topic_alias := Some val |>)
  | P_ResponseTopic val => Ok (props <| pp_response_topic := Some val |>)
  | P_CorrelationData val => Ok (props <| pp_correlation_data := Some val |>)
  | P_SubscriptionIdentifier val =>
      Ok (props <| pp_subscribtion_identifier := pp_subscribtion_identifier props ++ [val] |>)
  | P_ContentType val => Ok (props <| pp_content_type := Some val |>)
  | P_UserProp val => Ok (props <| pp_user_properties := pp_user_properties props ++ [val] |>)
  | _ => err EK_ProtocolError RC_ProtocolError
  end.

Definition PublishProperties_decode (stream : bytes) : Result (PublishProperties * nat) :=
  dec_properties [PropT_UserProp; PropT_SubscriptionIdentifier]
    PublishProperties_step PublishProperties_default stream.

Definition PublishProperties_encode (p : PublishProperties) : Result Blob :=
  data ← enc_payload_format (pp_payload_format_indicator p) [];
  data ← enc_prop_opt PropT_MessageExpiryInterval u32 (pp_message_expiry_interval p) data;
  data ← enc_prop_opt PropT_TopicAlias u16 (pp_topic_alias p) data;
  data ← enc_prop_opt PropT_ResponseTopic TopicName (pp_response_topic p) data;
  data ← enc_prop_opt PropT_CorrelationData Vec_ (pp_correlation_data p) data;
  data ← enc_prop_opt PropT_ContentType String_ (pp_content_type p) data;
  data ← enc_prop_all PropT_SubscriptionIdentifier VarU32 (pp_subscribtion_identifier p) data;
  data ← enc_prop_all PropT_UserProp UserProperty (pp_user_properties p) data;
  finish_properties data.

Definition PublishProperties_ : Packetize PublishProperties :=
  MkPacketize PublishProperties_decode PublishProperties_encode.

Definition is_payload_utf8 (p : PublishProperties) : bool :=
  PayloadFormat_is_utf8 (pp_payload_format_indicator p).

Definition PublishProperties_is_empty (p : PublishProperties) : bool :=
  bool_decide (pp_payload_format_indicator p = PF_Binary)
  && is_none (pp_message_expiry_interval p) && is_none (pp_topic_alias p)
  && is_none (pp_response_topic p) && is_none (pp_correlation_data p)
  && (length (pp_subscribtion_identifier p) =? 0)%nat && is_none (pp_content_type p)
  && (length (pp_user_properties p) =? 0)%nat.

(** ** Packet *)

Record Publish := MkPublish {
  publish_retain : bool;
  publish_qos : QoS;
  publish_duplicate : bool;
  publish_topic_name : rstring;
  publish_packet_id : option Z;
  publish_properties : option PublishProperties;
  publish_payload : option bytes;
}.
#[export] Instance Publish_eta : Eta Publish :=
  λ p, MkPublish (publish_retain p) (publish_qos p) (publish_duplicate p)
    (publish_topic_name p) (publish_packet_id p) (publish_properties p) (publish_payload p).

Definition Publish_validate (p : Publish) : Result () :=
  _ ← match publish_qos p with
      | QoS_AtMostOnce =>
          if publish_duplicate p then err EK_MalformedPacket RC_MalformedPacket else Ok ()
      | QoS_AtLeastOnce | QoS_ExactlyOnce =>
          if is_none (publish_packet_id p) then err EK_MalformedPacket RC_MalformedPacket
          else Ok ()
      end;
  match publish_payload p, is_payload_utf8 <$> publish_properties p with
  | Some payload, Some true =>
      match from_utf8 payload with
      | Some _ => Ok ()
      | None => err_cause EK_MalformedPacket RC_PayloadFormatInvalid
      end
  | _, _ => Ok ()
  end.

Definition qos_has_id (qos : QoS) : bool :=
  match qos with QoS_AtLeastOnce | QoS_ExactlyOnce => true | QoS_AtMostOnce => false end.

Definition Publish_decode (stream : bytes) : Result (Publish * nat) :=
  '(fh, fh_len) ← dec_field FixedHeader_ stream 0;
  _ ← FixedHeader_validate fh;
  '(_, retain, qos, duplicate) ← FixedHeader_unwrap fh;
  '(topic_name, n) ← dec_field TopicName stream fh_len;
  '(packet_id, n) ← dec_field_if u16 stream n (qos_has_id qos);
  '(properties, n) ← dec_props PublishProperties_ stream n;
  let m := Z.of_nat fh_len + remaining_len fh in
  '(payload, n) ←
    (if m =? Z.of_nat n then Ok (None, n)
     else if m <=? len stream then
       bs ← slice stream n (Z.to_nat m);
       Ok (Some bs, Z.to_nat m)
     else err EK_MalformedPacket RC_MalformedPacket);
  let val := MkPublish retain qos duplicate topic_name packet_id properties payload in
  _ ← Publish_validate val;
  Ok (val, n).

Definition Publish_encode (p : Publish) : Result Blob :=
  data ← emit TopicName (publish_topic_name p) [];
  data ← emit_opt u16 (publish_packet_id p) data;
  data ← emit_props PublishProperties_ (publish_properties p) data;
  let data := match publish_payload p with Some payload => data ++ payload | None => data end in
  finish_packet
    (FixedHeader_new_publish (publish_retain p) (publish_qos p) (publish_duplicate p)) data.

Definition Publish_ : Packetize Publish := MkPacketize Publish_decode Publish_encode.

Definition Publish_set_fixed_header (p : Publish) (retain : bool) (qos : QoS) (dup : bool)
    : Publish :=
  p <| publish_retain := retain |> <| publish_qos := qos |> <| publish_duplicate := dup |>.

Definition Publish_set_packet_id (p : Publish) (packet_id : Z) : Publish :=
  p <| publish_packet_id := Some packet_id |>.

Definition Publish_set_subscription_ids (p : Publish) (ids : list Z) : Publish :=
  foldl (λ p id,
    match publish_properties p with
    | Some props =>
        p <| publish_properties := Some
          (props <| pp_subscribtion_identifier := pp_subscribtion_identifier props ++ [id] |>) |>
    | None =>
        p <| publish_properties := Some
          (PublishProperties_default <| pp_subscribtion_identifier := [id] |>) |>
    end) p ids.

Definition Publish_normalize (p : Publish) : Publish :=
  MkPublish (publish_retain p) (publish_qos p) (publish_duplicate p) (publish_topic_name p)
    (publish_packet_id p) (norm_props PublishProperties_is_empty (publish_properties p))
    (match publish_payload p with
     | Some payload => if (length payload =? 0)%nat then None else Some payload
     | None => None
     end).

Definition Publish_topic_alias (p : Publish) : option Z :=
  match publish_properties p with Some props => pp_topic_alias props | None => None end.

(** ** PUBLISH is lawful *)

Definition wf_PublishProperties (p : PublishProperties) : Prop :=
  option_Forall is_u32 (pp_message_expiry_interval p)
  ∧ option_Forall (λ v, is_u16 v ∧ v ≠ 0) (pp_topic_alias p)
  ∧ option_Forall wf_string (pp_response_topic p)
  ∧ option_Forall is_bytes (pp_correlation_data p)
  ∧ Forall is_u32 (pp_subscribtion_identifier p)
  ∧ option_Forall wf_string (pp_content_type p)
  ∧ Forall wf_user_property (pp_user_properties p).

#[export] Instance PublishProperties_codec :
  PropsCodec PublishProperties_ wf_PublishProperties PublishProperties_is_empty.
Proof.
  apply (prop_list_codec _ _ _ [PropT_UserProp; PropT_SubscriptionIdentifier]
    PublishProperties_step PublishProperties_default Ok wf_PublishProperties
    [PropT_PayloadFormatIndicator; PropT_MessageExpiryInterval; PropT_TopicAlias;
     PropT_ResponseTopic; PropT_CorrelationData; PropT_ContentType;
     PropT_SubscriptionIdentifier; PropT_UserProp]
    (λ p, [pf_slot (pp_payload_format_indicator p);
           P_MessageExpiryInterval <$> option_list (pp_message_expiry_interval p);
           P_TopicAlias <$> option_list (pp_topic_alias p);
           P_ResponseTopic <$> option_list (pp_response_topic p);
           P_CorrelationData <$> option_list (pp_correlation_data p);
           P_ContentType <$> option_list (pp_content_type p);
           P_SubscriptionIdentifier <$> pp_subscribtion_identifier p;
           P_UserProp <$> pp_user_properties p])); try done.
  - intros s. apply dec_properties_ret.
  - intros p. unfold PublishProperties_; cbn [encode]; unfold PublishProperties_encode. props_enc.
  - intros p. props_slots.
  - intros p. unfold PublishProperties_is_empty. props_empty.
  - intros p (? & ? & ? & ? & ? & ? & ?). props_wf.
  - intros [? ? ? ? ? ? ? ?] (? & ? & ? & ? & ? & ? & ?). cbn in *.
    unfold PublishProperties_default. fold_slots. done.
  - repeat constructor.
  - intros [? ? ? ? ? ? ? ?] q (? & ? & ? & ? & ? & ? & ?) Hq. props_step wf_PublishProperties.
Qed.

(** A packet identifier is present exactly when the QoS asks for one. *)
Definition wf_Publish (p : Publish) : Prop :=
  wf_string (publish_topic_name p)
  ∧ option_Forall is_u16 (publish_packet_id p)
  ∧ option_Forall wf_PublishProperties (publish_properties p)
  ∧ option_Forall is_bytes (publish_payload p)
  ∧ qos_has_id (publish_qos p) = bool_decide (is_Some (publish_packet_id p))
  ∧ Publish_validate p = Ok ().

Lemma Publish_validate_post p :
  post (Publish_validate p) (λ _, True) dec_error.
Proof.
  unfold Publish_validate. eapply (post_bind _ _ (λ _, True)).
  - destruct (publish_qos p); case_match; first [by apply post_Ok | dec_err].
  - intros _ _ _. repeat case_match; first [by apply post_Ok | dec_err].
Qed.

(** Dropping empty properties and an empty payload keeps a packet valid. *)
Lemma Publish_validate_normalize p :
  Publish_validate p = Ok () → Publish_validate (Publish_normalize p) = Ok ().
Proof.
  destruct p as [re qos dup t i o pl]. unfold Publish_validate, Publish_normalize; cbn.
  intros (u & E & Hv)%bind_Ok_inv. rewrite E; run.
  destruct pl as [[|b pl]|]; [done| |done]. cbn [length Nat.eqb].
  destruct o as [q|]; [|done]. cbn [norm_props]. by destruct (PublishProperties_is_empty q).
Qed.

Lemma fixed_byte_publish retain qos dup :
  Z.shiftr (fixed_byte 3 retain qos dup) 4 = 3
  ∧ ∀ r, FixedHeader_unwrap (MkFixedHeader (fixed_byte 3 retain qos dup) r)
         = Ok (PT_Publish, retain, qos, dup).
Proof. by destruct retain, qos, dup. Qed.

Definition payload_bytes (o : option bytes) : bytes := default [] o.

Lemma Publish_encoded p bs :
  encoded Publish_ p = Ok bs →
  ∃ b1 b2 b3, let data := b1 ++ b2 ++ b3 ++ payload_bytes (publish_payload p) in
    encoded TopicName (publish_topic_name p) = Ok b1
    ∧ from_option (encoded u16) (Ok []) (publish_packet_id p) = Ok b2
    ∧ encoded_props PublishProperties_ (publish_properties p) = Ok b3
    ∧ len data ≤ VarU32_MAX
    ∧ bs = framed (fixed_byte 3 (publish_retain p) (publish_qos p) (publish_duplicate p)) data.
Proof.
  intros (blob & E & Hb)%bind_Ok_inv. cbn [encode Publish_] in E. unfold Publish_encode in E.
  inv_emit E. cbv zeta in E.
  eapply finish_packet_Ok in Hb as [Hl ->]; [|apply header_for_publish|exact E].
  exists bs0, bs1, bs2. cbv zeta. do 3 (split; [done|]).
  destruct (publish_payload p); cbn [payload_bytes default] in *.
  - rewrite <-!app_assoc in *. done.
  - by rewrite app_nil_r.
Qed.

Lemma Publish_decode_post s :
  is_bytes s → packet_stream PT_Publish s →
  post (Publish_decode s) (λ r, (0 < r.2 ≤ length s)%nat ∧ wf_Publish r.1) dec_error.
Proof.
  intros Hs Hp. unfold Publish_decode.
  eapply post_bind; [by eapply dec_header_post|].
  intros [fh n] _ (Hv & Hn & Hr & Hl & retain & qos & dup & Hu); cbn [fst snd] in *.
  rewrite Hv, Hu; run.
  check_field TopicName (Forall is_char). check_field_if u16 is_u16.
  check_props PublishProperties_ wf_PublishProperties PublishProperties_is_empty.
  apply (post_bind _ _ (λ r, (0 < r.2 ≤ length s)%nat ∧ option_Forall is_bytes r.1)).
  - destruct (_ =? _); [apply post_Ok; cbn; split; [lia|constructor]|].
    rewrite <-Hl. destruct (Z.leb_spec (len s) (len s)); [|lia].
    unfold len. rewrite Nat2Z.id, slice_Ok by lia; run. apply post_Ok; cbn.
    split; [lia|]. constructor. auto with wf.
  - intros [pl m] _ [? ?]; cbn [fst snd] in *.
    eapply post_bind; [apply Publish_validate_post|]. intros [] Hval _.
    apply post_Ok; cbn [fst snd]. split; [lia|].
    match goal with H : if qos_has_id qos then _ else _ |- _ => rename H into Hid end.
    assert (qos_has_id qos = bool_decide (is_Some v0) ∧ option_Forall is_u16 v0) as [? ?].
    { destruct (qos_has_id qos); [destruct Hid as (? & -> & ?)|subst]; (split; [done|by constructor]). }
    by unfold wf_Publish; cbn; split_and!.
Qed.

#[export] Instance Publish_codec :
  PacketCodec Publish_ wf_Publish always_stable Publish_normalize (λ _, PT_Publish) [PT_Publish].
Proof.
  split.
  - intros t s ->%list_elem_of_singleton Hs Hp. eapply post_mono; [by apply Publish_decode_post|].
    intros r _ [? ?]. done.
  - intros p (? & ? & ? & ? & _). unfold encoded; cbn [encode Publish_]. unfold Publish_encode.
    check_emit. cbv zeta. eapply finish_packet_post; [apply header_for_publish|].
    destruct (publish_payload p); [|done]. apply Forall_app. split; [done|].
    by match goal with H : option_Forall is_bytes _ |- _ => inversion H end.
  - intros p bs Hp (b1 & b2 & b3 & _ & _ & _ & Hl & ->)%Publish_encoded.
    destruct (fixed_byte_publish (publish_retain p) (publish_qos p) (publish_duplicate p)).
    destruct (header_for_publish (publish_retain p) (publish_qos p) (publish_duplicate p))
      as (? & ? & _).
    eexists _, _. by do 4 (split; [done|]).
  - intros p bs rest (? & ? & ? & ? & Hid & Hval) _
      (b1 & b2 & b3 & E1 & E2 & E3 & Hl & ->)%Publish_encoded.
    destruct (dec_header_framed _ _ _ rest (header_for_publish (publish_retain p) (publish_qos p)
      (publish_duplicate p)) Hl) as (Eh & Hat & Hh).
    cbn [decode Publish_]. unfold Publish_decode. rewrite Eh; run. rewrite Hh; run.
    rewrite (proj2 (fixed_byte_publish _ _ _)); run.
    rewrite <-!app_assoc in Hat.
    read_field TopicName (Forall is_char) E1 Hat.
    rewrite Hid. read_field_if u16 is_u16 E2 Hat.
    read_props PublishProperties_ wf_PublishProperties PublishProperties_is_empty E3 Hat.
    apply Publish_validate_normalize in Hval. unfold Publish_normalize in *.
    set (pb := payload_bytes (publish_payload p)) in *. cbn [remaining_len].
    edestruct (tail_at _ _ pb rest
      (Z.of_nat (S (length (varint_bytes (len (b1 ++ b2 ++ b3 ++ pb))))) + len (b1 ++ b2 ++ b3 ++ pb)) Hat)
      as (Hle & Hm & Hsl & Heq); [unfold len; rewrite !length_app; lia|].
    rewrite Hle, Hm, Hsl; run. rewrite length_framed, !length_app.
    destruct (_ =? _); run.
    + assert (pb = []) as Hpb by by apply Heq. replace (match publish_payload p with
        Some _ => _ | None => None end) with (@None bytes) in *
        by (unfold pb in Hpb; destruct (publish_payload p) as [[]|]; done).
      rewrite Hval; run. rewrite Hpb; cbn [length]. do 2 f_equal. lia.
    + replace (match publish_payload p with Some _ => _ | None => None end) with (Some pb) in *.
      { rewrite Hval; run. do 2 f_equal. lia. }
      unfold pb in *. destruct (publish_payload p) as [[|b pl]|]; cbn in *; [|done|].
      all: by destruct Heq as [_ Heq]; discriminate Heq.
Qed.
