(* ===== verification/V5Subscribe.v ===== *)
(** * SUBSCRIBE, SUBACK, UNSUBSCRIBE and UNSUBACK
    (src/src/v5/sub.rs, suback.rs, unsub.rs, unsuback.rs) *)
From S2P Require Import Prelude Errors Utf8 Util Types V5Header V5Property V5Codec.
Local Open Scope Z_scope.

(** ** Subscription options *)

Inductive RetainForwardRule : Set := RFR_OnEverySubscribe | RFR_OnNewSubscribe | RFR_Never.

#[global] Instance RetainForwardRule_eq_dec : EqDecision RetainForwardRule.
Proof. solve_decision. Defined.

Definition RetainForwardRule_try_from (val : Z) : Result RetainForwardRule :=
  match val with
  | 0 => Ok RFR_OnEverySubscribe
  | 1 => Ok RFR_OnNewSubscribe
  | 2 => Ok RFR_Never
  | _ => err EK_MalformedPacket RC_MalformedPacket
  end.

Definition RetainForwardRule_into_u8 (r : RetainForwardRule) : Z :=
  match r with RFR_OnEverySubscribe => 0 | RFR_OnNewSubscribe => 1 | RFR_Never => 2 end.

(** [SubscriptionOpt] is a newtype of [u8]. *)
Definition SO_MAXIMUM_QOS : Z := 0x03.
Definition SO_NO_LOCAL : Z := 0x04.
Definition SO_RETAIN_AS_PUBLISHED : Z := 0x08.
Definition SO_RETAIN_HANDLING : Z := 0x30.
Definition SO_RESERVED : Z := 0xC0.

Definition SubscriptionOpt_new (rfr : RetainForwardRule) (rap nl : bool) (qos : QoS) : Z :=
  let rfr := Z.land (Z.shiftl (RetainForwardRule_into_u8 rfr) 4) 0xFF in
  let rap := if rap then 8 else 0 in
  let nl := if nl then 4 else 0 in
  let qos := QoS_into_u8 qos in
  Z.lor (Z.lor (Z.lor rfr rap) nl) qos.

(** [SubscriptionOpt::unwrap]: (retain_forward_rule, retain_as_published, no_local,
    qos).  The retain rule is read as [(self.0 >> 4) & RETAIN_HANDLING], with the
    mask in the position the bits had before the shift. *)
Definition SubscriptionOpt_unwrap (opt : Z) : Result (RetainForwardRule * bool * bool * QoS) :=
  qos ← res_unwrap (QoS_try_from (Z.land opt SO_MAXIMUM_QOS));
  let nl := 0 <? Z.land opt SO_NO_LOCAL in
  let rap := 0 <? Z.land opt SO_RETAIN_AS_PUBLISHED in
  rfr ← res_unwrap (RetainForwardRule_try_from (Z.land (Z.shiftr opt 4) SO_RETAIN_HANDLING));
  Ok (rfr, rap, nl, qos).

Definition SubscriptionOpt_validate (opt : Z) : Result () := Ok ().

Definition SubscriptionOpt_decode (stream : bytes) : Result (Z * nat) :=
  '(opt, n) ← dec_field u8 stream 0;
  _ ← SubscriptionOpt_validate opt;
  Ok (opt, n).

Definition SubscriptionOpt_encode (opt : Z) : Result Blob :=
  _ ← SubscriptionOpt_validate opt;
  u8_encode opt.

Definition SubscriptionOpt_ : Packetize Z :=
  MkPacketize SubscriptionOpt_decode SubscriptionOpt_encode.

(** ** Shared parts of the four packets *)

(** The bytes up to the remaining length of the packet:
    [match fh_len + remaining_len { m if m == n => err, m if m <= stream.len() =>
    stream[n..m], m => err }] *)
Definition dec_tail (kind : ErrorKind) (code : ReasonCode) (stream : bytes) (fh : FixedHeader)
    (fh_len n : nat) : Result (bytes * nat) :=
  let m := Z.of_nat fh_len + remaining_len fh in
  if m =? Z.of_nat n then err kind code
  else if m <=? len stream then
    bs ← slice stream n (Z.to_nat m);
    Ok (bs, Z.to_nat m)
  else err kind code.

(** [while t < payload.len() { .. }]: decode values until the end of the stream.
    Every turn consumes a byte, so the length of the stream is enough fuel. *)
Fixpoint dec_all {A} (c : Packetize A) (fuel : nat) (stream : bytes) (t : nat) (acc : list A)
    : Result (list A) :=
  if (t <? length stream)%nat then
    match fuel with
    | O => NoFuel
    | S fuel =>
        '(v, m) ← dec_field c stream t;
        dec_all c fuel stream m (acc ++ [v])
    end
  else Ok acc.

(** ** SUBSCRIBE *)

Record SubscribeFilter := MkSubscribeFilter {
  sf_topic_filter : rstring;
  sf_opt : Z;
}.

Definition SubscribeFilter_decode (stream : bytes) : Result (SubscribeFilter * nat) :=
  '(topic_filter, n) ← dec_field TopicFilter stream 0;
  '(opt, n) ← dec_field SubscriptionOpt_ stream n;
  Ok (MkSubscribeFilter topic_filter opt, n).

Definition SubscribeFilter_encode (f : SubscribeFilter) : Result Blob :=
  data ← emit TopicFilter (sf_topic_filter f) [];
  data ← emit SubscriptionOpt_ (sf_opt f) data;
  Ok (Blob_Large data).

Definition SubscribeFilter_ : Packetize SubscribeFilter :=
  MkPacketize SubscribeFilter_decode SubscribeFilter_encode.

Record SubscribeProperties := MkSubscribeProperties {
  subp_subscription_id : option Z;
  subp_user_properties : list UserProperty_t;
}.
#[export] Instance SubscribeProperties_eta : Eta SubscribeProperties :=
  λ p, MkSubscribeProperties (subp_subscription_id p) (subp_user_properties p).

Definition SubscribeProperties_default : SubscribeProperties := MkSubscribeProperties None [].

Definition SubscribeProperties_step (props : SubscribeProperties) (property : Property)
    : Result SubscribeProperties :=
  match property with
  | P_SubscriptionIdentifier val =>
      if val =? 0 then err EK_ProtocolError RC_ProtocolError
      else Ok (props <| subp_subscription_id := Some val |>)
  | P_UserProp val =>
      Ok (props <| subp_user_properties := subp_user_properties props ++ [val] |>)
  | _ => err EK_ProtocolError RC_ProtocolError
  end.

Definition SubscribeProperties_decode (stream : bytes) : Result (SubscribeProperties * nat) :=
  dec_properties [PropT_UserProp] SubscribeProperties_step SubscribeProperties_default stream.

Definition SubscribeProperties_encode (p : SubscribeProperties) : Result Blob :=
  data ← enc_prop_opt PropT_SubscriptionIdentifier VarU32 (subp_subscription_id p) [];
  data ← enc_prop_all PropT_UserProp UserProperty (subp_user_properties p) data;
  finish_properties data.

Definition SubscribeProperties_ : Packetize SubscribeProperties :=
  MkPacketize SubscribeProperties_decode SubscribeProperties_encode.

Definition SubscribeProperties_is_empty (p : SubscribeProperties) : bool :=
  is_none (subp_subscription_id p) && (length (subp_user_properties p) =? 0)%nat.

Record Subscribe := MkSubscribe {
  sub_packet_id : Z;
  sub_properties : option SubscribeProperties;
  sub_filters : list SubscribeFilter;
}.

(** The body of the loop of [Subscribe::validate]. *)
Definition validate_opt (opt : Z) : Result () :=
  if 0 <? Z.land opt SO_RESERVED then err EK_MalformedPacket RC_MalformedPacket
  else if Z.shiftr (Z.land opt SO_RETAIN_HANDLING) 4 =? 3
  then err EK_MalformedPacket RC_MalformedPacket
  else
    _ ← QoS_try_from (Z.land opt SO_MAXIMUM_QOS);
    Ok ().

Definition Subscribe_validate (p : Subscribe) : Result () :=
  if (length (sub_filters p) =? 0)%nat then err EK_ProtocolError RC_ProtocolError
  else
    _ ← foldM (λ _ filter, validate_opt (sf_opt filter)) () (sub_filters p);
    Ok ().

Definition Subscribe_decode (stream : bytes) : Result (Subscribe * nat) :=
  '(fh, fh_len) ← dec_field FixedHeader_ stream 0;
  _ ← FixedHeader_validate fh;
  '(packet_id, n) ← dec_field u16 stream fh_len;
  '(properties, n) ← dec_props SubscribeProperties_ stream n;
  '(payload, n) ← dec_tail EK_MalformedPacket RC_MalformedPacket stream fh fh_len n;
  filters ← dec_all SubscribeFilter_ (length payload) payload 0 [];
  let val := MkSubscribe packet_id properties filters in
  _ ← Subscribe_validate val;
  Ok (val, n).

Definition Subscribe_encode (p : Subscribe) : Result Blob :=
  _ ← Subscribe_validate p;
  data ← emit u16 (sub_packet_id p) [];
  data ← emit_props SubscribeProperties_ (sub_properties p) data;
  data ← emit_all SubscribeFilter_ (sub_filters p) data;
  finish_packet FixedHeader_new_subscribe data.

Definition Subscribe_ : Packetize Subscribe := MkPacketize Subscribe_decode Subscribe_encode.

Definition Subscribe_normalize (p : Subscribe) : Subscribe :=
  MkSubscribe (sub_packet_id p)
    (norm_props SubscribeProperties_is_empty (sub_properties p)) (sub_filters p).

(** ** SUBACK *)

Inductive SubAckReasonCode : Set :=
| SRC_QoS0
| SRC_QoS1
| SRC_QoS2
| SRC_UnspecifiedError
| SRC_ImplementationError
| SRC_NotAuthorized
| SRC_InvalidTopicFilter
| SRC_PacketIdInuse
| SRC_QuotaExceeded
| SRC_SharedSubscriptionsNotSupported
| SRC_SubscriptionIdNotSupported
| SRC_WildcardSubscriptionsNotSupported.

#[global] Instance SubAckReasonCode_eq_dec : EqDecision SubAckReasonCode.
Proof. solve_decision. Defined.

(** [code as u8] *)
Definition SubAckReasonCode_as_u8 (c : SubAckReasonCode) : Z :=
  match c with
  | SRC_QoS0 => 0x00
  | SRC_QoS1 => 0x01
  | SRC_QoS2 => 0x02
  | SRC_UnspecifiedError => 0x80
  | SRC_ImplementationError => 0x83
  | SRC_NotAuthorized => 0x87
  | SRC_InvalidTopicFilter => 0x8F
  | SRC_PacketIdInuse => 0x91
  | SRC_QuotaExceeded => 0x97
  | SRC_SharedSubscriptionsNotSupported => 0x9E
  | SRC_SubscriptionIdNotSupported => 0xA1
  | SRC_WildcardSubscriptionsNotSupported => 0xA2
  end.

Definition SubAckReasonCode_try_from (val : Z) : Result SubAckReasonCode :=
  match val with
  | 0x00 => Ok SRC_QoS0
  | 0x01 => Ok SRC_QoS1
  | 0x02 => Ok SRC_QoS2
  | 0x80 => Ok SRC_UnspecifiedError
  | 0x83 => Ok SRC_ImplementationError
  | 0x87 => Ok SRC_NotAuthorized
  | 0x8F => Ok SRC_InvalidTopicFilter
  | 0x91 => Ok SRC_PacketIdInuse
  | 0x97 => Ok SRC_QuotaExceeded
  | 0x9E => Ok SRC_SharedSubscriptionsNotSupported
  | 0xA1 => Ok SRC_SubscriptionIdNotSupported
  | 0xA2 => Ok SRC_WildcardSubscriptionsNotSupported
  | _ => err EK_MalformedPacket RC_MalformedPacket
  end.

Record SubAckProperties := MkSubAckProperties {
  subackp_reason_string : option rstring;
  subackp_user_properties : list UserProperty_t;
}.
#[export] Instance SubAckProperties_eta : Eta SubAckProperties :=
  λ p, MkSubAckProperties (subackp_reason_string p) (subackp_user_properties p).

Definition SubAckProperties_default : SubAckProperties := MkSubAckProperties None [].

Definition SubAckProperties_step (props : SubAckProperties) (property : Property)
    : Result SubAckProperties :=
  match property with
  | P_ReasonString val => Ok (props <| subackp_reason_string := Some val |>)
  | P_UserProp val =>
      Ok (props <| subackp_user_properties := subackp_user_properties props ++ [val] |>)
  | _ => err EK_ProtocolError RC_ProtocolError
  end.

Definition SubAckProperties_decode (stream : bytes) : Result (SubAckProperties * nat) :=
  dec_properties [PropT_UserProp] SubAckProperties_step SubAckProperties_default stream.

Definition SubAckProperties_encode (p : SubAckProperties) : Result Blob :=
  data ← enc_prop_opt PropT_ReasonString String_ (subackp_reason_string p) [];
  data ← enc_prop_all PropT_UserProp UserProperty (subackp_user_properties p) data;
  finish_properties data.

Definition SubAckProperties_ : Packetize SubAckProperties :=
  MkPacketize SubAckProperties_decode SubAckProperties_encode.

Definition SubAckProperties_is_empty (p : SubAckProperties) : bool :=
  is_none (subackp_reason_string p) && (length (subackp_user_properties p) =? 0)%nat.

Record SubAck := MkSubAck {
  suback_packet_id : Z;
  suback_properties : option SubAckProperties;
  suback_return_codes : list SubAckReasonCode;
}.

Definition SubAck_decode (stream : bytes) : Result (SubAck * nat) :=
  '(fh, fh_len) ← dec_field FixedHeader_ stream 0;
  _ ← FixedHeader_validate fh;
  '(packet_id, n) ← dec_field u16 stream fh_len;
  '(properties, n) ← dec_props SubAckProperties_ stream n;
  '(payload, n) ← dec_tail EK_MalformedPacket RC_MalformedPacket stream fh fh_len n;
  return_codes ← mapM_out SubAckReasonCode_try_from payload;
  Ok (MkSubAck packet_id properties return_codes, n).

Definition SubAck_encode (p : SubAck) : Result Blob :=
  data ← emit u16 (suback_packet_id p) [];
  data ← emit_props SubAckProperties_ (suback_properties p) data;
  let data := data ++ (SubAckReasonCode_as_u8 <$> suback_return_codes p) in
  finish_packet (FixedHeader_new PT_SubAck) data.

Definition SubAck_ : Packetize SubAck := MkPacketize SubAck_decode SubAck_encode.

Definition SubAck_normalize (p : SubAck) : SubAck :=
  MkSubAck (suback_packet_id p)
    (norm_props SubAckProperties_is_empty (suback_properties p)) (suback_return_codes p).

(** ** UNSUBSCRIBE *)

Record UnSubscribeProperties := MkUnSubscribeProperties {
  unsubp_user_properties : list UserProperty_t;
}.
#[export] Instance UnSubscribeProperties_eta : Eta UnSubscribeProperties :=
  λ p, MkUnSubscribeProperties (unsubp_user_properties p).

Definition UnSubscribeProperties_default : UnSubscribeProperties := MkUnSubscribeProperties [].

Definition UnSubscribeProperties_step (props : UnSubscribeProperties) (property : Property)
    : Result UnSubscribeProperties :=
  match property with
  | P_UserProp val =>
      Ok (props <| unsubp_user_properties := unsubp_user_properties props ++ [val] |>)
  | _ => err EK_ProtocolError RC_ProtocolError
  end.

Definition UnSubscribeProperties_decode (stream : bytes) : Result (UnSubscribeProperties * nat) :=
  dec_properties [PropT_UserProp] UnSubscribeProperties_step UnSubscribeProperties_default stream.

Definition UnSubscribeProperties_encode (p : UnSubscribeProperties) : Result Blob :=
  data ← enc_prop_all PropT_UserProp UserProperty (unsubp_user_properties p) [];
  finish_properties data.

Definition UnSubscribeProperties_ : Packetize UnSubscribeProperties :=
  MkPacketize UnSubscribeProperties_decode UnSubscribeProperties_encode.

Definition UnSubscribeProperties_is_empty (p : UnSubscribeProperties) : bool :=
  (length (unsubp_user_properties p) =? 0)%nat.

Record UnSubscribe := MkUnSubscribe {
  unsub_packet_id : Z;
  unsub_properties : option UnSubscribeProperties;
  unsub_filters : list rstring;
}.

Definition UnSubscribe_validate (p : UnSubscribe) : Result () :=
  if (length (unsub_filters p) =? 0)%nat then err EK_ProtocolError RC_ProtocolError else Ok ().

Definition UnSubscribe_decode (stream : bytes) : Result (UnSubscribe * nat) :=
  '(fh, fh_len) ← dec_field FixedHeader_ stream 0;
  _ ← FixedHeader_validate fh;
  '(packet_id, n) ← dec_field u16 stream fh_len;
  '(properties, n) ← dec_props UnSubscribeProperties_ stream n;
  '(payload, n) ← dec_tail EK_ProtocolError RC_ProtocolError stream fh fh_len n;
  filters ← dec_all TopicFilter (length payload) payload 0 [];
  let val := MkUnSubscribe packet_id properties filters in
  _ ← UnSubscribe_validate val;
  Ok (val, n).

Definition UnSubscribe_encode (p : UnSubscribe) : Result Blob :=
  data ← emit u16 (unsub_packet_id p) [];
  data ← emit_props UnSubscribeProperties_ (unsub_properties p) data;
  data ← emit_all TopicFilter (unsub_filters p) data;
  finish_packet FixedHeader_new_unsubscribe data.

Definition UnSubscribe_ : Packetize UnSubscribe := MkPacketize UnSubscribe_decode UnSubscribe_encode.

Definition UnSubscribe_normalize (p : UnSubscribe) : UnSubscribe :=
  MkUnSubscribe (unsub_packet_id p)
    (norm_props UnSubscribeProperties_is_empty (unsub_properties p)) (unsub_filters p).

(** ** UNSUBACK *)

Inductive UnsubAckReasonCode : Set :=
| URC_QoS0
| URC_NoSubscriptionExisted
| URC_UnspecifiedError
| URC_ImplementationError
| URC_NotAuthorized
| URC_InvalidTopicFilter
| URC_PacketIdInuse.

#[global] Instance UnsubAckReasonCode_eq_dec : EqDecision UnsubAckReasonCode.
Proof. solve_decision. Defined.

(** [code as u8] *)
Definition UnsubAckReasonCode_as_u8 (c : UnsubAckReasonCode) : Z :=
  match c with
  | URC_QoS0 => 0x00
  | URC_NoSubscriptionExisted => 0x11
  | URC_UnspecifiedError => 0x80
  | URC_ImplementationError => 0x83
  | URC_NotAuthorized => 0x87
  | URC_InvalidTopicFilter => 0x8F
  | URC_PacketIdInuse => 0x91
  end.

Definition UnsubAckReasonCode_try_from (val : Z) : Result UnsubAckReasonCode :=
  match val with
  | 0x00 => Ok URC_QoS0
  | 0x11 => Ok URC_NoSubscriptionExisted
  | 0x80 => Ok URC_UnspecifiedError
  | 0x83 => Ok URC_ImplementationError
  | 0x87 => Ok URC_NotAuthorized
  | 0x8F => Ok URC_InvalidTopicFilter
  | 0x91 => Ok URC_PacketIdInuse
  | _ => err EK_MalformedPacket RC_MalformedPacket
  end.

Record UnsubAckProperties := MkUnsubAckProperties {
  unsubackp_reason_string : option rstring;
  unsubackp_user_properties : list UserProperty_t;
}.
#[export] Instance UnsubAckProperties_eta : Eta UnsubAckProperties :=
  λ p, MkUnsubAckProperties (unsubackp_reason_string p) (unsubackp_user_properties p).

Definition UnsubAckProperties_default : UnsubAckProperties := MkUnsubAckProperties None [].

Definition UnsubAckProperties_step (props : UnsubAckProperties) (property : Property)
    : Result UnsubAckProperties :=
  match property with
  | P_ReasonString val => Ok (props <| unsubackp_reason_string := Some val |>)
  | P_UserProp val =>
      Ok (props <| unsubackp_user_properties := unsubackp_user_properties props ++ [val] |>)
  | _ => err EK_ProtocolError RC_ProtocolError
  end.

Definition UnsubAckProperties_decode (stream : bytes) : Result (UnsubAckProperties * nat) :=
  dec_properties [PropT_UserProp] UnsubAckProperties_step UnsubAckProperties_default stream.

Definition UnsubAckProperties_encode (p : UnsubAckProperties) : Result Blob :=
  data ← enc_prop_opt PropT_ReasonString String_ (unsubackp_reason_string p) [];
  data ← enc_prop_all PropT_UserProp UserProperty (unsubackp_user_properties p) data;
  finish_properties data.

Definition UnsubAckProperties_ : Packetize UnsubAckProperties :=
  MkPacketize UnsubAckProperties_decode UnsubAckProperties_encode.

Definition UnsubAckProperties_is_empty (p : UnsubAckProperties) : bool :=
  is_none (unsubackp_reason_string p) && (length (unsubackp_user_properties p) =? 0)%nat.

Record UnsubAck := MkUnsubAck {
  unsuback_packet_id : Z;
  unsuback_properties : option UnsubAckProperties;
  unsuback_return_codes : list UnsubAckReasonCode;
}.

Definition UnsubAck_decode (stream : bytes) : Result (UnsubAck * nat) :=
  '(fh, fh_len) ← dec_field FixedHeader_ stream 0;
  _ ← FixedHeader_validate fh;
  '(packet_id, n) ← dec_field u16 stream fh_len;
  '(properties, n) ← dec_props UnsubAckProperties_ stream n;
  '(payload, n) ← dec_tail EK_MalformedPacket RC_MalformedPacket stream fh fh_len n;
  return_codes ← mapM_out UnsubAckReasonCode_try_from payload;
  Ok (MkUnsubAck packet_id properties return_codes, n).

Definition UnsubAck_encode (p : UnsubAck) : Result Blob :=
  data ← emit u16 (unsuback_packet_id p) [];
  data ← emit_props UnsubAckProperties_ (unsuback_properties p) data;
  let data := data ++ (UnsubAckReasonCode_as_u8 <$> unsuback_return_codes p) in
  finish_packet (FixedHeader_new PT_UnsubAck) data.

Definition UnsubAck_ : Packetize UnsubAck := MkPacketize UnsubAck_decode UnsubAck_encode.

Definition UnsubAck_normalize (p : UnsubAck) : UnsubAck :=
  MkUnsubAck (unsuback_packet_id p)
    (norm_props UnsubAckProperties_is_empty (unsuback_properties p)) (unsuback_return_codes p).

(** ** Lemmas on the shared parts *)

Lemma mapM_out_retract {E A B} (f : A → B) (g : B → outcome E A) l :
  (∀ x, g (f x) = Ok x) → mapM_out g (f <$> l) = Ok l.
Proof. intros H. induction l as [|x l IH]; [done|]. cbn. by rewrite H, IH. Qed.

Lemma dec_tail_post kind code s fh fh_len n :
  is_bytes s → (n ≤ length s)%nat → len s = Z.of_nat fh_len + remaining_len fh →
  (kind, code) = (EK_MalformedPacket, RC_MalformedPacket)
  ∨ (kind, code) = (EK_ProtocolError, RC_ProtocolError) →
  post (dec_tail kind code s fh fh_len n)
    (λ r, r.2 = length s ∧ is_bytes r.1 ∧ r.1 ≠ []) dec_error.
Proof.
  intros Hs Hn Hl Hk. unfold dec_tail. rewrite <-Hl.
  assert (∀ Q : bytes * nat → Prop, post (err kind code) Q dec_error) as Herr
    by (intros Q; destruct Hk; simplify_eq; dec_err).
  destruct (Z.eqb_spec (len s) (Z.of_nat n)) as [|Hne]; [apply Herr|].
  rewrite Z.leb_refl. unfold len in *. rewrite Nat2Z.id, slice_Ok by lia; run.
  apply post_Ok; cbn [fst snd]. split_and!; [done|auto with wf|].
  intros E%(f_equal length). rewrite length_take, length_drop in E. cbn in E. lia.
Qed.

Lemma dec_tail_at kind code s fh fh_len n bs r :
  at_ s n (bs ++ r) → Z.of_nat fh_len + remaining_len fh = Z.of_nat (n + length bs) → bs ≠ [] →
  dec_tail kind code s fh fh_len n = Ok (bs, (n + length bs)%nat).
Proof.
  intros Hat Hm Hne. unfold dec_tail. rewrite Hm.
  destruct (tail_at _ _ _ _ _ Hat eq_refl) as (Hle & Hto & Hsl & Heq).
  destruct (_ =? _); [by destruct Hne; apply Heq|]. by rewrite Hle, Hto, Hsl.
Qed.

Section dec_all_lemmas.
Context {A} (c : Packetize A) (wf : A → Prop) `{!Lawful c wf}.

Lemma dec_all_post fuel s t acc :
  is_bytes s → (length s ≤ fuel + t)%nat → Forall wf acc →
  post (dec_all c fuel s t acc) (Forall wf) dec_error.
Proof using All.
  intros Hs. revert t acc; induction fuel as [|fuel IH]; intros t acc Hf Hacc; cbn [dec_all];
    destruct (Nat.ltb_spec t (length s)); try done; [lia|].
  eapply post_bind; [by apply (dec_field_post c wf)|].
  intros [v m] _ [? ?]; cbn [fst snd] in *.
  apply IH; [lia|]. apply Forall_app_2; [done|by constructor].
Qed.

Lemma dec_all_loop fuel vs s t acc bs :
  Forall wf vs → emit_all c vs [] = Ok bs → at_ s t bs → (length vs ≤ fuel)%nat →
  dec_all c fuel s t acc = Ok (acc ++ vs).
Proof using All.
  intros Hvs. revert fuel t acc bs.
  induction Hvs as [|v vs Hv Hvs IH]; intros fuel t acc bs E Hat Hf.
  - unfold emit_all in E; cbn [foldM] in E; simplify_eq.
    pose proof (at_length _ _ _ Hat) as Hl. cbn [length] in Hl.
    rewrite app_nil_r. destruct fuel; cbn [dec_all]; destruct (Nat.ltb_spec t (length s)); done || lia.
  - apply emit_all_cons_Ok in E as (b & bs' & Eb & E & ->).
    pose proof (law_encoded_pos c wf v b Hv Eb). pose proof (at_length _ _ _ Hat) as Hl.
    rewrite length_app in Hl. destruct fuel as [|fuel]; cbn [length] in Hf; [lia|].
    cbn [dec_all]. destruct (Nat.ltb_spec t (length s)); [|lia].
    rewrite (dec_field_at c wf _ _ v b bs' Hv Eb Hat); run.
    rewrite (IH fuel _ (acc ++ [v]) bs' E (at_skip _ _ _ _ Hat)) by lia.
    by rewrite <-app_assoc.
Qed.

Lemma dec_all_at vs bs :
  Forall wf vs → emit_all c vs [] = Ok bs → dec_all c (length bs) bs 0 [] = Ok vs.
Proof using All.
  intros Hvs E. apply (dec_all_loop _ vs bs 0 [] bs Hvs E (at_start _)).
  by eapply emit_all_length.
Qed.
End dec_all_lemmas.

(** ** SUBSCRIBE is lawful *)

#[export] Instance SubscriptionOpt_lawful : Lawful SubscriptionOpt_ is_u8.
Proof. apply (checked_u8_lawful SubscriptionOpt_validate); [done|eauto]. Qed.

Definition wf_SubscribeFilter (f : SubscribeFilter) : Prop :=
  wf_string (sf_topic_filter f) ∧ is_u8 (sf_opt f).

#[export] Instance SubscribeFilter_lawful : Lawful SubscribeFilter_ wf_SubscribeFilter.
Proof.
  split.
  - intros s Hs. cbn [decode SubscribeFilter_]. unfold SubscribeFilter_decode.
    check_field TopicFilter (Forall is_char). check_field SubscriptionOpt_ is_u8.
    apply post_Ok; cbn. split; [lia|done].
  - intros f [? ?]. unfold encoded; cbn [encode SubscribeFilter_]. unfold SubscribeFilter_encode.
    check_emit. by apply post_Ok.
  - intros f bs rest [? ?] (blob & E & Hb)%bind_Ok_inv.
    cbn [encode SubscribeFilter_] in E. unfold SubscribeFilter_encode in E.
    inv_emit E. simplify_eq. cbn in Hb; simplify_eq.
    cbn [decode SubscribeFilter_]. unfold SubscribeFilter_decode.
    pose proof (at_start ((bs0 ++ bs1) ++ rest)) as Hat. rewrite <-app_assoc in Hat at 2.
    read_field TopicFilter (Forall is_char) He Hat. read_field SubscriptionOpt_ is_u8 He0 Hat.
    rewrite length_app. by destruct f.
Qed.

Definition wf_SubscribeProperties (p : SubscribeProperties) : Prop :=
  option_Forall (λ v, is_u32 v ∧ v ≠ 0) (subp_subscription_id p)
  ∧ Forall wf_user_property (subp_user_properties p).

#[export] Instance SubscribeProperties_codec :
  PropsCodec SubscribeProperties_ wf_SubscribeProperties SubscribeProperties_is_empty.
Proof.
  apply (prop_list_codec _ _ _ [PropT_UserProp] SubscribeProperties_step SubscribeProperties_default
    Ok wf_SubscribeProperties [PropT_SubscriptionIdentifier; PropT_UserProp]
    (λ p, [P_SubscriptionIdentifier <$> option_list (subp_subscription_id p); P_UserProp <$> subp_user_properties p])); try done.
  - intros s. apply dec_properties_ret.
  - intros p. unfold SubscribeProperties_; cbn [encode]; unfold SubscribeProperties_encode. props_enc.
  - intros p. props_slots.
  - intros p. unfold SubscribeProperties_is_empty. props_empty.
  - intros p (? & ?). props_wf.
  - intros [? ?] (? & ?). cbn in *. unfold SubscribeProperties_default. fold_slots. done.
  - repeat constructor.
  - intros [? ?] q (? & ?) Hq. props_step wf_SubscribeProperties.
Qed.

Lemma validate_opt_post opt : post (validate_opt opt) (λ _, True) dec_error.
Proof.
  unfold validate_opt. destruct (0 <? _); [dec_err|]. destruct (_ =? 3); [dec_err|].
  eapply post_bind; [apply QoS_try_from_post|]. done.
Qed.

Lemma Subscribe_validate_post p : post (Subscribe_validate p) (λ _, True) dec_error.
Proof.
  unfold Subscribe_validate. destruct (_ =? 0)%nat; [dec_err|].
  eapply post_bind; [|done]. apply (foldM_post _ (λ _, True)); [done|].
  intros; apply validate_opt_post.
Qed.

Definition wf_Subscribe (p : Subscribe) : Prop :=
  is_u16 (sub_packet_id p) ∧ option_Forall wf_SubscribeProperties (sub_properties p)
  ∧ Forall wf_SubscribeFilter (sub_filters p) ∧ Subscribe_validate p = Ok ().

Lemma Subscribe_encoded p bs :
  encoded Subscribe_ p = Ok bs →
  ∃ b1 b2 b3, encoded u16 (sub_packet_id p) = Ok b1
    ∧ encoded_props SubscribeProperties_ (sub_properties p) = Ok b2
    ∧ emit_all SubscribeFilter_ (sub_filters p) [] = Ok b3
    ∧ len (b1 ++ b2 ++ b3) ≤ VarU32_MAX ∧ bs = framed 130 (b1 ++ b2 ++ b3).
Proof.
  intros (blob & E & Hb)%bind_Ok_inv. cbn [encode Subscribe_] in E. unfold Subscribe_encode in E.
  apply bind_Ok_inv in E as (u & _ & E).
  inv_emit E. eapply finish_packet_Ok in Hb as [Hl ->]; [|apply header_for_subscribe|exact E].
  exists bs0, bs1, bs2. by do 4 (split; [done|]).
Qed.

#[export] Instance Subscribe_codec :
  PacketCodec Subscribe_ wf_Subscribe always_stable Subscribe_normalize (λ _, PT_Subscribe) [PT_Subscribe].
Proof.
  pose proof header_for_subscribe as Hf. split.
  - intros t s ->%list_elem_of_singleton Hs Hp. cbn [decode Subscribe_]. unfold Subscribe_decode.
    eapply post_bind; [by eapply dec_header_post|].
    intros [fh n] _ (Hv & Hn & Hr & Hl & _); cbn [fst snd] in *. rewrite Hv; run.
    check_field u16 is_u16.
    check_props SubscribeProperties_ wf_SubscribeProperties SubscribeProperties_is_empty.
    eapply post_bind; [apply dec_tail_post; first [done | lia | left; done | right; done]|].
    intros [pl m] _ (? & ? & Hpl); cbn [fst snd] in *.
    eapply post_bind; [apply (dec_all_post SubscribeFilter_ wf_SubscribeFilter); (done || lia || constructor)|].
    intros filters _ Hfl. eapply post_bind; [apply Subscribe_validate_post|].
    intros [] Hval _. apply post_Ok; cbn. split; [lia|]. by split_and!.
  - intros p (? & ? & ? & Hval). unfold encoded; cbn [encode Subscribe_]. unfold Subscribe_encode.
    rewrite Hval; run. check_emit. by eapply finish_packet_post.
  - intros p bs Hp (b1 & b2 & b3 & _ & _ & _ & Hl & ->)%Subscribe_encoded.
    eexists 130, _. destruct Hf as (? & ? & _). by do 4 (split; [done|]).
  - intros p bs rest (? & ? & Hfl & Hval) _ (b1 & b2 & b3 & E1 & E2 & E3 & Hl & ->)%Subscribe_encoded.
    destruct (dec_header_framed _ _ _ rest Hf Hl) as (Eh & Hat & Hh).
    cbn [decode Subscribe_]. unfold Subscribe_decode. rewrite Eh; run. rewrite Hh; run.
    rewrite <-!app_assoc in Hat.
    read_field u16 is_u16 E1 Hat.
    read_props SubscribeProperties_ wf_SubscribeProperties SubscribeProperties_is_empty E2 Hat.
    erewrite (dec_tail_at _ _ _ _ _ _ _ rest); [|exact Hat|cbn [remaining_len]; unfold len; rewrite !length_app; lia|]; run.
    2:{ intros ->. apply (emit_all_length SubscribeFilter_ wf_SubscribeFilter) in E3; [|done].
        destruct p as [? ? []]; [done|cbn in *; lia]. }
    rewrite (dec_all_at SubscribeFilter_ wf_SubscribeFilter (sub_filters p) b3); [|done|done]; run.
    unfold Subscribe_validate in *; cbn [sub_filters]. rewrite Hval; run.
    rewrite length_framed, !length_app. do 2 f_equal. lia.
Qed.

(** ** SUBACK is lawful *)

Lemma SubAckReasonCode_try_from_as c : SubAckReasonCode_try_from (SubAckReasonCode_as_u8 c) = Ok c.
Proof. by destruct c. Qed.

Lemma SubAckReasonCode_as_u8_range c : is_u8 (SubAckReasonCode_as_u8 c).
Proof. unfold is_u8; destruct c; simpl; lia. Qed.

Lemma SubAckReasonCode_try_from_post val :
  post (SubAckReasonCode_try_from val) (λ c, SubAckReasonCode_as_u8 c = val) dec_error.
Proof. unfold SubAckReasonCode_try_from. enum_post. Qed.

Definition wf_SubAckProperties (p : SubAckProperties) : Prop :=
  option_Forall wf_string (subackp_reason_string p)
  ∧ Forall wf_user_property (subackp_user_properties p).

#[export] Instance SubAckProperties_codec :
  PropsCodec SubAckProperties_ wf_SubAckProperties SubAckProperties_is_empty.
Proof.
  apply (prop_list_codec _ _ _ [PropT_UserProp] SubAckProperties_step SubAckProperties_default
    Ok wf_SubAckProperties [PropT_ReasonString; PropT_UserProp]
    (λ p, [P_ReasonString <$> option_list (subackp_reason_string p); P_UserProp <$> subackp_user_properties p])); try done.
  - intros s. apply dec_properties_ret.
  - intros p. unfold SubAckProperties_; cbn [encode]; unfold SubAckProperties_encode. props_enc.
  - intros p. props_slots.
  - intros p. unfold SubAckProperties_is_empty. props_empty.
  - intros p (? & ?). props_wf.
  - intros [? ?] (? & ?). cbn in *. unfold SubAckProperties_default. fold_slots. done.
  - repeat constructor.
  - intros [? ?] q (? & ?) Hq. props_step wf_SubAckProperties.
Qed.

(** An empty list of codes can be written but not read. *)
Definition wf_SubAck (p : SubAck) : Prop :=
  is_u16 (suback_packet_id p) ∧ option_Forall wf_SubAckProperties (suback_properties p)
  ∧ suback_return_codes p ≠ [].

Lemma SubAck_encoded p bs :
  encoded SubAck_ p = Ok bs →
  ∃ b1 b2, let data := b1 ++ b2 ++ (SubAckReasonCode_as_u8 <$> suback_return_codes p) in
    encoded u16 (suback_packet_id p) = Ok b1
    ∧ encoded_props SubAckProperties_ (suback_properties p) = Ok b2
    ∧ len data ≤ VarU32_MAX ∧ bs = framed 144 data.
Proof.
  intros (blob & E & Hb)%bind_Ok_inv. cbn [encode SubAck_] in E. unfold SubAck_encode in E.
  inv_emit E. cbv zeta in E. rewrite <-?app_assoc in E.
  eapply finish_packet_Ok in Hb as [Hl ->]; [|apply header_for_new|exact E]; [|set_solver].
  exists bs0, bs1. by do 3 (split; [done|]).
Qed.

#[export] Instance SubAck_codec :
  PacketCodec SubAck_ wf_SubAck always_stable SubAck_normalize (λ _, PT_SubAck) [PT_SubAck].
Proof.
  assert (header_for (FixedHeader_new PT_SubAck) 144) as Hf
    by (apply (header_for_new PT_SubAck); set_solver).
  split.
  - intros t s ->%list_elem_of_singleton Hs Hp. cbn [decode SubAck_]. unfold SubAck_decode.
    eapply post_bind; [by eapply dec_header_post|].
    intros [fh n] _ (Hv & Hn & Hr & Hl & _); cbn [fst snd] in *. rewrite Hv; run.
    check_field u16 is_u16.
    check_props SubAckProperties_ wf_SubAckProperties SubAckProperties_is_empty.
    eapply post_bind; [apply dec_tail_post; first [done | lia | left; done | right; done]|].
    intros [pl m] _ (? & ? & Hpl); cbn [fst snd] in *.
    eapply post_bind; [apply (mapM_out_post _ (λ _, True)); intros; eapply post_mono;
      [apply SubAckReasonCode_try_from_post|done]|].
    intros codes Hcodes _. apply post_Ok; cbn. split; [lia|]. split; [|done]. do 2 (split; [done|]).
    cbn. intros ->. apply mapM_out_Ok_Forall2, Forall2_length in Hcodes. by destruct pl.
  - intros p (? & ? & _). unfold encoded; cbn [encode SubAck_]. unfold SubAck_encode.
    check_emit. cbv zeta. eapply finish_packet_post; [done|]. apply Forall_app.
    split; [done|]. apply Forall_fmap, Forall_true. intros; apply SubAckReasonCode_as_u8_range.
  - intros p bs Hp (b1 & b2 & _ & _ & Hl & ->)%SubAck_encoded.
    eexists 144, _. destruct Hf as (? & ? & _). by do 4 (split; [done|]).
  - intros p bs rest (? & ? & Hne) _ (b1 & b2 & E1 & E2 & Hl & ->)%SubAck_encoded.
    destruct (dec_header_framed _ _ _ rest Hf Hl) as (Eh & Hat & Hh).
    cbn [decode SubAck_]. unfold SubAck_decode. rewrite Eh; run. rewrite Hh; run.
    rewrite <-!app_assoc in Hat.
    read_field u16 is_u16 E1 Hat.
    read_props SubAckProperties_ wf_SubAckProperties SubAckProperties_is_empty E2 Hat.
    erewrite (dec_tail_at _ _ _ _ _ _ _ rest); [|exact Hat|cbn [remaining_len]; unfold len; rewrite !length_app; lia|
      by destruct (suback_return_codes p)]; run.
    rewrite mapM_out_retract by apply SubAckReasonCode_try_from_as; run.
    rewrite length_framed, !length_app. do 2 f_equal. lia.
Qed.

(** ** UNSUBSCRIBE is lawful *)

Definition wf_UnSubscribeProperties (p : UnSubscribeProperties) : Prop :=
  Forall wf_user_property (unsubp_user_properties p).

#[export] Instance UnSubscribeProperties_codec :
  PropsCodec UnSubscribeProperties_ wf_UnSubscribeProperties UnSubscribeProperties_is_empty.
Proof.
  apply (prop_list_codec _ _ _ [PropT_UserProp] UnSubscribeProperties_step UnSubscribeProperties_default
    Ok wf_UnSubscribeProperties [PropT_UserProp]
    (λ p, [P_UserProp <$> unsubp_user_properties p])); try done.
  - intros s. apply dec_properties_ret.
  - intros p. unfold UnSubscribeProperties_; cbn [encode]; unfold UnSubscribeProperties_encode. props_enc.
  - intros p. props_slots.
  - intros p. unfold UnSubscribeProperties_is_empty. props_empty.
  - intros p ?. props_wf.
  - intros [?] ?. cbn in *. unfold UnSubscribeProperties_default. fold_slots. done.
  - repeat constructor.
  - intros [?] q ? Hq. props_step wf_UnSubscribeProperties.
Qed.

Lemma UnSubscribe_validate_post p : post (UnSubscribe_validate p) (λ _, True) dec_error.
Proof. unfold UnSubscribe_validate. destruct (_ =? 0)%nat; [dec_err|done]. Qed.

Definition wf_UnSubscribe (p : UnSubscribe) : Prop :=
  is_u16 (unsub_packet_id p) ∧ option_Forall wf_UnSubscribeProperties (unsub_properties p)
  ∧ Forall (Forall is_char) (unsub_filters p) ∧ UnSubscribe_validate p = Ok ().

Lemma UnSubscribe_encoded p bs :
  encoded UnSubscribe_ p = Ok bs →
  ∃ b1 b2 b3, encoded u16 (unsub_packet_id p) = Ok b1
    ∧ encoded_props UnSubscribeProperties_ (unsub_properties p) = Ok b2
    ∧ emit_all TopicFilter (unsub_filters p) [] = Ok b3
    ∧ len (b1 ++ b2 ++ b3) ≤ VarU32_MAX ∧ bs = framed 162 (b1 ++ b2 ++ b3).
Proof.
  intros (blob & E & Hb)%bind_Ok_inv. cbn [encode UnSubscribe_] in E. unfold UnSubscribe_encode in E.
  inv_emit E. eapply finish_packet_Ok in Hb as [Hl ->]; [|apply header_for_unsubscribe|exact E].
  exists bs0, bs1, bs2. by do 4 (split; [done|]).
Qed.

#[export] Instance UnSubscribe_codec :
  PacketCodec UnSubscribe_ wf_UnSubscribe always_stable UnSubscribe_normalize (λ _, PT_UnSubscribe) [PT_UnSubscribe].
Proof.
  pose proof header_for_unsubscribe as Hf. split.
  - intros t s ->%list_elem_of_singleton Hs Hp. cbn [decode UnSubscribe_]. unfold UnSubscribe_decode.
    eapply post_bind; [by eapply dec_header_post|].
    intros [fh n] _ (Hv & Hn & Hr & Hl & _); cbn [fst snd] in *. rewrite Hv; run.
    check_field u16 is_u16.
    check_props UnSubscribeProperties_ wf_UnSubscribeProperties UnSubscribeProperties_is_empty.
    eapply post_bind; [apply dec_tail_post; first [done | lia | left; done | right; done]|].
    intros [pl m] _ (? & ? & Hpl); cbn [fst snd] in *.
    eapply post_bind; [apply (dec_all_post TopicFilter (Forall is_char)); (done || lia || constructor)|].
    intros filters _ Hfl. eapply post_bind; [apply UnSubscribe_validate_post|].
    intros [] Hval _. apply post_Ok; cbn. split; [lia|]. by split_and!.
  - intros p (? & ? & ? & Hval). unfold encoded; cbn [encode UnSubscribe_]. unfold UnSubscribe_encode.
    check_emit. by eapply finish_packet_post.
  - intros p bs Hp (b1 & b2 & b3 & _ & _ & _ & Hl & ->)%UnSubscribe_encoded.
    eexists 162, _. destruct Hf as (? & ? & _). by do 4 (split; [done|]).
  - intros p bs rest (? & ? & Hfl & Hval) _ (b1 & b2 & b3 & E1 & E2 & E3 & Hl & ->)%UnSubscribe_encoded.
    destruct (dec_header_framed _ _ _ rest Hf Hl) as (Eh & Hat & Hh).
    cbn [decode UnSubscribe_]. unfold UnSubscribe_decode. rewrite Eh; run. rewrite Hh; run.
    rewrite <-!app_assoc in Hat.
    read_field u16 is_u16 E1 Hat.
    read_props UnSubscribeProperties_ wf_UnSubscribeProperties UnSubscribeProperties_is_empty E2 Hat.
    erewrite (dec_tail_at _ _ _ _ _ _ _ rest); [|exact Hat|cbn [remaining_len]; unfold len; rewrite !length_app; lia|]; run.
    2:{ intros ->. apply (emit_all_length TopicFilter (Forall is_char)) in E3; [|done].
        destruct p as [? ? []]; [done|cbn in *; lia]. }
    rewrite (dec_all_at TopicFilter (Forall is_char) (unsub_filters p) b3); [|done|done]; run.
    unfold UnSubscribe_validate in *; cbn [unsub_filters]. rewrite Hval; run.
    rewrite length_framed, !length_app. do 2 f_equal. lia.
Qed.

(** ** UNSUBACK is lawful *)

Lemma UnsubAckReasonCode_try_from_as c : UnsubAckReasonCode_try_from (UnsubAckReasonCode_as_u8 c) = Ok c.
Proof. by destruct c. Qed.

Lemma UnsubAckReasonCode_as_u8_range c : is_u8 (UnsubAckReasonCode_as_u8 c).
Proof. unfold is_u8; destruct c; simpl; lia. Qed.

Lemma UnsubAckReasonCode_try_from_post val :
  post (UnsubAckReasonCode_try_from val) (λ c, UnsubAckReasonCode_as_u8 c = val) dec_error.
Proof. unfold UnsubAckReasonCode_try_from. enum_post. Qed.

Definition wf_UnsubAckProperties (p : UnsubAckProperties) : Prop :=
  option_Forall wf_string (unsubackp_reason_string p)
  ∧ Forall wf_user_property (unsubackp_user_properties p).

#[export] Instance UnsubAckProperties_codec :
  PropsCodec UnsubAckProperties_ wf_UnsubAckProperties UnsubAckProperties_is_empty.
Proof.
  apply (prop_list_codec _ _ _ [PropT_UserProp] UnsubAckProperties_step UnsubAckProperties_default
    Ok wf_UnsubAckProperties [PropT_ReasonString; PropT_UserProp]
    (λ p, [P_ReasonString <$> option_list (unsubackp_reason_string p); P_UserProp <$> unsubackp_user_properties p])); try done.
  - intros s. apply dec_properties_ret.
  - intros p. unfold UnsubAckProperties_; cbn [encode]; unfold UnsubAckProperties_encode. props_enc.
  - intros p. props_slots.
  - intros p. unfold UnsubAckProperties_is_empty. props_empty.
  - intros p (? & ?). props_wf.
  - intros [? ?] (? & ?). cbn in *. unfold UnsubAckProperties_default. fold_slots. done.
  - repeat constructor.
  - intros [? ?] q (? & ?) Hq. props_step wf_UnsubAckProperties.
Qed.

(** An empty list of codes can be written but not read. *)
Definition wf_UnsubAck (p : UnsubAck) : Prop :=
  is_u16 (unsuback_packet_id p) ∧ option_Forall wf_UnsubAckProperties (unsuback_properties p)
  ∧ unsuback_return_codes p ≠ [].

Lemma UnsubAck_encoded p bs :
  encoded UnsubAck_ p = Ok bs →
  ∃ b1 b2, let data := b1 ++ b2 ++ (UnsubAckReasonCode_as_u8 <$> unsuback_return_codes p) in
    encoded u16 (unsuback_packet_id p) = Ok b1
    ∧ encoded_props UnsubAckProperties_ (unsuback_properties p) = Ok b2
    ∧ len data ≤ VarU32_MAX ∧ bs = framed 176 data.
Proof.
  intros (blob & E & Hb)%bind_Ok_inv. cbn [encode UnsubAck_] in E. unfold UnsubAck_encode in E.
  inv_emit E. cbv zeta in E. rewrite <-?app_assoc in E.
  eapply finish_packet_Ok in Hb as [Hl ->]; [|apply header_for_new|exact E]; [|set_solver].
  exists bs0, bs1. by do 3 (split; [done|]).
Qed.

#[export] Instance UnsubAck_codec :
  PacketCodec UnsubAck_ wf_UnsubAck always_stable UnsubAck_normalize (λ _, PT_UnsubAck) [PT_UnsubAck].
Proof.
  assert (header_for (FixedHeader_new PT_UnsubAck) 176) as Hf
    by (apply (header_for_new PT_UnsubAck); set_solver).
  split.
  - intros t s ->%list_elem_of_singleton Hs Hp. cbn [decode UnsubAck_]. unfold UnsubAck_decode.
    eapply post_bind; [by eapply dec_header_post|].
    intros [fh n] _ (Hv & Hn & Hr & Hl & _); cbn [fst snd] in *. rewrite Hv; run.
    check_field u16 is_u16.
    check_props UnsubAckProperties_ wf_UnsubAckProperties UnsubAckProperties_is_empty.
    eapply post_bind; [apply dec_tail_post; first [done | lia | left; done | right; done]|].
    intros [pl m] _ (? & ? & Hpl); cbn [fst snd] in *.
    eapply post_bind; [apply (mapM_out_post _ (λ _, True)); intros; eapply post_mono;
      [apply UnsubAckReasonCode_try_from_post|done]|].
    intros codes Hcodes _. apply post_Ok; cbn. split; [lia|]. split; [|done]. do 2 (split; [done|]).
    cbn. intros ->. apply mapM_out_Ok_Forall2, Forall2_length in Hcodes. by destruct pl.
  - intros p (? & ? & _). unfold encoded; cbn [encode UnsubAck_]. unfold UnsubAck_encode.
    check_emit. cbv zeta. eapply finish_packet_post; [done|]. apply Forall_app.
    split; [done|]. apply Forall_fmap, Forall_true. intros; apply UnsubAckReasonCode_as_u8_range.
  - intros p bs Hp (b1 & b2 & _ & _ & Hl & ->)%UnsubAck_encoded.
    eexists 176, _. destruct Hf as (? & ? & _). by do 4 (split; [done|]).
  - intros p bs rest (? & ? & Hne) _ (b1 & b2 & E1 & E2 & Hl & ->)%UnsubAck_encoded.
    destruct (dec_header_framed _ _ _ rest Hf Hl) as (Eh & Hat & Hh).
    cbn [decode UnsubAck_]. unfold UnsubAck_decode. rewrite Eh; run. rewrite Hh; run.
    rewrite <-!app_assoc in Hat.
    read_field u16 is_u16 E1 Hat.
    read_props UnsubAckProperties_ wf_UnsubAckProperties UnsubAckProperties_is_empty E2 Hat.
    erewrite (dec_tail_at _ _ _ _ _ _ _ rest); [|exact Hat|cbn [remaining_len]; unfold len; rewrite !length_app; lia|
      by destruct (unsuback_return_codes p)]; run.
    rewrite mapM_out_retract by apply UnsubAckReasonCode_try_from_as; run.
    rewrite length_framed, !length_app. do 2 f_equal. lia.
Qed.

(** ** Theorems *)

(** Subscription options survive [new] and [unwrap], except for the retain
    rule: the mask is applied after the shift and clears it, so every subscription
    is treated as [OnEverySubscribe]. *)
Theorem subscription_opt_unwrap rfr rap nl qos :
  validate_opt (SubscriptionOpt_new rfr rap nl qos) = Ok ()
  ∧ SubscriptionOpt_unwrap (SubscriptionOpt_new rfr rap nl qos)
    = Ok (RFR_OnEverySubscribe, rap, nl, qos).
Proof. by destruct rfr, rap, nl, qos. Qed.

Lemma foldM_validate_In fs filter u :
  foldM (λ _ f, validate_opt (sf_opt f)) () fs = Ok u → filter ∈ fs →
  validate_opt (sf_opt filter) = Ok ().
Proof.
  revert u. induction fs as [|f fs IH]; intros u; [by intros _ ?%not_elem_of_nil|].
  intros ([] & E & Ef)%bind_Ok_inv [->|Hin]%elem_of_cons; [done|by eapply IH].
Qed.

Lemma SubscriptionOpt_unwrap_valid z :
  is_u8 z → validate_opt z = Ok () → is_Ok (SubscriptionOpt_unwrap z).
Proof.
  revert z. apply (forall_u8 (λ z, validate_opt z = Ok () → is_Ok (SubscriptionOpt_unwrap z)) (λ z,
    match validate_opt z, SubscriptionOpt_unwrap z with
    | Ok _, Ok _ => true | Ok _, _ => false | _, _ => true end)); [|by vm_compute].
  intros z H Hv. rewrite Hv in H. destruct (SubscriptionOpt_unwrap z); try done. by eexists.
Qed.

(** The options of every filter of a well-formed SUBSCRIBE packet (a decoded
    one is) can be unwrapped without a panic, because validation has refused the
    reserved values. *)
Theorem subscribe_opts_unwrap p filter :
  wf_Subscribe p → filter ∈ sub_filters p → is_Ok (SubscriptionOpt_unwrap (sf_opt filter)).
Proof.
  intros (_ & _ & Hf & Hv) Hin.
  unfold Subscribe_validate in Hv. destruct (_ =? 0)%nat; [done|].
  apply bind_Ok_inv in Hv as (u & Hfold & _).
  apply SubscriptionOpt_unwrap_valid; [|by eapply foldM_validate_In].
  eapply Forall_forall in Hf; [apply Hf|done].
Qed.

Lemma subscribe_opts_unwrap_witness :
  is_Ok (SubscriptionOpt_unwrap (sf_opt (MkSubscribeFilter [97] 1))).
Proof.
  apply (subscribe_opts_unwrap (MkSubscribe 7 None [MkSubscribeFilter [97] 1])); [|by left].
  split; [done|]. split; [constructor|]. split; [|done].
  apply (bool_decide_unpack _); by vm_compute.
Defined.
