(* ===== verification/V5Packet.v ===== *)
(** * The packets of the protocol (src/src/v5/mod.rs, [Packet])

    The enumeration of all packets with its dispatch on the fixed header.  Its
    theorems are the ones the transport relies on; they are proved from the
    [PacketCodec] interface of the packets and not from their definitions. *)
From S2P Require Import Prelude Errors Utf8 Util Types V5Header V5Property V5Codec.
From S2P Require Import V5Connect V5ConnAck V5Publish V5PubAck V5Subscribe V5Session.
Local Open Scope Z_scope.

Inductive Packet : Type :=
| Pkt_Connect (pkt : Connect)
| Pkt_ConnAck (pkt : ConnAck)
| Pkt_Publish (pkt : Publish)
| Pkt_PubAck (pkt : Pub)
| Pkt_PubRec (pkt : Pub)
| Pkt_PubRel (pkt : Pub)
| Pkt_PubComp (pkt : Pub)
| Pkt_Subscribe (pkt : Subscribe)
| Pkt_SubAck (pkt : SubAck)
| Pkt_UnSubscribe (pkt : UnSubscribe)
| Pkt_UnsubAck (pkt : UnsubAck)
| Pkt_PingReq
| Pkt_PingResp
| Pkt_Disconnect (pkt : Disconnect)
| Pkt_Auth (pkt : Auth).

Definition Packet_decode (stream : bytes) : Result (Packet * nat) :=
  '(fh, _) ← FixedHeader_decode stream;
  '(pkt_type, _, _, _) ← FixedHeader_unwrap fh;
  match pkt_type with
  | PT_Connect => '(pkt, n) ← Connect_decode stream; Ok (Pkt_Connect pkt, n)
  | PT_ConnAck => '(pkt, n) ← ConnAck_decode stream; Ok (Pkt_ConnAck pkt, n)
  | PT_Publish => '(pkt, n) ← Publish_decode stream; Ok (Pkt_Publish pkt, n)
  | PT_PubAck => '(pkt, n) ← Pub_decode stream; Ok (Pkt_PubAck pkt, n)
  | PT_PubRec => '(pkt, n) ← Pub_decode stream; Ok (Pkt_PubRec pkt, n)
  | PT_PubRel => '(pkt, n) ← Pub_decode stream; Ok (Pkt_PubRel pkt, n)
  | PT_PubComp => '(pkt, n) ← Pub_decode stream; Ok (Pkt_PubComp pkt, n)
  | PT_Subscribe => '(pkt, n) ← Subscribe_decode stream; Ok (Pkt_Subscribe pkt, n)
  | PT_SubAck => '(pkt, n) ← SubAck_decode stream; Ok (Pkt_SubAck pkt, n)
  | PT_UnSubscribe => '(pkt, n) ← UnSubscribe_decode stream; Ok (Pkt_UnSubscribe pkt, n)
  | PT_UnsubAck => '(pkt, n) ← UnsubAck_decode stream; Ok (Pkt_UnsubAck pkt, n)
  | PT_PingReq => '(_, n) ← Ping_decode stream; Ok (Pkt_PingReq, n)
  | PT_PingResp => '(_, n) ← Ping_decode stream; Ok (Pkt_PingResp, n)
  | PT_Disconnect => '(pkt, n) ← Disconnect_decode stream; Ok (Pkt_Disconnect pkt, n)
  | PT_Auth => '(pkt, n) ← Auth_decode stream; Ok (Pkt_Auth pkt, n)
  end.

Definition Packet_encode (p : Packet) : Result Blob :=
  match p with
  | Pkt_Connect pkt => Connect_encode pkt
  | Pkt_ConnAck pkt => ConnAck_encode pkt
  | Pkt_Publish pkt => Publish_encode pkt
  | Pkt_PubAck pkt | Pkt_PubRec pkt | Pkt_PubRel pkt | Pkt_PubComp pkt => Pub_encode pkt
  | Pkt_Subscribe pkt => Subscribe_encode pkt
  | Pkt_SubAck pkt => SubAck_encode pkt
  | Pkt_UnSubscribe pkt => UnSubscribe_encode pkt
  | Pkt_UnsubAck pkt => UnsubAck_encode pkt
  | Pkt_PingReq => Ping_encode PT_PingReq
  | Pkt_PingResp => Ping_encode PT_PingResp
  | Pkt_Disconnect pkt => Disconnect_encode pkt
  | Pkt_Auth pkt => Auth_encode pkt
  end.

Definition Packet_ : Packetize Packet := MkPacketize Packet_decode Packet_encode.

Definition to_packet_type (p : Packet) : PacketType :=
  match p with
  | Pkt_Connect _ => PT_Connect
  | Pkt_ConnAck _ => PT_ConnAck
  | Pkt_Publish _ => PT_Publish
  | Pkt_PubAck _ => PT_PubAck
  | Pkt_PubRec _ => PT_PubRec
  | Pkt_PubRel _ => PT_PubRel
  | Pkt_PubComp _ => PT_PubComp
  | Pkt_Subscribe _ => PT_Subscribe
  | Pkt_SubAck _ => PT_SubAck
  | Pkt_UnSubscribe _ => PT_UnSubscribe
  | Pkt_UnsubAck _ => PT_UnsubAck
  | Pkt_PingReq => PT_PingReq
  | Pkt_PingResp => PT_PingResp
  | Pkt_Disconnect _ => PT_Disconnect
  | Pkt_Auth _ => PT_Auth
  end.

Definition Packet_normalize (p : Packet) : Packet :=
  match p with
  | Pkt_Connect val => Pkt_Connect (Connect_normalize val)
  | Pkt_ConnAck val => Pkt_ConnAck (ConnAck_normalize val)
  | Pkt_Publish val => Pkt_Publish (Publish_normalize val)
  | Pkt_PubAck val => Pkt_PubAck (Pub_normalize val)
  | Pkt_PubRec val => Pkt_PubRec (Pub_normalize val)
  | Pkt_PubRel val => Pkt_PubRel (Pub_normalize val)
  | Pkt_PubComp val => Pkt_PubComp (Pub_normalize val)
  | Pkt_Subscribe val => Pkt_Subscribe (Subscribe_normalize val)
  | Pkt_SubAck val => Pkt_SubAck (SubAck_normalize val)
  | Pkt_UnSubscribe val => Pkt_UnSubscribe (UnSubscribe_normalize val)
  | Pkt_UnsubAck val => Pkt_UnsubAck (UnsubAck_normalize val)
  | Pkt_PingReq => Pkt_PingReq
  | Pkt_PingResp => Pkt_PingResp
  | Pkt_Disconnect val => Pkt_Disconnect (Disconnect_normalize val)
  | Pkt_Auth val => Pkt_Auth (Auth_normalize val)
  end.

(** ** Well-formed packets *)

Definition wf_Packet (p : Packet) : Prop :=
  match p with
  | Pkt_Connect pkt => wf_Connect pkt
  | Pkt_ConnAck pkt => wf_ConnAck pkt
  | Pkt_Publish pkt => wf_Publish pkt
  | Pkt_PubAck pkt => wf_Pub pkt ∧ pub_packet_type pkt = PT_PubAck
  | Pkt_PubRec pkt => wf_Pub pkt ∧ pub_packet_type pkt = PT_PubRec
  | Pkt_PubRel pkt => wf_Pub pkt ∧ pub_packet_type pkt = PT_PubRel
  | Pkt_PubComp pkt => wf_Pub pkt ∧ pub_packet_type pkt = PT_PubComp
  | Pkt_Subscribe pkt => wf_Subscribe pkt
  | Pkt_SubAck pkt => wf_SubAck pkt
  | Pkt_UnSubscribe pkt => wf_UnSubscribe pkt
  | Pkt_UnsubAck pkt => wf_UnsubAck pkt
  | Pkt_PingReq | Pkt_PingResp => True
  | Pkt_Disconnect pkt => wf_Disconnect pkt
  | Pkt_Auth pkt => wf_Auth pkt
  end.

(** Only a CONNECT packet with empty will properties is not read back. *)
Definition stable_Packet (p : Packet) : Prop :=
  match p with Pkt_Connect pkt => stable_Connect pkt | _ => True end.

#[export] Instance stable_Packet_dec p : Decision (stable_Packet p).
Proof.
  unfold stable_Packet, stable_Connect. destruct p as [v| | | | | | | | | | | | | |]; try apply _.
  destruct (cpl_will_properties (connect_payload v)) as [w|]; [|left; constructor].
  destruct (WillProperties_is_empty w) eqn:E; [right; intros H; inversion H; congruence|left; by constructor].
Defined.

(** A stream that holds exactly one packet, as its header says. *)
Definition one_packet (s : bytes) : Prop :=
  ∀ fh n, FixedHeader_decode s = Ok (fh, n) → len s = Z.of_nat n + remaining_len fh.

(** ** The codec of each variant *)

Section variant.
Context {A} (c : Packetize A) (wf stable : A → Prop) (norm : A → A).
Context (type_of : A → PacketType) (types : list PacketType).
Context `{!PacketCodec c wf stable norm type_of types}.
Context (C : A → Packet) (t : PacketType) (Ht : t ∈ types).

Lemma variant_decode s :
  (∀ v, wf v → type_of v = t → wf_Packet (C v)) → (∀ v, to_packet_type (C v) = t) →
  is_bytes s → packet_stream t s →
  post ('(pkt, n) ← decode c s; Ok (C pkt, n))
    (λ r, (0 < r.2 ≤ length s)%nat ∧ wf_Packet r.1 ∧ to_packet_type r.1 = t) dec_error.
Proof using All.
  intros Hwf Htype Hs Hp. eapply post_bind; [by eapply pkt_decode|].
  intros [v n] _ (? & ? & ?); cbn [fst snd] in *. apply post_Ok; cbn [fst snd].
  split; [done|]. split; auto.
Qed.
End variant.

Lemma Packet_decode_post s :
  is_bytes s → one_packet s →
  post (Packet_decode s)
    (λ r, (0 < r.2 ≤ length s)%nat ∧ wf_Packet r.1
          ∧ ∃ fh n retain qos dup, FixedHeader_decode s = Ok (fh, n)
              ∧ FixedHeader_unwrap fh = Ok (to_packet_type r.1, retain, qos, dup)) dec_error.
Proof.
  intros Hs Hone. unfold Packet_decode.
  eapply post_bind; [by apply FixedHeader_decode_post|].
  intros [fh n] E (_ & _ & Hb & _ & Hv); cbn [fst snd] in *.
  pose proof (FixedHeader_validate_post fh Hb) as Hu. rewrite Hv in Hu.
  destruct Hu as [[[[t re] q] d] Hu]. rewrite Hu; run.
  assert (packet_stream t s) as Hp.
  { intros fh' n' E'. split; [by apply Hone|]. rewrite E in E'; simplify_eq. rewrite Hu. by intros; simplify_eq. }
  apply (post_mono _ (λ r, (0 < r.2 ≤ length s)%nat ∧ wf_Packet r.1 ∧ to_packet_type r.1 = t)).
  2:{ intros [p m] _ (? & ? & <-); cbn [fst snd] in *. split; [done|]. eauto 10. }
  destruct t; cbv match.
  - by apply (variant_decode Connect_ _ _ _ _ [PT_Connect] Pkt_Connect); [set_solver|..].
  - by apply (variant_decode ConnAck_ _ _ _ _ [PT_ConnAck] Pkt_ConnAck); [set_solver|..].
  - by apply (variant_decode Publish_ _ _ _ _ [PT_Publish] Pkt_Publish); [set_solver|..].
  - by apply (variant_decode Pub_ _ _ _ _ pub_types Pkt_PubAck); [set_solver|..].
  - by apply (variant_decode Pub_ _ _ _ _ pub_types Pkt_PubRec); [set_solver|..].
  - by apply (variant_decode Pub_ _ _ _ _ pub_types Pkt_PubRel); [set_solver|..].
  - by apply (variant_decode Pub_ _ _ _ _ pub_types Pkt_PubComp); [set_solver|..].
  - by apply (variant_decode Subscribe_ _ _ _ _ [PT_Subscribe] Pkt_Subscribe); [set_solver|..].
  - by apply (variant_decode SubAck_ _ _ _ _ [PT_SubAck] Pkt_SubAck); [set_solver|..].
  - by apply (variant_decode UnSubscribe_ _ _ _ _ [PT_UnSubscribe] Pkt_UnSubscribe); [set_solver|..].
  - by apply (variant_decode UnsubAck_ _ _ _ _ [PT_UnsubAck] Pkt_UnsubAck); [set_solver|..].
  - by apply (variant_decode PingReq_ _ _ _ _ [PT_PingReq] (λ _, Pkt_PingReq)); [set_solver|..].
  - by apply (variant_decode PingResp_ _ _ _ _ [PT_PingResp] (λ _, Pkt_PingResp)); [set_solver|..].
  - by apply (variant_decode Disconnect_ _ _ _ _ [PT_Disconnect] Pkt_Disconnect); [set_solver|..].
  - by apply (variant_decode Auth_ _ _ _ _ [PT_Auth] Pkt_Auth); [set_solver|..].
Qed.

(** ** Encoding *)

(** What the encoder of a packet promises, as one statement about a variant. *)
Definition encodes (p : Packet) (t : PacketType) : Prop :=
  post (encoded Packet_ p) is_bytes enc_error
  ∧ ∀ bs, encoded Packet_ p = Ok bs →
      ∃ b data, bs = framed b data ∧ len data ≤ VarU32_MAX ∧ is_u8 b
        ∧ Z.shiftr b 4 = PacketType_into_u8 t
        ∧ FixedHeader_validate (MkFixedHeader b 0) = Ok ().

Lemma variant_encodes {A} (c : Packetize A) wf stable norm type_of types
    `{!PacketCodec c wf stable norm type_of types} (C : A → Packet) v :
  (∀ v, Packet_encode (C v) = encode c v) → wf v → encodes (C v) (type_of v).
Proof.
  intros HC Hv.
  assert (encoded Packet_ (C v) = encoded c v) as E
    by (unfold encoded; cbn [encode Packet_]; by rewrite HC).
  split; rewrite E; [by apply pkt_encode|]. intros bs. by apply pkt_framed.
Qed.

Lemma Packet_encodes p : wf_Packet p → encodes p (to_packet_type p).
Proof.
  destruct p as [v|v|v|v|v|v|v|v|v|v|v| | |v|v]; cbn [wf_Packet to_packet_type]; intros Hv.
  - exact (variant_encodes Connect_ wf_Connect _ _ _ _ Pkt_Connect v (λ _, eq_refl) Hv).
  - exact (variant_encodes ConnAck_ wf_ConnAck _ _ _ _ Pkt_ConnAck v (λ _, eq_refl) Hv).
  - exact (variant_encodes Publish_ wf_Publish _ _ _ _ Pkt_Publish v (λ _, eq_refl) Hv).
  - destruct Hv as [Hv <-]. exact (variant_encodes Pub_ wf_Pub _ _ _ _ Pkt_PubAck v (λ _, eq_refl) Hv).
  - destruct Hv as [Hv <-]. exact (variant_encodes Pub_ wf_Pub _ _ _ _ Pkt_PubRec v (λ _, eq_refl) Hv).
  - destruct Hv as [Hv <-]. exact (variant_encodes Pub_ wf_Pub _ _ _ _ Pkt_PubRel v (λ _, eq_refl) Hv).
  - destruct Hv as [Hv <-]. exact (variant_encodes Pub_ wf_Pub _ _ _ _ Pkt_PubComp v (λ _, eq_refl) Hv).
  - exact (variant_encodes Subscribe_ wf_Subscribe _ _ _ _ Pkt_Subscribe v (λ _, eq_refl) Hv).
  - exact (variant_encodes SubAck_ wf_SubAck _ _ _ _ Pkt_SubAck v (λ _, eq_refl) Hv).
  - exact (variant_encodes UnSubscribe_ wf_UnSubscribe _ _ _ _ Pkt_UnSubscribe v (λ _, eq_refl) Hv).
  - exact (variant_encodes UnsubAck_ wf_UnsubAck _ _ _ _ Pkt_UnsubAck v (λ _, eq_refl) Hv).
  - exact (variant_encodes PingReq_ (λ _, True) _ _ _ _ (λ _, Pkt_PingReq) () (λ _, eq_refl) Hv).
  - exact (variant_encodes PingResp_ (λ _, True) _ _ _ _ (λ _, Pkt_PingResp) () (λ _, eq_refl) Hv).
  - exact (variant_encodes Disconnect_ wf_Disconnect _ _ _ _ Pkt_Disconnect v (λ _, eq_refl) Hv).
  - exact (variant_encodes Auth_ wf_Auth _ _ _ _ Pkt_Auth v (λ _, eq_refl) Hv).
Qed.

(** The header of an encoded packet, as the decoder reads it back. *)
Lemma framed_decode b data rest t :
  len data ≤ VarU32_MAX → is_u8 b → Z.shiftr b 4 = PacketType_into_u8 t →
  FixedHeader_validate (MkFixedHeader b 0) = Ok () →
  FixedHeader_decode (framed b data ++ rest)
    = Ok (MkFixedHeader b (len data), S (length (varint_bytes (len data))))
  ∧ ∃ retain qos dup, FixedHeader_unwrap (MkFixedHeader b (len data)) = Ok (t, retain, qos, dup).
Proof.
  intros Hl Hb Ht Hv.
  set (new r := if VarU32_MAX <? r then err_desc EK_ProtocolError else Ok (MkFixedHeader b r)).
  destruct (dec_header_framed new b data rest) as (Eh & _ & _); [done|done|].
  split.
  - unfold dec_field in Eh. rewrite advance_le, drop_0 in Eh by lia.
    cbn [mbind outcome_bind decode FixedHeader_] in Eh.
    destruct (FixedHeader_decode _) as [[fh n]| | |]; try done.
  - pose proof (FixedHeader_validate_post (MkFixedHeader b (len data)) Hb) as Hu.
    rewrite FixedHeader_validate_byte1, Hv in Hu. destruct Hu as [[[[t' re] q] d] Hu].
    exists re, q, d. rewrite Hu. do 4 f_equal.
    unfold FixedHeader_unwrap in Hu; cbn [byte1] in Hu.
    rewrite Ht, PacketType_try_from_into in Hu. cbn [res_unwrap mbind outcome_bind] in Hu.
    destruct (res_unwrap (QoS_try_from _)); try done. cbn in Hu. by simplify_eq.
Qed.

Lemma Packet_decode_dispatch b data rest t :
  len data ≤ VarU32_MAX → is_u8 b → Z.shiftr b 4 = PacketType_into_u8 t →
  FixedHeader_validate (MkFixedHeader b 0) = Ok () →
  ∃ fh n retain qos dup, FixedHeader_decode (framed b data ++ rest) = Ok (fh, n)
    ∧ FixedHeader_unwrap fh = Ok (t, retain, qos, dup).
Proof.
  intros Hl Hb Ht Hv. destruct (framed_decode b data rest t Hl Hb Ht Hv) as (E & re & q & d & Hu).
  eauto 10.
Qed.

Lemma variant_roundtrip {A} (c : Packetize A) wf stable norm type_of types
    `{!PacketCodec c wf stable norm type_of types} (C : A → Packet) v bs rest :
  (∀ v, Packet_encode (C v) = encode c v) →
  (∀ s fh n retain qos dup, FixedHeader_decode s = Ok (fh, n) →
    FixedHeader_unwrap fh = Ok (type_of v, retain, qos, dup) →
    Packet_decode s = ('(pkt, n) ← decode c s; Ok (C pkt, n))) →
  wf v → stable v → encoded Packet_ (C v) = Ok bs →
  Packet_decode (bs ++ rest) = Ok (C (norm v), length bs).
Proof.
  intros HC Hd Hv Hst E.
  assert (encoded c v = Ok bs) as Ec
    by (rewrite <-E; unfold encoded; cbn [encode Packet_]; by rewrite HC).
  destruct (pkt_framed v bs Hv Ec) as (b & data & -> & Hl & Hb & Ht & Hval).
  destruct (Packet_decode_dispatch b data rest _ Hl Hb Ht Hval) as (fh & n & re & q & d & Eh & Hu).
  rewrite (Hd _ _ _ _ _ _ Eh Hu), (pkt_roundtrip v _ rest Hv Hst Ec). done.
Qed.

(** [dispatch]: decoding a packet of a known type calls the decoder of its variant. *)
Ltac dispatch := intros s fh n re q d Eh Hu; unfold Packet_decode; rewrite Eh; run; rewrite Hu; done.

Lemma Packet_roundtrip_gen p bs rest :
  wf_Packet p → stable_Packet p → encoded Packet_ p = Ok bs →
  Packet_decode (bs ++ rest) = Ok (Packet_normalize p, length bs).
Proof.
  destruct p as [v|v|v|v|v|v|v|v|v|v|v| | |v|v];
    cbn [wf_Packet stable_Packet Packet_normalize]; intros Hv Hst E.
  - by eapply (variant_roundtrip Connect_ _ _ _ _ _ Pkt_Connect); [..|dispatch|exact Hv| |].
  - by eapply (variant_roundtrip ConnAck_ _ _ _ _ _ Pkt_ConnAck); [..|dispatch|exact Hv| |].
  - by eapply (variant_roundtrip Publish_ _ _ _ _ _ Pkt_Publish); [..|dispatch|exact Hv| |].
  - destruct Hv as [Hv Ht].
    by eapply (variant_roundtrip Pub_ _ _ _ _ _ Pkt_PubAck); [..|rewrite Ht; dispatch|exact Hv| |].
  - destruct Hv as [Hv Ht].
    by eapply (variant_roundtrip Pub_ _ _ _ _ _ Pkt_PubRec); [..|rewrite Ht; dispatch|exact Hv| |].
  - destruct Hv as [Hv Ht].
    by eapply (variant_roundtrip Pub_ _ _ _ _ _ Pkt_PubRel); [..|rewrite Ht; dispatch|exact Hv| |].
  - destruct Hv as [Hv Ht].
    by eapply (variant_roundtrip Pub_ _ _ _ _ _ Pkt_PubComp); [..|rewrite Ht; dispatch|exact Hv| |].
  - by eapply (variant_roundtrip Subscribe_ _ _ _ _ _ Pkt_Subscribe); [..|dispatch|exact Hv| |].
  - by eapply (variant_roundtrip SubAck_ _ _ _ _ _ Pkt_SubAck); [..|dispatch|exact Hv| |].
  - by eapply (variant_roundtrip UnSubscribe_ _ _ _ _ _ Pkt_UnSubscribe); [..|dispatch|exact Hv| |].
  - by eapply (variant_roundtrip UnsubAck_ _ _ _ _ _ Pkt_UnsubAck); [..|dispatch|exact Hv| |].
  - by eapply (variant_roundtrip PingReq_ _ _ _ _ _ (λ _, Pkt_PingReq) ()); [..|dispatch|exact Hv| |].
  - by eapply (variant_roundtrip PingResp_ _ _ _ _ _ (λ _, Pkt_PingResp) ()); [..|dispatch|exact Hv| |].
  - by eapply (variant_roundtrip Disconnect_ _ _ _ _ _ Pkt_Disconnect); [..|dispatch|exact Hv| |].
  - by eapply (variant_roundtrip Auth_ _ _ _ _ _ Pkt_Auth); [..|dispatch|exact Hv| |].
Qed.

(** A CONNECT whose will properties are all default is refused. *)
Lemma Packet_unstable_refused p bs rest :
  wf_Packet p → ¬ stable_Packet p → encoded Packet_ p = Ok bs →
  Packet_decode (bs ++ rest) = err EK_MalformedPacket RC_MalformedPacket.
Proof.
  destruct p as [v| | | | | | | | | | | | | |]; cbn [wf_Packet stable_Packet]; try done. intros Hv Hst E.
  change (encoded Packet_ (Pkt_Connect v)) with (encoded Connect_ v) in E.
  assert (∃ w, cpl_will_properties (connect_payload v) = Some w ∧ WillProperties_is_empty w = true) as (w & Ew & He).
  { unfold stable_Connect in Hst. destruct (cpl_will_properties (connect_payload v)) as [w|]; [|destruct Hst; constructor].
    exists w. split; [done|]. destruct (WillProperties_is_empty w) eqn:He; [done|]. destruct Hst. by constructor. }
  destruct (pkt_framed v bs Hv E) as (b & data & -> & Hl & Hb & Ht & Hval).
  destruct (Packet_decode_dispatch b data rest _ Hl Hb Ht Hval) as (fh & n & re & q & d & Eh & Hu).
  unfold Packet_decode. rewrite Eh; run. rewrite Hu; run.
  by rewrite (connect_empty_will_refused v w _ rest Hv Ew He E).
Qed.

(** ** Theorems *)

(** C4. Round trip: decoding the encoding of a well-formed packet gives the packet
    back, with empty property lists and an empty payload normalised away, consumes
    exactly its bytes and does not look at what follows them.  The one exception is a
    CONNECT with a will whose properties are all default: what the encoder writes for it the
    decoder refuses as malformed. *)
Theorem packet_roundtrip p bs rest :
  wf_Packet p → encoded Packet_ p = Ok bs →
  Packet_decode (bs ++ rest)
  = if decide (stable_Packet p) then Ok (Packet_normalize p, length bs) else err EK_MalformedPacket RC_MalformedPacket.
Proof. intros Hp E. case_decide; [by apply Packet_roundtrip_gen|by apply (Packet_unstable_refused p)]. Qed.

Lemma packet_roundtrip_witness :
  Packet_decode ([130; 8; 0; 1; 0; 0; 2; 97; 47; 1] ++ [192; 0])
  = Ok (Packet_normalize (Pkt_Subscribe (MkSubscribe 1 None [MkSubscribeFilter [97; 47] 1])), 10%nat).
Proof.
  apply (packet_roundtrip
    (Pkt_Subscribe (MkSubscribe 1 None [MkSubscribeFilter [97; 47] 1]))
    [130; 8; 0; 1; 0; 0; 2; 97; 47; 1] [192; 0]).
  - split_and!; try done; constructor; [|constructor].
    split; [apply (bool_decide_unpack _); by vm_compute|done].
  - by vm_compute.
Defined.

(** C9. Decoding whatever a peer sends: a stream that holds exactly one packet, as
    its header says, is decoded without a panic; the result is a well-formed
    packet of the header's type within the stream, or an error that carries the
    reason code for the peer. *)
Theorem packet_decode_safe s :
  is_bytes s → one_packet s →
  post (Packet_decode s)
    (λ r, (0 < r.2 ≤ length s)%nat ∧ wf_Packet r.1
          ∧ ∃ fh n retain qos dup, FixedHeader_decode s = Ok (fh, n)
              ∧ FixedHeader_unwrap fh = Ok (to_packet_type r.1, retain, qos, dup)) dec_error.
Proof. apply Packet_decode_post. Qed.

Lemma packet_decode_safe_witness :
  post (Packet_decode [48; 3; 255; 255; 255])
    (λ r, (0 < r.2 ≤ 5)%nat ∧ wf_Packet r.1
          ∧ ∃ fh n retain qos dup, FixedHeader_decode [48; 3; 255; 255; 255] = Ok (fh, n)
              ∧ FixedHeader_unwrap fh = Ok (to_packet_type r.1, retain, qos, dup)) dec_error.
Proof.
  apply (packet_decode_safe [48; 3; 255; 255; 255]).
  - by repeat constructor.
  - intros fh n. vm_compute. intros E. injection E as <- <-. done.
Defined.

(** Without the promise that the stream holds the packet its header announces,
    the decoder of PUBLISH slices backwards and panics: the remaining length is
    shorter than the fields decoded. *)
Theorem publish_unframed_panics :
  Packet_decode [48; 0; 0; 1; 97; 0] = Panic.
Proof. by vm_compute. Qed.

(** Encoding a well-formed packet does not panic; it fails only when a field
    or the packet is too long, and otherwise yields one complete packet whose
    header is valid and has the type of the packet. *)
Theorem packet_encode_safe p :
  wf_Packet p →
  post (encoded Packet_ p)
    (λ bs, is_bytes bs ∧ ∃ b data, bs = framed b data ∧ len data ≤ VarU32_MAX
       ∧ Z.shiftr b 4 = PacketType_into_u8 (to_packet_type p)
       ∧ FixedHeader_validate (MkFixedHeader b 0) = Ok ()) enc_error.
Proof.
  intros [Hb He]%Packet_encodes. eapply post_mono; [exact Hb|].
  intros bs E Hbs. destruct (He bs E) as (b & data & ? & ? & _ & ? & ?). eauto 10.
Qed.

Lemma packet_encode_safe_witness :
  post (encoded Packet_ (Pkt_PubAck (MkPub PT_PubAck 7 RC_Success None)))
    (λ bs, is_bytes bs ∧ ∃ b data, bs = framed b data ∧ len data ≤ VarU32_MAX
       ∧ Z.shiftr b 4 = PacketType_into_u8 PT_PubAck
       ∧ FixedHeader_validate (MkFixedHeader b 0) = Ok ()) enc_error.
Proof.
  apply (packet_encode_safe (Pkt_PubAck (MkPub PT_PubAck 7 RC_Success None))).
  split; [|done]. split_and!; [set_solver|done|done|constructor].
Defined.
