(* ===== verification/Framing.v ===== *)
(** * Reading and writing packets on a connection (src/src/packet.rs)

    The state machines [MQTTRead] and [MQTTWrite].  A connection delivers
    its bytes in chunks of the kernel's choosing, between which a call may be
    interrupted or would block: a reader is the list of those events, and a
    writer the list of the amounts it accepts.  The theorems hold for every
    such list. *)
From S2P Require Import Prelude Errors Utf8 Util Types V5Header V5Property V5Codec.
From S2P Require Import V5Connect V5ConnAck V5Publish V5PubAck V5Subscribe V5Session V5Packet.
Local Open Scope Z_scope.

(** ** Connections *)

(** The outcome of [io::Read::read] and [io::Write::write]. *)
Inductive io_result (A : Type) : Type :=
| Io_Ok (a : A)
| Io_Interrupted
| Io_WouldBlock
| Io_Error.
Arguments Io_Ok {A} a.
Arguments Io_Interrupted {A}.
Arguments Io_WouldBlock {A}.
Arguments Io_Error {A}.

(** What the kernel has in store for the reads to come; after the last event
    the peer has closed the connection. *)
Inductive RdEvent : Type :=
| Rd_Data (bs : bytes)
| Rd_Interrupted
| Rd_WouldBlock
| Rd_Error.

Abbreviation reader := (list RdEvent).

(** [stream.read(buf)] with a buffer of [k] bytes. *)
Definition io_read (k : nat) (rd : reader) : io_result bytes * reader :=
  match rd with
  | [] => (Io_Ok [], [])
  | Rd_Data bs :: rd =>
      (Io_Ok (take k bs), match drop k bs with [] => rd | bs' => Rd_Data bs' :: rd end)
  | Rd_Interrupted :: rd => (Io_Interrupted, rd)
  | Rd_WouldBlock :: rd => (Io_WouldBlock, rd)
  | Rd_Error :: rd => (Io_Error, rd)
  end.

(** ** MQTTRead *)

Inductive MQTTRead : Type :=
| MR_Init (data : bytes) (max_size : Z)
| MR_Header (byte1 : Z) (data : bytes) (max_size : Z)
| MR_Remain (data : bytes) (start : nat) (fh : FixedHeader) (max_size : Z)
| MR_Fin (data rem : bytes) (fh : FixedHeader) (max_size : Z)
| MR_None.

Definition MQTTRead_new (max_size : Z) : MQTTRead := MR_Init [] max_size.

Definition check_packet_limit (pkt_len max_size : Z) : Result () :=
  if max_size <? pkt_len then err EK_MalformedPacket RC_PacketTooLarge else Ok ().

(** [data[0]] *)
Definition index0 (data : bytes) : Result Z :=
  match data with b :: _ => Ok b | [] => Panic end.

(** [data.resize(n, 0)] for [n >= data.len()] *)
Definition resize (data : bytes) (n : nat) : bytes := data ++ replicate (n - length data) 0.

Definition pre_read (st : MQTTRead) : Result (MQTTRead * bool) :=
  match st with
  | MR_Init data max_size =>
      if (1 <? length data)%nat then
        byte1 ← index0 data;
        tl ← slice data 1 (length data);
        match VarU32_decode tl with
        | Ok (remaining_len, m) =>
            let pkt_len := 1 + Z.of_nat m + remaining_len in
            _ ← check_packet_limit pkt_len max_size;
            let fh := MkFixedHeader byte1 remaining_len in
            if pkt_len <=? len data then
              let pkt_len := Z.to_nat pkt_len in
              rem ← slice data pkt_len (length data);
              Ok (MR_Fin (take pkt_len data) rem fh max_size, true)
            else Ok (MR_Init data max_size, false)
        | Err _ => Ok (MR_Init data max_size, false)
        | Panic => Panic
        | NoFuel => NoFuel
        end
      else Ok (st, false)
  | _ => Ok (st, false)
  end.

(** The arms [Init] and [Header] of [read] once bytes have arrived, the same
    text in both: is the remaining length complete, and is the packet? *)
Definition after_header (byte1 : Z) (data : bytes) (max_size : Z) : Result MQTTRead :=
  tl ← slice data 1 (length data);
  match head (skip_while (λ b, 0x80 <=? b) tl) with
  | Some _ =>
      '(remaining_len, m) ← VarU32_decode tl;
      let pkt_len := 1 + Z.of_nat m + remaining_len in
      _ ← check_packet_limit pkt_len max_size;
      let fh := MkFixedHeader byte1 remaining_len in
      if pkt_len <=? len data then
        let pkt_len := Z.to_nat pkt_len in
        rem ← slice data pkt_len (length data);
        Ok (MR_Fin (take pkt_len data) rem fh max_size)
      else
        let start := length data in
        Ok (MR_Remain (resize data (Z.to_nat pkt_len)) start fh max_size)
  | None => Ok (MR_Header byte1 data max_size)
  end.

(** [MQTTRead::read]: (next state, would_block), and what is left of the reader. *)
Definition MQTTRead_read (st : MQTTRead) (rd : reader) : Result (MQTTRead * bool * reader) :=
  '(st, done) ← pre_read st;
  if done : bool then Ok (st, false, rd)
  else
    match st with
    | MR_Init data max_size =>
        match io_read 5 rd with
        | (Io_Ok [], rd) => err_desc EK_Disconnected
        | (Io_Ok chunk, rd) =>
            let data := data ++ chunk in
            byte1 ← index0 data;
            st ← after_header byte1 data max_size;
            Ok (st, false, rd)
        | (Io_Interrupted, rd) => Ok (st, false, rd)
        | (Io_WouldBlock, rd) => Ok (st, true, rd)
        | (Io_Error, rd) => err_try EK_Disconnected
        end
    | MR_Header byte1 data max_size =>
        match io_read 5 rd with
        | (Io_Ok [], rd) => err_desc EK_Disconnected
        | (Io_Ok chunk, rd) =>
            let data := data ++ chunk in
            st ← after_header byte1 data max_size;
            Ok (st, false, rd)
        | (Io_Interrupted, rd) => Ok (st, false, rd)
        | (Io_WouldBlock, rd) => Ok (st, true, rd)
        | (Io_Error, rd) => err_try EK_Disconnected
        end
    | MR_Remain data start fh max_size =>
        if (start <=? length data)%nat then
          match io_read (length data - start) rd with
          | (Io_Ok [], rd) => err_desc EK_Disconnected
          | (Io_Ok chunk, rd) =>
              let n := length chunk in
              let data := take start data ++ chunk ++ drop (start + n) data in
              if (start + n =? length data)%nat then Ok (MR_Fin data [] fh max_size, false, rd)
              else if (start + n <? length data)%nat
              then Ok (MR_Remain data (start + n) fh max_size, false, rd)
              else Panic
          | (Io_Interrupted, rd) => Ok (st, false, rd)
          | (Io_WouldBlock, rd) => Ok (st, true, rd)
          | (Io_Error, rd) => err_try EK_Disconnected
          end
        else Panic
    | MR_Fin _ _ _ _ => Ok (st, false, rd)
    | MR_None => Panic
    end.

(** [MQTTRead::parse]: the header is unwrapped without having been validated. *)
Definition MQTTRead_parse (st : MQTTRead) : Result Packet :=
  match st with
  | MR_Fin data _ fh _ =>
      '(pkt_type, _, _, _) ← FixedHeader_unwrap fh;
      '(pkt, n) ←
        match pkt_type with
        | PT_Connect => '(pkt, n) ← Connect_decode data; Ok (Pkt_Connect pkt, n)
        | PT_ConnAck => '(pkt, n) ← ConnAck_decode data; Ok (Pkt_ConnAck pkt, n)
        | PT_Publish => '(pkt, n) ← Publish_decode data; Ok (Pkt_Publish pkt, n)
        | PT_PubAck => '(pkt, n) ← Pub_decode data; Ok (Pkt_PubAck pkt, n)
        | PT_PubRec => '(pkt, n) ← Pub_decode data; Ok (Pkt_PubRec pkt, n)
        | PT_PubRel => '(pkt, n) ← Pub_decode data; Ok (Pkt_PubRel pkt, n)
        | PT_PubComp => '(pkt, n) ← Pub_decode data; Ok (Pkt_PubComp pkt, n)
        | PT_Subscribe => '(pkt, n) ← Subscribe_decode data; Ok (Pkt_Subscribe pkt, n)
        | PT_SubAck => '(pkt, n) ← SubAck_decode data; Ok (Pkt_SubAck pkt, n)
        | PT_UnSubscribe => '(pkt, n) ← UnSubscribe_decode data; Ok (Pkt_UnSubscribe pkt, n)
        | PT_UnsubAck => '(pkt, n) ← UnsubAck_decode data; Ok (Pkt_UnsubAck pkt, n)
        | PT_PingReq => '(_, n) ← Ping_decode data; Ok (Pkt_PingReq, n)
        | PT_PingResp => '(_, n) ← Ping_decode data; Ok (Pkt_PingResp, n)
        | PT_Disconnect => '(pkt, n) ← Disconnect_decode data; Ok (Pkt_Disconnect pkt, n)
        | PT_Auth => '(pkt, n) ← Auth_decode data; Ok (Pkt_Auth pkt, n)
        end;
      if negb (n =? length data)%nat then err EK_MalformedPacket RC_MalformedPacket
      else Ok pkt
  | _ => Panic
  end.

Definition MQTTRead_reset (st : MQTTRead) : Result MQTTRead :=
  match st with
  | MR_Fin _ rem _ max_size => Ok (MR_Init rem max_size)
  | MR_Init _ _ => Ok st
  | _ => Panic
  end.

(** ** MQTTWrite *)

(** What the peer does with a write; at [Wr_Blocked] it stops taking bytes for good, with
    the connection open. *)
Inductive WrEvent : Type :=
| Wr_Accept (n : nat)
| Wr_Interrupted
| Wr_WouldBlock
| Wr_Blocked
| Wr_Error.

(** A writer: what it will accept, and what it has been sent. *)
Record writer := MkWriter { wr_events : list WrEvent; wr_sent : bytes }.

(** [stream.write(buf)]: the number of bytes taken from the front of [buf], at most
    all of them.  A peer that is blocked stays so; at the end of its events the peer has
    gone, and the write is an error. *)
Definition io_write (buf : bytes) (wr : writer) : io_result nat * writer :=
  match wr_events wr with
  | [] => (Io_Error, wr)
  | Wr_Accept n :: evs =>
      let k := Nat.min n (length buf) in
      (Io_Ok k, MkWriter evs (wr_sent wr ++ take k buf))
  | Wr_Interrupted :: evs => (Io_Interrupted, MkWriter evs (wr_sent wr))
  | Wr_WouldBlock :: evs => (Io_WouldBlock, MkWriter evs (wr_sent wr))
  | Wr_Blocked :: _ => (Io_WouldBlock, wr)
  | Wr_Error :: evs => (Io_Error, MkWriter evs (wr_sent wr))
  end.

Inductive MQTTWrite : Type :=
| MW_Init (data : bytes) (max_size : Z)
| MW_Remain (data : bytes) (start : nat) (max_size : Z)
| MW_Fin (data : bytes) (max_size : Z)
| MW_None.

Definition MQTTWrite_new (buf : bytes) (max_size : Z) : MQTTWrite := MW_Init buf max_size.

Definition MQTTWrite_write (st : MQTTWrite) (wr : writer) : Result (MQTTWrite * bool * writer) :=
  match st with
  | MW_Init data max_size =>
      if max_size <? len data then Ok (MW_Fin data max_size, false, wr)
      else if (length data =? 0)%nat then Ok (MW_Fin data max_size, false, wr)
      else
        match io_write data wr with
        | (Io_Ok n, wr) =>
            if (n =? 0)%nat then err_desc EK_Disconnected
            else if (n =? length data)%nat then Ok (MW_Fin data max_size, false, wr)
            else if (n <? length data)%nat then Ok (MW_Remain data n max_size, false, wr)
            else Panic
        | (Io_Interrupted, wr) => Ok (MW_Remain data 0 max_size, false, wr)
        | (Io_WouldBlock, wr) => Ok (MW_Remain data 0 max_size, true, wr)
        | (Io_Error, wr) => err_try EK_Disconnected
        end
  | MW_Remain data start max_size =>
      rest ← slice data start (length data);
      if (length rest =? 0)%nat then Ok (MW_Fin data max_size, false, wr)
      else
        match io_write rest wr with
        | (Io_Ok n, wr) =>
            if (n =? 0)%nat then err_desc EK_Disconnected
            else if (start + n =? length data)%nat then Ok (MW_Fin data max_size, false, wr)
            else if (start + n <? length data)%nat
            then Ok (MW_Remain data (start + n) max_size, false, wr)
            else Panic
        | (Io_Interrupted, wr) => Ok (MW_Remain data start max_size, false, wr)
        | (Io_WouldBlock, wr) => Ok (MW_Remain data start max_size, true, wr)
        | (Io_Error, wr) => err_try EK_Disconnected
        end
  | MW_Fin data max_size => Ok (MW_Fin data max_size, false, wr)
  | MW_None => Panic
  end.

Definition MQTTWrite_reset (st : MQTTWrite) (buf : bytes) : Result MQTTWrite :=
  match st with
  | MW_Init _ max_size | MW_Fin _ max_size => Ok (MW_Init buf max_size)
  | _ => Panic
  end.

(** [send_disconnect]: [late] answers the test [timeout < Instant::now()] each time
    it is made.  When the deadline is behind, the write is tried again for as long as it would
    block, which nothing ends: [NoFuel] if it still goes on after the answers. *)
Fixpoint send_disconnect_loop (late : list bool) (packetw : MQTTWrite) (conn : writer)
    : Result writer :=
  '(packetw, would_block, conn) ← MQTTWrite_write packetw conn;
  if would_block : bool then
    match late with
    | true :: late => send_disconnect_loop late packetw conn
    | false :: _ => err_desc EK_Disconnected
    | [] => NoFuel
    end
  else Ok conn.

Definition send_disconnect (code : DisconnReasonCode) (conn : writer) (late : list bool)
    (max_size : Z) : Result writer :=
  dc ← res_unwrap (encoded Disconnect_ (MkDisconnect code None));
  send_disconnect_loop late (MQTTWrite_new dc max_size) conn.

(** ** The bytes of a connection *)

(** The bytes a reader has yet to deliver. *)
Definition rd_bytes (rd : reader) : bytes :=
  rd ≫= λ e, match e with Rd_Data bs => bs | _ => [] end.

(** A reader without errors and without empty chunks (a read of no bytes is the
    end of the connection). *)
Definition ok_event (e : RdEvent) : Prop :=
  match e with Rd_Data bs => bs ≠ [] | Rd_Error => False | _ => True end.
Abbreviation ok_reader := (Forall ok_event).

(** A measure that every read decreases. *)
Definition rd_size (rd : reader) : nat := sum_list_with (λ e,
  match e with Rd_Data bs => S (length bs) | _ => 1%nat end) rd.

(** The bytes received for the state, and not yet handed out. *)
Definition pending (st : MQTTRead) : bytes :=
  match st with
  | MR_Init data _ | MR_Header _ data _ => data
  | MR_Remain data start _ _ => take start data
  | MR_Fin data rem _ _ => data ++ rem
  | MR_None => []
  end.

Definition read_max (st : MQTTRead) : Z :=
  match st with
  | MR_Init _ m | MR_Header _ _ m | MR_Remain _ _ _ m | MR_Fin _ _ _ m => m
  | MR_None => 0
  end.

(** [data] is one packet with header [fh], no longer than [max]. *)
Definition framed_as (data : bytes) (fh : FixedHeader) (max : Z) : Prop :=
  ∃ tl m, data = byte1 fh :: tl ∧ VarU32_decode tl = Ok (remaining_len fh, m)
    ∧ 0 ≤ remaining_len fh ∧ len data = 1 + Z.of_nat m + remaining_len fh ∧ len data ≤ max.

(** A stream that starts with a complete packet. *)
Definition complete (s : bytes) (max : Z) : Prop :=
  ∃ data fh rest, s = data ++ rest ∧ framed_as data fh max.

(** The invariant of the reader. *)
Definition wf_read (st : MQTTRead) : Prop :=
  is_bytes (pending st) ∧
  match st with
  | MR_Init _ _ => True
  | MR_Header b data _ => ∃ tl, data = b :: tl ∧ Forall (λ b, (0x80 <=? b) = true) tl
  | MR_Remain data start fh max =>
      (start < length data)%nat ∧
      ∃ tl m, take start data = byte1 fh :: tl ∧ VarU32_decode tl = Ok (remaining_len fh, m)
        ∧ 0 ≤ remaining_len fh ∧ len data = 1 + Z.of_nat m + remaining_len fh ∧ len data ≤ max
  | MR_Fin data _ fh max => framed_as data fh max
  | MR_None => False
  end.

(** The errors of a read: the connection is gone, or the bytes are malformed. *)
Definition read_error (e : Error) : Prop := Error_kind e = EK_Disconnected ∨ dec_error e.

(** ** Variable byte integers at the front of a stream *)

Lemma VarU32_loop_spec s i out z m :
  VarU32_loop s i out = Ok (z, m) →
  ∃ pre b post, s = pre ++ b :: post ∧ Forall (λ b, (0x80 <=? b) = true) pre
    ∧ (0x80 <=? b) = false ∧ m = (i + length pre + 1)%nat
    ∧ ∀ t, VarU32_loop (pre ++ b :: t) i out = Ok (z, m).
Proof.
  revert i out; induction s as [|b s IH]; intros i out; [done|]. cbn [VarU32_loop].
  destruct (Z.ltb_spec b 0x80) as [Hb|Hb]; intros E.
  - simplify_eq. exists [], b, s. split_and!; [done|constructor|by apply Z.leb_gt|cbn [length]; lia|].
    intros t. cbn [app VarU32_loop]. by destruct (Z.ltb_spec b 0x80); [|lia].
  - apply IH in E as (pre & b' & post & -> & Hpre & Hb' & -> & Ht).
    exists (b :: pre), b', post. split_and!; [done|constructor; [by apply Z.leb_le|done]|done|cbn [length]; lia|].
    intros t. cbn [app VarU32_loop]. destruct (Z.ltb_spec b 0x80); [lia|]. by rewrite Ht.
Qed.

Lemma VarU32_decode_spec s z m :
  VarU32_decode s = Ok (z, m) →
  ∃ pre b post, s = pre ++ b :: post ∧ Forall (λ b, (0x80 <=? b) = true) pre
    ∧ (0x80 <=? b) = false ∧ m = (length pre + 1)%nat
    ∧ ∀ t, VarU32_decode (pre ++ b :: t) = Ok (z, m).
Proof.
  rewrite VarU32_decode_take. intros E.
  pose proof (VarU32_loop_spec _ _ _ _ _ E) as (pre & b & post & Es & Hpre & Hb & Hm & Ht).
  assert (length pre < 4)%nat as Hlen.
  { apply (f_equal length) in Es. rewrite length_take, length_app in Es. cbn [length] in Es. lia. }
  exists pre, b, (post ++ drop 4 s). split_and!; [|done|done|lia|].
  - by rewrite app_comm_cons, app_assoc, <-Es, take_drop.
  - intros t. rewrite VarU32_decode_take, take_app_ge by lia.
    destruct (4 - length pre)%nat as [|k] eqn:Ek; [lia|]. cbn [take]. apply Ht.
Qed.

(** More bytes do not change the integer read. *)
Lemma VarU32_decode_app s t z m :
  VarU32_decode s = Ok (z, m) → VarU32_decode (s ++ t) = Ok (z, m).
Proof.
  intros (pre & b & post & -> & _ & _ & _ & Ht)%VarU32_decode_spec.
  rewrite <-app_assoc; cbn [app]. apply Ht.
Qed.

(** When the integer is complete in the whole stream, the scan for its last byte
    tells whether it is complete in the part received. *)
Lemma varint_ready tl t z m :
  VarU32_decode (tl ++ t) = Ok (z, m) →
  match head (skip_while (λ b, 0x80 <=? b) tl) with
  | Some _ => VarU32_decode tl = Ok (z, m)
  | None => (length tl < m)%nat
  end.
Proof.
  intros (pre & b & post & E & Hpre & Hb & -> & Ht)%VarU32_decode_spec.
  destruct (skip_while _ tl) as [|x r] eqn:Es; cbn [head].
  - apply skip_while_nil in Es. destruct (decide (length tl < length pre + 1)%nat); [done|].
    assert (tl !! length pre = Some b) as Hl.
    { rewrite <-(lookup_app_l tl t) by lia. by rewrite E, list_lookup_middle. }
    eapply Forall_lookup in Es; [|done]. cbn in Es. congruence.
  - apply skip_while_head in Es as (Hx & l' & -> & Hl').
    rewrite <-app_assoc in E; cbn [app] in E.
    eapply skip_while_split in E as (-> & -> & _); [apply Ht|done..].
Qed.

(** ** Packets at the front of a stream *)

Lemma framed_as_app data fh max t :
  framed_as data fh max →
  ∃ tl m, data ++ t = byte1 fh :: tl ∧ VarU32_decode tl = Ok (remaining_len fh, m)
    ∧ len data = 1 + Z.of_nat m + remaining_len fh.
Proof.
  intros (tl & m & -> & Hd & _ & Hl & _). exists (tl ++ t), m. split; [done|].
  split; [by apply VarU32_decode_app|done].
Qed.

(** The first packet of a stream is determined by the stream. *)
Lemma framed_as_unique d1 d2 fh1 fh2 m1 m2 r1 r2 :
  framed_as d1 fh1 m1 → framed_as d2 fh2 m2 → d1 ++ r1 = d2 ++ r2 →
  d1 = d2 ∧ fh1 = fh2 ∧ r1 = r2.
Proof.
  intros (tl1 & n1 & E1 & Hd1 & Hl1)%(framed_as_app _ _ _ r1)
    (tl2 & n2 & E2 & Hd2 & Hl2)%(framed_as_app _ _ _ r2) E.
  rewrite E, E2 in E1. injection E1 as Hb Ht. subst tl2. rewrite Hd2 in Hd1.
  injection Hd1 as Hr Hn. subst n2.
  assert (length d1 = length d2) as Hlen by (unfold len in *; lia).
  apply app_inj_1 in E as [-> ->]; [|done]. split_and!; try done.
  destruct fh1, fh2; cbn in *; congruence.
Qed.

(** ** Reading *)

Lemma rd_bytes_cons e rd :
  rd_bytes (e :: rd) = match e with Rd_Data bs => bs | _ => [] end ++ rd_bytes rd.
Proof. done. Qed.

(** A read delivers a prefix of what is left, and keeps the rest. *)
Lemma io_read_data k rd chunk rd' :
  (0 < k)%nat → io_read k rd = (Io_Ok chunk, rd') →
  chunk ++ rd_bytes rd' = rd_bytes rd ∧ (length chunk ≤ k)%nat
  ∧ (chunk ≠ [] → (rd_size rd' < rd_size rd)%nat)
  ∧ (ok_reader rd → ok_reader rd' ∧ (chunk = [] → rd_bytes rd = [])).
Proof.
  intros Hk E. destruct rd as [|[bs| | |] rd]; cbn [io_read] in E; simplify_eq.
  - split_and!; (done || cbn; lia || intros; by split).
  - pose proof (take_drop k bs) as Hb. rewrite rd_bytes_cons. split_and!.
    + destruct (drop k bs) as [|b bs'] eqn:Ed.
      * rewrite app_nil_r in Hb. by rewrite Hb.
      * by rewrite rd_bytes_cons, app_assoc, Hb.
    + rewrite length_take; lia.
    + intros Hne. assert (0 < length (take k bs))%nat by (destruct (take k bs); [done|cbn; lia]).
      apply (f_equal length) in Hb. rewrite length_app in Hb. unfold rd_size.
      destruct (drop k bs) as [|b bs'] eqn:Ed; cbn [sum_list_with length] in *; lia.
    + intros Hok. apply Forall_cons in Hok as [Hne Hok]. cbn in Hne. split.
      * destruct (drop k bs); [done|]. by constructor.
      * intros E. destruct bs, k; cbn in *; (done || lia).
Qed.

Lemma io_read_pause k rd rd' :
  io_read k rd = (Io_Interrupted, rd') ∨ io_read k rd = (Io_WouldBlock, rd') →
  rd_bytes rd' = rd_bytes rd ∧ (rd_size rd' < rd_size rd)%nat ∧ (ok_reader rd → ok_reader rd').
Proof.
  destruct rd as [|[bs| | |] rd]; cbn [io_read]; intros [E|E]; simplify_eq.
  all: split_and!; [done|cbn; unfold rd_size; lia|by intros [_ ?]%Forall_cons].
Qed.

Lemma io_read_error k rd rd' : io_read k rd = (Io_Error, rd') → ¬ ok_reader rd.
Proof.
  destruct rd as [|[bs| | |] rd]; cbn [io_read]; intros E; simplify_eq.
  by intros [? _]%Forall_cons.
Qed.

Lemma VarU32_decode_prefix s z m k :
  VarU32_decode s = Ok (z, m) → (m ≤ k)%nat → VarU32_decode (take k s) = Ok (z, m).
Proof.
  intros (pre & b & post & -> & _ & _ & -> & Ht)%VarU32_decode_spec Hk.
  rewrite take_app_ge by lia. destruct (k - length pre)%nat eqn:E; [lia|]. cbn [take]. apply Ht.
Qed.

(** Cutting the first packet off the bytes received. *)
Lemma cut_packet b tl z m max :
  is_bytes tl → VarU32_decode tl = Ok (z, m) →
  let pkt_len := 1 + Z.of_nat m + z in
  pkt_len ≤ len (b :: tl) → pkt_len ≤ max →
  framed_as (take (Z.to_nat pkt_len) (b :: tl)) (MkFixedHeader b z) max
  ∧ slice (b :: tl) (Z.to_nat pkt_len) (length (b :: tl))
    = Ok (drop (Z.to_nat pkt_len) (b :: tl)).
Proof.
  intros Hb Hd pkt_len Hl Hmax.
  pose proof (VarU32_decode_post tl Hb) as Hp. rewrite Hd in Hp. cbn in Hp.
  assert (Z.to_nat pkt_len = S (m + Z.to_nat z)) as Ek by (unfold pkt_len; lia). rewrite Ek.
  unfold len in *. split.
  - exists (take (m + Z.to_nat z) tl), m. cbn [take byte1 remaining_len]. split; [done|].
    split; [apply VarU32_decode_prefix; [done|lia]|]. split; [lia|]. unfold len.
    cbn [length] in *. rewrite length_take. unfold pkt_len in *. split; lia.
  - rewrite slice_Ok by (unfold pkt_len in *; cbn [length] in *; lia).
    by rewrite take_ge by (rewrite length_drop; lia).
Qed.

(** A complete stream has a complete header, within the limit. *)
Lemma complete_header b tl t max :
  complete ((b :: tl) ++ t) max →
  ∃ z m, VarU32_decode (tl ++ t) = Ok (z, m) ∧ 0 ≤ z ∧ 1 + Z.of_nat m + z ≤ max
    ∧ 1 + Z.of_nat m + z ≤ len ((b :: tl) ++ t).
Proof.
  intros (data & fh & rest & E & Hf).
  destruct (framed_as_app _ _ _ rest Hf) as (tl' & m & E' & Hd & Hl).
  rewrite <-E in E'. injection E' as -> <-.
  destruct Hf as (_ & _ & _ & _ & ? & _ & Hmax).
  exists (remaining_len fh), m. split_and!; [done|done|lia|].
  rewrite E. rewrite len_app. pose proof (len_nonneg rest). lia.
Qed.

Lemma check_packet_limit_post pkt_len max (Q : () → Prop) :
  (pkt_len ≤ max → Q ()) →
  post (check_packet_limit pkt_len max) Q (λ e, dec_error e ∧ max < pkt_len).
Proof.
  intros HQ. unfold check_packet_limit.
  destruct (Z.ltb_spec max pkt_len); [|by apply HQ]. split; [|done]. clear HQ H. dec_err.
Qed.

Lemma after_header_post b tl max :
  is_bytes (b :: tl) →
  post (after_header b (b :: tl) max)
    (λ st, wf_read st ∧ read_max st = max ∧ pending st = b :: tl)
    (λ e, dec_error e ∧ ∀ t, ¬ complete ((b :: tl) ++ t) max).
Proof.
  intros Hb. apply Forall_cons in Hb as [Hb Htl]. unfold after_header.
  rewrite slice_Ok by (cbn; lia); run. cbn [drop].
  rewrite (take_ge tl) by (cbn; lia).
  destruct (head (skip_while _ tl)) as [x|] eqn:Eh.
  2:{ apply post_Ok. split; [|done]. split; [by constructor|].
      exists tl. split; [done|]. apply skip_while_nil. by destruct (skip_while _ tl). }
  pose proof (VarU32_decode_post tl Htl) as Hd.
  destruct (VarU32_decode tl) as [[z m]|e| |] eqn:Ed; try done; cbn [post] in Hd; run.
  2:{ split; [done|]. intros t (z & m & Hd' & _)%complete_header.
      apply varint_ready in Hd'. rewrite Eh in Hd'. congruence. }
  destruct Hd as (? & _ & ? & _); cbn [fst snd] in *.
  eapply post_bind.
  { eapply post_err_mono; [by apply (check_packet_limit_post _ _ (λ _, 1 + Z.of_nat m + z ≤ max))|].
    intros e [? Hlim]. split; [done|]. intros t (z' & m' & Hd' & _ & ? & _)%complete_header.
    rewrite (VarU32_decode_app _ t _ _ Ed) in Hd'. simplify_eq. lia. }
  intros [] _ Hlim. destruct (Z.leb_spec (1 + Z.of_nat m + z) (len (b :: tl))) as [Hle|Hgt].
  - destruct (cut_packet b tl z m max Htl Ed Hle Hlim) as [Hf ->]; run. apply post_Ok.
    split; [split; [|done]|split; [done|]]; cbn [pending]; rewrite take_drop; [by constructor|done].
  - apply post_Ok. unfold resize. cbn [pending]. rewrite (take_app_length (b :: tl)).
    unfold len in *. cbn [length] in *.
    split; [split; [|split]|done].
    + cbn [pending]. rewrite (take_app_length (b :: tl)). by constructor.
    + rewrite length_app, length_replicate. cbn [length]. lia.
    + exists tl, m. rewrite (take_app_length (b :: tl)). cbn [byte1 remaining_len].
      unfold len. rewrite !length_app, length_replicate. cbn [length]. split_and!; (done || lia).
Qed.

Definition is_Fin (st : MQTTRead) : bool := match st with MR_Fin _ _ _ _ => true | _ => false end.

Lemma pre_read_post st :
  wf_read st →
  post (pre_read st)
    (λ r, wf_read r.1 ∧ read_max r.1 = read_max st ∧ pending r.1 = pending st
          ∧ (if r.2 then is_Fin r.1 = true else r.1 = st)
          ∧ (r.2 = false → ∀ data max, st = MR_Init data max → ¬ complete data max))
    (λ e, dec_error e ∧ ∀ t, ¬ complete (pending st ++ t) (read_max st)).
Proof.
  intros Hwf. destruct st as [data max|? ? ?|? ? ? ?|? ? ? ?|]; cbn [pre_read];
    try (apply post_Ok; cbn [fst snd]; by split_and!).
  destruct Hwf as [Hb _]; cbn [pending] in Hb.
  destruct (Nat.ltb_spec 1 (length data)) as [Hlen|Hlen].
  2:{ apply post_Ok; cbn [fst snd]. split_and!; [by split|done|done|done|].
      intros _ ? ? [= <- <-] (d & fh & rest & -> & tl & m & -> & Hd & _).
      rewrite length_app in Hlen. cbn [length] in Hlen. destruct tl; [done|cbn in Hlen; lia]. }
  destruct data as [|b tl]; [cbn in Hlen; lia|]. cbn [index0]; run.
  rewrite slice_Ok by (cbn; lia); run. cbn [drop]. rewrite (take_ge tl) by (cbn; lia).
  pose proof (proj2 (proj1 (Forall_cons _ _ _) Hb)) as Htl.
  pose proof (VarU32_decode_post tl Htl) as Hd.
  assert (∀ t, complete ((b :: tl) ++ t) max → ∀ z m, VarU32_decode tl = Ok (z, m) →
    1 + Z.of_nat m + z ≤ max) as Hcomp.
  { intros t (z' & m' & Hd' & _ & ? & _)%complete_header z m E.
    rewrite (VarU32_decode_app _ t _ _ E) in Hd'. by simplify_eq. }
  destruct (VarU32_decode tl) as [[z m]|e| |] eqn:Ed; try done.
  2:{ apply post_Ok; cbn [fst snd]. split_and!; [by split|done|done|done|].
      intros _ ? ? [= <- <-] Hc. rewrite <-(app_nil_r (b :: tl)) in Hc.
      apply complete_header in Hc as (? & ? & Hd' & _). rewrite app_nil_r in Hd'. congruence. }
  eapply post_bind.
  { eapply post_err_mono; [by apply (check_packet_limit_post _ _ (λ _, 1 + Z.of_nat m + z ≤ max))|].
    intros e [? Hlim]. split; [done|]. intros t Hc. specialize (Hcomp t Hc z m eq_refl). lia. }
  intros [] _ Hlim. destruct (Z.leb_spec (1 + Z.of_nat m + z) (len (b :: tl))) as [Hle|Hgt].
  - destruct (cut_packet b tl z m max Htl Ed Hle Hlim) as [Hf ->]; run. apply post_Ok.
    cbn [fst snd read_max is_Fin pending]. rewrite take_drop. split_and!; try done.
    split; [|done]. cbn [pending]. by rewrite take_drop.
  - apply post_Ok; cbn [fst snd]. split_and!; [by split|done|done|done|].
    intros _ ? ? [= <- <-] Hc. rewrite <-(app_nil_r (b :: tl)) in Hc.
    apply complete_header in Hc as (z' & m' & Hd' & _ & _ & Hl). rewrite app_nil_r in *.
    rewrite Ed in Hd'. simplify_eq. lia.
Qed.

(** What a read promises: the invariant and the limit are kept, no byte is lost,
    repeated or reordered, and unless a packet is finished the reader shrinks. *)
Definition read_post (st : MQTTRead) (rd : reader) (r : MQTTRead * bool * reader) : Prop :=
  let '(st', _, rd') := r in
  wf_read st' ∧ read_max st' = read_max st
  ∧ pending st' ++ rd_bytes rd' = pending st ++ rd_bytes rd
  ∧ (ok_reader rd → ok_reader rd')
  ∧ (is_Fin st' = false → (rd_size rd' < rd_size rd)%nat).

(** Why a read fails: never on a healthy connection that starts with a packet. *)
Definition read_fail (st : MQTTRead) (rd : reader) (e : Error) : Prop :=
  read_error e
  ∧ (ok_reader rd → ¬ complete (pending st ++ rd_bytes rd) (read_max st)).

Lemma read_pause st rd k rd' wb :
  wf_read st →
  io_read k rd = (Io_Interrupted, rd') ∨ io_read k rd = (Io_WouldBlock, rd') →
  read_post st rd (st, wb, rd').
Proof.
  intros Hwf (Hb & Hs & Hok)%io_read_pause. unfold read_post.
  by rewrite Hb; split_and!.
Qed.

Lemma read_broken st rd k rd' :
  io_read k rd = (Io_Error, rd') → read_fail st rd (MkError EK_Disconnected None CauseForeign).
Proof. intros Hok%io_read_error. split; [by left|done]. Qed.

(** The connection is closed before the packet is complete. *)
Lemma read_eof st rd k rd' :
  (0 < k)%nat → io_read k rd = (Io_Ok [], rd') → ¬ complete (pending st) (read_max st) →
  read_fail st rd (MkError EK_Disconnected None NoCause).
Proof.
  intros Hk E Hc. destruct (io_read_data k rd [] rd' Hk E) as (_ & _ & _ & Hok).
  split; [by left|]. intros [_ Hnil]%Hok. by rewrite Hnil, app_nil_r.
Qed.

(** Bytes have arrived for a packet whose header is not complete. *)
Lemma read_header st rd rd' data b chunk :
  pending st = data → is_bytes data → is_bytes (rd_bytes rd) →
  io_read 5 rd = (Io_Ok chunk, rd') → chunk ≠ [] → index0 (data ++ chunk) = Ok b →
  post (st' ← after_header b (data ++ chunk) (read_max st); Ok (st', false, rd'))
    (read_post st rd) (read_fail st rd).
Proof.
  intros Hp Hd Hr E Hne Hb.
  destruct (io_read_data 5 rd chunk rd' ltac:(lia) E) as (Hc & _ & Hs & Hok).
  destruct (data ++ chunk) as [|b' tl] eqn:Edc; [done|]. cbn in Hb; simplify_eq.
  assert (is_bytes (b :: tl)) as Hbt.
  { rewrite <-Edc. apply Forall_app. split; [done|]. rewrite <-Hc in Hr. by apply Forall_app in Hr as [? _]. }
  pose proof (after_header_post b tl (read_max st) Hbt) as Ha.
  destruct (after_header b (b :: tl) (read_max st)) as [st'|e| |]; try done; run; cbn [post] in *.
  - destruct Ha as (? & ? & Hp'). split_and!; [done|done| |naive_solver|auto].
    by rewrite Hp', <-Hc, app_assoc, Edc.
  - destruct Ha as [? Hnc]. split; [by right|]. intros _.
    rewrite <-Hc, app_assoc, Edc. apply Hnc.
Qed.

(** A header whose bytes all continue is not complete. *)
Lemma header_not_complete b tl max :
  Forall (λ b, (0x80 <=? b) = true) tl → ¬ complete (b :: tl) max.
Proof.
  intros Htl Hc. rewrite <-(app_nil_r (b :: tl)) in Hc.
  apply complete_header in Hc as (z & m & Hd & _). rewrite app_nil_r in Hd.
  apply VarU32_decode_spec in Hd as (pre & c & post & -> & _ & Hc & _).
  apply Forall_app in Htl as [_ [? _]%Forall_cons]. congruence.
Qed.

(** A packet whose body is still being received is not complete. *)
Lemma remain_not_complete data start fh max :
  wf_read (MR_Remain data start fh max) → ¬ complete (take start data) max.
Proof.
  intros (_ & Hs & tl & m & Et & Hd & _ & Hl & _) Hc. rewrite Et in Hc.
  rewrite <-(app_nil_r (byte1 fh :: tl)) in Hc.
  apply complete_header in Hc as (z & m' & Hd' & _ & _ & Hle). rewrite app_nil_r in *.
  rewrite Hd in Hd'. simplify_eq. rewrite <-Et in Hle. unfold len in *.
  rewrite length_take in Hle. lia.
Qed.

(** The buffer with the next chunk of the body in place. *)
Lemma read_body data start fh max rd chunk rd' :
  wf_read (MR_Remain data start fh max) → is_bytes (rd_bytes rd) →
  io_read (length data - start) rd = (Io_Ok chunk, rd') → chunk ≠ [] →
  let n := length chunk in
  let data' := take start data ++ chunk ++ drop (start + n) data in
  length data' = length data ∧ (start + n ≤ length data')%nat
  ∧ ∀ st', (if (start + n =? length data')%nat then st' = MR_Fin data' [] fh max
            else st' = MR_Remain data' (start + n) fh max) →
           read_post (MR_Remain data start fh max) rd (st', false, rd').
Proof.
  intros (Hb & Hs & tl & m & Et & Hd & Hz & Hl & Hmax) Hr E Hne n data'.
  destruct (io_read_data (length data - start) rd chunk rd' ltac:(lia) E) as (Hc & Hn & Hsz & Hok).
  assert (length data' = length data) as Hlen.
  { unfold data'. rewrite !length_app, length_take, length_drop. lia. }
  assert (take (start + n) data' = take start data ++ chunk) as Htake.
  { unfold data'. rewrite app_assoc. apply take_app_length'.
    rewrite length_app, length_take. lia. }
  assert (is_bytes (take start data ++ chunk)) as Hb'.
  { apply Forall_app. split; [done|]. rewrite <-Hc in Hr. by apply Forall_app in Hr as [? _]. }
  split; [done|]. split; [lia|].
  assert (∀ t, VarU32_decode (tl ++ t) = Ok (remaining_len fh, m)) as Hd'
    by (intros; by apply VarU32_decode_app).
  assert (data' = byte1 fh :: tl ++ chunk ++ drop (start + n) data) as Edata.
  { unfold data'. by rewrite Et. }
  assert (len data' = len data) as Hlen' by (unfold len; by rewrite Hlen).
  intros st' Hst'. destruct (Nat.eqb_spec (start + n) (length data')) as [Heq|Hneq]; subst st'.
  - assert (data' = take start data ++ chunk) as Efin.
    { rewrite <-Htake. by rewrite take_ge by lia. }
    split_and!; cbn [pending read_max]; [|done| |naive_solver|done].
    + split; [by cbn [pending]; rewrite app_nil_r, Efin|].
      exists (tl ++ chunk ++ drop (start + n) data), m. rewrite Hlen'. by split_and!.
    + by rewrite app_nil_r, Efin, <-app_assoc, Hc.
  - split_and!; cbn [pending read_max]; [|done| |naive_solver|auto].
    + split; [by cbn [pending]; rewrite Htake|]. split; [lia|].
      exists (tl ++ chunk), m. rewrite Htake, Et, Hlen'. by split_and!.
    + by rewrite Htake, <-app_assoc, Hc.
Qed.

Lemma MQTTRead_read_post st rd :
  wf_read st → is_bytes (rd_bytes rd) →
  post (MQTTRead_read st rd) (read_post st rd) (read_fail st rd).
Proof.
  intros Hwf Hr. unfold MQTTRead_read.
  eapply post_bind.
  { eapply post_err_mono; [by apply pre_read_post|].
    intros e [? Hnc]. split; [by right|]. intros _. apply Hnc. }
  intros [st1 []] _ (Hwf1 & Hm & Hp & Hfin & Hnc); cbn [fst snd] in *.
  { apply post_Ok. unfold read_post. rewrite Hm, Hp. split_and!; try done.
    rewrite Hfin. done. }
  subst st1. specialize (Hnc eq_refl).
  destruct st as [data max|b data max|data start fh max|data rem fh max|].
  - destruct (io_read 5 rd) as [[chunk| | |] rd'] eqn:E.
    + destruct chunk as [|x chunk].
      { eapply read_eof; [|done|]; [lia|]. by apply Hnc. }
      destruct (index0 (data ++ x :: chunk)) as [b| | |] eqn:Eb.
      1: by eapply (read_header (MR_Init data max)); try apply Hwf.
      all: by destruct data.
    + apply post_Ok. eapply read_pause; eauto.
    + apply post_Ok. eapply read_pause; eauto.
    + by eapply read_broken.
  - destruct (io_read 5 rd) as [[chunk| | |] rd'] eqn:E.
    + destruct Hwf as [Hb (tl & -> & Htl)]. destruct chunk as [|x chunk].
      { eapply read_eof; [|done|]; [lia|]. by apply header_not_complete. }
      by eapply (read_header (MR_Header b (b :: tl) max)).
    + apply post_Ok. eapply read_pause; eauto.
    + apply post_Ok. eapply read_pause; eauto.
    + by eapply read_broken.
  - assert (start < length data)%nat as Hs by apply Hwf.
    destruct (Nat.leb_spec start (length data)); [|lia].
    destruct (io_read (length data - start) rd) as [[chunk| | |] rd'] eqn:E.
    + destruct chunk as [|x chunk].
      { eapply read_eof; [|done|]; [lia|]. by eapply remain_not_complete. }
      destruct (read_body _ _ _ _ _ _ _ Hwf Hr E ltac:(done)) as (Hl & Hle & Hst).
      destruct (_ =? _)%nat eqn:Eeq; [by apply post_Ok, Hst|].
      apply Nat.eqb_neq in Eeq. destruct (Nat.ltb_spec (start + length (x :: chunk))
        (length (take start data ++ (x :: chunk) ++ drop (start + length (x :: chunk)) data))); [|lia].
      by apply post_Ok, Hst.
    + apply post_Ok. eapply read_pause; eauto.
    + apply post_Ok. eapply read_pause; eauto.
    + by eapply read_broken.
  - apply post_Ok. unfold read_post. by split_and!.
  - by destruct Hwf.
Qed.

(** ** Parsing what was read *)

Lemma framed_as_header data fh max :
  is_u8 (byte1 fh) → framed_as data fh max →
  ∃ m, FixedHeader_decode data = (_ ← FixedHeader_validate fh; Ok (fh, m))
       ∧ len data = Z.of_nat m + remaining_len fh.
Proof.
  intros Hb (tl & m & -> & Hd & _ & Hl & _). exists (S m). split; [|lia].
  unfold FixedHeader_decode.
  rewrite (dec_field_at u8 is_u8 _ 0 (byte1 fh) [byte1 fh] tl);
    [|done|apply u8_encoded|apply at_start]; run.
  unfold dec_field at 1. rewrite advance_le by (cbn; lia); run. cbn [drop length Nat.add decode VarU32].
  rewrite drop_0, Hd; run. by destruct fh.
Qed.

Lemma framed_as_one_packet data fh max :
  is_u8 (byte1 fh) → framed_as data fh max → one_packet data.
Proof.
  intros Hb Hf fh' n E. destruct (framed_as_header data fh max Hb Hf) as (m & E' & Hl).
  rewrite E' in E. destruct (FixedHeader_validate fh); try done.
  cbn [mbind outcome_bind] in E. by simplify_eq.
Qed.

(** Every packet decoder starts with the fixed header, and fails as it fails. *)
Lemma decoders_need_header s e :
  FixedHeader_decode s = Err e →
  Connect_decode s = Err e ∧ ConnAck_decode s = Err e ∧ Publish_decode s = Err e
  ∧ Pub_decode s = Err e ∧ Subscribe_decode s = Err e ∧ SubAck_decode s = Err e
  ∧ UnSubscribe_decode s = Err e ∧ UnsubAck_decode s = Err e ∧ Ping_decode s = Err e
  ∧ Disconnect_decode s = Err e ∧ Auth_decode s = Err e.
Proof.
  intros E. assert (dec_field FixedHeader_ s 0 = Err e) as Ef.
  { unfold dec_field. rewrite advance_le, drop_0 by lia; run. cbn [decode FixedHeader_]. by rewrite E. }
  unfold Connect_decode, ConnAck_decode, Publish_decode, Pub_decode, Subscribe_decode,
    SubAck_decode, UnSubscribe_decode, UnsubAck_decode, Ping_decode, Disconnect_decode, Auth_decode.
  rewrite Ef. by split_and!.
Qed.

(** Parsing is decoding the packet, and checking that it used all the bytes. *)
Lemma MQTTRead_parse_eq data rem fh max :
  is_u8 (byte1 fh) → framed_as data fh max → is_Ok (FixedHeader_unwrap fh) →
  MQTTRead_parse (MR_Fin data rem fh max)
  = ('(pkt, n) ← Packet_decode data;
     if negb (n =? length data)%nat then err EK_MalformedPacket RC_MalformedPacket else Ok pkt).
Proof.
  intros Hb Hf [[[[t re] q] d] Hu].
  destruct (framed_as_header data fh max Hb Hf) as (m & E & _).
  cbn [MQTTRead_parse]. unfold Packet_decode. rewrite Hu; run. rewrite E.
  destruct (FixedHeader_validate fh) as [[]|e| |] eqn:Ev; run.
  - by rewrite Hu.
  - cbn [mbind outcome_bind] in E.
    destruct (decoders_need_header data e E) as (?&?&?&?&?&?&?&?&?&?&?).
    destruct t; run; repeat match goal with H : _ = Err e |- _ => rewrite H end; done.
  - pose proof (FixedHeader_validate_post fh Hb) as Hp. by rewrite Ev in Hp.
  - pose proof (FixedHeader_validate_post fh Hb) as Hp. by rewrite Ev in Hp.
Qed.

Lemma MQTTRead_parse_post st data rem fh max :
  st = MR_Fin data rem fh max → wf_read st → is_Ok (FixedHeader_unwrap fh) →
  post (MQTTRead_parse st) wf_Packet dec_error.
Proof.
  intros -> [Hb Hf] Hu. cbn [pending] in Hb. apply Forall_app in Hb as [Hb _].
  assert (is_u8 (byte1 fh)) as Hb1.
  { destruct Hf as (tl & m & -> & _). by apply Forall_cons in Hb as [? _]. }
  rewrite (MQTTRead_parse_eq data rem fh max Hb1 Hf Hu).
  eapply post_bind; [by apply Packet_decode_post, (framed_as_one_packet _ fh max)|].
  intros [p n] _ (_ & ? & _); cbn [fst snd] in *. destruct (negb _); [dec_err|done].
Qed.

(** ** Reading until a packet is complete *)

(** Calling [read] again and again, as the owner of the connection does. *)
Fixpoint drive (fuel : nat) (st : MQTTRead) (rd : reader) : Result (MQTTRead * reader) :=
  if is_Fin st then Ok (st, rd)
  else match fuel with
       | O => NoFuel
       | S fuel => '(st, _, rd) ← MQTTRead_read st rd; drive fuel st rd
       end.

(** Reading [k] packets one after the other. *)
Fixpoint receive (k : nat) (st : MQTTRead) (rd : reader)
    : Result (list Packet * MQTTRead * reader) :=
  match k with
  | O => Ok ([], st, rd)
  | S k =>
      '(st, rd) ← drive (S (rd_size rd)) st rd;
      pkt ← MQTTRead_parse st;
      st ← MQTTRead_reset st;
      '(pkts, st, rd) ← receive k st rd;
      Ok (pkt :: pkts, st, rd)
  end.

(** A finished reader holds the first packet of its stream. *)
Lemma drive_Fin fuel st rd data fh rest :
  is_Fin st = true → wf_read st → ok_reader rd →
  pending st ++ rd_bytes rd = data ++ rest → framed_as data fh (read_max st) →
  ∃ rem rd', drive fuel st rd = Ok (MR_Fin data rem fh (read_max st), rd')
    ∧ rem ++ rd_bytes rd' = rest ∧ ok_reader rd'.
Proof.
  intros Hfin [_ Hf'] Hok Hp Hf. destruct st as [| | |data' rem fh' max|]; try done.
  cbn [pending read_max] in *. rewrite <-app_assoc in Hp.
  destruct (framed_as_unique _ _ _ _ _ _ _ _ Hf' Hf Hp) as (-> & -> & <-).
  exists rem, rd. by destruct fuel.
Qed.

(** On a healthy connection that starts with a packet, reading finishes with that
    packet, and what follows it is kept. *)
Lemma drive_complete fuel st rd data fh rest :
  wf_read st → ok_reader rd → is_bytes (rd_bytes rd) → (rd_size rd < fuel)%nat →
  pending st ++ rd_bytes rd = data ++ rest → framed_as data fh (read_max st) →
  ∃ rem rd', drive fuel st rd = Ok (MR_Fin data rem fh (read_max st), rd')
    ∧ rem ++ rd_bytes rd' = rest ∧ ok_reader rd'.
Proof.
  revert st rd. induction fuel as [|fuel IH]; intros st rd Hwf Hok Hr Hfuel Hp Hf; [lia|].
  destruct (is_Fin st) eqn:Efin; [by apply drive_Fin|]. cbn [drive]. rewrite Efin.
  pose proof (MQTTRead_read_post st rd Hwf Hr) as Hpost.
  destruct (MQTTRead_read st rd) as [[[st' wb] rd']|e| |]; try done.
  - destruct Hpost as (Hwf' & Hm & Hp' & Hok' & Hsz). run.
    assert (is_bytes (pending st' ++ rd_bytes rd')) as [_ Hr']%Forall_app.
    { rewrite Hp'. apply Forall_app. by split; [apply Hwf|]. }
    rewrite <-Hm in *. rewrite <-Hp' in Hp. destruct (is_Fin st') eqn:Efin'.
    + apply drive_Fin; auto.
    + apply IH; auto. specialize (Hsz eq_refl). lia.
  - destruct Hpost as [_ Hnc]. destruct (Hnc Hok). exists data, fh, rest. done.
Qed.

(** ** Receiving encoded packets *)

Lemma framed_framed_as b data max :
  is_u8 b → len data ≤ VarU32_MAX → len (framed b data) ≤ max →
  framed_as (framed b data) (MkFixedHeader b (len data)) max.
Proof.
  intros Hb Hl Hm. pose proof (len_nonneg data).
  exists (varint_bytes (len data) ++ data), (length (varint_bytes (len data))).
  cbn [byte1 remaining_len]. split_and!; [done|by apply VarU32_decode_varint|done| |done].
  unfold len at 1. rewrite length_framed. unfold len. lia.
Qed.

(** An encoded packet is one packet, and parsing it gives the packet back. *)
Lemma encoded_parse p bs max rem :
  wf_Packet p → stable_Packet p → encoded Packet_ p = Ok bs → len bs ≤ max →
  ∃ fh, framed_as bs fh max ∧ is_bytes bs
    ∧ MQTTRead_parse (MR_Fin bs rem fh max) = Ok (Packet_normalize p).
Proof.
  intros Hwf Hst E Hm. destruct (Packet_encodes p Hwf) as [Hb He]. rewrite E in Hb. cbn in Hb.
  destruct (He bs E) as (b & data & -> & Hl & Hb1 & Ht & Hv).
  exists (MkFixedHeader b (len data)).
  assert (framed_as (framed b data) (MkFixedHeader b (len data)) max) as Hf
    by by apply framed_framed_as.
  split_and!; [done|done|].
  destruct (framed_decode b data [] _ Hl Hb1 Ht Hv) as (_ & re & q & d & Hu).
  rewrite MQTTRead_parse_eq by (done || eexists; done).
  pose proof (Packet_roundtrip_gen p _ [] Hwf Hst E) as Hr. rewrite app_nil_r in Hr.
  rewrite Hr; run. by rewrite Nat.eqb_refl.
Qed.

Lemma receive_init ps bss data rd max tail :
  Forall wf_Packet ps → Forall stable_Packet ps →
  mapM_out (encoded Packet_) ps = Ok bss → Forall (λ bs, len bs ≤ max) bss →
  is_bytes data → is_bytes (rd_bytes rd) → ok_reader rd →
  data ++ rd_bytes rd = concat bss ++ tail →
  ∃ rem rd', receive (length ps) (MR_Init data max) rd
    = Ok (Packet_normalize <$> ps, MR_Init rem max, rd') ∧ rem ++ rd_bytes rd' = tail.
Proof.
  intros Hwf. revert bss data rd.
  induction Hwf as [|p ps Hp Hwf IH]; intros bss data rd Hst E Hlim Hd Hr Hok Hall.
  - cbn in E. simplify_eq. eauto.
  - cbn [mapM_out] in E. apply bind_Ok_inv in E as (bs & Eb & E).
    apply bind_Ok_inv in E as (bss' & E & ?); simplify_eq.
    apply Forall_cons in Hst as [Hst1 Hst]. apply Forall_cons in Hlim as [Hl1 Hlim].
    cbn [concat] in Hall. rewrite <-app_assoc in Hall.
    destruct (encoded_parse p bs max [] Hp Hst1 Eb Hl1) as (fh & Hf & Hbs & _).
    destruct (drive_complete (S (rd_size rd)) (MR_Init data max) rd bs fh (concat bss' ++ tail))
      as (rem & rd' & Hdrive & Hrem & Hok'); try done; [lia|].
    cbn [receive length]. rewrite Hdrive; run. cbn [read_max].
    destruct (encoded_parse p bs max rem Hp Hst1 Eb Hl1) as (fh' & Hf' & _ & Hparse).
    destruct (framed_as_unique _ _ _ _ _ _ [] [] Hf Hf' eq_refl) as (_ & <- & _).
    rewrite Hparse; run. cbn [MQTTRead_reset]; run.
    assert (is_bytes (bs ++ (rem ++ rd_bytes rd'))) as [_ [? ?]%Forall_app]%Forall_app.
    { rewrite Hrem, <-Hall. by apply Forall_app. }
    destruct (IH bss' rem rd') as (rem' & rd'' & -> & ?); try done. eauto.
Qed.

(** ** Writing *)

(** The invariant of a write of [data] that began when [sent] had been sent: what
    the peer has got is a prefix of the packet; a packet over the limit is not sent. *)
Definition wf_write (data sent : bytes) (max : Z) (st : MQTTWrite) (wr : writer) : Prop :=
  match st with
  | MW_Init d m => d = data ∧ m = max ∧ wr_sent wr = sent
  | MW_Remain d start m =>
      d = data ∧ m = max ∧ (start ≤ length data)%nat ∧ len data ≤ max
      ∧ wr_sent wr = sent ++ take start data
  | MW_Fin d m =>
      d = data ∧ m = max ∧ wr_sent wr = if max <? len data then sent else sent ++ data
  | MW_None => False
  end.

Definition is_WFin (st : MQTTWrite) : bool := match st with MW_Fin _ _ => true | _ => false end.

(** A writer that keeps accepting bytes, or pauses. *)
Definition ok_wr_event (e : WrEvent) : Prop :=
  match e with Wr_Accept n => n ≠ 0%nat | Wr_Blocked | Wr_Error => False | _ => True end.

(** The number of bytes a writer is ready to accept, at least. *)
Definition wr_accepts (evs : list WrEvent) : nat :=
  length (List.filter (λ e, match e with Wr_Accept _ => true | _ => false end) evs).

(** The bytes of a write that are still to be sent. *)
Definition unsent (st : MQTTWrite) : nat :=
  match st with
  | MW_Init d _ => length d
  | MW_Remain d start _ => length d - start
  | _ => 0
  end.

(** A peer that takes nothing more, for good *)
Definition blocked (wr : writer) : Prop := ∃ evs, wr_events wr = Wr_Blocked :: evs.

(** What a write promises: the invariant, and progress through the events unless the peer
    is blocked. *)
Definition write_post (data sent : bytes) (max : Z) (st : MQTTWrite) (wr : writer)
    (r : MQTTWrite * bool * writer) : Prop :=
  let '(st', would_block, wr') := r in
  wf_write data sent max st' wr'
  ∧ (is_WFin st' = true
     ∨ (blocked wr ∧ wr' = wr ∧ would_block = true)
     ∨ (length (wr_events wr') < length (wr_events wr))%nat
       ∧ (Forall ok_wr_event (wr_events wr) → Forall ok_wr_event (wr_events wr'))
       ∧ ((unsent st ≤ wr_accepts (wr_events wr))%nat →
          (unsent st' ≤ wr_accepts (wr_events wr'))%nat)).

(** A write fails only on a broken connection. *)
Definition write_fail (st : MQTTWrite) (wr : writer) (e : Error) : Prop :=
  Error_kind e = EK_Disconnected
  ∧ ¬ (Forall ok_wr_event (wr_events wr) ∧ (unsent st ≤ wr_accepts (wr_events wr))%nat).

(** The call to the connection in the arms [Init] (at offset 0) and [Remain]. *)
Definition write_from (data : bytes) (start : nat) (max : Z) (wr : writer)
    : Result (MQTTWrite * bool * writer) :=
  match io_write (drop start data) wr with
  | (Io_Ok n, wr) =>
      if (n =? 0)%nat then err_desc EK_Disconnected
      else if (start + n =? length data)%nat then Ok (MW_Fin data max, false, wr)
      else if (start + n <? length data)%nat
      then Ok (MW_Remain data (start + n) max, false, wr)
      else Panic
  | (Io_Interrupted, wr) => Ok (MW_Remain data start max, false, wr)
  | (Io_WouldBlock, wr) => Ok (MW_Remain data start max, true, wr)
  | (Io_Error, wr) => err_try EK_Disconnected
  end.

Lemma write_from_post data sent start max st wr :
  (start < length data)%nat → len data ≤ max → wr_sent wr = sent ++ take start data →
  unsent st = (length data - start)%nat →
  post (write_from data start max wr) (write_post data sent max st wr) (write_fail st wr).
Proof.
  destruct wr as [evs s]. cbn [wr_sent]. intros Hs Hm -> Hu. unfold write_from.
  assert (∀ evs', length evs' < length evs → (Forall ok_wr_event evs → Forall ok_wr_event evs')
    → wr_accepts evs' = wr_accepts evs → ∀ wb,
    write_post data sent max st (MkWriter evs (sent ++ take start data))
      (MW_Remain data start max, wb, MkWriter evs' (sent ++ take start data)))%nat as Hpause.
  { intros evs' ? ? Ea wb. split; [cbn; split_and!; (done || lia)|]. right.
    right. cbn [wr_events unsent]. rewrite Ea, Hu.
    split_and!; (done || lia). }
  destruct evs as [|[n| | | |] evs]; cbn [io_write wr_events wr_sent].
  - split; [done|]. intros [_ Ha]. rewrite Hu in Ha. cbn in Ha. lia.
  - rewrite length_drop. set (k := Nat.min n (length data - start)).
    destruct (Nat.eqb_spec k 0).
    { split; [done|]. intros [[Hn _]%Forall_cons _]. cbn in Hn. lia. }
    rewrite <-app_assoc, take_take_drop.
    destruct (Nat.eqb_spec (start + k) (length data)) as [E|E].
    + apply post_Ok. split; [|by left]. cbn. split_and!; [done|done|].
      rewrite E, take_ge by lia. by destruct (Z.ltb_spec max (len data)); [lia|].
    + destruct (Nat.ltb_spec (start + k) (length data)); [|lia].
      apply post_Ok. split; [cbn; split_and!; (done || lia)|]. right; right.
      cbn [wr_events unsent]. rewrite Hu.
      change (wr_accepts (Wr_Accept n :: evs)) with (S (wr_accepts evs)).
      split_and!; [cbn; lia|by intros [_ ?]%Forall_cons|lia].
  - apply post_Ok, Hpause; [cbn; lia|by intros [_ ?]%Forall_cons|done].
  - apply post_Ok, Hpause; [cbn; lia|by intros [_ ?]%Forall_cons|done].
  - apply post_Ok. split; [cbn; split_and!; (done || lia)|]. right; left. split_and!; [by eexists|done..].
  - split; [done|]. intros [[[] _]%Forall_cons _].
Qed.

Lemma MQTTWrite_write_post data sent max st wr :
  wf_write data sent max st wr →
  post (MQTTWrite_write st wr) (write_post data sent max st wr) (write_fail st wr).
Proof.
  destruct st as [d m|d start m|d m|]; cbn [wf_write].
  - intros (-> & -> & Hw). cbn [MQTTWrite_write].
    destruct (Z.ltb_spec max (len data)) as [Hm|Hm].
    { apply post_Ok. split; [|by left]. split_and!; [done|done|].
      by destruct (Z.ltb_spec max (len data)); [|lia]. }
    destruct (Nat.eqb_spec (length data) 0) as [Hz|Hz].
    { apply post_Ok. split; [|by left]. split_and!; [done|done|].
      destruct data; [|done]. rewrite app_nil_r. by case_match. }
    apply (write_from_post data sent 0); [lia|done|by rewrite app_nil_r|cbn; lia].
  - intros (-> & -> & Hs & Hm & Hw). cbn [MQTTWrite_write].
    rewrite slice_Ok by lia; run. rewrite take_ge by (rewrite length_drop; lia).
    rewrite length_drop. destruct (Nat.eqb_spec (length data - start) 0).
    { apply post_Ok. split; [|by left]. cbn. split_and!; [done|done|]. rewrite Hw.
      rewrite take_ge by lia. by destruct (Z.ltb_spec max (len data)); [lia|]. }
    apply write_from_post; (done || lia).
  - intros (-> & -> & Hsent). apply post_Ok. split; [|by left]. by cbn.
  - done.
Qed.

(** What the peer will do next is what it was going to do, from some point on. *)
Lemma io_write_suffix buf wr : wr_events (io_write buf wr).2 `suffix_of` wr_events wr.
Proof.
  unfold io_write. destruct (wr_events wr) as [|[n| | | |] evs] eqn:E; cbn [snd wr_events]; rewrite ?E;
    first [done|by apply suffix_cons_r].
Qed.

Lemma MQTTWrite_write_suffix st wr st' wb wr' :
  MQTTWrite_write st wr = Ok (st', wb, wr') → wr_events wr' `suffix_of` wr_events wr.
Proof.
  assert (∀ buf r wr1, io_write buf wr = (r, wr1) → wr_events wr1 `suffix_of` wr_events wr) as Hio
    by (intros buf r wr1 E; pose proof (io_write_suffix buf wr) as H; by rewrite E in H).
  destruct st as [d m|d start m|d m|]; cbn [MQTTWrite_write]; [| |by intros [= _ _ <-]|done].
  - destruct (m <? len d); [by intros [= _ _ <-]|]. destruct (length d =? 0)%nat; [by intros [= _ _ <-]|].
    destruct (io_write d wr) as [[n| | |] wr1] eqn:E; [|by intros [= _ _ <-]; eapply Hio..|done].
    repeat case_match; intros [= _ _ <-]; by eapply Hio.
  - destruct (slice d start (length d)) as [rest|?| |]; run; [|done..].
    destruct (length rest =? 0)%nat; [by intros [= _ _ <-]|].
    destruct (io_write rest wr) as [[n| | |] wr1] eqn:E; [|by intros [= _ _ <-]; eapply Hio..|done].
    repeat case_match; intros [= _ _ <-]; by eapply Hio.
Qed.

(** A write that would block keeps the packet that it was at. *)
Lemma MQTTWrite_blocked data sent max st wr :
  wf_write data sent max st wr → blocked wr →
  match MQTTWrite_write st wr with
  | Ok (st', true, wr') => wr' = wr ∧ is_WFin st' = false ∧ MQTTWrite_write st' wr = Ok (st', true, wr)
  | Ok (_, false, _) => True
  | _ => False
  end.
Proof.
  intros Hwf [evs Hb]. destruct st as [d m|d start m|d m|]; cbn [MQTTWrite_write]; [| |done|done].
  - destruct (m <? len d); [done|]. destruct (Nat.eqb_spec (length d) 0); [done|]. unfold io_write. rewrite Hb.
    split_and!; [done..|]. cbn [MQTTWrite_write]. rewrite slice_Ok by lia; run.
    rewrite drop_0, take_ge by lia. destruct (Nat.eqb_spec (length d) 0); [done|]. unfold io_write. by rewrite Hb.
  - destruct Hwf as (-> & _ & Hs & _). destruct (slice data start (length data)) as [rest|?| |] eqn:Er; run;
      [|by rewrite slice_Ok in Er by lia..].
    destruct (Nat.eqb_spec (length rest) 0); [done|]. unfold io_write. rewrite Hb.
    split_and!; [done..|]. cbn [MQTTWrite_write]. rewrite Er; run. destruct (Nat.eqb_spec (length rest) 0); [done|].
    unfold io_write. by rewrite Hb.
Qed.

(** Part of the packet being written is out. *)
Lemma wf_write_part data sent max st wr :
  wf_write data sent max st wr → ∃ part, wr_sent wr = sent ++ part ∧ part `prefix_of` data.
Proof.
  assert (∀ (t : bytes), t = t ++ []) as Hnil by (intros; by rewrite app_nil_r).
  destruct st as [d m|d start m|d m|]; cbn [wf_write]; [| | |done].
  - intros (_ & _ & ->). exists []. split; [done|apply prefix_nil].
  - intros (_ & _ & _ & _ & ->). exists (take start data). split; [done|by exists (drop start data); rewrite take_drop].
  - intros (_ & _ & ->). destruct (max <? len data); [exists []; split; [done|apply prefix_nil]|by exists data].
Qed.

Lemma would_block_open st wr st' wr' : MQTTWrite_write st wr = Ok (st', true, wr') → is_WFin st' = false.
Proof.
  destruct st as [d m|d start m|d m|]; cbn [MQTTWrite_write]; [| |done..].
  - destruct (m <? len d); [done|]. destruct (length d =? 0)%nat; [done|].
    destruct (io_write d wr) as [[n| | |] wr1]; [|done|by intros [= <- _]|done].
    destruct (n =? 0)%nat; [done|]. destruct (n =? length d)%nat; [done|]. by destruct (n <? length d)%nat.
  - destruct (slice d start (length d)) as [rest|?| |]; run; [|done..]. destruct (length rest =? 0)%nat; [done|].
    destruct (io_write rest wr) as [[n| | |] wr1]; [|done|by intros [= <- _]|done].
    destruct (n =? 0)%nat; [done|]. destruct (start + n =? length d)%nat; [done|]. by destruct (start + n <? length d)%nat.
Qed.

(** Calling [write] again and again until the packet is out. *)
Fixpoint drive_write (fuel : nat) (st : MQTTWrite) (wr : writer) : Result (MQTTWrite * writer) :=
  if is_WFin st then Ok (st, wr)
  else match fuel with
       | O => NoFuel
       | S fuel => '(st, _, wr) ← MQTTWrite_write st wr; drive_write fuel st wr
       end.

Lemma drive_write_complete fuel data sent max st wr :
  wf_write data sent max st wr → Forall ok_wr_event (wr_events wr) →
  (unsent st ≤ wr_accepts (wr_events wr))%nat → (length (wr_events wr) < fuel)%nat →
  ∃ wr', drive_write fuel st wr = Ok (MW_Fin data max, wr')
    ∧ wr_sent wr' = if max <? len data then sent else sent ++ data.
Proof.
  revert st wr. induction fuel as [|fuel IH]; intros st wr Hwf Hok Hu Hfuel; [lia|].
  assert (∀ fuel st wr, is_WFin st = true → wf_write data sent max st wr →
    ∃ wr', drive_write fuel st wr = Ok (MW_Fin data max, wr')
      ∧ wr_sent wr' = if max <? len data then sent else sent ++ data) as Hfin.
  { intros fuel' [| |d m|] wr' Hf Hw; try done. destruct Hw as (-> & -> & ?).
    exists wr'. by destruct fuel'. }
  destruct (is_WFin st) eqn:Ef; [by apply Hfin|]. cbn [drive_write]. rewrite Ef.
  pose proof (MQTTWrite_write_post data sent max st wr Hwf) as Hp.
  destruct (MQTTWrite_write st wr) as [[[st' wb] wr']|e| |]; try done; run.
  - destruct Hp as [Hwf' [Hf|[([evs Hb] & _)|(Hl & Hok' & Hu')]]]; [by apply Hfin| |apply IH; auto; lia].
    rewrite Hb in Hok. by apply Forall_cons in Hok as [[] _].
  - by destruct Hp as [_ []].
Qed.

(** ** Theorems *)

(** C3. End to end: packets that are written one after the other are read back,
    however the connection cuts their bytes into chunks and wherever it pauses.
    [receive] returns the packets in order, with empty property lists and
    payloads normalised away, and keeps the bytes that follow. *)
Theorem receive_encoded ps bss rd max tail :
  Forall wf_Packet ps → Forall stable_Packet ps →
  mapM_out (encoded Packet_) ps = Ok bss → Forall (λ bs, len bs ≤ max) bss →
  is_bytes (rd_bytes rd) → ok_reader rd → rd_bytes rd = concat bss ++ tail →
  ∃ rem rd', receive (length ps) (MQTTRead_new max) rd
    = Ok (Packet_normalize <$> ps, MR_Init rem max, rd') ∧ rem ++ rd_bytes rd' = tail.
Proof. intros. by eapply receive_init. Qed.

(** C15. [MQTTRead::read] in any state it can be in and on any connection: it does
    not panic; it keeps the invariant of the reader; the bytes it has and the
    bytes still to come are the same stream as before, so nothing is lost,
    repeated or reordered; it fails with a disconnect or a decoder error, and it
    does not fail on a healthy connection that starts with a complete packet. *)
Theorem read_safe st rd :
  wf_read st → is_bytes (rd_bytes rd) →
  post (MQTTRead_read st rd) (read_post st rd) (read_fail st rd).
Proof. apply MQTTRead_read_post. Qed.

(** A packet that has been read completely is parsed without a panic when its
    first byte has a packet type and a QoS that exist: the result is a well-formed
    packet or a decoder error. *)
Theorem parse_safe data rem fh max :
  wf_read (MR_Fin data rem fh max) → is_Ok (FixedHeader_unwrap fh) →
  post (MQTTRead_parse (MR_Fin data rem fh max)) wf_Packet dec_error.
Proof. intros. by eapply MQTTRead_parse_post. Qed.

(** The header is not validated before it is unwrapped: two zero bytes from
    the peer are read as a complete packet, and parsing it panics. *)
Theorem parse_reserved_panics max :
  2 ≤ max →
  ∃ st rd, MQTTRead_read (MQTTRead_new max) [Rd_Data [0; 0]] = Ok (st, false, rd)
    ∧ wf_read st ∧ MQTTRead_parse st = Panic.
Proof.
  intros Hm. exists (MR_Fin [0; 0] [] (MkFixedHeader 0 0) max), []. split_and!; [|split|done].
  - unfold MQTTRead_read, MQTTRead_new; cbn. unfold check_packet_limit.
    change (1 + Z.of_nat 1 + (0 + Z.land 0 127 ≪ (7 * Z.of_nat 0))) with 2.
    by destruct (Z.ltb_spec max 2); [lia|].
  - by repeat constructor.
  - exists [0], 1%nat. split_and!; try done; lia.
Qed.

(** A peer that sends nothing but continuation bytes is never refused: the
    header state keeps every byte it is sent, whatever the packet limit. *)
Theorem header_unbounded b data max bs rd :
  is_bytes bs → (0 < length bs ≤ 5)%nat →
  Forall (λ b, 0x80 ≤ b) (drop 1 data) → Forall (λ b, 0x80 ≤ b) bs → data ≠ [] →
  MQTTRead_read (MR_Header b data max) (Rd_Data bs :: rd)
    = Ok (MR_Header b (data ++ bs) max, false, rd).
Proof.
  intros Hb Hl Hd Hbs Hne. unfold MQTTRead_read. cbn [pre_read]; run. cbn [io_read].
  rewrite take_ge, drop_ge by lia. destruct bs as [|x bs]; [cbn in Hl; lia|].
  destruct data as [|y data]; [done|]. cbn [drop] in Hd.
  unfold after_header. rewrite slice_Ok by (cbn; lia); run. cbn [app drop].
  rewrite drop_0, take_ge by (cbn [length]; lia).
  assert (skip_while (λ b, 0x80 <=? b) (data ++ x :: bs) = []) as ->; [|done].
  assert (Forall (λ b, 0x80 ≤ b) (data ++ x :: bs)) as Hall by by apply Forall_app.
  clear -Hall. induction Hall as [|z l Hz _ IH]; [done|]. cbn.
  by destruct (Z.leb_spec 0x80 z); [|lia].
Qed.

(** C37. [MQTTWrite::write] in any state it can be in and on any connection: it
    does not panic, what the peer has got is always a prefix of the packet, and
    it fails with a disconnect on a broken connection only. *)
Theorem write_safe data sent max st wr :
  wf_write data sent max st wr →
  post (MQTTWrite_write st wr) (write_post data sent max st wr) (write_fail st wr).
Proof. apply MQTTWrite_write_post. Qed.

(** Writing terminates: on a connection that keeps accepting bytes, with any
    pauses, the packet goes out exactly once; a packet over the limit is dropped
    and nothing is sent. *)
Theorem write_sends data max wr :
  Forall ok_wr_event (wr_events wr) → (length data ≤ wr_accepts (wr_events wr))%nat →
  ∃ wr', drive_write (S (length (wr_events wr))) (MQTTWrite_new data max) wr
    = Ok (MW_Fin data max, wr')
    ∧ wr_sent wr' = wr_sent wr ++ (if max <? len data then [] else data).
Proof.
  intros Hok Hl.
  destruct (drive_write_complete (S (length (wr_events wr))) data (wr_sent wr) max
    (MQTTWrite_new data max) wr) as (wr' & E & Hs); [done|done|done|lia|].
  exists wr'. split; [done|]. rewrite Hs. case_match; by rewrite ?app_nil_r.
Qed.

(** [send_disconnect] gives up at the first pause when its deadline is still
    ahead (the comparison is the wrong way round), and reports success after a
    partial write. *)
Theorem send_disconnect_deadline code evs sent max :
  4 ≤ max →
  send_disconnect code (MkWriter (Wr_WouldBlock :: evs) sent) [false] max
    = err_desc EK_Disconnected
  ∧ send_disconnect code (MkWriter (Wr_Accept 1 :: evs) sent) [] max
    = Ok (MkWriter evs (sent ++ [224])).
Proof.
  intros Hm. assert (res_unwrap (encoded Disconnect_ (MkDisconnect code None))
    = Ok [224; 2; DisconnReasonCode_as_u8 code; 0]) as E by by destruct code.
  unfold send_disconnect. rewrite E; run. unfold MQTTWrite_new. cbn [send_disconnect_loop MQTTWrite_write].
  destruct (Z.ltb_spec max (len [224; 2; DisconnReasonCode_as_u8 code; 0])) as [H|H];
    [unfold len in H; cbn [length] in H; lia|]. by split.
Qed.

(** ** Witnesses *)

Definition ex_publish : Packet :=
  Pkt_Publish (MkPublish false QoS_AtLeastOnce false [97; 47; 98] (Some 7) None (Some [1; 2; 3])).

Definition ex_packets : list Packet := [ex_publish; Pkt_PingReq].

Definition ex_bytes : list bytes := [[50; 11; 0; 3; 97; 47; 98; 0; 7; 0; 1; 2; 3]; [192; 0]].

(** The bytes of both packets and of one more, cut at awkward places. *)
Definition ex_reader : reader :=
  [Rd_WouldBlock; Rd_Data [50]; Rd_Interrupted; Rd_Data [11; 0; 3]; Rd_Data [97; 47; 98; 0];
   Rd_WouldBlock; Rd_Data [7; 0; 1; 2; 3; 192]; Rd_Data [0; 208]].

Lemma receive_encoded_witness :
  ∃ rem rd', receive 2 (MQTTRead_new 100) ex_reader
    = Ok (Packet_normalize <$> ex_packets, MR_Init rem 100, rd') ∧ rem ++ rd_bytes rd' = [208].
Proof.
  apply (receive_encoded ex_packets ex_bytes ex_reader 100 [208]).
  - apply Forall_cons_2; [|apply Forall_cons_2; [exact I|apply Forall_nil_2]].
    split_and!; try done; [apply (bool_decide_unpack _); by vm_compute|..];
      constructor; apply (bool_decide_unpack _); by vm_compute.
  - by repeat constructor.
  - by vm_compute.
  - by repeat constructor.
  - apply (bool_decide_unpack _); by vm_compute.
  - by repeat constructor.
  - done.
Defined.

Lemma read_safe_witness :
  post (MQTTRead_read (MR_Header 50 [50; 0x80] 100) [Rd_Data [1; 0; 3; 97]])
    (read_post (MR_Header 50 [50; 0x80] 100) [Rd_Data [1; 0; 3; 97]])
    (read_fail (MR_Header 50 [50; 0x80] 100) [Rd_Data [1; 0; 3; 97]]).
Proof.
  apply (read_safe (MR_Header 50 [50; 0x80] 100) [Rd_Data [1; 0; 3; 97]]).
  - split; [by repeat constructor|]. exists [0x80]. split; [done|by repeat constructor].
  - by repeat constructor.
Defined.

Lemma parse_safe_witness :
  post (MQTTRead_parse (MR_Fin [192; 0] [] (MkFixedHeader 192 0) 10)) wf_Packet dec_error.
Proof.
  apply (parse_safe [192; 0] [] (MkFixedHeader 192 0) 10).
  - split; [by repeat constructor|]. exists [0], 1%nat. by split_and!.
  - by eexists.
Defined.

Lemma parse_reserved_panics_witness :
  ∃ st rd, MQTTRead_read (MQTTRead_new 1024) [Rd_Data [0; 0]] = Ok (st, false, rd)
    ∧ wf_read st ∧ MQTTRead_parse st = Panic.
Proof. apply (parse_reserved_panics 1024). lia. Defined.

Lemma header_unbounded_witness :
  MQTTRead_read (MR_Header 16 [16; 255; 255; 255; 255; 255] 4) [Rd_Data [255; 255]]
    = Ok (MR_Header 16 [16; 255; 255; 255; 255; 255; 255; 255] 4, false, []).
Proof.
  apply (header_unbounded 16 [16; 255; 255; 255; 255; 255] 4 [255; 255] []).
  - by repeat constructor.
  - cbn; lia.
  - by repeat constructor.
  - by repeat constructor.
  - done.
Defined.

Lemma write_safe_witness :
  post (MQTTWrite_write (MW_Remain [192; 0] 1 10) (MkWriter [Wr_Accept 4] [192]))
    (write_post [192; 0] [] 10 (MW_Remain [192; 0] 1 10) (MkWriter [Wr_Accept 4] [192]))
    (write_fail (MW_Remain [192; 0] 1 10) (MkWriter [Wr_Accept 4] [192])).
Proof.
  apply (write_safe [192; 0] [] 10 (MW_Remain [192; 0] 1 10) (MkWriter [Wr_Accept 4] [192])).
  split_and!; (done || cbn; lia).
Defined.

Lemma write_sends_witness :
  ∃ wr', drive_write 4 (MQTTWrite_new [192; 0] 10)
      (MkWriter [Wr_WouldBlock; Wr_Accept 1; Wr_Accept 1] [7])
    = Ok (MW_Fin [192; 0] 10, wr') ∧ wr_sent wr' = [7; 192; 0].
Proof.
  apply (write_sends [192; 0] 10 (MkWriter [Wr_WouldBlock; Wr_Accept 1; Wr_Accept 1] [7])).
  - by repeat constructor.
  - cbn; lia.
Defined.

Lemma send_disconnect_deadline_witness :
  send_disconnect DRC_NormalDisconnect (MkWriter [Wr_WouldBlock; Wr_Accept 4] []) [false] 100
    = err_desc EK_Disconnected
  ∧ send_disconnect DRC_NormalDisconnect (MkWriter [Wr_Accept 1; Wr_Accept 4] []) [] 100
    = Ok (MkWriter [Wr_Accept 4] [224]).
Proof.
  apply (send_disconnect_deadline DRC_NormalDisconnect [Wr_Accept 4] [] 100). lia.
Defined.
