(* ===== verification/SortedVec.v ===== *)
(** * Sorted vectors

    [Vec::remove], [Vec::insert] and [slice::binary_search_by] of the language,
    for vectors kept in strict order of a comparison.  On a slice that is not
    sorted the language leaves the result of the search open; the model takes the
    first element that is not below the key, and the invariants of the callers
    keep their vectors sorted. *)
From stdpp Require Import sorting.
From S2P Require Import Prelude Errors.

(** [v.remove(off)] *)
Definition vec_remove {A} (off : nat) (l : list A) : Result (A * list A) :=
  match l !! off with Some x => Ok (x, delete off l) | None => Panic end.

(** [v.insert(off, x)] *)
Definition vec_insert {A} (off : nat) (x : A) (l : list A) : Result (list A) :=
  if (off <=? length l)%nat then Ok (take off l ++ x :: drop off l) else Panic.

(** [v.binary_search_by(f)]: [(true, off)] for [Ok(off)], [(false, off)] for
    [Err(off)]. *)
Fixpoint binary_search_by {A} (f : A → Result comparison) (l : list A) : Result (bool * nat) :=
  match l with
  | [] => Ok (false, 0%nat)
  | x :: l' =>
      c ← f x;
      match c with
      | Lt => '(found, off) ← binary_search_by f l'; Ok (found, S off)
      | Eq => Ok (true, 0%nat)
      | Gt => Ok (false, 0%nat)
      end
  end.

Lemma vec_remove_app {A} (xs ys : list A) x :
  vec_remove (length xs) (xs ++ x :: ys) = Ok (x, xs ++ ys).
Proof. unfold vec_remove. by rewrite list_lookup_middle, delete_middle. Qed.

Lemma vec_insert_app {A} (xs ys : list A) x :
  vec_insert (length xs) x (xs ++ ys) = Ok (xs ++ x :: ys).
Proof.
  unfold vec_insert. rewrite length_app. destruct (Nat.leb_spec (length xs) (length xs + length ys)); [|lia].
  by rewrite take_app_length, drop_app_length.
Qed.

(** A total preorder: [Eq] need not be equality. *)
Class CmpLaws {A} (cmp : A → A → comparison) : Prop := {
  cmp_opp x y : cmp y x = CompOpp (cmp x y);
  cmp_lt_trans x y z : cmp x y = Lt → cmp y z = Lt → cmp x z = Lt;
  cmp_eq_l x y z : cmp x y = Eq → cmp x z = cmp y z;
}.

Definition sorted_by {A K} (cmp : K → K → comparison) (key : A → K) (l : list A) : Prop :=
  StronglySorted (λ x y, cmp (key x) (key y) = Lt) l.

Lemma sorted_by_sublist {A K} (cmp : K → K → comparison) (key : A → K) l l' :
  (key <$> l') `sublist_of` (key <$> l) → sorted_by cmp key l → sorted_by cmp key l'.
Proof.
  unfold sorted_by. intros Hs Hl. remember (key <$> l') as ks' eqn:E'. remember (key <$> l) as ks eqn:E.
  revert l l' E E' Hl. induction Hs as [|k ks1 ks2 Hs IH|k ks1 ks2 Hs IH]; intros l l' E E' Hl.
  - destruct l'; [constructor|done].
  - destruct l as [|x l], l' as [|x' l']; try done. cbn in E, E'. injection E as -> E. injection E' as Ex E'.
    apply StronglySorted_inv in Hl as [Hl Hx]. constructor; [by eapply IH|].
    rewrite Forall_forall in Hx |- *. intros y' Hy'. apply (list_elem_of_fmap_2 key) in Hy'. rewrite <-E' in Hy'.
    eapply elem_of_sublist in Hy'; [|exact Hs]. rename Hy' into Hs2. rewrite E in Hs2. apply list_elem_of_fmap in Hs2 as (y & -> & Hy).
    rewrite <-Ex. by apply Hx.
  - destruct l as [|x l]; [done|]. cbn in E. injection E as -> E. apply StronglySorted_inv in Hl as [Hl _]. by eapply IH.
Qed.

Lemma sorted_by_keys {A K} (cmp : K → K → comparison) (key : A → K) l l' :
  key <$> l' = key <$> l → sorted_by cmp key l → sorted_by cmp key l'.
Proof.
  unfold sorted_by. revert l'. induction l as [|x l IH]; intros [|x' l'] E; try done.
  cbn in E. injection E as Ex E. intros [Hs Hx]%StronglySorted_inv. constructor; [by apply IH|].
  rewrite Forall_forall in Hx |- *. intros y' Hy'.
  apply (list_elem_of_fmap_2 key) in Hy'. rewrite E in Hy'. apply list_elem_of_fmap in Hy' as (y & -> & Hy).
  rewrite Ex. by apply Hx.
Qed.

Section sorted.
Context {A K} (cmp : K → K → comparison) `{!CmpLaws cmp} (key : A → K).
Implicit Types (l xs ys : list A) (k : K).

Lemma cmp_refl k : cmp k k = Eq.
Proof using CmpLaws0. pose proof (cmp_opp k k) as H. by destruct (cmp k k). Qed.

Lemma cmp_sym k k' c : cmp k k' = c → cmp k' k = CompOpp c.
Proof using CmpLaws0. intros <-. apply cmp_opp. Qed.

Lemma cmp_eq_r x y z : cmp x y = Eq → cmp z x = cmp z y.
Proof using CmpLaws0. intros H. rewrite (cmp_opp x z), (cmp_opp y z). f_equal. by apply cmp_eq_l. Qed.

(** The three parts of a sorted vector around a key. *)
Definition cut_at k xs ys : Prop :=
  Forall (λ x, cmp (key x) k = Lt) xs ∧ Forall (λ y, cmp (key y) k = Gt) ys.

Lemma search_cases k l (f : A → Result comparison) :
  (∀ x, x ∈ l → f x = Ok (cmp (key x) k)) → sorted_by cmp key l →
  (∃ xs c ys, l = xs ++ c :: ys ∧ cmp (key c) k = Eq ∧ cut_at k xs ys
     ∧ binary_search_by f l = Ok (true, length xs))
  ∨ (∃ xs ys, l = xs ++ ys ∧ cut_at k xs ys ∧ binary_search_by f l = Ok (false, length xs)).
Proof using CmpLaws0.
  intros Hf Hs. induction Hs as [|x l Hs IH Hx]; [right; by exists [], []|].
  assert (∀ c, cmp (key x) k = c → c ≠ Lt → Forall (λ y, cmp (key y) k = Gt) l) as Hgt.
  { intros c Ec Hc. eapply Forall_impl; [exact Hx|]. intros y Hy; cbn in Hy.
    rewrite cmp_opp. cut (cmp k (key y) = Lt); [by intros ->|]. destruct c; [|done|].
    - rewrite <-(cmp_eq_l (key x) k) by done. done.
    - eapply cmp_lt_trans; [|exact Hy]. rewrite cmp_opp, Ec. done. }
  cbn [binary_search_by]. rewrite (Hf x) by left; run.
  destruct (cmp (key x) k) eqn:Ec.
  - left. exists [], x, l. split; [done|]. split; [done|]. split; [|done].
    split; [constructor|by apply (Hgt Eq)].
  - destruct IH as [(xs & c & ys & -> & Hc & [Hxs Hys] & ->)|(xs & ys & -> & [Hxs Hys] & ->)];
      [intros y Hy; apply Hf; by right| |]; run.
    + left. exists (x :: xs), c, ys. split; [done|]. split; [done|]. split; [|done].
      split; [by constructor|done].
    + right. exists (x :: xs), ys. split; [done|]. split; [|done]. split; [by constructor|done].
  - right. exists [], (x :: l). split; [done|]. split; [|done].
    split; [constructor|]. constructor; [done|by apply (Hgt Gt)].
Qed.

Lemma sorted_app xs ys :
  sorted_by cmp key (xs ++ ys) ↔
  sorted_by cmp key xs ∧ sorted_by cmp key ys
  ∧ (∀ x y, x ∈ xs → y ∈ ys → cmp (key x) (key y) = Lt).
Proof using Type.
  unfold sorted_by. rewrite StronglySorted_app. naive_solver.
Qed.

(** Dropping the element at the cut, or putting one with the key there. *)
Lemma sorted_drop xs c ys : sorted_by cmp key (xs ++ c :: ys) → sorted_by cmp key (xs ++ ys).
Proof using Type.
  rewrite !sorted_app. intros (H1 & [H2 _]%StronglySorted_inv & H3).
  split_and!; [done|done|]. intros x y Hx Hy. apply H3; [done|by right].
Qed.

Lemma sorted_put k xs c ys :
  sorted_by cmp key (xs ++ ys) → cmp (key c) k = Eq → cut_at k xs ys →
  sorted_by cmp key (xs ++ c :: ys).
Proof using CmpLaws0.
  rewrite !sorted_app. intros (H1 & H2 & H3) Hc [Hxs Hys]. split_and!; [done| |].
  - constructor; [done|]. eapply Forall_impl; [exact Hys|]. intros y Hy; cbn in *.
    by rewrite (cmp_eq_l _ k), cmp_opp, Hy.
  - intros x y Hx [->|Hy]%elem_of_cons; [|by apply H3].
    eapply Forall_forall in Hxs; [|exact Hx]. by rewrite (cmp_eq_r (key c) k).
Qed.

Lemma sorted_cut xs c ys :
  sorted_by cmp key (xs ++ c :: ys) → cut_at (key c) xs ys.
Proof using CmpLaws0.
  rewrite sorted_app. intros (_ & [_ H2]%StronglySorted_inv & H3). split.
  - apply Forall_forall. intros x Hx. apply H3; [done|by left].
  - eapply Forall_impl; [exact H2|]. intros y Hy; cbn in *. by rewrite cmp_opp, Hy.
Qed.
End sorted.

(** ** Strings in byte order

    UTF-8 keeps the order of code points, so the order of the bytes is the
    lexicographic order of the characters. *)
Fixpoint str_cmp (a b : list Z) : comparison :=
  match a, b with
  | [], [] => Eq
  | [], _ :: _ => Lt
  | _ :: _, [] => Gt
  | x :: a, y :: b => match (x ?= y)%Z with Eq => str_cmp a b | c => c end
  end.

Lemma str_cmp_eq a b : str_cmp a b = Eq ↔ a = b.
Proof.
  revert b; induction a as [|x a IH]; intros [|y b]; cbn; try done.
  destruct (Z.compare_spec x y) as [->|H|H]; [rewrite IH|..]; naive_solver lia.
Qed.

#[export] Instance str_cmp_laws : CmpLaws str_cmp.
Proof.
  split.
  - induction x as [|x a IH]; intros [|y b]; cbn; try done.
    rewrite (Z.compare_antisym x y). destruct (x ?= y)%Z; [apply IH|done..].
  - induction x as [|x a IH]; intros [|y b] [|z c]; cbn; try done.
    destruct (Z.compare_spec x y), (Z.compare_spec y z); try done; intros ? ?;
      destruct (Z.compare_spec x z); try lia; try done. by eapply IH.
  - intros x y z ->%str_cmp_eq. done.
Qed.
