(* ===== verification/BTree.v ===== *)
(** * BTreeMap

    [std::collections::BTreeMap] as a list of entries in strict order of their keys,
    the order in which the source iterates over it.  The comparison of the keys is
    that of their [Ord] instance, for which [Eq] is equality. *)
From stdpp Require Import sorting.
From S2P Require Import Prelude Errors Utf8 SortedVec.

Abbreviation btree K V := (list (K * V)).

(** A total order. *)
Class CmpEq {K} (cmp : K → K → comparison) : Prop := cmp_eq_iff x y : cmp x y = Eq ↔ x = y.

#[export] Instance Z_compare_laws : CmpLaws Z.compare.
Proof.
  split; [intros; apply Z.compare_antisym| |].
  - intros x y z. rewrite !Z.compare_lt_iff. lia.
  - intros x y z ->%Z.compare_eq_iff. done.
Qed.
#[export] Instance Z_compare_eq : CmpEq Z.compare.
Proof. intros x y. apply Z.compare_eq_iff. Qed.
#[export] Instance str_cmp_CmpEq : CmpEq str_cmp.
Proof. intros x y. apply str_cmp_eq. Qed.

Section btree.
Context {K : Type} (cmp : K → K → comparison) {V : Type}.
Implicit Types (m : btree K V) (k : K) (v : V).

Fixpoint bt_get k m : option V :=
  match m with
  | [] => None
  | (k', v) :: m => match cmp k k' with Eq => Some v | _ => bt_get k m end
  end.

Fixpoint bt_insert k v m : btree K V :=
  match m with
  | [] => [(k, v)]
  | (k', v') :: m' =>
      match cmp k k' with
      | Lt => (k, v) :: m
      | Eq => (k', v) :: m'
      | Gt => (k', v') :: bt_insert k v m'
      end
  end.

Fixpoint bt_remove k m : btree K V :=
  match m with
  | [] => []
  | (k', v') :: m' => match cmp k k' with Eq => m' | _ => (k', v') :: bt_remove k m' end
  end.

Definition bt_pop_first m : option (K * V * btree K V) :=
  match m with [] => None | e :: m' => Some (e, m') end.

Definition bt_wf m : Prop := sorted_by cmp fst m.

Context `{!CmpLaws cmp, !CmpEq cmp}.

Lemma bt_wf_cons e m :
  bt_wf (e :: m) ↔ bt_wf m ∧ Forall (λ e', cmp e.1 e'.1 = Lt) m.
Proof using Type. split; [apply StronglySorted_inv|by intros [? ?]; constructor]. Qed.

Lemma bt_get_above k m : Forall (λ e, cmp k e.1 = Lt) m → bt_get k m = None.
Proof using Type. induction 1 as [|[k' v] m Hk _ IH]; [done|]. cbn in *. by rewrite Hk. Qed.

Lemma bt_insert_keys k v m (P : K → Prop) :
  P k → Forall (λ e, P e.1) m → Forall (λ e, P e.1) (bt_insert k v m).
Proof using Type.
  intros Hk. induction 1 as [|[k' v'] m Hk' Hm IH]; cbn; [by constructor|].
  destruct (cmp k k'); by repeat constructor.
Qed.

Lemma bt_remove_keys k m (P : K → Prop) :
  Forall (λ e, P e.1) m → Forall (λ e, P e.1) (bt_remove k m).
Proof using Type.
  induction 1 as [|[k' v'] m Hk' Hm IH]; cbn; [done|]. destruct (cmp k k'); by try constructor.
Qed.

Lemma bt_insert_wf k v m : bt_wf m → bt_wf (bt_insert k v m).
Proof using CmpLaws0 CmpEq0.
  induction m as [|[k' v'] m IH]; intros Hm; cbn [bt_insert]; [by repeat constructor|].
  pose proof Hm as [Hm' Hk]%bt_wf_cons. cbn [fst] in Hk. destruct (cmp k k') eqn:E; apply bt_wf_cons.
  - split; [done|exact Hk].
  - split; [done|]. constructor; [exact E|]. eapply Forall_impl; [exact Hk|].
    intros e He; cbn in *. by eapply cmp_lt_trans.
  - split; [by apply IH|]. apply (bt_insert_keys _ _ _ (λ k'', cmp k' k'' = Lt)); [|exact Hk].
    by rewrite cmp_opp, E.
Qed.

Lemma bt_remove_wf k m : bt_wf m → bt_wf (bt_remove k m).
Proof using Type.
  induction m as [|[k' v'] m IH]; intros Hm; cbn [bt_remove]; [done|].
  apply bt_wf_cons in Hm as [Hm Hk]. destruct (cmp k k'); [done|..];
    (apply bt_wf_cons; split; [by apply IH|]; by apply (bt_remove_keys _ _ (λ k'', cmp k' k'' = Lt))).
Qed.

Lemma bt_get_insert k k' v m :
  bt_get k' (bt_insert k v m) = match cmp k' k with Eq => Some v | _ => bt_get k' m end.
Proof using CmpLaws0 CmpEq0.
  induction m as [|[k2 v2] m IH]; cbn [bt_insert bt_get]; [done|].
  destruct (cmp k k2) eqn:E; cbn [bt_get].
  - apply cmp_eq_iff in E as ->. by destruct (cmp k' k2).
  - done.
  - rewrite IH. destruct (cmp k' k2) eqn:E2; [|done|done].
    apply cmp_eq_iff in E2 as ->. by rewrite cmp_opp, E.
Qed.

Lemma bt_get_remove k k' m :
  bt_wf m → bt_get k' (bt_remove k m) = match cmp k' k with Eq => None | _ => bt_get k' m end.
Proof using CmpLaws0 CmpEq0.
  induction m as [|[k2 v2] m IH]; intros Hm; cbn [bt_remove bt_get]; [by destruct (cmp k' k)|].
  apply bt_wf_cons in Hm as [Hm Hk]. destruct (cmp k k2) eqn:E; cbn [bt_get].
  - apply cmp_eq_iff in E as ->. destruct (cmp k' k2) eqn:E2; [|done|done].
    apply cmp_eq_iff in E2 as ->. by apply bt_get_above.
  - rewrite IH by done. destruct (cmp k' k2) eqn:E2; [|done|done].
    apply cmp_eq_iff in E2 as ->. by rewrite cmp_opp, E.
  - rewrite IH by done. destruct (cmp k' k2) eqn:E2; [|done|done].
    apply cmp_eq_iff in E2 as ->. by rewrite cmp_opp, E.
Qed.

Lemma bt_get_elem k v m : bt_get k m = Some v → ∃ k', cmp k k' = Eq ∧ (k', v) ∈ m.
Proof using Type.
  induction m as [|[k2 v2] m IH]; cbn; [done|]. destruct (cmp k k2) eqn:E.
  - intros [= ->]. exists k2. split; [done|by left].
  - intros (k' & ? & ?)%IH. exists k'. split; [done|by right].
  - intros (k' & ? & ?)%IH. exists k'. split; [done|by right].
Qed.

Lemma bt_elem_get k v m : bt_wf m → (k, v) ∈ m → bt_get k m = Some v.
Proof using CmpLaws0 CmpEq0.
  induction m as [|[k2 v2] m IH]; intros Hm Hin; [by apply not_elem_of_nil in Hin|].
  apply bt_wf_cons in Hm as [Hm Hk]. cbn. apply elem_of_cons in Hin as [[= -> ->]|Hin].
  - by rewrite (proj2 (cmp_eq_iff k2 k2) eq_refl).
  - eapply Forall_forall in Hk; [|exact Hin]. cbn in Hk. rewrite cmp_opp, Hk. cbn. by apply IH.
Qed.

Lemma bt_insert_entries k v m (P : K * V → Prop) :
  P (k, v) → Forall P m → Forall P (bt_insert k v m).
Proof using CmpEq0.
  intros Hk. induction 1 as [|[k' v'] m Hk' Hm IH]; cbn; [by constructor|].
  destruct (cmp k k') eqn:E; [apply cmp_eq_iff in E as <-| |]; by repeat constructor.
Qed.

Lemma bt_remove_entries k m (P : K * V → Prop) : Forall P m → Forall P (bt_remove k m).
Proof using Type.
  induction 1 as [|[k' v'] m Hk' Hm IH]; cbn; [done|]. destruct (cmp k k'); by try constructor.
Qed.

Lemma bt_remove_sublist k m : bt_remove k m `sublist_of` m.
Proof using Type.
  induction m as [|[k' v'] m IH]; cbn [bt_remove]; [done|]. destruct (cmp k k'); by constructor.
Qed.

Lemma bt_insert_perm k v m : bt_wf m → bt_insert k v m ≡ₚ (k, v) :: bt_remove k m.
Proof using CmpLaws0 CmpEq0.
  induction m as [|[k' v'] m IH]; intros Hm; cbn [bt_insert bt_remove]; [done|].
  apply bt_wf_cons in Hm as [Hm Hk]. cbn [fst] in Hk. destruct (cmp k k') eqn:E.
  - by apply cmp_eq_iff in E as ->.
  - assert (bt_remove k m = m) as ->; [|done].
    assert (Forall (λ e, cmp k e.1 = Lt) m) as Ha by (eapply Forall_impl; [exact Hk|]; intros e He; cbn in *; by eapply cmp_lt_trans).
    clear -Ha. induction Ha as [|[k2 v2] m H2 _ IH]; cbn in *; [done|]. rewrite H2. by rewrite IH.
  - rewrite IH by done. apply perm_swap.
Qed.

(** Inserting where the order wants it, one entry or many in a row. *)
Lemma bt_insert_cut xs k v ys :
  bt_wf (xs ++ (k, v) :: ys) → bt_insert k v (xs ++ ys) = xs ++ (k, v) :: ys.
Proof using CmpLaws0.
  induction xs as [|[k' v'] xs IH]; cbn [app]; intros [Hwf Hk]%bt_wf_cons.
  - destruct ys as [|[k2 v2] ys]; [done|]. apply Forall_cons in Hk as [Hk _].
    cbn in *. by rewrite Hk.
  - cbn [bt_insert]. apply Forall_app in Hk as [_ [Hk _]%Forall_cons]. cbn in Hk.
    rewrite cmp_opp, Hk; cbn [CompOpp]. by rewrite IH.
Qed.

Lemma bt_inserts_cut xs es ys :
  bt_wf (xs ++ es ++ ys) →
  foldl (λ m e, bt_insert e.1 e.2 m) (xs ++ ys) es = xs ++ es ++ ys.
Proof using CmpLaws0.
  revert xs. induction es as [|[k v] es IH]; intros xs Hwf; [done|]. cbn [foldl fst snd].
  rewrite bt_insert_cut.
  - specialize (IH (xs ++ [(k, v)])). rewrite <-!app_assoc in IH. by apply IH.
  - rewrite (assoc_L (++)) in Hwf. unfold bt_wf in *. cbn [app] in Hwf.
    rewrite <-app_assoc in Hwf. cbn [app] in Hwf. apply sorted_app in Hwf as (H1 & [H2 H3]%StronglySorted_inv & H4).
    apply sorted_app. split; [done|]. apply sorted_app in H2 as (_ & H2 & _). split.
    + constructor; [done|]. by apply Forall_app in H3 as [_ ?].
    + intros x y Hx [->|Hy]%elem_of_cons; apply H4; try done; [by left|]. right. apply elem_of_app. by right.
Qed.
End btree.

(** *** At the two types of keys *)

Lemma bt_get_Z {V} k k' (v : V) m :
  bt_get Z.compare k' (bt_insert Z.compare k v m) = if decide (k' = k) then Some v else bt_get Z.compare k' m.
Proof. rewrite (bt_get_insert Z.compare). case_decide; destruct (Z.compare_spec k' k); (done || lia). Qed.

Lemma bt_get_str {V} k k' (v : V) m :
  bt_get str_cmp k' (bt_insert str_cmp k v m) = if decide (k' = k) then Some v else bt_get str_cmp k' m.
Proof.
  rewrite (bt_get_insert str_cmp). case_decide as E; [subst; by rewrite (proj2 (str_cmp_eq k k) eq_refl)|].
  destruct (str_cmp k' k) eqn:E2; [by apply str_cmp_eq in E2|done|done].
Qed.

Lemma bt_remove_none {V} k k' (m : btree rstring V) :
  bt_get str_cmp k m = None → bt_get str_cmp k (bt_remove str_cmp k' m) = None.
Proof.
  induction m as [|[k2 v] m IH]; cbn; [done|].
  destruct (str_cmp k k2) eqn:E; [done|..]; intros H; destruct (str_cmp k' k2); cbn; rewrite ?E; by try apply IH.
Qed.

Lemma bt_get_removed {V} k (m : btree rstring V) : bt_wf str_cmp m → bt_get str_cmp k (bt_remove str_cmp k m) = None.
Proof. intros H. rewrite (bt_get_remove str_cmp) by done. by rewrite (proj2 (str_cmp_eq k k) eq_refl). Qed.

Lemma bt_insert_same {V} k (v : V) m : bt_wf str_cmp m → bt_get str_cmp k m = Some v → bt_insert str_cmp k v m = m.
Proof.
  induction m as [|[k' v'] m IH]; [done|]. intros [Hwf Hk]%bt_wf_cons. cbn [bt_get bt_insert].
  destruct (str_cmp k k') eqn:E.
  - apply str_cmp_eq in E as ->. by intros [= ->].
  - intros Hg. apply (bt_get_elem str_cmp) in Hg as (k2 & <-%str_cmp_eq & Hin).
    eapply Forall_forall in Hk; [|exact Hin]. cbn in Hk. by rewrite cmp_opp, Hk in E.
  - intros Hg. by rewrite IH.
Qed.

(** [append_index!] of shard.rs: a map from keys to lists. *)
Definition append_index {K V} (cmp : K → K → comparison) (k : K) (v : V) (m : btree K (list V))
    : btree K (list V) :=
  match bt_get cmp k m with
  | Some vs => bt_insert cmp k (vs ++ [v]) m
  | None => bt_insert cmp k [v] m
  end.

Lemma append_index_get {K V} (cmp : K → K → comparison) `{!CmpLaws cmp, !CmpEq cmp} k k' (v : V) m :
  default [] (bt_get cmp k' (append_index cmp k v m))
  = default [] (bt_get cmp k' m) ++ (match cmp k' k with Eq => [v] | _ => [] end).
Proof.
  unfold append_index. destruct (bt_get cmp k m) as [vs|] eqn:E; rewrite bt_get_insert by done;
    destruct (cmp k' k) eqn:E2; rewrite ?app_nil_r; try done;
    apply cmp_eq_iff in E2 as ->; by rewrite E.
Qed.
