(* ===== verification/Queues.v ===== *)
(** * Queues between threads (src/src/broker/mod.rs, socket.rs, message.rs)

    [QueueStatus], and the two ends of a bounded queue: of packets between a socket
    and its session ([PktTx], [PktRx]), of messages between shards ([MsgTx],
    [MsgRx]).  The two pairs have the same text in the source. *)
From S2P Require Import Prelude Errors.

(** ** QueueStatus *)

Inductive QueueStatus (T : Type) : Type :=
| Q_Ok (vals : list T)
| Q_Block (vals : list T)
| Q_Disconnected (vals : list T).
Arguments Q_Ok {T} vals.
Arguments Q_Block {T} vals.
Arguments Q_Disconnected {T} vals.

Definition values {T} (q : QueueStatus T) : list T :=
  match q with Q_Ok vals | Q_Block vals | Q_Disconnected vals => vals end.

Definition with_values {T U} (q : QueueStatus T) (vals : list U) : QueueStatus U :=
  match q with
  | Q_Ok _ => Q_Ok vals
  | Q_Block _ => Q_Block vals
  | Q_Disconnected _ => Q_Disconnected vals
  end.

Definition take_values {T} (q : QueueStatus T) : list T * QueueStatus T :=
  (values q, with_values q []).

(** Both assert that the values have been taken. *)
Definition set_values {T} (q : QueueStatus T) (vals : list T) : Result (QueueStatus T) :=
  if (length (values q) =? 0)%nat then Ok (with_values q vals) else Panic.

Definition QueueStatus_map {T U} (q : QueueStatus T) (vals : list U) : Result (QueueStatus U) :=
  if (length (values q) =? 0)%nat then Ok (with_values q vals) else Panic.

(** ** The channel and its ends

    [mpsc::sync_channel(size)]: a bounded queue; [ch_open] says whether the other
    end is still there. *)
Record channel (T : Type) := MkChannel { ch_items : list T; ch_size : nat; ch_open : bool }.
Arguments MkChannel {T} ch_items ch_size ch_open.
Arguments ch_items {T} c.
Arguments ch_size {T} c.
Arguments ch_open {T} c.

Inductive send_result : Set := Sent | Full | SendDisconnected.
Inductive recv_result (T : Type) : Type := Received (item : T) | Empty | RecvDisconnected.
Arguments Received {T} item.
Arguments Empty {T}.
Arguments RecvDisconnected {T}.

(** [PktTx] and [MsgTx]: the queue sent to, and how many items this handle has sent. *)
Record QueueTx (T : Type) := MkTx { tx : channel T; tx_count : nat }.
Arguments MkTx {T} tx tx_count.
Arguments tx {T} q.
Arguments tx_count {T} q.

(** [PktRx] and [MsgRx] *)
Record QueueRx (T : Type) := MkRx { batch_size : nat; rx : channel T }.
Arguments MkRx {T} batch_size rx.
Arguments batch_size {T} q.
Arguments rx {T} q.

Section queue.
Context {T : Type}.
Implicit Types (item : T) (ch : channel T) (t : QueueTx T) (r : QueueRx T).

Definition try_send item ch : send_result * channel T :=
  if negb (ch_open ch) then (SendDisconnected, ch)
  else if (ch_size ch <=? length (ch_items ch))%nat then (Full, ch)
  else (Sent, MkChannel (ch_items ch ++ [item]) (ch_size ch) (ch_open ch)).

Definition try_recv ch : recv_result T * channel T :=
  match ch_items ch with
  | item :: items => (Received item, MkChannel items (ch_size ch) (ch_open ch))
  | [] => (if ch_open ch then Empty else RecvDisconnected, ch)
  end.

Fixpoint try_sends (items : list T) t : QueueStatus T * QueueTx T :=
  match items with
  | item :: iter =>
      match try_send item (tx t) with
      | (Sent, ch) => try_sends iter (MkTx ch (S (tx_count t)))
      | (Full, ch) => (Q_Block (item :: iter), MkTx ch (tx_count t))
      | (SendDisconnected, ch) => (Q_Disconnected (item :: iter), MkTx ch (tx_count t))
      end
  | [] => (Q_Ok [], t)
  end.

(** [Drop for PktTx]: whether the receiving thread is woken. *)
Definition PktTx_drop t : bool := (0 <? tx_count t)%nat.

(** Every turn of the loop takes an item from the queue. *)
Fixpoint try_recvs_loop (fuel : nat) (items : list T) r : Result (QueueStatus T * QueueRx T) :=
  match fuel with
  | O => NoFuel
  | S fuel =>
      match try_recv (rx r) with
      | (Received item, ch) =>
          let r := MkRx (batch_size r) ch in
          if (length items <? batch_size r)%nat then try_recvs_loop fuel (items ++ [item]) r
          else Ok (Q_Ok (items ++ [item]), r)
      | (Empty, _) => Ok (Q_Block items, r)
      | (RecvDisconnected, _) => Ok (Q_Disconnected items, r)
      end
  end.

Definition try_recvs r : Result (QueueStatus T * QueueRx T) :=
  try_recvs_loop (S (length (ch_items (rx r)))) [] r.

(** [pkt_channel] and [msg_channel] *)
Definition pkt_channel (size : nat) : QueueTx T * QueueRx T :=
  let ch := MkChannel [] size true in
  (MkTx ch 0, MkRx size ch).

(** ** Queues *)

Lemma try_sends_spec pkts t :
  ∃ sent rest, pkts = sent ++ rest
    ∧ ch_items (tx (try_sends pkts t).2) = ch_items (tx t) ++ sent
    ∧ ch_size (tx (try_sends pkts t).2) = ch_size (tx t)
    ∧ values (try_sends pkts t).1 = rest
    ∧ tx_count (try_sends pkts t).2 = (tx_count t + length sent)%nat
    ∧ (if (try_sends pkts t).1 is Q_Ok _ then rest = [] else rest ≠ [])
    ∧ (sent ≠ [] → length (ch_items (tx t)) + length sent ≤ ch_size (tx t))%nat.
Proof using Type.
  revert t. induction pkts as [|pkt pkts IH]; intros t; cbn [try_sends].
  { exists [], []. cbn. rewrite app_nil_r, Nat.add_0_r. by split_and!. }
  unfold try_send. destruct (negb (ch_open (tx t))).
  { exists [], (pkt :: pkts). cbn. rewrite app_nil_r, Nat.add_0_r. by split_and!. }
  destruct (Nat.leb_spec (ch_size (tx t)) (length (ch_items (tx t)))) as [Hfull|Hfree].
  { exists [], (pkt :: pkts). cbn. rewrite app_nil_r, Nat.add_0_r. by split_and!. }
  set (t' := MkTx _ _). destruct (IH t') as (sent & rest & -> & Hi & Hsz & Hv & Hc & Hr & Hl).
  exists (pkt :: sent), rest. split; [done|].
  rewrite Hi, Hsz, Hc. cbn [t' tx ch_items ch_size tx_count length] in *.
  rewrite <-app_assoc. split_and!; [done|done|done|lia|done|]. intros _.
  destruct sent; cbn [length] in *; [lia|]. rewrite length_app in Hl. cbn [length] in Hl.
  specialize (Hl ltac:(done)). lia.
Qed.

Lemma try_recvs_loop_spec fuel pkts r :
  (length (ch_items (rx r)) < fuel)%nat →
  ∃ q got r', try_recvs_loop fuel pkts r = Ok (q, r')
    ∧ values q = pkts ++ got ∧ ch_items (rx r) = got ++ ch_items (rx r')
    ∧ batch_size r' = batch_size r
    ∧ (match q with
       | Q_Ok _ => got ≠ []
       | Q_Block _ => ch_items (rx r') = [] ∧ ch_open (rx r) = true
       | Q_Disconnected _ => ch_items (rx r') = [] ∧ ch_open (rx r) = false
       end).
Proof using Type.
  revert pkts r. induction fuel as [|fuel IH]; intros pkts r Hf; [lia|]. cbn [try_recvs_loop].
  unfold try_recv. destruct r as [batch [[|pkt its] size op]]; cbn [rx ch_items ch_open ch_size batch_size] in *.
  { destruct op; (eexists _, [], _; split; [done|]); cbn; by rewrite app_nil_r. }
  destruct (Nat.ltb_spec (length pkts) batch) as [Hlt|Hge].
  - destruct (IH (pkts ++ [pkt]) (MkRx batch (MkChannel its size op))) as (q & got & r' & -> & Hv & Hi & Hb & Hq);
      [cbn in *; lia|]. cbn [rx ch_items ch_open batch_size] in *.
    exists q, (pkt :: got), r'. split; [done|]. rewrite Hv, <-app_assoc, Hi. split_and!; try done.
    by destruct q.
  - eexists _, [pkt], _. split; [done|]. by cbn.
Qed.
(** Taking from a queue leaves its size, and whether its senders are there. *)
Definition same_queue (ch ch' : channel T) : Prop := ch_size ch' = ch_size ch ∧ ch_open ch' = ch_open ch.

Lemma try_recvs_loop_same fuel items r q r' : try_recvs_loop fuel items r = Ok (q, r') → same_queue (rx r) (rx r').
Proof using Type.
  revert items r. induction fuel as [|fuel IH]; intros items r; [done|]. cbn [try_recvs_loop]. unfold try_recv.
  destruct (ch_items (rx r)) as [|x its]; [destruct (ch_open (rx r)) eqn:Eo; intros [= <- <-]; by split|].
  case_match; [by intros ?%IH|intros [= <- <-]; by split].
Qed.

Lemma try_sends_room items t :
  ch_open (tx t) = true → (length (ch_items (tx t)) + length items ≤ ch_size (tx t))%nat →
  try_sends items t
  = (Q_Ok [], MkTx (MkChannel (ch_items (tx t) ++ items) (ch_size (tx t)) true) (tx_count t + length items)).
Proof using Type.
  destruct t as [[its size open] n]. cbn [tx ch_open ch_items ch_size tx_count]. intros ->.
  revert its n. induction items as [|x items IH]; intros its n Hroom; cbn [try_sends length] in *.
  { by rewrite app_nil_r, Nat.add_0_r. }
  unfold try_send. cbn [tx ch_open ch_items ch_size negb].
  rewrite (proj2 (Nat.leb_gt _ _)) by lia. cbn [tx_count]. rewrite IH by (rewrite length_app; cbn [length]; lia).
  rewrite <-app_assoc, Nat.add_succ_r. done.
Qed.
End queue.
