(* ===== verification/Threads.v ===== *)
(** * Threads and their control channels (src/src/broker/thread.rs)

    Posting to a thread, [pending_requests] and [get_requests], and the loop that drains a control channel,
    which every thread of the broker has in the same form: requests are handled one
    after the other, in batches, until none is left or one has closed the thread. *)
From S2P Require Import Prelude Errors Queues.

(** ** Handles of threads *)

(** [Thread]: whether the handle to join it and the sender are still there. *)
Record Thread := MkThread { th_handle : bool; th_tx : bool }.

Definition Thread_spawn : Thread := MkThread true true.

(** [close_wait], when the thread has ended, with its value or in a panic, which goes on
    here.  [Thread::drop] does not wait for it.  Both leave what [Drop] is run on. *)
Definition Thread_close_wait {T} (joined : option T) (t : Thread) : Result (T * Thread) :=
  if th_handle t then
    match joined with
    | Some thread_val => Ok (thread_val, MkThread false false)
    | None => Panic
    end
  else Panic.

Definition Thread_drop (t : Thread) : Result Thread :=
  if th_handle t then Ok (MkThread false false) else Panic.

(** [Drop for Thread] *)
Definition drop_Thread (t : Thread) : Result () :=
  if th_handle t || th_tx t then Panic else Ok ().

(** A handle that goes out of scope while the thread runs is a panic; so a thread that
    holds one and panics itself panics again while it unwinds, and Rust ends the
    process. *)
Lemma drop_Thread_spec t :
  drop_Thread t = Ok () ↔ t = MkThread false false.
Proof. by destruct t as [[] []]. Qed.

(** ** Control channels *)

(** [Tx::post] on the channel of [Thread::spawn], which has no bound; [wakes] says
    whether the waker of the thread works. *)
Definition post_request {Q} (wakes : bool) (msg : Q) (ch : channel Q) : Result (channel Q) :=
  if ch_open ch then
    if wakes then Ok (MkChannel (ch_items ch ++ [msg]) (ch_size ch) (ch_open ch))
    else err_try EK_IOError
  else err_try EK_IPCFail.

(** [thread::pending_requests]: the loop is that of [try_recvs], up to [max] requests
    and one more. *)
Definition pending_requests {Q} (max : nat) (ch : channel Q) : Result (QueueStatus Q * channel Q) :=
  '(status, r) ← try_recvs (MkRx max ch);
  Ok (status, rx r).

(** [thread::get_requests]: [None] when the call waits for a request. *)
Definition get_requests {Q} (max : nat) (ch : channel Q) : Result (option (QueueStatus Q * channel Q)) :=
  match try_recv ch with
  | (Received req, ch) =>
      '(status, ch) ← pending_requests max ch;
      let '(reqs, _) := take_values status in
      Ok (Some (Q_Ok (req :: reqs), ch))
  | (Empty, _) => Ok None
  | (RecvDisconnected, ch) => Ok (Some (Q_Disconnected [], ch))
  end.

Definition CONTROL_CHAN_SIZE : nat := 1024.

Section control.
(** The handler of a thread: the flag tells that the thread has been closed. *)
Context {St Q : Type} (handle_request : bool * St → Q → Result (bool * St)).

Definition drain_control (ch : channel Q) (s : St) : Result (QueueStatus Q * bool * channel Q * St) :=
  '(status, ch) ← pending_requests CONTROL_CHAN_SIZE ch;
  let '(reqs, status) := take_values status in
  '(closed, s) ← foldM handle_request (false, s) reqs;
  Ok (status, closed, ch, s).

(** Whether the loop of the thread is to end.  Every turn that goes on takes a
    request. *)
Fixpoint drain_loop (fuel : nat) (ch : channel Q) (s : St) : Result (bool * channel Q * St) :=
  match fuel with
  | O => NoFuel
  | S fuel =>
      '(status, closed, ch, s) ← drain_control ch s;
      match status, closed with
      | _, true => Ok (true, ch, s)
      | Q_Ok _, _ => drain_loop fuel ch s
      | Q_Block _, _ => Ok (false, ch, s)
      | Q_Disconnected _, _ => Ok (true, ch, s)
      end
  end.

Definition drain_all (ch : channel Q) (s : St) : Result (bool * channel Q * St) :=
  drain_loop (S (length (ch_items ch))) ch s.

(** ** Lemmas *)

Lemma try_recvs_loop_open {T} fuel (items : list T) r q r' :
  try_recvs_loop fuel items r = Ok (q, r') → ch_open (rx r') = ch_open (rx r).
Proof using Type.
  revert items r. induction fuel as [|fuel IH]; intros items r; [done|]. cbn [try_recvs_loop]. unfold try_recv.
  destruct (ch_items (rx r)) as [|x its]; [destruct (ch_open (rx r)) eqn:Eo; by intros [= <- <-]|].
  case_match; [by intros ->%IH|by intros [= <- <-]].
Qed.

Lemma pending_requests_spec max (ch : channel Q) :
  ∃ status ch', pending_requests max ch = Ok (status, ch')
    ∧ ch_items ch = values status ++ ch_items ch' ∧ ch_open ch' = ch_open ch
    ∧ (match status with
       | Q_Ok _ => values status ≠ []
       | Q_Block _ => ch_items ch' = [] ∧ ch_open ch = true
       | Q_Disconnected _ => ch_items ch' = [] ∧ ch_open ch = false
       end).
Proof using Type.
  unfold pending_requests, try_recvs.
  destruct (try_recvs_loop_spec (S (length (ch_items ch))) [] (MkRx max ch)) as (q & got & r & E & Hv & Hi & _ & Hq);
    [cbn; lia|]. cbn [app rx] in *. rewrite E; run. exists q, (rx r). split; [done|]. rewrite Hv. split; [done|].
  split; [by apply try_recvs_loop_open in E|]. by destruct q.
Qed.

(** Draining in rounds comes to handling a prefix of the requests in order; what is
    left behind, if anything, comes after a request to close. *)
Lemma drain_loop_spec fuel ch s :
  (length (ch_items ch) < fuel)%nat →
  ∃ reqs rest, ch_items ch = reqs ++ ch_items rest
    ∧ drain_loop fuel ch s
      = ('(closed, s) ← foldM handle_request (false, s) reqs; Ok (closed || negb (ch_open ch), rest, s))
    ∧ (∀ s', foldM handle_request (false, s) reqs = Ok (false, s') → ch_items rest = []).
Proof using Type.
  revert ch s. induction fuel as [|fuel IH]; intros ch s Hf; [lia|]. cbn [drain_loop]. unfold drain_control.
  destruct (pending_requests_spec CONTROL_CHAN_SIZE ch) as (q & ch1 & E & Hi & Ho & Hq). rewrite E; run. cbn [take_values].
  destruct (foldM handle_request (false, s) (values q)) as [[closed s1]| | |] eqn:Ef; run;
    [|exists (values q), ch1; rewrite Ef; by split_and!..].
  destruct closed; [exists (values q), ch1; rewrite Ef; run; split_and!; [done|by destruct q|done]|].
  destruct q as [vals|vals|vals]; cbn [with_values values] in *.
  - destruct (IH ch1 s1) as (reqs & rest & Hi2 & E2 & Hr).
    { rewrite Hi, length_app in Hf. destruct vals; [done|]. cbn [length] in Hf. lia. }
    exists (vals ++ reqs), rest. rewrite foldM_app, Ef; run. rewrite E2, Ho. split_and!; [|done|done].
    by rewrite Hi, Hi2, app_assoc.
  - exists vals, ch1. destruct Hq as [Hr ->]. rewrite Ef; run. by split_and!.
  - exists vals, ch1. destruct Hq as [Hr ->]. rewrite Ef; run. by split_and!.
Qed.

Lemma drain_all_spec ch s :
  ∃ reqs rest, ch_items ch = reqs ++ ch_items rest
    ∧ drain_all ch s
      = ('(closed, s) ← foldM handle_request (false, s) reqs; Ok (closed || negb (ch_open ch), rest, s))
    ∧ (∀ s', foldM handle_request (false, s) reqs = Ok (false, s') → ch_items rest = []).
Proof using Type. apply drain_loop_spec. lia. Qed.
End control.
