(* ===== verification/Calls.v ===== *)
(** * Which thread waits for which

    The threads of a broker ask each other for things in two ways: [post] leaves a
    request and goes on, [request] waits for the answer (src/src/broker/thread.rs), and a
    thread handles what it is asked one at a time.  Here are the requests that wait: who
    makes them, in what order, and which of them a thread makes in turn while
    it handles one.  The handlers themselves are in the files of their threads.

    The flusher waits in two ways of its own.  It goes on flushing a connection until its session
    has gone (src/src/broker/flush.rs:301-327): a wait for the shard of the session,
    [Session_Goes] here, unless the shard has closed the session before it asks
    ([gone]), and then flushing ends by itself ([flush_loop_ends] in FlushProps.v).
    And when it sends the DISCONNECT behind its deadline, it goes on until the peer takes it
    ([send_disconnect] in src/src/packet.rs): [Peer_Accepts] here, a request to a
    [T_Peer] that may never answer. *)
From S2P Require Import Prelude.

(** The threads of a broker: the one of the application that starts and closes it, one
    per connection that is being accepted, and the others; and the peer of the connection
    that is being flushed. *)
Inductive thread : Set :=
| T_App | T_Handshake (n : nat) | T_Listener | T_Ticker | T_Cluster | T_Shard (i : nat) | T_Miot (i : nat) | T_Flusher | T_Peer.

#[export] Instance thread_eq_dec : EqDecision thread.
Proof. solve_decision. Defined.

(** The requests that are made with [request], of all threads; [Join], the end of a
    thread that [Thread::close_wait] waits for; [Session_Goes], the end of a session that
    the loop of [handle_flush_connection] waits for; and [Peer_Accepts], the bytes that
    [send_disconnect] waits for the peer to take.  [gone]: the session of the connection to
    flush has been closed. *)
Inductive Req : Set :=
| Cluster_Set | Cluster_AddConnection | Cluster_Close
| Shard_SetMiot | Shard_SetShardQueues | Shard_AddSession | Shard_Close
| Miot_AddConnection | Miot_RemoveConnection | Miot_Close
| Flusher_FlushConnection (gone : bool) | Flusher_Close | Listener_Close | Ticker_Close
| Join | Session_Goes | Peer_Accepts.

Definition call : Set := thread * Req.

(** ** What a handler asks *)

(** [close_wait] of any thread *)
Definition close_wait_calls (t : thread) (close : Req) : list call := [(t, close); (t, Join)].

(** [Shard::handle_flush_connection]: the session, if there is one, has been closed by the
    time that the flusher is asked. *)
Definition flush_connection_calls : list call := [(T_Flusher, Flusher_FlushConnection true)].

(** A client that fails: its connection is taken from the miot thread and, if it is
    still there, flushed. *)
Definition fail_calls (i : nat) (present : bool) : list call :=
  (T_Miot i, Miot_RemoveConnection) :: if present then flush_connection_calls else [].

(** [Shard::handle_add_session]: [None] if the CONNACK cannot be sent; else whether there
    was a session for the client, and if so whether its connection was there. *)
Definition add_session_calls (i : nat) (sent : option (option bool)) : list call :=
  match sent with
  | None => []
  | Some old => from_option (fail_calls i) [] old ++ [(T_Miot i, Miot_AddConnection)]
  end.

(** [Shard::handle_close_active] *)
Definition shard_close_calls (i : nat) : list call := close_wait_calls (T_Miot i) Miot_Close.

(** [Flusher::handle_flush_connection]: whether [send_disconnect] blocks with its deadline
    behind it. *)
Definition send_disconnect_calls (blocks : bool) : list call :=
  if blocks then [(T_Peer, Peer_Accepts)] else [].

(** [Cluster::handle_add_connection], for a client of shard [i] *)
Definition add_connection_calls (i : nat) : list call := [(T_Shard i, Shard_AddSession)].

(** [Cluster::handle_close] *)
Definition cluster_close_calls (n : nat) : list call :=
  close_wait_calls T_Listener Listener_Close ++ close_wait_calls T_Ticker Ticker_Close
  ++ (seq 0 n ≫= λ i, close_wait_calls (T_Shard i) Shard_Close) ++ close_wait_calls T_Flusher Flusher_Close.

(** [Cluster::spawn], with [Shard::spawn_active] for each shard *)
Definition spawn_calls (n : nat) : list call :=
  ((λ i, (T_Shard i, Shard_SetMiot)) <$> seq 0 n) ++ ((λ i, (T_Shard i, Shard_SetShardQueues)) <$> seq 0 n)
  ++ [(T_Cluster, Cluster_Set)].

(** What a thread may ask while it handles a request; no request is for a thread that
    does not know it. *)
Definition scripts (n : nat) (t : thread) (r : Req) : list (list call) :=
  match t, r with
  | T_Cluster, Cluster_Set => [[]]
  | T_Cluster, Cluster_AddConnection => add_connection_calls <$> seq 0 n
  | T_Cluster, Cluster_Close => [[]; cluster_close_calls n]
  | T_Shard i, (Shard_SetMiot | Shard_SetShardQueues) => [[]]
  | T_Shard i, Shard_AddSession => add_session_calls i <$> [None; Some None; Some (Some false); Some (Some true)]
  | T_Shard i, Shard_Close => [[]; shard_close_calls i]
  | T_Miot i, (Miot_AddConnection | Miot_RemoveConnection | Miot_Close) => [[]]
  | T_Shard i, Session_Goes => [[]]
  | T_Flusher, Flusher_FlushConnection true => send_disconnect_calls <$> [false; true]
  | T_Flusher, Flusher_FlushConnection false =>
      seq 0 n ≫= λ i, (λ b, (T_Shard i, Session_Goes) :: send_disconnect_calls b) <$> [false; true]
  | T_Flusher, Flusher_Close => [[]]
  | T_Listener, Listener_Close => [[]]
  | T_Ticker, Ticker_Close => [[]]
  | (T_Cluster | T_Shard _ | T_Miot _ | T_Flusher | T_Listener | T_Ticker), Join => [[]]
  | T_Peer, Peer_Accepts => [[]]
  | _, _ => []
  end.

(** What a thread asks on its own: the application starts and closes the broker, a
    handshake hands its connection over, and a shard, in its turn, gives up clients (in
    [route_packets], [out_qos0], [commit_messages], [out_acks_flush]) or finds a connection that its
    miot thread has posted. *)
Inductive acts (n : nat) : thread → list call → Prop :=
| Act_spawn : acts n T_App (spawn_calls n)
| Act_close : acts n T_App (close_wait_calls T_Cluster Cluster_Close)
| Act_handshake k : acts n (T_Handshake k) [(T_Cluster, Cluster_AddConnection)]
| Act_turn i failed : acts n (T_Shard i) (failed ≫= fail_calls i)
| Act_posted i : acts n (T_Shard i) flush_connection_calls.

(** ** Steps

    [pending]: who has asked whom for what, and has not been heard yet, the first request
    first.  [doing]: a thread that is at work, whom it works for, and what it
    is still going to ask. *)
Record state := MkState {
  pending : list (thread * thread * Req);
  doing : list (thread * option thread * list call);
}.

Definition caller (p : thread * thread * Req) : thread := p.1.1.
Definition callee (p : thread * thread * Req) : thread := p.1.2.
Definition worker (d : thread * option thread * list call) : thread := d.1.1.

(** A thread that waits for an answer *)
Definition waits (t : thread) (s : state) : Prop :=
  t ∈ caller <$> pending s ∨ ∃ u cs, (u, Some t, cs) ∈ doing s.

Lemma waits_iff t s : waits t s ↔ t ∈ caller <$> pending s ∨ Some t ∈ (λ d, d.1.2) <$> doing s.
Proof.
  unfold waits. f_equiv. rewrite list_elem_of_fmap. split.
  - intros (u & cs & Hin). by exists (u, Some t, cs).
  - intros ([[u w] cs] & E & Hin). cbn in E. subst w. by exists u, cs.
Qed.

#[export] Instance waits_dec t s : Decision (waits t s).
Proof.
  destruct (decide (t ∈ caller <$> pending s ∨ Some t ∈ (λ d, d.1.2) <$> doing s)) as [H|H]; [left|right]; by rewrite waits_iff.
Defined.

(** Whom it waits for *)
Definition waits_for (s : state) (t u : thread) : Prop :=
  (∃ r, (t, u, r) ∈ pending s) ∨ ∃ cs, (u, Some t, cs) ∈ doing s.

(** A thread takes its first request, asks, or is done; an answer may be the error of a
    channel whose thread has gone.  A peer that is [deaf] takes nothing. *)
Inductive work (n : nat) (deaf : bool) : state → state → Prop :=
| Work_take p1 a t r p2 d cs :
    (t = T_Peer → deaf = false) → t ∉ worker <$> d → t ∉ callee <$> p1 → cs ∈ scripts n t r →
    work n deaf (MkState (p1 ++ (a, t, r) :: p2) d) (MkState (p1 ++ p2) ((t, Some a, cs) :: d))
| Work_ask p d1 t w u r cs d2 :
    ¬ waits t (MkState p (d1 ++ (t, w, (u, r) :: cs) :: d2)) →
    work n deaf (MkState p (d1 ++ (t, w, (u, r) :: cs) :: d2)) (MkState (p ++ [(t, u, r)]) (d1 ++ (t, w, cs) :: d2))
| Work_done p d1 t w d2 :
    ¬ waits t (MkState p (d1 ++ (t, w, []) :: d2)) →
    work n deaf (MkState p (d1 ++ (t, w, []) :: d2)) (MkState p (d1 ++ d2)).

(** A thread that is not at work begins something of its own. *)
Inductive begins (n : nat) : state → state → Prop :=
| Begins p d t cs : t ∉ worker <$> d → acts n t cs → begins n (MkState p d) (MkState p ((t, None, cs) :: d)).

Definition idle : state := MkState [] [].
Definition reachable (n : nat) (deaf : bool) : state → Prop := rtc (λ s s', begins n s s' ∨ work n deaf s s') idle.

(** ** The order of threads

    Every request goes up. *)
Definition rank (t : thread) : nat :=
  match t with
  | T_App | T_Handshake _ => 0
  | T_Cluster => 1
  | T_Shard _ => 2
  | T_Miot _ | T_Flusher | T_Listener | T_Ticker => 3
  | T_Peer => 4
  end.

Section order.
Context (n : nat) (deaf : bool).

(** A call that [t] may make: only the flusher waits for a peer, and nobody has it wait for
    a session. *)
Definition good (t : thread) (c : call) : Prop :=
  (rank t < rank c.1)%nat ∧ scripts n c.1 c.2 ≠ [] ∧ (c.1 = T_Peer → t = T_Flusher)
  ∧ c.2 ≠ Flusher_FlushConnection false.

Lemma close_wait_good t u close :
  (rank t < rank u)%nat → scripts n u close ≠ [] → u ≠ T_Peer →
  close ≠ Flusher_FlushConnection false → Forall (good t) (close_wait_calls u close).
Proof.
  intros Hr Hs Hu Hg. repeat constructor; try done. destruct u; cbn; try done; cbn in Hr; lia.
Qed.

Lemma fail_good i b : Forall (good (T_Shard i)) (fail_calls i b).
Proof. destruct b; repeat constructor; cbn; (lia || done). Qed.

Lemma cluster_close_good : Forall (good T_Cluster) (cluster_close_calls n).
Proof.
  unfold cluster_close_calls. repeat apply Forall_app_2; try (apply close_wait_good; cbn; (lia || done)).
  apply Forall_bind, Forall_forall. intros i _. apply close_wait_good; cbn; (lia || done).
Qed.

Lemma scripts_good t r : r ≠ Flusher_FlushConnection false → Forall (Forall (good t)) (scripts n t r).
Proof.
  intros Hr. destruct t, r as [| | | | | | | | | |[]| | | | | |]; try done; cbn [scripts]; try by repeat constructor.
  - apply Forall_fmap, Forall_forall. intros i _. repeat constructor; cbn; (lia || done).
  - apply Forall_cons_2, Forall_singleton; [constructor|apply cluster_close_good].
Qed.

Lemma acts_good t cs : (0 < n)%nat → acts n t cs → Forall (good t) cs.
Proof.
  intros Hn. destruct 1 as [| |k|i failed|i].
  - unfold spawn_calls. repeat apply Forall_app_2; try (apply Forall_fmap, Forall_forall; intros i _); repeat constructor; cbn; (lia || done).
  - apply close_wait_good; cbn; (lia || done).
  - apply Forall_singleton. split_and!; cbn; [lia|by destruct n; [lia|]|done|done].
  - apply Forall_bind, Forall_forall. intros b _. apply fail_good.
  - repeat constructor; cbn; (lia || done).
Qed.

(** ** The invariant: who waits is at work, and whom it waits for is above it. *)
Record inv (s : state) : Prop := {
  inv_pending a t r : (a, t, r) ∈ pending s → a ∈ worker <$> doing s ∧ good a (t, r);
  inv_client t a cs : (t, Some a, cs) ∈ doing s → a ∈ worker <$> doing s ∧ (rank a < rank t)%nat;
  inv_script t w cs : (t, w, cs) ∈ doing s → Forall (good t) cs;
}.

Lemma worker_of t w cs (d : list (thread * option thread * list call)) : (t, w, cs) ∈ d → t ∈ worker <$> d.
Proof. intros H. apply list_elem_of_fmap. by exists (t, w, cs). Qed.

Lemma begins_inv s s' : (0 < n)%nat → begins n s s' → inv s → inv s'.
Proof.
  intros Hn [p d t cs _ Ha] [H1 H2 H3]. split; cbn [pending doing] in *.
  - intros a u r Hp. destruct (H1 _ _ _ Hp) as [? ?]. split; [by right|done].
  - intros u a cs' [[=]|Hin]%elem_of_cons. destruct (H2 _ _ _ Hin) as [? ?]. split; [by right|done].
  - intros u w cs' [[= -> -> ->]|Hin]%elem_of_cons; [by apply acts_good|by eapply H3].
Qed.

Lemma work_inv s s' : work n deaf s s' → inv s → inv s'.
Proof.
  intros Hw [H1 H2 H3]. destruct Hw as [p1 a t r p2 d cs _ _ _ Hcs|p d1 t w u r cs d2 _|p d1 t w d2 Hidle]; cbn [pending doing] in *.
  - assert ((a, t, r) ∈ p1 ++ (a, t, r) :: p2) as Hin by set_solver. apply H1 in Hin as [Ha (Hr & _ & _ & Hng)]. split; cbn [pending doing].
    + intros b u r' Hp. destruct (H1 b u r') as [? ?]; [set_solver|]. split; [by right|done].
    + intros u b cs' [[= -> -> ->]|Hd]%elem_of_cons; [split; [by right|done]|].
      destruct (H2 _ _ _ Hd) as [? ?]. split; [by right|done].
    + intros u w cs' [[= -> -> ->]|Hd]%elem_of_cons; [|by eapply H3].
      pose proof (scripts_good t r Hng) as Hg. rewrite Forall_forall in Hg. by apply Hg.
  - assert (∀ x, x ∈ worker <$> d1 ++ (t, w, cs) :: d2 ↔ x ∈ worker <$> d1 ++ (t, w, (u, r) :: cs) :: d2) as Ew
      by (intros x; by rewrite !fmap_app, !fmap_cons).
    assert (Forall (good t) ((u, r) :: cs)) as Hg by (apply (H3 t w); set_solver). inversion_clear Hg as [|? ? Hg1 Hg2].
    assert (∀ x, x ∈ d1 ++ (t, w, cs) :: d2 → x = (t, w, cs) ∨ x ∈ d1 ++ (t, w, (u, r) :: cs) :: d2) as Hd by set_solver.
    split; cbn [pending doing].
    + intros b v r' [Hp|[= -> -> ->]%list_elem_of_singleton]%elem_of_app; rewrite Ew; [by apply H1|]. split; [|done].
      apply (worker_of _ w ((u, r) :: cs)). set_solver.
    + intros v b cs' [[= -> <- ->]|Hin]%Hd; rewrite Ew; [|by eapply H2]. apply (H2 t b ((u, r) :: cs)). set_solver.
    + intros v w' cs' [[= -> -> ->]|Hin]%Hd; [done|by eapply H3].
  - assert (∀ b, b ≠ t → b ∈ worker <$> d1 ++ (t, w, []) :: d2 → b ∈ worker <$> d1 ++ d2) as Ew.
    { intros b Hne. rewrite !fmap_app, fmap_cons. cbn. set_solver. }
    unfold waits in Hidle. cbn [pending doing] in Hidle. split; cbn [pending doing].
    + intros b v r' Hp. destruct (H1 _ _ _ Hp) as [Hb Hg]. split; [|done]. apply Ew; [|done]. intros ->. apply Hidle. left.
      apply list_elem_of_fmap. by exists (t, v, r').
    + intros v b cs' Hin. destruct (H2 v b cs') as [Hb Hr]; [set_solver|]. split; [|done]. apply Ew; [|done]. intros ->.
      apply Hidle. right. exists v, cs'. set_solver.
    + intros v w' cs' Hin. apply (H3 v w'). set_solver.
Qed.

(** ** Progress

    At rest a thread at work waits, and one that has been asked is at work, but for a deaf
    peer. *)
Lemma waits_someone t s : waits t s → ∃ u, waits_for s t u.
Proof.
  intros [Hc|(u & cs & Hin)]; [|exists u; right; by exists cs].
  apply list_elem_of_fmap in Hc as ([[a u] r] & -> & Hc). exists u. left. by exists r.
Qed.

Lemma waits_higher s t u : inv s → waits_for s t u → (rank t < rank u)%nat.
Proof.
  intros [H1 H2 H3] [[r Hin]|[cs Hin]]; [by destruct (H1 _ _ _ Hin) as [_ [? _]]|by destruct (H2 _ _ _ Hin)].
Qed.

Lemma worker_goes s t w cs : (t, w, cs) ∈ doing s → ¬ waits t s → ∃ s', work n deaf s s'.
Proof.
  intros Hin Hnw. destruct s as [p d]. cbn [doing] in Hin. apply list_elem_of_split in Hin as (d1 & d2 & ->).
  destruct cs as [|[u r] cs]; eexists; [by apply Work_done|by apply Work_ask].
Qed.

Lemma rest_worker t s : nf (work n deaf) s → t ∈ worker <$> doing s → waits t s.
Proof.
  intros Hnf Hw. apply dec_stable. intros Hnw. apply Hnf. apply list_elem_of_fmap in Hw as ([[t' w] cs] & -> & Hin).
  by eapply worker_goes.
Qed.

Lemma asked_takes s u :
  inv s → u ∈ callee <$> pending s → u ∉ worker <$> doing s → (u = T_Peer → deaf = false) → ∃ s', work n deaf s s'.
Proof.
  intros [H1 _ _] Ht Hw Hp. destruct s as [p d]. cbn [pending doing] in *.
  apply list_elem_of_split_l in Ht as (k1 & k2 & E & Hk). apply fmap_app_inv in E as (p1 & p2' & -> & E & ->).
  destruct p2' as [|[[a u'] r'] p2]; [done|]. injection E as Et ->. cbn [callee fst snd] in Et. subst u'.
  destruct (H1 a u r') as (_ & _ & Hsc & _); [set_solver|]. cbn [fst snd] in Hsc.
  destruct (scripts n u r') as [|cs css] eqn:Es; [done|]. eexists. apply Work_take; [done..|rewrite Es; by left].
Qed.

Lemma rest_asked s t u : inv s → nf (work n deaf) s → waits_for s t u → u ∈ worker <$> doing s ∨ u = T_Peer ∧ deaf = true.
Proof.
  intros Hi Hnf [[r Hin]|[cs Hin]]; [|left; by eapply worker_of].
  destruct (decide (u ∈ worker <$> doing s)) as [Hw|Hw]; [by left|]. right. apply dec_stable. intros Hp. apply Hnf.
  apply (asked_takes s u Hi); [apply list_elem_of_fmap; by exists (t, u, r)|done|].
  intros ->. destruct deaf; [by destruct Hp|done].
Qed.

(** No step: all at work wait, and all that are asked are at work or deaf. *)
Lemma all_wait_rest s :
  Forall (λ x, waits (worker x) s) (doing s) →
  Forall (λ u, u ∈ worker <$> doing s ∨ u = T_Peer ∧ deaf = true) (callee <$> pending s) → nf (work n deaf) s.
Proof.
  rewrite !Forall_forall. intros Hd Hp [s' Hw].
  destruct Hw as [p1 a t r p2 d cs Ht Hnt _ _|p d1 t w u r cs d2 Hnw|p d1 t w d2 Hnw]; cbn [pending doing] in *.
  - destruct (Hp t) as [?|[-> Hde]]; [|done|by rewrite Ht in Hde].
    apply list_elem_of_fmap. exists (a, t, r). split; [done|set_solver].
  - apply Hnw, (Hd (t, w, (u, r) :: cs)). set_solver.
  - apply Hnw, (Hd (t, w, [])). set_solver.
Qed.

Lemma work_or_rest s : inv s → (∃ s', work n deaf s s') ∨ nf (work n deaf) s.
Proof.
  intros Hi. destruct (decide (Exists (λ x, ¬ waits (worker x) s) (doing s))) as [Hd|Hd].
  { left. apply Exists_exists in Hd as ([[t w] cs] & Hin & Hx). by eapply worker_goes. }
  destruct (decide (Exists (λ u, u ∉ worker <$> doing s ∧ (u = T_Peer → deaf = false)) (callee <$> pending s))) as [Hp|Hp].
  { left. apply Exists_exists in Hp as (u & Hin & Hw & Hu). by eapply asked_takes. }
  right. rewrite <-Forall_Exists_neg in Hd, Hp. apply all_wait_rest; (eapply Forall_impl; [eassumption|]); cbn.
  - intros x Hx. by apply dec_stable.
  - intros u Hu. destruct (decide (u ∈ worker <$> doing s)) as [?|Hw]; [by left|]. right. apply dec_stable. intros Hn. apply Hu.
    split; [done|]. intros ->. destruct deaf; [by destruct Hn|done].
Qed.

(** The waits at rest lead to the flusher, and it waits for its peer. *)
Lemma rest_flusher s t :
  inv s → nf (work n deaf) s → t ∈ worker <$> doing s →
  deaf = true ∧ rtc (waits_for s) t T_Flusher ∧ (T_Flusher, T_Peer, Peer_Accepts) ∈ pending s.
Proof.
  intros Hi Hnf. remember (4 - rank t)%nat as k eqn:Ek. revert t Ek.
  induction (lt_wf k) as [k _ IH]. intros t -> Hw. destruct (waits_someone t s) as [u Hu]; [by apply rest_worker|].
  pose proof (waits_higher s t u Hi Hu) as Hr. assert (rank u ≤ 4)%nat by (destruct u; cbn; lia).
  destruct (rest_asked s t u Hi Hnf Hu) as [Hwu|[-> Hd]].
  - destruct (IH (4 - rank u)%nat ltac:(lia) u eq_refl Hwu) as (Hd & Hrt & Hin). split; [done|]. split; [|done]. by eapply rtc_l.
  - split; [done|]. destruct Hu as [[r Hin]|[cs Hin]].
    + destruct (inv_pending s Hi _ _ _ Hin) as (_ & _ & Hsc & Ht & _). rewrite (Ht eq_refl) in *. split; [apply rtc_refl|].
      by destruct r.
    + destruct (waits_someone T_Peer s) as [v Hv]; [eapply rest_worker; [done|by eapply worker_of]|].
      apply (waits_higher s _ _ Hi) in Hv. destruct v; cbn in Hv; lia.
Qed.

(** ** Termination: what is asked for is worth more than all that it may lead to. *)
Definition most_calls : nat := 2 * n + 6.

Fixpoint cost (height : nat) : nat :=
  match height with O => 2 | S h => 2 + most_calls * S (cost h) end.

Definition call_cost (t : thread) : nat := cost (4 - rank t).
Definition todo (cs : list call) : nat := sum_list_with (λ c, S (call_cost c.1)) cs.
Definition left_to_do (s : state) : nat :=
  sum_list_with (λ p, call_cost (callee p)) (pending s) + sum_list_with (λ d, S (todo d.2)) (doing s).

Lemma cost_mono h h' : (h ≤ h')%nat → (cost h ≤ cost h')%nat.
Proof.
  induction 1 as [|h' _ IH]; [done|]. cbn [cost]. unfold most_calls. nia.
Qed.

Lemma scripts_length t r : Forall (λ cs, (length cs ≤ most_calls)%nat) (scripts n t r).
Proof.
  unfold most_calls. destruct t, r as [| | | | | | | | | |[]| | | | | |]; cbn [scripts]; try by repeat constructor; cbn; lia.
  - apply Forall_fmap, Forall_forall. intros i _. cbn. lia.
  - apply Forall_cons_2, Forall_singleton; [cbn; lia|]. unfold cluster_close_calls. rewrite !length_app. cbn.
    assert (∀ k m, length (seq k m ≫= λ i, close_wait_calls (T_Shard i) Shard_Close) = (2 * m)%nat) as ->
      by (intros k m; revert k; induction m as [|m IH]; intros k; cbn; [done|]; rewrite IH; lia). lia.
  - apply Forall_bind, Forall_forall. intros i _. repeat constructor; cbn; lia.
Qed.

Lemma todo_bound t cs : Forall (good t) cs → (todo cs ≤ length cs * S (cost (3 - rank t)))%nat.
Proof.
  induction 1 as [|c cs [Hc _] _ IH]; [done|]. unfold todo, call_cost in *. cbn [sum_list_with length].
  pose proof (cost_mono (4 - rank c.1) (3 - rank t) ltac:(lia)). lia.
Qed.

Lemma script_cheaper t r cs : r ≠ Flusher_FlushConnection false → cs ∈ scripts n t r → (S (todo cs) < call_cost t)%nat.
Proof.
  intros Hr Hin. pose proof (scripts_good t r Hr) as Hg. pose proof (scripts_length t r) as Hl. rewrite Forall_forall in Hg, Hl.
  specialize (Hg _ Hin). specialize (Hl _ Hin). pose proof (todo_bound _ _ Hg) as Hb. unfold call_cost.
  destruct (decide (rank t = 4)) as [E|E].
  - destruct Hg as [|c cs [Hc _] _]; [by rewrite E; cbn; lia|]. destruct (c.1); cbn in Hc; lia.
  - assert (rank t ≤ 4)%nat by (destruct t; cbn; lia). replace (4 - rank t)%nat with (S (3 - rank t)) by lia. cbn [cost]. nia.
Qed.

Lemma work_less s s' : inv s → work n deaf s s' → (left_to_do s' < left_to_do s)%nat.
Proof.
  intros Hi. unfold left_to_do. destruct 1 as [p1 a t r p2 d cs _ _ _ Hcs|p d1 t w u r cs d2 _|p d1 t w d2 _]; cbn [pending doing];
    rewrite ?sum_list_with_app; unfold todo; cbn [sum_list_with callee fst snd].
  - apply script_cheaper in Hcs; [|destruct (inv_pending _ Hi a t r) as (_ & _ & _ & _ & ?); [cbn; set_solver|done]]. unfold todo in Hcs. lia.
  - lia.
  - lia.
Qed.
End order.

(** ** Theorems *)

(** C5. Which waits can last.  Whatever the threads have been doing, and however they go
    on, if none begins anything new then they come to rest, after at most as many steps as
    there is work to do.  At rest every request has been answered and no thread
    waits, as long as every peer takes the DISCONNECT that it is sent: the requests that wait for an
    answer go up from the application and the handshakes over the cluster and the shards to
    the other threads, never back; a shard closes the session of a connection before it asks
    the flusher, which never waits for a shard then.  If a peer does not, then the only thread that waits for
    something outside the broker is the flusher, for that peer, and whatever else waits does
    so, step by step, for the flusher. *)
Theorem requests_answered n deaf s :
  (0 < n)%nat → reachable n deaf s →
  (∀ s' k, nsteps (work n deaf) k s s' → (k + left_to_do n s' ≤ left_to_do n s)%nat)
  ∧ (∀ s', rtc (work n deaf) s s' → nf (work n deaf) s' →
       s' = idle
       ∨ deaf = true ∧ (T_Flusher, T_Peer, Peer_Accepts) ∈ pending s'
         ∧ ∀ t u, waits_for s' t u → rtc (waits_for s') t T_Flusher)
  ∧ (∃ s', rtc (work n deaf) s s' ∧ nf (work n deaf) s').
Proof.
  intros Hn Hr. assert (∀ s', rtc (work n deaf) s s' → inv n s') as Hinvs.
  { intros s' Hs. assert (reachable n deaf s') as Hr'.
    { unfold reachable in *. etrans; [exact Hr|]. clear -Hs. induction Hs as [|s1 s2 s3 Hw _ IH]; [done|]. eapply rtc_l; [by right|done]. }
    unfold reachable in Hr'. apply (rtc_ind_r (inv n) idle) in Hr'; [done|by split; intros * ?%elem_of_nil|].
    intros s1 s2 _ [Hb|Hw] Hi; [by eapply begins_inv|by eapply work_inv]. }
  split_and!.
  - intros s' k. pose proof (Hinvs s (rtc_refl _ _)) as Hi. clear Hr Hinvs.
    induction 1 as [|k s1 s2 s3 Hw _ IH]; [lia|]. specialize (IH (work_inv _ _ _ _ Hw Hi)).
    apply (work_less _ _ _ _ Hi) in Hw. lia.
  - intros s' Hs Hnf. pose proof (Hinvs _ Hs) as Hi. assert (∀ t u, waits_for s' t u → t ∈ worker <$> doing s') as Hwk.
    { intros t u [[r Hin]|[cs Hin]]; [by destruct (inv_pending n s' Hi _ _ _ Hin)|by destruct (inv_client n s' Hi _ _ _ Hin)]. }
    destruct s' as [p d]. destruct d as [|[[t w] cs] d].
    + left. destruct p as [|[[a u] r] p]; [done|]. destruct (inv_pending n _ Hi a u r) as [?%elem_of_nil _]; [by left|done].
    + right. destruct (rest_flusher n deaf _ t Hi Hnf) as (Hd & _ & Hin); [by left|]. split; [done|]. split; [done|].
      intros a u Ha%Hwk. by destruct (rest_flusher n deaf _ a Hi Hnf Ha) as (_ & ? & _).
  - clear Hr. remember (left_to_do n s) as m eqn:Em. revert s Em Hinvs. induction (lt_wf m) as [m _ IH]. intros s -> Hinvs.
    destruct (work_or_rest n deaf s) as [[s2 Hw]|Hnf]; [apply Hinvs, rtc_refl| |by exists s].
    destruct (IH _ (work_less _ _ _ _ (Hinvs _ (rtc_refl _ _)) Hw) s2 eq_refl) as (s' & Hs & Hnf);
      [intros s3 Hs3; apply Hinvs; by eapply rtc_l|exists s'; split; [by eapply rtc_l|done]].
Qed.

(** ** Witnesses

    A handshake has asked the cluster, which has asked a shard that is giving up a client. *)
Definition ex_waiting : state :=
  MkState [(T_Cluster, T_Shard 0, Shard_AddSession); (T_Shard 0, T_Miot 0, Miot_RemoveConnection)]
    [(T_Shard 0, None, flush_connection_calls); (T_Cluster, Some (T_Handshake 7), []); (T_Handshake 7, None, [])].

(** A step to a known state, of a thread that begins, takes a request, asks, or is done. *)
Ltac asks d1 := eapply rtc_l; [right; apply (Work_ask _ _ _ d1); apply (bool_decide_unpack _); reflexivity|cbn [app]].
Ltac is_done d1 := eapply rtc_l; [right; apply (Work_done _ _ _ d1); apply (bool_decide_unpack _); reflexivity|cbn [app]].
Ltac takes p1 cs :=
  eapply rtc_l; [right; apply (Work_take _ _ p1 _ _ _ _ _ cs);
    [done|apply (bool_decide_unpack _); reflexivity|apply (bool_decide_unpack _); reflexivity|cbn; set_solver]|cbn [app]].

Lemma ex_waiting_reachable deaf : reachable 1 deaf ex_waiting.
Proof.
  unfold reachable. eapply rtc_l; [left; apply (Begins _ [] [] (T_Handshake 7)); [apply not_elem_of_nil|constructor]|].
  asks (@nil (thread * option thread * list call)). takes (@nil (thread * thread * Req)) (add_connection_calls 0).
  asks (@nil (thread * option thread * list call)).
  eapply rtc_l; [left; apply (Begins _ _ _ (T_Shard 0) ([true] ≫= fail_calls 0)); [apply (bool_decide_unpack _); reflexivity|constructor]|].
  asks (@nil (thread * option thread * list call)). apply rtc_refl.
Qed.

(** All four come to rest, if the client takes its DISCONNECT. *)
Lemma requests_answered_witness : rtc (work 1 false) ex_waiting idle.
Proof.
  destruct (requests_answered 1 false ex_waiting ltac:(lia) (ex_waiting_reachable false)) as (_ & Hidle & s' & Hs & Hnf).
  destruct (Hidle s' Hs Hnf) as [->|[Hd _]]; [done|discriminate Hd].
Defined.

(** A client takes over the session of another, which is blocked: the flusher waits for the
    old connection, the shard for the flusher, the cluster for the shard, and the new
    client for the cluster. *)
Definition ex_stuck : state :=
  MkState [(T_Flusher, T_Peer, Peer_Accepts)]
    [(T_Flusher, Some (T_Shard 0), []); (T_Shard 0, Some T_Cluster, [(T_Miot 0, Miot_AddConnection)]);
     (T_Cluster, Some (T_Handshake 7), []); (T_Handshake 7, None, [])].

(** So one peer that stops reading can stop the broker for good: no thread can take a step. *)
Theorem deaf_peer_blocks : reachable 1 true ex_stuck ∧ nf (work 1 true) ex_stuck.
Proof.
  split.
  - unfold reachable. eapply rtc_l; [left; apply (Begins _ [] [] (T_Handshake 7)); [apply not_elem_of_nil|constructor]|].
    asks (@nil (thread * option thread * list call)). takes (@nil (thread * thread * Req)) (add_connection_calls 0).
    asks (@nil (thread * option thread * list call)).
    takes (@nil (thread * thread * Req)) (add_session_calls 0 (Some (Some true))).
    asks (@nil (thread * option thread * list call)). takes (@nil (thread * thread * Req)) (@nil call).
    is_done (@nil (thread * option thread * list call)). asks (@nil (thread * option thread * list call)).
    takes (@nil (thread * thread * Req)) (send_disconnect_calls true). asks (@nil (thread * option thread * list call)).
    apply rtc_refl.
  - apply all_wait_rest; apply (bool_decide_unpack _); reflexivity.
Qed.
