(* ===== verification/Config.v ===== *)
(** * Configuration and keep-alive (src/src/broker/config.rs, src/src/broker/keep_alive.rs)

    [Config], whose list of nodes goes next to it; [ConfigNode]; [KeepAlive] with its f32
    arithmetic. *)
From Stdlib Require Import SpecFloat.
From S2P Require Import Prelude Errors Utf8 Text Types V5Header V5Property V5Codec V5Connect.
Local Open Scope Z_scope.

(** ** f32

    Single-precision numbers of IEEE 754, rounded to the nearest and to even. *)
Abbreviation f32 := spec_float.
Definition f32_prec : Z := 24.
Definition f32_emax : Z := 128.

(** [z as f32], [a * b] and [f as u16] (which truncates and saturates) *)
Definition int_as_f32 (z : Z) : f32 := binary_normalize f32_prec f32_emax z 0 false.
Definition f32_mul (a b : f32) : f32 := SFmul f32_prec f32_emax a b.
Definition f32_as_u16 (f : f32) : Z :=
  match f with
  | S754_zero _ | S754_nan => 0
  | S754_infinity s => if s then 0 else 65535
  | S754_finite s m e => if s then 0 else Z.min (Z.shiftl (Zpos m) e) 65535
  end.

(** ** Config *)

Record Config := MkConfig {
  cf_name : rstring;
  max_nodes : Z;
  num_shards : Z;
  cf_port : Z;
  sock_mqtt_connect_timeout : Z;
  sock_mqtt_read_timeout : Z;
  sock_mqtt_write_timeout : Z;
  sock_mqtt_flush_timeout : Z;
  mqtt_max_packet_size : Z;
  mqtt_pkt_batch_size : Z;
  mqtt_keep_alive : option Z;
  mqtt_keep_alive_factor : f32;
  mqtt_receive_maximum : Z;
  mqtt_session_expiry_interval : option Z;
  mqtt_maximum_qos : Z;
  mqtt_retain_available : bool;
  mqtt_topic_alias_max : option Z;
  mqtt_ignore_duplicate : bool;
}.

(** [Config::default()]; [cores] is [util::num_cores_ceiled()], which asks the
    operating system. The factor is 1.5. *)
Definition Config_default (cores : Z) : Config :=
  MkConfig [109; 113; 116; 116; 100] 1 cores 1883 5 5 5 10 (1024 * 1024) 1024 None
    (S754_finite false 12582912 (-23)) 256 None 1 true (Some 65535) true.

#[export] Instance Config_eta : Eta Config := λ c,
  MkConfig (cf_name c) (max_nodes c) (num_shards c) (cf_port c) (sock_mqtt_connect_timeout c) (sock_mqtt_read_timeout c)
    (sock_mqtt_write_timeout c) (sock_mqtt_flush_timeout c) (mqtt_max_packet_size c) (mqtt_pkt_batch_size c) (mqtt_keep_alive c)
    (mqtt_keep_alive_factor c) (mqtt_receive_maximum c) (mqtt_session_expiry_interval c) (mqtt_maximum_qos c)
    (mqtt_retain_available c) (mqtt_topic_alias_max c) (mqtt_ignore_duplicate c).

Record ConfigNode := MkConfigNode {
  cn_uuid : rstring;
  cn_mqtt_address : SocketAddr;
  cn_path : rstring;
  cn_weight : option Z;
}.

#[export] Instance ConfigNode_eta : Eta ConfigNode := λ c,
  MkConfigNode (cn_uuid c) (cn_mqtt_address c) (cn_path c) (cn_weight c).

Definition Config_validate (c : Config) : Result () :=
  if 268435456 <? mqtt_max_packet_size c then err_desc EK_InvalidInput else Ok ().

(** [mqtt_keep_alive()] and [mqtt_topic_alias_max()] *)
Definition config_keep_alive (c : Config) : option Z :=
  match mqtt_keep_alive c with Some 0 | None => None | Some val => Some val end.

Definition config_topic_alias_max (c : Config) : option Z :=
  match mqtt_topic_alias_max c with
  | Some 0 => None
  | Some val => Some val
  | None => mqtt_topic_alias_max c
  end.

(** ** KeepAlive *)

(** Instants are in nanoseconds. *)
Record KeepAlive := MkKeepAlive { ka_interval : option Z; alive_at : Z }.

Definition KeepAlive_new (pkt : Connect) (config : Config) (now : Z) : KeepAlive :=
  let factor := mqtt_keep_alive_factor config in
  let interval :=
    match config_keep_alive config with
    | Some val => Some (f32_as_u16 (f32_mul (int_as_f32 val) factor))
    | None =>
        if connect_keep_alive pkt =? 0 then None
        else Some (f32_as_u16 (f32_mul (int_as_f32 (connect_keep_alive pkt)) factor))
    end in
  MkKeepAlive interval now.

Definition keep_alive (k : KeepAlive) : option Z := ka_interval k.

(** The time left, in nanoseconds; a difference of instants saturates at zero. *)
Definition check_expired (now : Z) (k : KeepAlive) : Result Z :=
  match ka_interval k with
  | Some interval =>
      let diff := Z.max (alive_at k + interval * 1000000000 - now) 0 in
      if diff =? 0 then err EK_ProtocolError RC_KeepAliveTimeout else Ok diff
  | None => Ok ((2 ^ 64 - 1) * 1000000000)
  end.

Definition live (now : Z) (k : KeepAlive) : KeepAlive := MkKeepAlive (ka_interval k) now.

(** Truncation saturates. *)
Lemma f32_as_u16_range f : 0 ≤ f32_as_u16 f < 65536.
Proof.
  destruct f as [| [] | |[] m e]; cbn [f32_as_u16]; try lia.
  assert (0 ≤ Z.shiftl (Zpos m) e) by by apply Z.shiftl_nonneg. lia.
Qed.

(** The interval is a u16. *)
Lemma KeepAlive_new_u16 pkt config now : option_Forall is_u16 (keep_alive (KeepAlive_new pkt config now)).
Proof.
  unfold keep_alive, KeepAlive_new. cbn [ka_interval]. pose proof f32_as_u16_range as Hr.
  destruct (config_keep_alive config); [|destruct (_ =? _)]; constructor; apply Hr.
Qed.

Example default_factor :
  (λ k, f32_as_u16 (f32_mul (int_as_f32 k) (mqtt_keep_alive_factor (Config_default 1))))
    <$> [1; 2; 3; 60; 61; 10000; 43690; 43691; 65535] = [1; 3; 4; 90; 91; 15000; 65535; 65535; 65535].
Proof. by vm_compute. Qed.

(** ** Theorems *)

(** A session without a keep-alive on either side never expires.  With one, the
    server's if it has one and else the client's, the check succeeds for less than
    the interval (a u16) after the last packet, with the time left, and fails
    with [KeepAliveTimeout] from then on. *)
Theorem keep_alive_expiry pkt config t1 t2 now :
  let k := live t2 (KeepAlive_new pkt config t1) in
  let secs := default (connect_keep_alive pkt) (config_keep_alive config) in
  match keep_alive k with
  | Some interval =>
      secs ≠ 0 ∧ 0 ≤ interval < 65536
      ∧ interval = f32_as_u16 (f32_mul (int_as_f32 secs) (mqtt_keep_alive_factor config))
      ∧ check_expired now k = (if t2 + interval * 1000000000 <=? now
          then err EK_ProtocolError RC_KeepAliveTimeout else Ok (t2 + interval * 1000000000 - now))
  | None => secs = 0 ∧ is_Ok (check_expired now k)
  end.
Proof.
  intros k secs. unfold k, secs, keep_alive, check_expired. cbn [live ka_interval alive_at KeepAlive_new].
  assert (∀ i, (if Z.max (t2 + i * 1000000000 - now) 0 =? 0 then err EK_ProtocolError RC_KeepAliveTimeout
      else Ok (Z.max (t2 + i * 1000000000 - now) 0))
    = if t2 + i * 1000000000 <=? now then err EK_ProtocolError RC_KeepAliveTimeout
      else Ok (t2 + i * 1000000000 - now)) as Hc.
  { intros i. destruct (Z.leb_spec (t2 + i * 1000000000) now).
    - by rewrite Z.max_r by lia.
    - rewrite Z.max_l by lia. destruct (Z.eqb_spec (t2 + i * 1000000000 - now) 0); [lia|done]. }
  destruct (config_keep_alive config) as [val|] eqn:E; cbn [default from_option].
  - split; [|split; [apply f32_as_u16_range|split; [done|apply Hc]]].
    unfold config_keep_alive in E. destruct (mqtt_keep_alive config) as [[]|]; by simplify_eq.
  - destruct (Z.eqb_spec (connect_keep_alive pkt) 0); cbn; [by split; [|eexists]|].
    split; [done|]. split; [apply f32_as_u16_range|split; [done|apply Hc]].
Qed.

Definition ex_connect : Connect :=
  MkConnect MQTT_name MqttProtocol_V5 2 61 None (MkConnectPayload [97] None None None None None).

Example keep_alive_example :
  check_expired 91000000004 (live 5 (KeepAlive_new ex_connect (Config_default 1) 0)) = Ok 1
  ∧ check_expired 91000000005 (live 5 (KeepAlive_new ex_connect (Config_default 1) 0))
    = err EK_ProtocolError RC_KeepAliveTimeout.
Proof. by vm_compute. Qed.
