(* ===== verification/ConfigFile.v ===== *)
(** * The configuration file (src/src/broker/config.rs) and the command line
      (src/src/bin/mqttd/main.rs)

    From a TOML document to a [Config] and its nodes.  The toml crate is a library: a
    value of it is what its accessors say.  What the operating system answers (the
    contents of the file, the number of cores) and fresh uuids are arguments. *)
From Stdlib Require Import SpecFloat.
From S2P Require Import Prelude Errors Utf8 Util Text Config.
Local Open Scope Z_scope.

(** [toml::Value] and [toml::value::Table]; integers are i64. *)
Class Toml := {
  value : Type;
  table : Type;
  toml_from_str : rstring → option value;
  as_table : value → option table;
  table_get : table → rstring → option value;
  as_str : value → option rstring;
  as_integer : value → option Z;
  as_bool : value → option bool;
  as_array : value → option (list value);
  as_integer_i64 v n : as_integer v = Some n → -2 ^ 63 ≤ n < 2 ^ 63;
}.

(** [From] for [Infallible], [ParseBoolError], [ParseFloatError], [ParseIntError],
    [AddrParseError], ...: the error is the cause of one of the kind of its name. *)
Definition Error_from (kind : ErrorKind) : Error := MkError kind None CauseForeign.

(** [val.parse()?] for a type with this [FromStr] and an error of this kind *)
Definition parse {A} (kind : ErrorKind) (from_str : rstring → option A) (s : rstring) : Result A :=
  match from_str s with Some a => Ok a | None => Err (Error_from kind) end.

Definition parse_string : rstring → Result rstring := parse EK_Infallible Some.
Definition parse_u (w : Z) : rstring → Result Z := parse EK_ParseIntError (parse_uint w).

(** [f32::from_str] for a text of digits with or without a minus sign, for numbers of
    64 bits: the text of an i64. *)
Definition f32_from_str (s : rstring) : option f32 :=
  match s with
  | [] => None
  | c :: s' => if c =? 45 then (λ n, int_as_f32 (- n)) <$> parse_digits 64 0 s' else int_as_f32 <$> parse_digits 64 0 s
  end.
Definition parse_f32 : rstring → Result f32 := parse EK_ParseFloatError f32_from_str.

Section toml.
Context {Tm : Toml}.

(** [config_field!(table, field, config, as_..)], where [text] is [val.as_..] and [set]
    assigns the field *)
Definition config_field {A C} (t : table) (field : rstring) (text : value → option rstring)
    (from : rstring → Result A) (set : A → C → C) (config : C) : Result C :=
  match table_get t field with
  | Some val =>
      match text val with
      | Some val => a ← from val; Ok (set a config)
      | None => err_desc EK_InvalidInput
      end
  | None => Ok config
  end.

(** [config_field!(opt: ..)] *)
Definition config_field_opt {A C} (t : table) (field : rstring) (text : value → option rstring)
    (from : rstring → Result A) (set : option A → C → C) (config : C) : Result C :=
  config_field t field text from (λ a, set (Some a)) config.

(** [as_integer().map(|n| n.to_string())] and [as_bool().map(|b| b.to_string())] *)
Definition integer (val : value) : option rstring := int_to_string <$> as_integer val.
Definition boolean (val : value) : option rstring := bool_to_string <$> as_bool val.

(** ** Nodes *)

Definition ConfigNode_default (cpus : Z) (uuid : rstring) : Result ConfigNode :=
  mqtt_address ← opt_unwrap (parse_socket_addr (chars "0.0.0.0:1883"));
  weight ← (if cpus <? 2 ^ 16 then Ok cpus else Panic);
  Ok (MkConfigNode uuid mqtt_address (chars "/") (Some weight)).

Definition ConfigNode_try_from (cpus : Z) (uuid : rstring) (val : value) : Result ConfigNode :=
  def ← ConfigNode_default cpus uuid;
  match as_table val with
  | Some t =>
      def ← config_field t (chars "uuid") as_str parse_string (λ x (c : ConfigNode), c <| cn_uuid := x |>) def;
      def ← config_field t (chars "path") as_str parse_string (λ x (c : ConfigNode), c <| cn_path := x |>) def;
      def ← config_field_opt t (chars "weight") integer (parse_u 16) (λ x (c : ConfigNode), c <| cn_weight := x |>) def;
      config_field t (chars "mqtt_address") as_str (parse EK_TryFromAddrError parse_socket_addr)
        (λ x (c : ConfigNode), c <| cn_mqtt_address := x |>) def
  | None => Ok def
  end.

(** ** The configuration

    [uuid i] is the [i]-th uuid that is made. *)
Definition num_cores_ceiled (cpus : Z) : Result Z :=
  cpus ← (if cpus <? 2 ^ 32 then Ok cpus else Panic);
  if ceil_power_of_2 cpus <? 2 ^ 32 then Ok (ceil_power_of_2 cpus) else Panic.

Definition config_default (cpus : Z) (uuid : rstring) : Result (Config * list ConfigNode) :=
  node ← ConfigNode_default cpus uuid;
  cores ← num_cores_ceiled cpus;
  Ok (Config_default cores, [node]).

Definition config_fields (t : table) (def : Config) : Result Config :=
  def ← config_field t (chars "name") as_str parse_string (λ x (c : Config), c <| cf_name := x |>) def;
  def ← config_field t (chars "max_nodes") integer (parse_u 32) (λ x (c : Config), c <| max_nodes := x |>) def;
  def ← config_field t (chars "num_shards") integer (parse_u 32) (λ x (c : Config), c <| num_shards := x |>) def;
  def ← config_field t (chars "port") integer (parse_u 16) (λ x (c : Config), c <| cf_port := x |>) def;
  def ← config_field t (chars "sock_mqtt_connect_timeout") integer (parse_u 32)
          (λ x (c : Config), c <| sock_mqtt_connect_timeout := x |>) def;
  def ← config_field t (chars "sock_mqtt_read_timeout") integer (parse_u 32)
          (λ x (c : Config), c <| sock_mqtt_read_timeout := x |>) def;
  def ← config_field t (chars "sock_mqtt_write_timeout") integer (parse_u 32)
          (λ x (c : Config), c <| sock_mqtt_write_timeout := x |>) def;
  def ← config_field t (chars "sock_mqtt_flush_timeout") integer (parse_u 32)
          (λ x (c : Config), c <| sock_mqtt_flush_timeout := x |>) def;
  def ← config_field t (chars "mqtt_max_packet_size") integer (parse_u 32)
          (λ x (c : Config), c <| mqtt_max_packet_size := x |>) def;
  def ← config_field t (chars "mqtt_pkt_batch_size") integer (parse_u 32)
          (λ x (c : Config), c <| mqtt_pkt_batch_size := x |>) def;
  def ← config_field_opt t (chars "mqtt_keep_alive") integer (parse_u 32) (λ x (c : Config), c <| mqtt_keep_alive := x |>) def;
  def ← config_field t (chars "mqtt_keep_alive_factor") integer parse_f32
          (λ x (c : Config), c <| mqtt_keep_alive_factor := x |>) def;
  def ← config_field t (chars "mqtt_receive_maximum") integer (parse_u 16)
          (λ x (c : Config), c <| mqtt_receive_maximum := x |>) def;
  def ← config_field_opt t (chars "mqtt_session_expiry_interval") integer (parse_u 32)
          (λ x (c : Config), c <| mqtt_session_expiry_interval := x |>) def;
  def ← config_field t (chars "mqtt_maximum_qos") integer (parse_u 8) (λ x (c : Config), c <| mqtt_maximum_qos := x |>) def;
  def ← config_field t (chars "mqtt_retain_available") boolean (parse EK_ParseBoolError parse_bool)
          (λ x (c : Config), c <| mqtt_retain_available := x |>) def;
  def ← config_field_opt t (chars "mqtt_topic_alias_max") boolean (parse_u 16)
          (λ x (c : Config), c <| mqtt_topic_alias_max := x |>) def;
  config_field t (chars "mqtt_ignore_duplicate") boolean (parse EK_ParseBoolError parse_bool)
    (λ x (c : Config), c <| mqtt_ignore_duplicate := x |>) def.

Definition Config_try_from (cpus : Z) (uuid : nat → rstring) (val : value) : Result (Config * list ConfigNode) :=
  '(def, nodes) ← config_default cpus (uuid 0%nat);
  match as_table val with
  | Some t =>
      def ← config_fields t def;
      match table_get t (chars "node") ≫= as_array with
      | Some vals =>
          nodes ← mapM_out (λ e, ConfigNode_try_from cpus (uuid e.1) e.2) (imap (λ i val, (S i, val)) vals);
          Ok (def, nodes)
      | None => Ok (def, nodes)
      end
  | None => Ok (def, nodes)
  end.

(** [from_file]; [data] is what [fs::read] yields. *)
Definition Config_from_file (cpus : Z) (uuid : nat → rstring) (data : option bytes) : Result (Config * list ConfigNode) :=
  data ← match data with Some data => Ok data | None => err_try EK_IOError end;
  s ← match from_utf8 data with Some s => Ok s | None => err_try EK_InvalidInput end;
  val ← match toml_from_str s with Some val => Ok val | None => err_try EK_InvalidInput end;
  Config_try_from cpus uuid val.

(** ** The command line *)

(** [Opt] without what is logged; [Start] is its only subcommand. *)
Record Opt := MkOpt { config_loc : option rstring; opt_name : rstring; opt_port : Z; opt_num_shards : Z }.

Definition parse_cmd_opts (opts : Opt) (config : Config) : Result Config :=
  Ok (config <| cf_name := opt_name opts |> <| cf_port := opt_port opts |> <| num_shards := opt_num_shards opts |>).

Definition parse_env (_ : Opt) (config : Config) : Result Config := Ok config.

Definition parse_config (fs_read : rstring → option bytes) (cpus : Z) (uuid : nat → rstring) (opts : Opt)
    : Result (Config * list ConfigNode) :=
  '(config, nodes) ← match config_loc opts with
                     | Some path => Config_from_file cpus uuid (fs_read path)
                     | None => config_default cpus (uuid 0%nat)
                     end;
  config ← parse_env opts config;
  config ← parse_cmd_opts opts config;
  Ok (config, nodes).
End toml.

(** ** What a document means

    A key that is absent leaves the default; one that is there has a value of its type,
    an integer within the width of the field. *)
Section meaning.
Context {Tm : Toml} (t : table).

Definition key {A} (field : rstring) (means : value → A → Prop) (dflt x : A) : Prop :=
  match table_get t field with Some val => means val x | None => x = dflt end.

Definition is_text (val : value) (x : rstring) : Prop := as_str val = Some x.
Definition is_uint (w : Z) (val : value) (x : Z) : Prop := as_integer val = Some x ∧ 0 ≤ x < 2 ^ w.
Definition is_bool (val : value) (x : bool) : Prop := as_bool val = Some x.
Definition is_f32 (val : value) (x : f32) : Prop := ∃ n, as_integer val = Some n ∧ x = int_as_f32 n.
Definition is_addr (val : value) (x : SocketAddr) : Prop := ∃ s, as_str val = Some s ∧ parse_socket_addr s = Some x.
Definition is_some {A} (means : value → A → Prop) (val : value) (x : option A) : Prop := ∃ a, x = Some a ∧ means val a.

Record config_read (d c : Config) : Prop := {
  cr_name : key (chars "name") is_text (cf_name d) (cf_name c);
  cr_max_nodes : key (chars "max_nodes") (is_uint 32) (max_nodes d) (max_nodes c);
  cr_num_shards : key (chars "num_shards") (is_uint 32) (num_shards d) (num_shards c);
  cr_port : key (chars "port") (is_uint 16) (cf_port d) (cf_port c);
  cr_connect : key (chars "sock_mqtt_connect_timeout") (is_uint 32) (sock_mqtt_connect_timeout d) (sock_mqtt_connect_timeout c);
  cr_read : key (chars "sock_mqtt_read_timeout") (is_uint 32) (sock_mqtt_read_timeout d) (sock_mqtt_read_timeout c);
  cr_write : key (chars "sock_mqtt_write_timeout") (is_uint 32) (sock_mqtt_write_timeout d) (sock_mqtt_write_timeout c);
  cr_flush : key (chars "sock_mqtt_flush_timeout") (is_uint 32) (sock_mqtt_flush_timeout d) (sock_mqtt_flush_timeout c);
  cr_max_packet : key (chars "mqtt_max_packet_size") (is_uint 32) (mqtt_max_packet_size d) (mqtt_max_packet_size c);
  cr_batch : key (chars "mqtt_pkt_batch_size") (is_uint 32) (mqtt_pkt_batch_size d) (mqtt_pkt_batch_size c);
  cr_keep_alive : key (chars "mqtt_keep_alive") (is_some (is_uint 32)) (mqtt_keep_alive d) (mqtt_keep_alive c);
  cr_factor : key (chars "mqtt_keep_alive_factor") is_f32 (mqtt_keep_alive_factor d) (mqtt_keep_alive_factor c);
  cr_receive_max : key (chars "mqtt_receive_maximum") (is_uint 16) (mqtt_receive_maximum d) (mqtt_receive_maximum c);
  cr_expiry : key (chars "mqtt_session_expiry_interval") (is_some (is_uint 32)) (mqtt_session_expiry_interval d)
                (mqtt_session_expiry_interval c);
  cr_qos : key (chars "mqtt_maximum_qos") (is_uint 8) (mqtt_maximum_qos d) (mqtt_maximum_qos c);
  cr_retain : key (chars "mqtt_retain_available") is_bool (mqtt_retain_available d) (mqtt_retain_available c);
  cr_alias : table_get t (chars "mqtt_topic_alias_max") = None ∧ mqtt_topic_alias_max c = mqtt_topic_alias_max d;
  cr_duplicate : key (chars "mqtt_ignore_duplicate") is_bool (mqtt_ignore_duplicate d) (mqtt_ignore_duplicate c);
}.

Record node_read (d c : ConfigNode) : Prop := {
  nr_uuid : key (chars "uuid") is_text (cn_uuid d) (cn_uuid c);
  nr_path : key (chars "path") is_text (cn_path d) (cn_path c);
  nr_weight : key (chars "weight") (is_some (is_uint 16)) (cn_weight d) (cn_weight c);
  nr_address : key (chars "mqtt_address") is_addr (cn_mqtt_address d) (cn_mqtt_address c);
}.
End meaning.

Section documents.
Context {Tm : Toml} (cpus : Z).

Definition default_node (uuid : rstring) : ConfigNode := MkConfigNode uuid (SA_V4 [0; 0; 0; 0] 1883) [47] (Some cpus).

Definition node_means (uuid : rstring) (val : value) (c : ConfigNode) : Prop :=
  match as_table val with Some t => node_read t (default_node uuid) c | None => c = default_node uuid end.

(** The nodes of a document, with the uuids that are made for them *)
Definition nodes_read (uuid : nat → rstring) (t : table) (nodes : list ConfigNode) : Prop :=
  match table_get t (chars "node") ≫= as_array with
  | Some vals => Forall2 (λ e, node_means (uuid e.1) e.2) (imap (λ i val, (S i, val)) vals) nodes
  | None => nodes = [default_node (uuid 0%nat)]
  end.

(** The table of a file, if it is there and is text and TOML *)
Definition document (fs_read : rstring → option bytes) (path : rstring) : option table :=
  data ← fs_read path; s ← from_utf8 data; val ← toml_from_str s; as_table val.
End documents.

(** ** Lemmas *)

Section lemmas.
Context {Tm : Toml} (t : table).

(** A field is read when its text is, and its meaning is what [means] says. *)
Definition reads {A} (text : value → option rstring) (from : rstring → Result A) (means : value → A → Prop) : Prop :=
  ∀ val x, (∃ s, text val = Some s ∧ from s = Ok x) ↔ means val x.

Lemma field_Ok {A C} field text from means (set : A → C → C) (get : C → A) c c' :
  reads text from means → set (get c) c = c →
  config_field t field text from set c = Ok c' ↔ ∃ x, key t field means (get c) x ∧ c' = set x c.
Proof.
  intros Hr Hset. unfold config_field, key. destruct (table_get t field) as [val|].
  - transitivity (∃ s x, text val = Some s ∧ from s = Ok x ∧ c' = set x c).
    + split.
      * destruct (text val) as [s|]; [|done]. intros (x & Ex & [= <-])%bind_Ok_inv. by exists s, x.
      * intros (s & x & -> & E & ->). by rewrite E.
    + split.
      * intros (s & x & E1 & E2 & ->). exists x. split; [|done]. apply Hr. by exists s.
      * intros (x & H & ->). apply Hr in H as (s & ? & ?). by exists s, x.
  - split; [intros [= <-]; by exists (get c)|]. intros (x & -> & ->). by rewrite Hset.
Qed.

Lemma reads_text : reads as_str parse_string is_text.
Proof.
  intros val x. unfold is_text, parse_string, parse. split; [|by exists x]. by intros (s & -> & [= ->]).
Qed.

Lemma reads_uint w : reads integer (parse_u w) (is_uint w).
Proof.
  intros val x. unfold integer, parse_u, parse, is_uint. split.
  - intros (s & E & Hx). destruct (as_integer val) as [n|]; [|done]. injection E as <-. rewrite parse_to_string in Hx.
    destruct (_ && _) eqn:Eb; [|done]. injection Hx as ->. apply andb_true_iff in Eb as [?%Z.leb_le ?%Z.ltb_lt]. by split.
  - intros [-> Hx]. exists (int_to_string x). split; [done|]. rewrite parse_to_string.
    by rewrite (proj2 (Z.leb_le _ _)), (proj2 (Z.ltb_lt _ _)) by lia.
Qed.

Lemma reads_bool : reads boolean (parse EK_ParseBoolError parse_bool) is_bool.
Proof.
  intros val x. unfold boolean, parse, is_bool. destruct (as_bool val) as [b|]; [|by split; [intros (? & ? & _)|]]. split.
  - intros (s & [= <-] & E). rewrite parse_bool_to_string in E. congruence.
  - intros [= ->]. exists (bool_to_string x). by rewrite parse_bool_to_string.
Qed.

(** A boolean is read where a number is wanted: there is no such text. *)
Lemma reads_alias : reads boolean (parse_u 16) (λ _ _, False).
Proof.
  intros val x. split; [|done]. intros (s & E & Hx). unfold boolean in E. destruct (as_bool val) as [b|]; [|done].
  injection E as <-. unfold parse_u, parse in Hx. by rewrite parse_uint_bool in Hx.
Qed.

Lemma reads_f32 : reads integer parse_f32 is_f32.
Proof.
  intros val x. unfold integer, parse_f32, parse, is_f32.
  assert (∀ n, as_integer val = Some n → f32_from_str (int_to_string n) = Some (int_as_f32 n)) as Hf.
  { intros n Hn%as_integer_i64. unfold int_to_string, f32_from_str. destruct (Z.ltb_spec n 0).
    - cbn [Z.eqb Pos.eqb]. unfold decimal_of. rewrite parse_decimal, (proj2 (Z.ltb_lt _ _)) by lia. cbn. by rewrite Z.opp_involutive.
    - unfold decimal_of. destruct (decimal_head (Z.to_nat (Z.log2 n)) n ltac:(lia)) as (c & s & E & Hc). rewrite E.
      rewrite (proj2 (Z.eqb_neq _ _)) by lia. by rewrite <-E, parse_decimal, (proj2 (Z.ltb_lt _ _)) by lia. }
  destruct (as_integer val) as [n|] eqn:En; [|by split; [intros (? & ? & _)|intros (? & ? & _)]]. specialize (Hf n eq_refl). split.
  - intros (s & [= <-] & E). rewrite Hf in E. injection E as <-. by exists n.
  - intros (m & [= <-] & ->). exists (int_to_string n). by rewrite Hf.
Qed.

Lemma reads_addr : reads as_str (parse EK_TryFromAddrError parse_socket_addr) is_addr.
Proof.
  intros val x. unfold is_addr, parse. split; intros (s & E1 & E2); exists s; (split; [done|]);
    destruct (parse_socket_addr s); congruence.
Qed.

Lemma reads_some {A} text from (means : value → A → Prop) :
  reads text from means → reads text (λ s, Some <$> from s) (is_some means).
Proof.
  intros Hr val x. unfold is_some. split.
  - intros (s & E1 & E2). destruct (from s) as [a| | |] eqn:Ef; try done. injection E2 as <-. exists a. split; [done|].
    apply Hr. by exists s.
  - intros (a & -> & H). apply Hr in H as (s & ? & Ef). exists s. by rewrite Ef.
Qed.

Lemma field_opt_some {A C} field text (from : rstring → Result A) (set : option A → C → C) c :
  config_field_opt t field text from set c = config_field t field text (λ s, Some <$> from s) set c.
Proof. unfold config_field_opt, config_field. destruct (table_get t field); [|done]. destruct (text _); [|done]. by destruct (from _). Qed.

(** The field at the front of a reading, evaluated. *)
Lemma field_then {A C R} field text from means (set : A → C → C) get c x c' (k : C → Result R) r :
  reads text from means → set (get c) c = c → key t field means (get c) x → set x c = c' → k c' = r →
  (config_field t field text from set c ≫= k) = r.
Proof. intros Hr Hset Hx <- <-. by rewrite (proj2 (field_Ok _ _ _ _ _ get c _ Hr Hset)) by by exists x. Qed.

End lemmas.

(** [fields] computes the projections of a configuration. *)
Ltac fields :=
  cbv beta iota delta [cf_name max_nodes num_shards cf_port sock_mqtt_connect_timeout sock_mqtt_read_timeout
    sock_mqtt_write_timeout sock_mqtt_flush_timeout mqtt_max_packet_size mqtt_pkt_batch_size mqtt_keep_alive
    mqtt_keep_alive_factor mqtt_receive_maximum mqtt_session_expiry_interval mqtt_maximum_qos mqtt_retain_available
    mqtt_topic_alias_max mqtt_ignore_duplicate cn_uuid cn_mqtt_address cn_path cn_weight].

(** [read_field H get R] takes the field [get] off the front of the reading in [H]. *)
Ltac read_field H get R :=
  let c := fresh "c" in let x := fresh "x" in let Hx := fresh "Hx" in let E := fresh "E" in
  apply bind_Ok_inv in H as (c & Hx & H); rewrite ?field_opt_some in Hx;
  apply (field_Ok _ _ _ _ _ _ get _ _ R) in Hx as (x & Hx & E); [|reflexivity];
  revert E Hx; fields; intros -> Hx.

(** [set_field get R] evaluates it. *)
Ltac set_field get R :=
  rewrite ?field_opt_some; eapply (field_then _ _ _ _ _ _ get _ _ _ _ _ R); [reflexivity|fields; eassumption|fields; reflexivity|].

Section fields.
Context {Tm : Toml} (t : table).

Lemma no_alias (x d : option Z) :
  key t (chars "mqtt_topic_alias_max") (is_some (λ _ _, False)) d x → table_get t (chars "mqtt_topic_alias_max") = None ∧ x = d.
Proof. unfold key. destruct (table_get _ _); [|by split]. by intros (? & _ & []). Qed.

Lemma config_fields_Ok d c : config_fields t d = Ok c ↔ config_read t d c.
Proof.
  destruct d as [d1 d2 d3 d4 d5 d6 d7 d8 d9 d10 d11 d12 d13 d14 d15 d16 d17 d18]. unfold config_fields. split.
  - intros H. read_field H cf_name reads_text. read_field H max_nodes (reads_uint 32). read_field H num_shards (reads_uint 32).
    read_field H cf_port (reads_uint 16). read_field H sock_mqtt_connect_timeout (reads_uint 32).
    read_field H sock_mqtt_read_timeout (reads_uint 32). read_field H sock_mqtt_write_timeout (reads_uint 32).
    read_field H sock_mqtt_flush_timeout (reads_uint 32). read_field H mqtt_max_packet_size (reads_uint 32).
    read_field H mqtt_pkt_batch_size (reads_uint 32). read_field H mqtt_keep_alive (reads_some _ _ _ (reads_uint 32)).
    read_field H mqtt_keep_alive_factor reads_f32. read_field H mqtt_receive_maximum (reads_uint 16).
    read_field H mqtt_session_expiry_interval (reads_some _ _ _ (reads_uint 32)). read_field H mqtt_maximum_qos (reads_uint 8).
    read_field H mqtt_retain_available reads_bool. read_field H mqtt_topic_alias_max (reads_some _ _ _ reads_alias).
    apply (field_Ok _ _ _ _ _ _ mqtt_ignore_duplicate _ _ reads_bool) in H as (y & Hy & ->); [|reflexivity].
    split; try assumption. by apply no_alias.
  - intros []. set_field cf_name reads_text. set_field max_nodes (reads_uint 32). set_field num_shards (reads_uint 32).
    set_field cf_port (reads_uint 16). set_field sock_mqtt_connect_timeout (reads_uint 32).
    set_field sock_mqtt_read_timeout (reads_uint 32). set_field sock_mqtt_write_timeout (reads_uint 32).
    set_field sock_mqtt_flush_timeout (reads_uint 32). set_field mqtt_max_packet_size (reads_uint 32).
    set_field mqtt_pkt_batch_size (reads_uint 32). set_field mqtt_keep_alive (reads_some _ _ _ (reads_uint 32)).
    set_field mqtt_keep_alive_factor reads_f32. set_field mqtt_receive_maximum (reads_uint 16).
    set_field mqtt_session_expiry_interval (reads_some _ _ _ (reads_uint 32)). set_field mqtt_maximum_qos (reads_uint 8).
    set_field mqtt_retain_available reads_bool. destruct cr_alias0 as [Ha Hd].
    rewrite field_opt_some. eapply (field_then _ _ _ _ _ _ mqtt_topic_alias_max _ d17 _ _ _ (reads_some _ _ _ reads_alias));
      [reflexivity|unfold key; by rewrite Ha|fields; reflexivity|].
    apply (field_Ok _ _ _ _ _ _ mqtt_ignore_duplicate _ _ reads_bool); [reflexivity|].
    exists (mqtt_ignore_duplicate c). split; [done|]. destruct c. cbn in Hd. by subst.
Qed.

(** Reading a field fails with one of these kinds of error, and does not panic. *)
Definition refused (e : Error) : Prop :=
  Error_kind e ∈ [EK_InvalidInput; EK_ParseIntError; EK_ParseFloatError; EK_ParseBoolError; EK_TryFromAddrError; EK_Infallible].

Lemma parse_post {A} kind (from_str : rstring → option A) s :
  kind ∈ [EK_InvalidInput; EK_ParseIntError; EK_ParseFloatError; EK_ParseBoolError; EK_TryFromAddrError; EK_Infallible] →
  post (parse kind from_str s) (λ _, True) refused.
Proof. intros Hk. unfold parse. by destruct (from_str s). Qed.

Lemma field_post {A C} field text (from : rstring → Result A) (set : A → C → C) c :
  (∀ s, post (from s) (λ _, True) refused) → post (config_field t field text from set c) (λ _, True) refused.
Proof.
  intros Hf. unfold config_field. destruct (table_get t field); [|done]. destruct (text _) as [s|]; [|cbn; unfold refused; set_solver].
  eapply post_bind; [apply Hf|done].
Qed.

Lemma config_fields_post d : post (config_fields t d) (λ _, True) refused.
Proof.
  unfold config_fields. repeat (eapply post_bind; [apply field_post; intros s; apply parse_post; set_solver|intros ? _ _]).
  apply field_post. intros s. apply parse_post. set_solver.
Qed.
End fields.

Section nodes.
Context {Tm : Toml} (cpus : Z) (cpus_u16 : 0 ≤ cpus < 2 ^ 16).

Lemma ConfigNode_default_Ok uuid : ConfigNode_default cpus uuid = Ok (default_node cpus uuid).
Proof. unfold ConfigNode_default, default_node. by rewrite (proj2 (Z.ltb_lt _ _)) by lia. Qed.

Lemma node_Ok uuid val c : ConfigNode_try_from cpus uuid val = Ok c ↔ node_means cpus uuid val c.
Proof.
  unfold ConfigNode_try_from, node_means. rewrite ConfigNode_default_Ok. run.
  destruct (as_table val) as [t|]; [|split; congruence]. split.
  - unfold default_node. intros H. read_field H cn_uuid (reads_text). read_field H cn_path (reads_text).
    read_field H cn_weight (reads_some _ _ _ (reads_uint 16)).
    apply (field_Ok _ _ _ _ _ _ cn_mqtt_address _ _ reads_addr) in H as (y & Hy & ->); [|reflexivity].
    by split.
  - unfold default_node. intros []. set_field cn_uuid reads_text. set_field cn_path reads_text.
    set_field cn_weight (reads_some _ _ _ (reads_uint 16)).
    apply (field_Ok _ _ _ _ _ _ cn_mqtt_address _ _ reads_addr); [reflexivity|].
    exists (cn_mqtt_address c). split; [done|]. by destruct c.
Qed.

Lemma node_post uuid val : post (ConfigNode_try_from cpus uuid val) (λ _, True) refused.
Proof.
  unfold ConfigNode_try_from. rewrite ConfigNode_default_Ok. run. destruct (as_table val) as [t|]; [|done].
  repeat (eapply post_bind; [apply field_post; intros s; apply parse_post; set_solver|intros ? _ _]).
  apply field_post. intros s. apply parse_post. set_solver.
Qed.

Lemma nodes_Ok uuid (vals : list (nat * value)) nodes :
  mapM_out (λ e, ConfigNode_try_from cpus (uuid e.1) e.2) vals = Ok nodes
  ↔ Forall2 (λ e, node_means cpus (uuid e.1) e.2) vals nodes.
Proof.
  split.
  - intros H%mapM_out_Ok_Forall2. eapply Forall2_impl; [exact H|]. intros e c. apply node_Ok.
  - intros H. apply mapM_out_Forall2. eapply Forall2_impl; [exact H|]. intros e c. apply node_Ok.
Qed.

Lemma config_default_Ok uuid :
  config_default cpus uuid = Ok (Config_default (ceil_power_of_2 cpus), [default_node cpus uuid]).
Proof.
  unfold config_default, num_cores_ceiled. rewrite ConfigNode_default_Ok. run. rewrite (proj2 (Z.ltb_lt _ _)) by lia. run.
  destruct (ceil_power_of_2_spec cpus) as (_ & _ & H); [unfold is_u32; lia|].
  specialize (H 16 ltac:(lia) ltac:(lia)). by rewrite (proj2 (Z.ltb_lt _ _)) by lia.
Qed.

Lemma Config_try_from_Ok uuid val t c nodes :
  as_table val = Some t →
  Config_try_from cpus uuid val = Ok (c, nodes)
  ↔ config_read t (Config_default (ceil_power_of_2 cpus)) c ∧ nodes_read cpus uuid t nodes.
Proof.
  intros Ht. unfold Config_try_from, nodes_read. rewrite config_default_Ok. run. rewrite Ht.
  setoid_rewrite <-config_fields_Ok. destruct (config_fields t _) as [c'| | |]; run; [|by split; [|intros []]..].
  destruct (table_get t (chars "node") ≫= as_array) as [vals|]; [|naive_solver].
  rewrite <-nodes_Ok. destruct (mapM_out _ _) as [ns| | |]; run; [naive_solver|by split; [|intros []]..].
Qed.

Lemma Config_try_from_post uuid val t :
  as_table val = Some t → post (Config_try_from cpus uuid val) (λ _, True) refused.
Proof.
  intros Ht. unfold Config_try_from. rewrite config_default_Ok. run. rewrite Ht.
  eapply post_bind; [apply config_fields_post|]. intros c _ _. destruct (_ ≫= _) as [vals|]; [|done].
  eapply post_bind; [apply (mapM_out_post _ (λ _, True)); intros; apply node_post|]. done.
Qed.
End nodes.

(** ** Theorems *)

(** C35. The configuration that a broker starts with, from a file.  Every key of the
    document that is absent leaves the default; one that is there has to have a value of
    its type, an integer within the width of its field, and then that value is in the
    configuration; the key [mqtt_topic_alias_max] must be absent, since no value is
    read for it, and [mqtt_keep_alive_factor] has to be an integer.  The nodes are those of the
    array [node], or one with default fields.  Name, port and number of shards are those
    of the command line, whatever the document says.  Anything else is refused with an
    error of a known kind; nothing panics. *)
Theorem config_from_file `{Tm : Toml} fs_read cpus uuid opts path t :
  0 ≤ cpus < 2 ^ 16 → config_loc opts = Some path → document fs_read path = Some t →
  (∀ c nodes, parse_config fs_read cpus uuid opts = Ok (c, nodes)
    ↔ nodes_read cpus uuid t nodes
      ∧ ∃ c0, config_read t (Config_default (ceil_power_of_2 cpus)) c0
        ∧ c = c0 <| cf_name := opt_name opts |> <| cf_port := opt_port opts |> <| num_shards := opt_num_shards opts |>)
  ∧ post (parse_config fs_read cpus uuid opts) (λ _, True) refused.
Proof.
  intros Hcpus Hloc (data & Hd & (s & Hs & (val & Hval & Ht)%bind_Some)%bind_Some)%bind_Some.
  unfold parse_config, parse_env, parse_cmd_opts, Config_from_file. rewrite Hloc, Hd. run. rewrite Hs. run. rewrite Hval. run.
  split.
  - intros c nodes. transitivity (∃ c0, Config_try_from cpus uuid val = Ok (c0, nodes)
      ∧ c = c0 <| cf_name := opt_name opts |> <| cf_port := opt_port opts |> <| num_shards := opt_num_shards opts |>).
    + destruct (Config_try_from cpus uuid val) as [[c0 nodes0]| | |]; run; naive_solver.
    + setoid_rewrite (Config_try_from_Ok cpus Hcpus uuid val t _ _ Ht). naive_solver.
  - eapply post_bind; [by eapply Config_try_from_post|]. by intros [].
Qed.

(** ** Witnesses

    Documents as trees. *)
Inductive ex_value : Set :=
| Ex_int (n : Z) | Ex_float | Ex_str (s : rstring) | Ex_bool (b : bool)
| Ex_array (l : list ex_value) | Ex_table (l : list (rstring * ex_value)).

Definition ex_get (t : list (rstring * ex_value)) (k : rstring) : option ex_value :=
  snd <$> find (λ e, bool_decide (e.1 = k)) t.

Definition ex_integer (v : ex_value) : option Z :=
  match v with Ex_int n => if (- 2 ^ 63 <=? n) && (n <? 2 ^ 63) then Some n else None | _ => None end.

Definition ex_toml (doc : ex_value) : Toml.
Proof.
  refine {| value := ex_value; table := list (rstring * ex_value); toml_from_str := λ _, Some doc;
    as_table := λ v, match v with Ex_table l => Some l | _ => None end; table_get := ex_get;
    as_str := λ v, match v with Ex_str s => Some s | _ => None end; as_integer := ex_integer;
    as_bool := λ v, match v with Ex_bool b => Some b | _ => None end;
    as_array := λ v, match v with Ex_array l => Some l | _ => None end |}.
  intros [n| | | | | ] m; cbn; try done. destruct (_ && _) eqn:E; [|done]. intros [= <-].
  apply andb_true_iff in E as [?%Z.leb_le ?%Z.ltb_lt]. by split.
Defined.

Definition ex_opts : Opt := MkOpt (Some [47]) (chars "mqttd") 1883 1.
Definition ex_start (t : list (rstring * ex_value)) : Result (Config * list ConfigNode) :=
  parse_config (Tm := ex_toml (Ex_table t)) (λ _, Some []) 6 (λ i, [48 + Z.of_nat i]) ex_opts.

(** What is refused, and how. *)
Example ex_refused :
  (λ e, ex_start [(chars e.1, e.2)]) <$>
    [("port", Ex_int 65536); ("port", Ex_str (chars "1883")); ("mqtt_keep_alive_factor", Ex_float);
     ("mqtt_topic_alias_max", Ex_int 10); ("mqtt_topic_alias_max", Ex_bool true);
     ("node", Ex_array [Ex_table [(chars "mqtt_address", Ex_str (chars "localhost:1883"))]])]%string
  = [Err (Error_from EK_ParseIntError); err_desc EK_InvalidInput; err_desc EK_InvalidInput;
     err_desc EK_InvalidInput; Err (Error_from EK_ParseIntError); Err (Error_from EK_TryFromAddrError)].
Proof. lazy. reflexivity. Qed.

(** The port of the document gives way to that of the command line; the default number of
    shards, 8 for six cores, as well. *)
Definition ex_doc : list (rstring * ex_value) :=
  [(chars "port", Ex_int 8883); (chars "mqtt_maximum_qos", Ex_int 2);
   (chars "node", Ex_array [Ex_table [(chars "mqtt_address", Ex_str (chars "10.0.0.1:1883"))]])].

Definition ex_config (shards port : Z) : Config :=
  MkConfig (chars "mqttd") 1 shards port 5 5 5 10 1048576 1024 None (S754_finite false 12582912 (-23)) 256 None 2 true (Some 65535) true.

Lemma config_from_file_witness :
  ex_start ex_doc = Ok (ex_config 1 1883,
    [MkConfigNode [49] (SA_V4 [10; 0; 0; 1] 1883) [47] (Some 6)]).
Proof.
  destruct (config_from_file (Tm := ex_toml (Ex_table ex_doc)) (λ _, Some []) 6 (λ i, [48 + Z.of_nat i]) ex_opts [47] ex_doc
    ltac:(lia) eq_refl eq_refl) as [H _].
  replace (ceil_power_of_2 6) with 8 in H by reflexivity. apply (proj2 (H _ _)). clear H.
  split.
  - unfold nodes_read. cbn [table_get as_array ex_toml]. replace (_ ≫= _) with
      (Some [Ex_table [(chars "mqtt_address", Ex_str (chars "10.0.0.1:1883"))]]) by (lazy; reflexivity).
    repeat constructor. eexists. split; [reflexivity|]. lazy; reflexivity.
  - exists (ex_config 8 8883). split; [|reflexivity].
    split; (reflexivity || (split; [reflexivity|lia]) || (by split)).
Defined.
