(* ===== verification/Rebalance.v ===== *)
(** * Rebalancing (src/src/broker/rebalance.rs, src/src/broker/cluster.rs)

    Which shard a client belongs to, which node a shard belongs to, and what a change
    of topology moves.  [Node] is in cluster.rs.  The hash function and the parser of
    uuids are libraries, and parameters. *)
From stdpp Require Import sorting.
From S2P Require Import Prelude Errors Utf8 Util Text Config.
Local Open Scope Z_scope.

Record Node := MkNode { nd_uuid : Z; nd_path : rstring; nd_weight : Z; nd_mqtt_address : SocketAddr }.

(** [impl PartialEq for Node] *)
Definition Node_eq (a b : Node) : bool := nd_uuid a =? nd_uuid b.

(** [TryFrom<ConfigNode> for Node]: [parse] is [Uuid::parse_str], [cpus] is
    [num_cpus::get()]. *)
Definition Node_try_from (parse : rstring → option Z) (cpus : Z) (c : ConfigNode) : Result Node :=
  num_cores ← (if cpus <? 2 ^ 16 then Ok cpus else Panic);
  match parse (cn_uuid c) with
  | Some uuid => Ok (MkNode uuid (cn_path c) (default num_cores (cn_weight c)) (cn_mqtt_address c))
  | None => err_try EK_UuidError
  end.

Record Topology := MkTopology { shard : Z; master : Node; replicas : list Node }.

(** The derived equality of [Topology]: that of [Vec] compares lengths and elements. *)
Fixpoint nodes_eq (a b : list Node) : bool :=
  match a, b with
  | [], [] => true
  | x :: a, y :: b => Node_eq x y && nodes_eq a b
  | _, _ => false
  end.

Definition Topology_eq (a b : Topology) : bool :=
  (shard a =? shard b) && Node_eq (master a) (master b) && nodes_eq (replicas a) (replicas b).

(** ** Sessions to shards *)

(** [cityhash_rs::cityhash_110_128] yields a [u128]; the shifts fold it to 32 bits. *)
Definition fold_hash (hash : Z) : Z :=
  let hash := Z.lxor (Z.land hash 0xFFFFFFFFFFFFFFFF) (Z.land (Z.shiftr hash 64) 0xFFFFFFFFFFFFFFFF) in
  Z.lxor (Z.land hash 0xFFFFFFFF) (Z.land (Z.shiftr hash 32) 0xFFFFFFFF) `mod` 2 ^ 32.

Definition session_partition (cityhash : bytes → Z) (id : bytes) (num_shards : Z) : Result Z :=
  let hash := fold_hash (cityhash id) in
  mask ← (if num_shards =? 0 then Panic else Ok (num_shards - 1));
  Ok (Z.land hash mask).

(** ** Shards to nodes *)

(** [Algorithm] has one case. *)
Inductive Algorithm : Set := SingleNode.

Definition Algorithm_rebalance (self : Algorithm) (c : Config) (nodes : list Node) (old : list Topology)
    : Result (list Topology) :=
  match self with
  | SingleNode =>
      node ← opt_unwrap (head nodes);
      Ok ((λ shard, MkTopology shard node []) <$> seqZ 0 (num_shards c))
  end.

Record Rebalancer := MkRebalancer { rb_config : Config; rb_algo : Algorithm }.

Definition rebalance (r : Rebalancer) (nodes : list Node) (old : list Topology) : Result (list Topology) :=
  Algorithm_rebalance (rb_algo r) (rb_config r) nodes old.

(** ** Migrations *)

(** [sort_by_key], which is stable. *)
Fixpoint insert_by_shard (t : Topology) (l : list Topology) : list Topology :=
  match l with
  | [] => [t]
  | t' :: l' => if shard t <=? shard t' then t :: l else t' :: insert_by_shard t l'
  end.

Definition sort_by_shard (l : list Topology) : list Topology := foldr insert_by_shard [] l.

(** The loop of [diff_topology]. *)
Fixpoint diff_loop (olds news : list Topology) : Result (list (Topology * Topology)) :=
  match olds, news with
  | old :: olds, new :: news =>
      if shard old =? shard new then
        diffs ← diff_loop olds news;
        Ok (if Topology_eq old new then diffs else (old, new) :: diffs)
      else Panic
  | _, _ => Ok []
  end.

Definition diff_topology (olds news : list Topology) : Result (list (Topology * Topology)) :=
  let olds := sort_by_shard olds in
  let news := sort_by_shard news in
  if (length olds =? length news)%nat then diff_loop olds news else Panic.

(** [ClusterState::shards_in_node] of a single node. *)
Definition shards_in_node (node : Node) (topology : list Topology) (uuid : Z) : Result (list Z) :=
  if uuid =? nd_uuid node
  then Ok (shard <$> List.filter (λ t, uuid =? nd_uuid (master t)) topology)
  else Panic.

(** ** Lemmas *)

Lemma fold_hash_range h : 0 ≤ fold_hash h < 2 ^ 32.
Proof. apply Z.mod_pos_bound. lia. Qed.

(** The [i]th word of 32 bits. *)
Definition word (i h : Z) : Z := (h `div` 2 ^ (32 * i)) `mod` 2 ^ 32.

Lemma word_spec i h n : 0 ≤ i → 0 ≤ n → Z.testbit (word i h) n = (n <? 32) && Z.testbit h (n + 32 * i).
Proof.
  intros Hi Hn. unfold word. rewrite <-Z.shiftr_div_pow2 by lia. destruct (Z.ltb_spec n 32).
  - rewrite Z.mod_pow2_bits_low, Z.shiftr_spec by lia. done.
  - by rewrite Z.mod_pow2_bits_high by lia.
Qed.

Lemma fold_hash_words h : fold_hash h = Z.lxor (Z.lxor (word 0 h) (word 2 h)) (Z.lxor (word 1 h) (word 3 h)).
Proof.
  apply Z.bits_inj'. intros n Hn. unfold fold_hash.
  change 0xFFFFFFFFFFFFFFFF with (Z.ones 64). change 0xFFFFFFFF with (Z.ones 32).
  rewrite !Z.lxor_spec, !word_spec by lia. destruct (Z.ltb_spec n 32); cbn [andb].
  - rewrite Z.mod_pow2_bits_low by lia.
    rewrite !Z.lxor_spec, !Z.land_spec, !Z.shiftr_spec, !Z.lxor_spec, !Z.land_spec, !Z.shiftr_spec by lia.
    rewrite !Z.testbit_ones_nonneg by lia.
    destruct (Z.ltb_spec n 32); [|lia]. destruct (Z.ltb_spec n 64); [|lia]. destruct (Z.ltb_spec (n + 32) 64); [|lia].
    rewrite !andb_true_r. do 2 f_equal; f_equal; lia.
  - by rewrite Z.mod_pow2_bits_high by lia.
Qed.

Lemma is_power_of_2_inv n : is_u32 n → is_power_of_2 n = true → ∃ k, 0 ≤ k < 32 ∧ n = 2 ^ k.
Proof.
  intros Hn Hp. apply is_power_of_2_spec in Hp as (k & Hk & ->); [|done]. exists k. split; [|done].
  split; [done|]. unfold is_u32 in Hn. apply (Z.pow_lt_mono_r_iff 2); lia.
Qed.

Lemma session_partition_mod cityhash id n :
  is_u32 n → is_power_of_2 n = true →
  session_partition cityhash id n = Ok (fold_hash (cityhash id) `mod` n).
Proof.
  intros Hn Hp. destruct (is_power_of_2_inv n Hn Hp) as (k & Hk & ->). unfold session_partition.
  destruct (Z.eqb_spec (2 ^ k) 0); [pose proof (Z.pow_pos_nonneg 2 k); lia|]. run.
  replace (2 ^ k - 1) with (Z.ones k) by (rewrite Z.ones_equiv; lia). by rewrite Z.land_ones by lia.
Qed.

Lemma insert_by_shard_perm t l : insert_by_shard t l ≡ₚ t :: l.
Proof.
  induction l as [|t' l IH]; cbn [insert_by_shard]; [done|]. case_match; [done|].
  rewrite IH. apply Permutation_swap.
Qed.

Lemma sort_by_shard_perm l : sort_by_shard l ≡ₚ l.
Proof. induction l as [|t l IH]; cbn; [done|]. by rewrite insert_by_shard_perm, IH. Qed.

Abbreviation by_shard := (Sorted (λ a b, shard a ≤ shard b)).

Lemma insert_by_shard_sorted t l : by_shard l → by_shard (insert_by_shard t l).
Proof.
  induction 1 as [|t' l Hl IH Hh]; cbn [insert_by_shard]; [by repeat constructor|].
  destruct (Z.leb_spec (shard t) (shard t')).
  - by repeat constructor.
  - constructor; [done|]. destruct l as [|t2 l]; cbn [insert_by_shard] in *; [constructor; lia|].
    case_match; constructor; [lia|]. by inversion Hh.
Qed.

Lemma sort_by_shard_sorted l : by_shard (sort_by_shard l).
Proof. induction l as [|t l IH]; cbn; [constructor|]. by apply insert_by_shard_sorted. Qed.

Lemma by_shard_shards l : by_shard l → Sorted Z.le (shard <$> l).
Proof. induction 1 as [|t l _ IH Hh]; cbn; constructor; [done|]. by inversion Hh; constructor. Qed.

(** The shards of a sorted list are determined by what they are. *)
Lemma sorted_shards_eq l l' :
  by_shard l → by_shard l' → shard <$> l ≡ₚ shard <$> l' → shard <$> l = shard <$> l'.
Proof. intros Hl Hl' Hp. apply (Sorted_unique Z.le); [by apply by_shard_shards..|done]. Qed.

Lemma diff_loop_spec olds news :
  length olds = length news →
  diff_loop olds news
  = if bool_decide (shard <$> olds = shard <$> news)
    then Ok (List.filter (λ p, negb (Topology_eq p.1 p.2)) (zip olds news)) else Panic.
Proof.
  revert news. induction olds as [|o olds IH]; intros [|n news] Hl; try done. cbn in Hl; simplify_eq.
  cbn [diff_loop fmap list_fmap zip]. rewrite IH by done.
  destruct (Z.eqb_spec (shard o) (shard n)) as [E|E].
  - destruct (decide (shard <$> olds = shard <$> news)).
    + rewrite !bool_decide_true; [|unfold fmap in *; congruence|done]. run. cbn [List.filter fst snd].
      by destruct (Topology_eq o n).
    + rewrite !bool_decide_false; [done|unfold fmap in *; congruence|done].
  - rewrite bool_decide_false; [done|congruence].
Qed.

Lemma diff_topology_eq olds news :
  diff_topology olds news
  = if bool_decide (shard <$> olds ≡ₚ shard <$> news)
    then Ok (List.filter (λ p, negb (Topology_eq p.1 p.2)) (zip (sort_by_shard olds) (sort_by_shard news)))
    else Panic.
Proof.
  unfold diff_topology.
  assert (∀ l, shard <$> sort_by_shard l ≡ₚ shard <$> l) as Hp by (intros l; by rewrite sort_by_shard_perm).
  destruct (Nat.eqb_spec (length (sort_by_shard olds)) (length (sort_by_shard news))) as [El|El].
  - rewrite diff_loop_spec by done.
    rewrite (bool_decide_ext (shard <$> sort_by_shard olds = shard <$> sort_by_shard news)
      (shard <$> olds ≡ₚ shard <$> news)); [done|]. split.
    + intros E. by rewrite <-Hp, E.
    + intros E. apply sorted_shards_eq; [apply sort_by_shard_sorted..|]. by rewrite !Hp.
  - rewrite bool_decide_false; [done|]. intros E%Permutation_length.
    pose proof (Permutation_length (Hp olds)). pose proof (Permutation_length (Hp news)).
    rewrite !length_fmap in *. lia.
Qed.

Lemma elem_of_zip_shards l l' o n :
  shard <$> l = shard <$> l' → NoDup (shard <$> l) →
  (o, n) ∈ zip l l' ↔ o ∈ l ∧ n ∈ l' ∧ shard o = shard n.
Proof.
  revert l'. induction l as [|x l IH]; intros [|x' l'] E Hd; try done; [by split; [intros ?%elem_of_nil|intros [?%elem_of_nil _]]|].
  injection E as E1 E. apply NoDup_cons in Hd as [Hx Hd]. cbn [zip zip_with]. rewrite !elem_of_cons, IH by done.
  split; [intros [[= -> ->]|(? & ? & ?)]; by auto|]. intros ([->|Ho] & [->|Hn] & Es); [by left| | |by right].
  - destruct Hx. change (shard x ∈ shard <$> l). rewrite Es. replace (shard <$> l) with (shard <$> l') by done. by apply list_elem_of_fmap_2.
  - destruct Hx. change (shard x ∈ shard <$> l). replace (shard x) with (shard o) by congruence. by apply list_elem_of_fmap_2.
Qed.

Lemma sorted_filter {A} (f : A → Z) P l : Sorted Z.le (f <$> l) → Sorted Z.le (f <$> List.filter P l).
Proof.
  intros Hs. apply StronglySorted_Sorted. apply Sorted_StronglySorted in Hs; [|intros ???; lia].
  induction l as [|x l IH]; [constructor|]. cbn [fmap list_fmap List.filter] in *.
  apply StronglySorted_inv in Hs as [Hs Hx]. specialize (IH Hs).
  destruct (P x); [|exact IH]. constructor; [exact IH|]. apply Forall_forall.
  intros z (y & -> & [Hy _]%list_elem_of_In%List.filter_In)%list_elem_of_fmap.
  rewrite Forall_forall in Hx. by apply Hx, list_elem_of_fmap_2, list_elem_of_In.
Qed.

(** ** Theorems *)

(** C36. A client always belongs to the same one of the shards of a broker: its number is
    the exclusive or of the four words of the hash of its identifier modulo the number
    of shards, which is a power of two.  Without a shard the subtraction panics. *)
Theorem session_partition_spec cityhash id n :
  is_u32 n → is_power_of_2 n = true →
  ∃ shard, session_partition cityhash id n = Ok shard ∧ 0 ≤ shard < n
    ∧ (let h := cityhash id in
       shard = Z.lxor (Z.lxor (word 0 h) (word 2 h)) (Z.lxor (word 1 h) (word 3 h)) `mod` n)
    ∧ session_partition cityhash id 0 = Panic.
Proof.
  intros Hn Hp. eexists. split; [by apply session_partition_mod|].
  destruct (is_power_of_2_inv n Hn Hp) as (k & Hk & ->).
  pose proof (Z.pow_pos_nonneg 2 k). split; [apply Z.mod_pos_bound; lia|]. split; [by rewrite fold_hash_words|done].
Qed.

Lemma session_partition_spec_witness :
  ∃ shard, session_partition (λ s, Z.of_nat (length s)) [97; 98] 8 = Ok shard ∧ 0 ≤ shard < 8
    ∧ (let h := 2 in shard = Z.lxor (Z.lxor (word 0 h) (word 2 h)) (Z.lxor (word 1 h) (word 3 h)) `mod` 8)
    ∧ session_partition (λ s, Z.of_nat (length s)) [97; 98] 0 = Panic.
Proof. by apply (session_partition_spec (λ s, Z.of_nat (length s)) [97; 98] 8). Defined.

(** Rebalancing puts every shard on the first node, once, and the node hosts them
    all; without a node it panics. *)
Theorem rebalance_covers r node nodes old :
  ∃ topology, rebalance r (node :: nodes) old = Ok topology
    ∧ shards_in_node node topology (nd_uuid node) = Ok (seqZ 0 (num_shards (rb_config r)))
    ∧ Forall (λ t, master t = node ∧ replicas t = []) topology
    ∧ rebalance r [] old = Panic.
Proof.
  destruct r as [c []]. unfold rebalance, Algorithm_rebalance, shards_in_node. cbn [rb_algo rb_config head].
  eexists. split; [done|]. rewrite Z.eqb_refl. split; [|split; [|done]].
  - f_equal. induction (seqZ 0 (num_shards c)) as [|x l IH]; [done|]. cbn [fmap list_fmap List.filter master].
    rewrite Z.eqb_refl. cbn [fmap list_fmap shard]. f_equal. exact IH.
  - apply Forall_fmap, Forall_true. done.
Qed.

(** [diff_topology] lists exactly the shards whose topology has changed, by their
    numbers, each with the old and the new one; it panics unless both have the same
    shards. *)
Theorem diff_topology_migrations olds news :
  NoDup (shard <$> olds) →
  (shard <$> olds ≡ₚ shard <$> news →
   ∃ diffs, diff_topology olds news = Ok diffs ∧ Sorted Z.le ((λ p, shard p.1) <$> diffs)
     ∧ ∀ o n, (o, n) ∈ diffs ↔ o ∈ olds ∧ n ∈ news ∧ shard o = shard n ∧ Topology_eq o n = false)
  ∧ (¬ shard <$> olds ≡ₚ shard <$> news → diff_topology olds news = Panic).
Proof.
  intros Hd. rewrite diff_topology_eq. split; intros Hp; [|by rewrite bool_decide_false].
  rewrite bool_decide_true by done. eexists. split; [done|].
  assert (shard <$> sort_by_shard olds = shard <$> sort_by_shard news) as E.
  { apply sorted_shards_eq; [apply sort_by_shard_sorted..|]. by rewrite !sort_by_shard_perm. }
  split.
  - apply sorted_filter. replace ((λ p, shard p.1) <$> zip (sort_by_shard olds) (sort_by_shard news))
      with (shard <$> sort_by_shard olds).
    + apply by_shard_shards, sort_by_shard_sorted.
    + rewrite <-(fst_zip (sort_by_shard olds) (sort_by_shard news)) at 1; [by rewrite <-list_fmap_compose|].
      apply (f_equal length) in E. rewrite !length_fmap in E. lia.
  - intros o n. rewrite list_elem_of_In, List.filter_In, <-list_elem_of_In, elem_of_zip_shards;
      [|done|by rewrite sort_by_shard_perm]. rewrite !sort_by_shard_perm, negb_true_iff. cbn [fst snd]. tauto.
Qed.

Definition ex_node (uuid : Z) : Node := MkNode uuid [] 1 (SA_V4 [0; 0; 0; 0] 1883).

Lemma diff_topology_migrations_witness :
  let olds := [MkTopology 1 (ex_node 5) []; MkTopology 0 (ex_node 5) []] in
  let news := [MkTopology 0 (ex_node 5) []; MkTopology 1 (ex_node 6) []] in
  (shard <$> olds ≡ₚ shard <$> news →
   ∃ diffs, diff_topology olds news = Ok diffs ∧ Sorted Z.le ((λ p, shard p.1) <$> diffs)
     ∧ ∀ o n, (o, n) ∈ diffs ↔ o ∈ olds ∧ n ∈ news ∧ shard o = shard n ∧ Topology_eq o n = false)
  ∧ (¬ shard <$> olds ≡ₚ shard <$> news → diff_topology olds news = Panic).
Proof.
  apply (diff_topology_migrations [MkTopology 1 (ex_node 5) []; MkTopology 0 (ex_node 5) []]).
  by apply (bool_decide_unpack _).
Defined.

Example ex_diff_topology :
  diff_topology [MkTopology 1 (ex_node 5) []; MkTopology 0 (ex_node 5) []]
    [MkTopology 0 (ex_node 5) []; MkTopology 1 (ex_node 6) []]
  = Ok [(MkTopology 1 (ex_node 5) [], MkTopology 1 (ex_node 6) [])].
Proof. done. Qed.
