(* ===== verification/Subscription.v ===== *)
(** * Subscriptions (src/src/v5/mod.rs)

    [Subscription]: one client's interest in a topic filter, its equality and
    order, and the QoS at which a message is routed to it. *)
From S2P Require Import Prelude Errors Utf8 V5Header V5Publish V5Subscribe SortedVec.
Local Open Scope Z_scope.

Record Subscription := MkSubscription {
  ss_topic_filter : rstring;
  ss_client_id : rstring;
  ss_shard_id : Z;
  ss_subscription_id : option Z;
  ss_qos : QoS;
  ss_no_local : bool;
  ss_retain_as_published : bool;
  ss_retain_forward_rule : RetainForwardRule;
}.

(** [PartialEq for Subscription]: the shard is left out. *)
Definition Subscription_eq (a b : Subscription) : bool :=
  bool_decide (ss_topic_filter a = ss_topic_filter b)
  && bool_decide (ss_client_id a = ss_client_id b)
  && bool_decide (ss_subscription_id a = ss_subscription_id b)
  && bool_decide (ss_qos a = ss_qos b)
  && eqb (ss_no_local a) (ss_no_local b)
  && eqb (ss_retain_as_published a) (ss_retain_as_published b)
  && bool_decide (ss_retain_forward_rule a = ss_retain_forward_rule b).

(** [Ord for Subscription]: the client, then the filter. *)
Definition Subscription_cmp (a b : Subscription) : comparison :=
  match str_cmp (ss_client_id a) (ss_client_id b) with
  | Eq => str_cmp (ss_topic_filter a) (ss_topic_filter b)
  | c => c
  end.

(** [cmp::min] on [QoS], in the order of the variants. *)
Definition QoS_min (a b : QoS) : QoS := if QoS_into_u8 b <? QoS_into_u8 a then b else a.

Definition route_qos (s : Subscription) (publish : Publish) (mqtt_maximum_qos : Z) : Result QoS :=
  server_qos ← res_unwrap (QoS_try_from mqtt_maximum_qos);
  Ok (QoS_min (QoS_min server_qos (publish_qos publish)) (ss_qos s)).

#[export] Instance Subscription_cmp_laws : CmpLaws Subscription_cmp.
Proof.
  unfold Subscription_cmp. split.
  - intros x y. rewrite (cmp_opp (ss_client_id x)).
    destruct (str_cmp (ss_client_id x) _); cbn; [apply cmp_opp|done..].
  - intros x y z. destruct (str_cmp (ss_client_id x) (ss_client_id y)) eqn:E1; [| |done].
    + rewrite (cmp_eq_l (ss_client_id x) (ss_client_id y)) by done.
      destruct (str_cmp (ss_client_id y) _); [apply cmp_lt_trans|done..].
    + intros _. destruct (str_cmp (ss_client_id y) (ss_client_id z)) eqn:E2; [| |done]; intros _.
      * by rewrite <-(cmp_eq_r str_cmp _ _ (ss_client_id x) E2), E1.
      * by rewrite (cmp_lt_trans _ _ _ E1 E2).
  - intros x y z. destruct (str_cmp (ss_client_id x) (ss_client_id y)) eqn:E1; [|done|done].
    intros E2. rewrite (cmp_eq_l _ _ (ss_client_id z) E1). by rewrite (cmp_eq_l _ _ (ss_topic_filter z) E2).
Qed.

(** Two subscriptions compare equal exactly when they have the same client and
    filter, the pair that is unique in the cluster. *)
Lemma Subscription_cmp_eq a b :
  Subscription_cmp a b = Eq ↔
  ss_client_id a = ss_client_id b ∧ ss_topic_filter a = ss_topic_filter b.
Proof.
  unfold Subscription_cmp. rewrite <-!str_cmp_eq.
  destruct (str_cmp (ss_client_id a) _); naive_solver.
Qed.

Lemma Subscription_eq_cmp a b : Subscription_eq a b = true → Subscription_cmp a b = Eq.
Proof.
  unfold Subscription_eq. rewrite !andb_true_iff, !bool_decide_eq_true, Subscription_cmp_eq. tauto.
Qed.

Lemma Subscription_eq_refl a : Subscription_eq a a = true.
Proof.
  unfold Subscription_eq. rewrite !andb_true_iff, !bool_decide_eq_true, !eqb_true_iff. done.
Qed.

(** ** Theorems *)

(** A message is routed at the lowest of three levels: the server's maximum,
    the publisher's QoS and the subscriber's; the server's maximum must be a QoS
    or the routing panics. *)
Theorem route_qos_min s publish mqtt_maximum_qos :
  match route_qos s publish mqtt_maximum_qos with
  | Ok q => QoS_into_u8 q = Z.min (Z.min mqtt_maximum_qos (QoS_into_u8 (publish_qos publish)))
                                 (QoS_into_u8 (ss_qos s))
  | Panic => mqtt_maximum_qos < 0 ∨ 2 < mqtt_maximum_qos
  | _ => False
  end.
Proof.
  unfold route_qos. pose proof (QoS_try_from_post mqtt_maximum_qos) as Hp.
  destruct (QoS_try_from mqtt_maximum_qos) as [q| | |] eqn:E; cbn in Hp; [|cbn|done|done].
  - run. rewrite <-Hp. by destruct q, (publish_qos publish), (ss_qos s).
  - destruct (decide (mqtt_maximum_qos < 0 ∨ 2 < mqtt_maximum_qos)) as [|Hn]; [done|exfalso].
    assert (mqtt_maximum_qos = 0 ∨ mqtt_maximum_qos = 1 ∨ mqtt_maximum_qos = 2)
      as [->|[->| ->]] by lia; by vm_compute in E.
Qed.
