(* ===== verification/Message.v ===== *)
(** * Messages between shards (src/src/broker/message.rs)

    [Message]: what sessions and shards of a node send one another. *)
From S2P Require Import Prelude Errors Utf8 Types V5Header V5PubAck V5ConnAck V5Publish V5Packet Queues.
Local Open Scope Z_scope.

Inductive Message : Type :=
| Msg_ClientAck (packet : Packet)
| Msg_Packet (out_seqno : Z) (packet_id : option Z) (publish : Publish)
| Msg_Index (src_client_id : rstring) (packet_id : Z)
| Msg_Routed (src_shard_id : Z) (client_id : rstring) (inp_seqno out_seqno : Z)
    (publish : Publish) (ack_needed : bool)
| Msg_LocalAck (shard_id last_acked : Z).

Definition new_ping_resp : Message := Msg_ClientAck Pkt_PingResp.
Definition new_conn_ack (connack : ConnAck) : Message := Msg_ClientAck (Pkt_ConnAck connack).
Definition new_pub_ack (puback : Pub) : Message := Msg_ClientAck (Pkt_PubAck puback).

(** [new_routed(sess, ..)]: of the session its shard is used. *)
Definition new_routed (sess_shard_id seqno : Z) (publish : Publish) (client_id : rstring)
    (ack_needed : bool) : Message :=
  Msg_Routed sess_shard_id client_id seqno 0 publish ack_needed.

Definition new_index (src_client_id : rstring) (packet_id : Z) : Message :=
  Msg_Index src_client_id packet_id.

(** The methods below are [unreachable!()] for the variants they do not list. *)
Definition into_packet (pktid : option Z) (m : Message) : Result Message :=
  match m with
  | Msg_Routed _ _ _ out_seqno publish _ =>
      let publish := match pktid with
                     | Some packet_id => Publish_set_packet_id publish packet_id
                     | None => publish
                     end in
      Ok (Msg_Packet out_seqno pktid publish)
  | _ => Panic
  end.

Definition to_v5_packet (m : Message) : Result Packet :=
  match m with
  | Msg_ClientAck packet => Ok packet
  | Msg_Packet _ _ publish => Ok (Pkt_Publish publish)
  | _ => Panic
  end.

Definition to_out_seqno (m : Message) : Result Z :=
  match m with
  | Msg_Routed _ _ _ out_seqno _ _ | Msg_Packet out_seqno _ _ => Ok out_seqno
  | _ => Panic
  end.

Definition to_packet_id (m : Message) : Result Z :=
  match m with Msg_Packet _ (Some packet_id) _ => Ok packet_id | _ => Panic end.

Definition as_client_id (m : Message) : Result rstring :=
  match m with Msg_Routed _ client_id _ _ _ _ => Ok client_id | _ => Panic end.

Definition to_qos (m : Message) : Result QoS :=
  match m with Msg_Routed _ _ _ _ publish _ => Ok (publish_qos publish) | _ => Panic end.

(** *** The message queue *)

Abbreviation QueueMsg := (QueueStatus Message).
Abbreviation MsgTx := (QueueTx Message).
Abbreviation MsgRx := (QueueRx Message).

Definition MsgTx_try_sends (msgs : list Message) (t : MsgTx) : QueueMsg * MsgTx := try_sends msgs t.
Definition MsgTx_count (t : MsgTx) : nat := tx_count t.
Definition MsgTx_drop (t : MsgTx) : bool := PktTx_drop t.
Definition MsgRx_try_recvs (r : MsgRx) : Result (QueueMsg * MsgRx) := try_recvs r.
Definition msg_channel (size : nat) : MsgTx * MsgRx := pkt_channel size.

(** ** Messages that can go to a socket *)

(** [m] stands for the packet [p]. *)
Definition carries (m : Message) (p : Packet) : Prop := to_v5_packet m = Ok p.

Lemma mapM_carries msgs pkts : mapM_out to_v5_packet msgs = Ok pkts ↔ Forall2 carries msgs pkts.
Proof. split; [apply mapM_out_Ok_Forall2|apply mapM_out_Forall2]. Qed.

Definition sendable (m : Message) : Prop := is_Ok (to_v5_packet m).

(** The packets that messages stand for. *)
Definition pkts_of (msgs : list Message) : list Packet :=
  omap (λ m, match to_v5_packet m with Ok p => Some p | _ => None end) msgs.

Lemma pkts_of_app ms ns : pkts_of (ms ++ ns) = pkts_of ms ++ pkts_of ns.
Proof. apply omap_app. Qed.

Lemma pkts_of_cons m p ms : carries m p → pkts_of (m :: ms) = p :: pkts_of ms.
Proof. unfold carries, pkts_of. cbn. by intros ->. Qed.

Lemma sendable_pkts msgs : Forall sendable msgs → mapM_out to_v5_packet msgs = Ok (pkts_of msgs).
Proof.
  intros H. apply mapM_carries. induction H as [|m msgs [p Hp] _ IH]; [constructor|].
  rewrite (pkts_of_cons m p) by done. by constructor.
Qed.

Lemma sendable_length msgs : Forall sendable msgs → length (pkts_of msgs) = length msgs.
Proof.
  induction 1 as [|m msgs [p Hp] _ IH]; [done|]. rewrite (pkts_of_cons m p) by done. cbn. by rewrite IH.
Qed.
