(* ===== verification/TopicTrie.v ===== *)
(** * Topic tries (src/src/broker/ttrie.rs)

    The copy-on-write tries of subscriptions, indexed by topic filter and matched
    with topic names, and of retained messages, indexed by topic name and matched
    with filters.  A node is a value: the code clones the path it changes, so the
    old root stays as it was.  The first sections model the nodes and prove what
    the operations do to the map from paths to values that a trie stands for. *)
From S2P Require Import Prelude Errors Utf8 Types V5Header V5Publish V5Subscribe SortedVec Subscription.

Definition hash : rstring := [35%Z].
Definition plus : rstring := [43%Z].

Inductive Node (V : Type) : Type :=
| Root (children : list (Node V))
| Child (name : rstring) (children : list (Node V)) (values : list V).
Arguments Root {V} children.
Arguments Child {V} name children values.

Section node.
Context {V : Type} (veq : V → V → bool) (vcmp : V → V → comparison).
Implicit Types (n child : Node V) (v : V) (l : rstring) (ls p : list rstring).

Definition new_node (name : rstring) : Node V := Child name [] [].

Definition as_name n : Result rstring :=
  match n with Child name _ _ => Ok name | Root _ => Panic end.

Definition is_empty n : bool :=
  match n with
  | Child _ children values => (length children =? 0)%nat && (length values =? 0)%nat
  | Root _ => false
  end.

(** [match &mut cow_node { Root { children } => children, Child { children, .. } .. }] *)
Definition node_children n : list (Node V) :=
  match n with Root children => children | Child _ children _ => children end.

Definition set_children n (children : list (Node V)) : Node V :=
  match n with
  | Root _ => Root children
  | Child name _ values => Child name children values
  end.

(** (first, repeat) *)
Definition insert_value n v : Result (Node V * bool * bool) :=
  match n with
  | Child name children values =>
      if (length values =? 0)%nat then Ok (Child name children (values ++ [v]), true, false)
      else
        '(found, off) ← binary_search_by (λ x, Ok (vcmp x v)) values;
        if found : bool then Ok (n, false, true)
        else
          values ← vec_insert off v values;
          Ok (Child name children values, false, false)
  | Root _ => Panic
  end.

(** (first,) *)
Definition replace_value n v : Result (Node V * bool) :=
  match n with
  | Child name children values => Ok (Child name children [v], (length values =? 0)%nat)
  | Root _ => Panic
  end.

(** (last, missing) *)
Definition remove_value n v : Result (Node V * bool * bool) :=
  match n with
  | Child name children values =>
      match values with
      | [] => Panic
      | [v0] => if veq v0 v then Ok (Child name children [], true, false) else Ok (n, false, true)
      | _ =>
          '(found, off) ← binary_search_by (λ x, Ok (vcmp x v)) values;
          if found : bool then
            '(_, values) ← vec_remove off values;
            Ok (Child name children values, false, false)
          else Ok (n, false, true)
      end
  | Root _ => Panic
  end.

(** (missing,) *)
Definition remove_topic n : Result (Node V * bool) :=
  match n with
  | Child name children values =>
      if (length values =? 1)%nat then Ok (Child name children [], false) else Panic
  | Root _ => Panic
  end.

(** [children.binary_search_by_key(&in_level, |n| n.as_name())] *)
Definition search_level (in_level : rstring) (children : list (Node V)) : Result (bool * nat) :=
  binary_search_by (λ n, name ← as_name n; Ok (str_cmp name in_level)) children.

(** (root, first, repeat) *)
Fixpoint sub ls v n : Result (Node V * bool * bool) :=
  match ls with
  | in_level :: ls =>
      let children := node_children n in
      '(found, off) ← search_level in_level children;
      '(child, children) ←
        (if found : bool then vec_remove off children else Ok (new_node in_level, children));
      '(child, first, repeat) ← sub ls v child;
      children ← vec_insert off child children;
      Ok (set_children n children, first, repeat)
  | [] => insert_value n v
  end.

(** (root, last, missing) *)
Fixpoint unsub ls v n : Result (option (Node V) * bool * bool) :=
  match ls with
  | in_level :: ls =>
      let children := node_children n in
      '(found, off) ← search_level in_level children;
      if found : bool then
        '(child, children) ← vec_remove off children;
        '(child, last, miss) ← unsub ls v child;
        match child with
        | Some child =>
            children ← vec_insert off child children;
            Ok (Some (set_children n children), last, miss)
        | None =>
            let n := set_children n children in
            if is_empty n then Ok (None, last, miss) else Ok (Some n, last, miss)
        end
      else Ok (Some n, false, true)
  | [] =>
      '(n, last, miss) ← remove_value n v;
      if is_empty n then Ok (None, last, miss) else Ok (Some n, last, miss)
  end.

(** (root, first) *)
Fixpoint set ls v n : Result (Node V * bool) :=
  match ls with
  | in_level :: ls =>
      let children := node_children n in
      '(found, off) ← search_level in_level children;
      '(child, children) ←
        (if found : bool then vec_remove off children else Ok (new_node in_level, children));
      '(child, first) ← set ls v child;
      children ← vec_insert off child children;
      Ok (set_children n children, first)
  | [] => replace_value n v
  end.

(** (root, missing) *)
Fixpoint remove ls n : Result (option (Node V) * bool) :=
  match ls with
  | in_level :: ls =>
      let children := node_children n in
      '(found, off) ← search_level in_level children;
      if found : bool then
        '(child, children) ← vec_remove off children;
        '(child, missing) ← remove ls child;
        match child with
        | Some child =>
            children ← vec_insert off child children;
            Ok (Some (set_children n children), missing)
        | None =>
            let n := set_children n children in
            if is_empty n then Ok (None, missing) else Ok (Some n, missing)
        end
      else Ok (Some n, true)
  | [] =>
      '(n, missing) ← remove_topic n;
      if is_empty n then Ok (None, missing) else Ok (Some n, missing)
  end.

(** (level_match, multi_level_match) *)
Definition match_level (in_lvl trie_level : rstring) : bool * bool :=
  if bool_decide (in_lvl = hash) then (true, true)
  else if bool_decide (trie_level = hash) then (true, true)
  else if bool_decide (in_lvl = plus) then (true, false)
  else if bool_decide (trie_level = plus) then (true, false)
  else if bool_decide (in_lvl = trie_level) then (true, false)
  else (false, false).

(** [children.iter().filter(|child| !matches!(child.as_name(), "#" | "+"))] *)
Definition no_wildcards (children : list (Node V)) : Result (list (Node V)) :=
  foldM (λ acc child,
    name ← as_name child;
    Ok (if bool_decide (name = hash) || bool_decide (name = plus) then acc else acc ++ [child]))
    [] children.

Fixpoint match_topic (ls : list rstring) (dollar : bool) n : Result (option (list V)) :=
  match ls with
  | [] => match n with Child _ _ values => Ok (Some values) | Root _ => Ok None end
  | in_level :: ls =>
      children ←
        match n with
        | Root children => if dollar then no_wildcards children else Ok children
        | Child _ children _ => Ok children
        end;
      acc ← foldM (λ acc child,
        name ← as_name child;
        match match_level in_level name with
        | (_, true) =>
            match child with Child _ _ values => Ok (acc ++ values) | Root _ => Ok acc end
        | (true, _) =>
            vals ← match_topic ls dollar child;
            match vals with Some values => Ok (acc ++ values) | None => Ok acc end
        | (false, false) => Ok acc
        end) [] children;
      Ok (Some acc)
  end.

(** ** What a trie stands for

    [get p n]: the values at the path [p] below [n]. *)
Definition node_name n : rstring := match n with Child name _ _ => name | Root _ => [] end.
Definition node_values n : list V := match n with Child _ _ values => values | Root _ => [] end.
Definition is_child n : bool := if n is Child _ _ _ then true else false.

Definition find_child l (children : list (Node V)) : option (Node V) :=
  List.find (λ c, bool_decide (node_name c = l)) children.

Fixpoint node_at p n : option (Node V) :=
  match p with
  | [] => Some n
  | l :: p => match find_child l (node_children n) with Some c => node_at p c | None => None end
  end.

Definition get p n : list V := from_option node_values [] (node_at p n).

(** Children are in strict order of their names, values in strict order, and no
    child is empty. *)
Definition names_sorted (children : list (Node V)) : Prop := sorted_by str_cmp node_name children.
Definition vals_sorted (values : list V) : Prop := sorted_by vcmp id values.

Inductive wf_child : Node V → Prop :=
| Wf_child name children values :
    Forall wf_child children → names_sorted children → vals_sorted values →
    is_empty (Child name children values) = false → wf_child (Child name children values).

Definition wf_body n : Prop :=
  Forall wf_child (node_children n) ∧ names_sorted (node_children n) ∧ vals_sorted (node_values n).

Definition wf_root n : Prop := is_child n = false ∧ wf_body n.

Lemma wf_child_body n : wf_child n → wf_body n ∧ is_child n = true ∧ is_empty n = false.
Proof using Type. by intros []. Qed.

Lemma wf_body_child n : wf_body n → is_child n = true → is_empty n = false → wf_child n.
Proof using Type. destruct n; [done|]. intros (? & ? & ?) _ ?. by constructor. Qed.

Lemma wf_new_node l : wf_body (new_node l).
Proof using Type. split_and!; constructor. Qed.

Lemma get_new_node p l : get p (new_node l) = [].
Proof using Type. by destruct p. Qed.

Lemma get_cons l p n :
  get (l :: p) n = from_option (get p) [] (find_child l (node_children n)).
Proof using Type. unfold get; cbn [node_at]. by destruct (find_child l _). Qed.

Lemma find_child_put l l' xs c ys :
  cut_at str_cmp node_name l xs ys → node_name c = l →
  find_child l' (xs ++ c :: ys) = if decide (l' = l) then Some c else find_child l' (xs ++ ys).
Proof using Type.
  intros [Hx _] <-. induction Hx as [|x xs Hx Hxs IH]; cbn [app find_child List.find].
  - destruct (decide (l' = node_name c)) as [->|]; [by rewrite bool_decide_eq_true_2|].
    by rewrite bool_decide_eq_false_2.
  - unfold find_child in *; cbn [List.find]. case_bool_decide as Hn; [|done].
    destruct (decide (l' = node_name c)) as [E|]; [|done].
    rewrite Hn, E in Hx. by rewrite (proj2 (str_cmp_eq _ _)) in Hx.
Qed.

Lemma find_child_cut l xs ys :
  cut_at str_cmp node_name l xs ys → find_child l (xs ++ ys) = None.
Proof using Type.
  intros [Hx Hy]. destruct (find_child l (xs ++ ys)) as [c|] eqn:E; [exfalso|done].
  apply find_some in E as [Hc%list_elem_of_In%elem_of_app Hn%bool_decide_eq_true]. destruct Hc as [Hc|Hc].
  - eapply Forall_forall in Hx; [|exact Hc]. by rewrite Hn, (proj2 (str_cmp_eq _ _)) in Hx.
  - eapply Forall_forall in Hy; [|exact Hc]. by rewrite Hn, (proj2 (str_cmp_eq _ _)) in Hy.
Qed.

(** The search for a level cuts the children at it. *)
Lemma search_level_cases l n :
  wf_body n →
  (∃ xs c ys, node_children n = xs ++ c :: ys ∧ node_name c = l ∧ wf_child c
     ∧ cut_at str_cmp node_name l xs ys ∧ find_child l (node_children n) = Some c
     ∧ search_level l (node_children n) = Ok (true, length xs))
  ∨ (∃ xs ys, node_children n = xs ++ ys
     ∧ cut_at str_cmp node_name l xs ys ∧ find_child l (node_children n) = None
     ∧ search_level l (node_children n) = Ok (false, length xs)).
Proof using Type.
  intros (Hc & Hn & _).
  destruct (search_cases str_cmp node_name l (node_children n)
    (λ n, name ← as_name n; Ok (str_cmp name l))) as [(xs & c & ys & E & Hl & Hcut & Hs)|(xs & ys & E & Hcut & Hs)].
  - intros x Hx. eapply Forall_forall in Hc; [|exact Hx]. by destruct Hc.
  - done.
  - left. apply str_cmp_eq in Hl. exists xs, c, ys. split_and!; try done.
    + rewrite E, Forall_app, Forall_cons in Hc. tauto.
    + rewrite E, (find_child_put l) by done. by destruct (decide (l = l)).
  - right. exists xs, ys. split_and!; try done. rewrite E. by apply find_child_cut.
Qed.

(** ** Updating the values at a path

    [sub] and [set] walk down to the path, creating nodes, and apply one function
    to the node there; [unsub] and [remove] do the same without creating nodes and
    drop the nodes that become empty. *)
Fixpoint update_at {R} (f : Node V → Result (Node V * R)) ls n : Result (Node V * R) :=
  match ls with
  | in_level :: ls =>
      let children := node_children n in
      '(found, off) ← search_level in_level children;
      '(child, children) ←
        (if found : bool then vec_remove off children else Ok (new_node in_level, children));
      '(child, r) ← update_at f ls child;
      children ← vec_insert off child children;
      Ok (set_children n children, r)
  | [] => f n
  end.

Fixpoint prune_at {R} (f : Node V → Result (Node V * R)) (miss : R) ls n
    : Result (option (Node V) * R) :=
  match ls with
  | in_level :: ls =>
      let children := node_children n in
      '(found, off) ← search_level in_level children;
      if found : bool then
        '(child, children) ← vec_remove off children;
        '(child, r) ← prune_at f miss ls child;
        match child with
        | Some child =>
            children ← vec_insert off child children;
            Ok (Some (set_children n children), r)
        | None =>
            let n := set_children n children in
            if is_empty n then Ok (None, r) else Ok (Some n, r)
        end
      else Ok (Some n, miss)
  | [] => '(n, r) ← f n; if is_empty n then Ok (None, r) else Ok (Some n, r)
  end.

Lemma sub_update ls v n :
  sub ls v n = ('(n, (first, repeat)) ←
    update_at (λ n, '(n, a, b) ← insert_value n v; Ok (n, (a, b))) ls n; Ok (n, first, repeat)).
Proof using Type.
  revert n; induction ls as [|l ls IH]; intros n; cbn [sub update_at].
  - by destruct (insert_value n v) as [[[? ?] ?]| | |].
  - destruct (search_level _ _) as [[found off]| | |]; run; try done.
    destruct (if found then _ else _) as [[child children]| | |]; run; try done. rewrite IH.
    destruct (update_at _ _ _) as [[child' [a b]]| | |]; run; try done.
    by destruct (vec_insert _ _ _).
Qed.

Lemma set_update ls v n : set ls v n = update_at (λ n, replace_value n v) ls n.
Proof using Type.
  revert n; induction ls as [|l ls IH]; intros n; cbn [set update_at]; [done|].
  destruct (search_level _ _) as [[found off]| | |]; run; try done.
  destruct (if found then _ else _) as [[child children]| | |]; run; try done. by rewrite IH.
Qed.

Lemma unsub_prune ls v n :
  unsub ls v n = ('(n, (last, miss)) ←
    prune_at (λ n, '(n, a, b) ← remove_value n v; Ok (n, (a, b))) (false, true) ls n;
    Ok (n, last, miss)).
Proof using Type.
  revert n; induction ls as [|l ls IH]; intros n; cbn [unsub prune_at].
  - destruct (remove_value n v) as [[[n' a] b]| | |]; run; try done. by destruct (is_empty n').
  - destruct (search_level _ _) as [[[] off]| | |]; run; try done.
    destruct (vec_remove _ _) as [[child children]| | |]; run; try done. rewrite IH.
    destruct (prune_at _ _ _ _) as [[[child'|] [a b]]| | |]; run; try done.
    + by destruct (vec_insert _ _ _).
    + by destruct (is_empty _).
Qed.

Lemma remove_prune ls n : remove ls n = prune_at remove_topic true ls n.
Proof using Type.
  revert n; induction ls as [|l ls IH]; intros n; cbn [remove prune_at]; [done|].
  destruct (search_level _ _) as [[[] off]| | |]; run; try done.
  destruct (vec_remove _ _) as [[child children]| | |]; run; try done. by rewrite IH.
Qed.

(** Same constructor, same name. *)
Definition same_kind n n' : Prop := is_child n = is_child n' ∧ node_name n = node_name n'.

Lemma set_children_kind n cs : same_kind n (set_children n cs).
Proof using Type. by destruct n. Qed.

Lemma set_children_children n cs : node_children (set_children n cs) = cs.
Proof using Type. by destruct n. Qed.

Lemma set_children_values n cs : node_values (set_children n cs) = node_values n.
Proof using Type. by destruct n. Qed.

Lemma set_children_id n : set_children n (node_children n) = n.
Proof using Type. by destruct n. Qed.

Lemma set_children_not_empty n cs : cs ≠ [] → is_empty (set_children n cs) = false.
Proof using Type. by destruct n, cs. Qed.

(** Replacing or dropping the child at a level. *)
Lemma wf_body_put l n xs c ys :
  wf_body n → names_sorted (xs ++ ys) → Forall wf_child (xs ++ ys) →
  cut_at str_cmp node_name l xs ys → wf_child c → node_name c = l →
  wf_body (set_children n (xs ++ c :: ys)).
Proof using Type.
  intros (_ & _ & Hv) Hs Hxy Hcut Hc Hl.
  unfold wf_body. rewrite set_children_children, set_children_values. split_and!; [|by eapply sorted_put; [apply _|..]; rewrite ?Hl; [|apply (cmp_refl _)|]|done].
  apply Forall_app in Hxy as [? ?]. by apply Forall_app; split; [|constructor].
Qed.

Lemma wf_body_cut n xs c ys :
  wf_body n → node_children n = xs ++ c :: ys →
  names_sorted (xs ++ ys) ∧ Forall wf_child (xs ++ ys) ∧ wf_child c.
Proof using Type.
  intros (Hc & Hs & _) E. rewrite E in *. split; [by eapply sorted_drop|].
  rewrite Forall_app, Forall_cons in Hc. rewrite Forall_app. tauto.
Qed.

Lemma get_put l p n xs c ys :
  cut_at str_cmp node_name l xs ys → node_name c = l →
  get p (set_children n (xs ++ c :: ys)) =
  match p with
  | [] => node_values n
  | l' :: p' => if decide (l' = l) then get p' c else get p (set_children n (xs ++ ys))
  end.
Proof using Type.
  intros Hcut Hl. destruct p as [|l' p]; [apply set_children_values|].
  rewrite !get_cons, !set_children_children, (find_child_put l) by done. by destruct (decide (l' = l)).
Qed.

Section update.
Context {R : Type} (f : Node V → Result (Node V * R)) (g : list V → list V * R).
Context (Hf : ∀ name cs vs, vals_sorted vs →
  f (Child name cs vs) = Ok (Child name cs (g vs).1, (g vs).2)
  ∧ vals_sorted (g vs).1 ∧ (g vs).1 ≠ []).

Lemma update_at_spec ls n :
  wf_body n → (ls = [] → is_child n = true) →
  ∃ n', update_at f ls n = Ok (n', (g (get ls n)).2) ∧ wf_body n' ∧ same_kind n n'
    ∧ is_empty n' = false
    ∧ ∀ p, get p n' = if decide (p = ls) then (g (get ls n)).1 else get p n.
Proof using Hf.
  revert n; induction ls as [|l ls IH]; intros n Hn Hk; cbn [update_at].
  { destruct n as [|name cs vs]; [by specialize (Hk eq_refl)|].
    destruct Hn as (Hc & Hs & Hv). destruct (Hf name cs vs Hv) as (-> & Hv' & Hne). cbn [get node_at from_option node_values].
    eexists; split; [done|]. split; [done|]. split; [done|]. split.
    { cbn. destruct (g vs).1; [done|]. by rewrite andb_false_r. }
    intros [|l p]; [done|]. by rewrite !get_cons. }
  destruct (search_level_cases l n Hn) as
    [(xs & c & ys & E & Hl & Hc & Hcut & Hfind & ->)|(xs & ys & E & Hcut & Hfind & ->)]; run.
  - destruct (wf_body_cut n xs c ys Hn E) as (Hs & Hxy & _).
    rewrite E, vec_remove_app; run.
    destruct (wf_child_body c Hc) as (Hcb & Hck & _).
    destruct (IH c Hcb ltac:(done)) as (c' & -> & Hb' & [Hk' Hn'] & He' & Hg); run.
    rewrite vec_insert_app; run. rewrite get_cons, Hfind; cbn [from_option].
    assert (wf_child c') as Hc' by (apply wf_body_child; congruence).
    assert (node_name c' = l) as Hl' by congruence.
    eexists; split; [done|]. split; [by eapply wf_body_put|]. split; [apply set_children_kind|].
    split; [apply set_children_not_empty; by destruct xs|].
    intros p. rewrite (get_put l) by done.
    destruct p as [|l' p]; [by rewrite decide_False|].
    destruct (decide (l' = l)) as [->|Hne].
    + rewrite Hg, (get_cons l p n), Hfind. cbn [from_option].
      destruct (decide (p = ls)) as [->|]; [by rewrite decide_True|by rewrite decide_False by congruence].
    + rewrite decide_False by congruence. rewrite !get_cons, set_children_children, E.
      rewrite (find_child_put l) by done. by rewrite decide_False.
  - destruct (IH (new_node l) (wf_new_node l) ltac:(done)) as (c' & -> & Hb' & [Hk' Hn'] & He' & Hg); run.
    rewrite E, vec_insert_app; run. rewrite get_cons, Hfind, get_new_node in *; cbn [from_option].
    assert (wf_child c') as Hc' by (by apply wf_body_child).
    destruct Hn as (Hcs & Hs & Hv). pose proof Hs as Hs'. pose proof Hcs as Hcs'. rewrite E in Hs', Hcs'.
    eexists; split; [done|]. split; [by eapply wf_body_put|]. split; [apply set_children_kind|].
    split; [apply set_children_not_empty; by destruct xs|].
    intros p. rewrite (get_put l) by done. rewrite <-E, set_children_id.
    destruct p as [|l' p]; [by rewrite decide_False|].
    destruct (decide (l' = l)) as [->|Hne]; [|by rewrite decide_False by congruence].
    rewrite Hg, (get_cons l p n), Hfind, get_new_node. cbn [from_option].
    destruct (decide (p = ls)) as [->|]; [by rewrite decide_True|by rewrite decide_False by congruence].
Qed.
End update.

Section prune.
Context {R : Type} (f : Node V → Result (Node V * R)) (miss : R).
Context (g : list V → option (list V * R)).
Context (Hf : ∀ name cs vs, vals_sorted vs →
  match g vs with
  | Some (vs', r) => f (Child name cs vs) = Ok (Child name cs vs', r) ∧ vals_sorted vs'
  | None => f (Child name cs vs) = Panic
  end).

Definition pruned ls n (r : R) (vs : list V) (o : option (Node V)) : Prop :=
  match o with
  | Some n' => wf_body n' ∧ same_kind n n' ∧ is_empty n' = false
               ∧ ∀ p, get p n' = if decide (p = ls) then vs else get p n
  | None => is_child n = true ∧ vs = [] ∧ ∀ p, p ≠ ls → get p n = []
  end.

Lemma is_empty_node n :
  is_empty n = true → is_child n = true ∧ node_children n = [] ∧ node_values n = [].
Proof using Type.
  destruct n as [|name cs vs]; cbn; [done|]. rewrite andb_true_iff, !Nat.eqb_eq. intros [? ?]; by destruct cs, vs.
Qed.

(** The step up: the child at [l] was pruned. *)
Lemma pruned_child l ls n xs c ys r vs o :
  wf_body n → is_empty n = false → node_children n = xs ++ c :: ys → node_name c = l →
  cut_at str_cmp node_name l xs ys → find_child l (node_children n) = Some c →
  pruned ls c r vs o → is_child c = true →
  ∃ o', (match o with
         | Some child => children ← vec_insert (length xs) child (xs ++ ys);
                         Ok (Some (set_children n children), r)
         | None => let n := set_children n (xs ++ ys) in
                   if is_empty n then Ok (None, r) else Ok (Some n, r)
         end) = Ok (o', r) ∧ pruned (l :: ls) n r vs o'.
Proof using Type.
  intros Hn He E Hl Hcut Hfind Ho Hck. destruct (wf_body_cut n xs c ys Hn E) as (Hs & Hxy & _).
  assert (∀ l' p, l' ≠ l → get (l' :: p) n = get (l' :: p) (set_children n (xs ++ ys))) as Hother.
  { intros l' p Hne. rewrite !get_cons, set_children_children, E, (find_child_put l) by done.
    by rewrite decide_False. }
  assert (∀ p, get (l :: p) n = get p c) as Hsame by (intros p; by rewrite get_cons, Hfind).
  destruct o as [c'|].
  - destruct Ho as (Hb' & [Hk' Hn'] & He' & Hg).
    assert (wf_child c') as Hc' by (apply wf_body_child; congruence).
    rewrite vec_insert_app; run. eexists; split; [done|].
    split; [eapply (wf_body_put l); try done; congruence|]. split; [apply set_children_kind|].
    split; [apply set_children_not_empty; by destruct xs|].
    intros p. rewrite (get_put l) by (done || congruence). destruct p as [|l' p]; [done|].
    destruct (decide (l' = l)) as [->|Hne].
    + rewrite Hg, Hsame. destruct (decide (p = ls)) as [->|]; [by rewrite decide_True|].
      by rewrite decide_False by congruence.
    + rewrite decide_False by congruence. by rewrite Hother.
  - destruct Ho as (_ & -> & Hg). cbv zeta.
    assert (∀ p, get p (set_children n (xs ++ ys))
      = if decide (p = l :: ls) then [] else get p n) as Hget.
    { intros [|l' p]; [by rewrite decide_False; [apply set_children_values|]|].
      destruct (decide (l' = l)) as [->|Hne].
      - rewrite (get_cons l p (set_children _ _)), set_children_children, find_child_cut by done.
        rewrite Hsame. cbn [from_option]. destruct (decide (l :: p = l :: ls)); [done|].
        symmetry; apply Hg; congruence.
      - rewrite decide_False by congruence. by rewrite Hother. }
    destruct (is_empty (set_children n (xs ++ ys))) eqn:Eempty; eexists; (split; [done|]).
    + apply is_empty_node in Eempty as (Hk & Hcs & Hvs).
      rewrite set_children_children in Hcs. split; [by destruct n|]. split; [done|].
      intros p Hp. specialize (Hget p). rewrite decide_False in Hget by done. rewrite <-Hget.
      rewrite Hcs in *. destruct p as [|l' p]; [done|]. by rewrite get_cons, set_children_children.
    + split; [|split; [apply set_children_kind|by split]].
      destruct Hn as (_ & _ & Hv). unfold wf_body.
      by rewrite set_children_children, set_children_values.
Qed.

Lemma prune_at_spec ls n :
  wf_body n → (ls = [] → is_child n = true) → is_empty n = false →
  match node_at ls n with
  | None => prune_at f miss ls n = Ok (Some n, miss)
  | Some m =>
      match g (node_values m) with
      | None => prune_at f miss ls n = Panic
      | Some (vs, r) => ∃ o, prune_at f miss ls n = Ok (o, r) ∧ pruned ls n r vs o
      end
  end.
Proof using Hf.
  revert n; induction ls as [|l ls IH]; intros n Hn Hk He; cbn [prune_at node_at].
  { destruct n as [|name cs vs]; [by specialize (Hk eq_refl)|].
    destruct Hn as (Hc & Hs & Hv). cbn [node_values]. specialize (Hf name cs vs Hv).
    destruct (g vs) as [[vs' r]|]; [|by rewrite Hf]. destruct Hf as [-> Hv']; run.
    destruct (is_empty (Child name cs vs')) eqn:Ee; eexists; (split; [done|]).
    - apply is_empty_node in Ee as (_ & Hcs & Hvs); cbn in Hcs, Hvs; subst.
      split; [done|]. split; [done|]. intros [|l p] Hp; [done|]. by rewrite get_cons.
    - split; [by split_and!|]. split; [done|]. split; [done|].
      intros [|l p]; [done|]. by rewrite !get_cons. }
  destruct (search_level_cases l n Hn) as
    [(xs & c & ys & E & Hl & Hc & Hcut & Hfind & ->)|(xs & ys & E & Hcut & Hfind & ->)]; run;
    rewrite Hfind; [|done].
  destruct (wf_child_body c Hc) as (Hcb & Hck & Hce).
  rewrite E, vec_remove_app; run. specialize (IH c Hcb ltac:(done) Hce).
  destruct (node_at ls c) as [m|].
  - destruct (g (node_values m)) as [[vs r]|]; [|by rewrite IH].
    destruct IH as (o & -> & Ho); run. by eapply pruned_child.
  - rewrite IH; run. rewrite vec_insert_app; run. by rewrite <-E, set_children_id.
Qed.
End prune.

(** ** The values of a node *)

Definition same_key v x : bool := match vcmp x v with Eq => true | _ => false end.

(** [v] in its place, unless a value with its key is there. *)
Fixpoint vals_insert v (vs : list V) : list V :=
  match vs with
  | [] => [v]
  | x :: vs' =>
      match vcmp x v with Lt => x :: vals_insert v vs' | Eq => vs | Gt => v :: vs end
  end.

(** [None] when there is nothing to remove from: the code panics. *)
Definition vals_remove v (vs : list V) : option (list V * (bool * bool)) :=
  match vs with
  | [] => None
  | [v0] => Some (if veq v0 v then ([], (true, false)) else ([v0], (false, true)))
  | _ => Some (List.filter (λ x, negb (same_key v x)) vs, (false, negb (existsb (same_key v) vs)))
  end.

Section values.
Context `{!CmpLaws vcmp}.

Lemma same_key_cut v xs ys :
  cut_at vcmp id v xs ys → Forall (λ x, same_key v x = false) (xs ++ ys).
Proof using Type.
  intros [Hx Hy]. apply Forall_app. unfold same_key.
  split; (eapply Forall_impl; [eassumption|]); intros x H; cbn in H; by rewrite H.
Qed.

Lemma not_existsb v xs : Forall (λ x, same_key v x = false) xs → existsb (same_key v) xs = false.
Proof using Type. intros Hx. apply existsb_In. by apply Forall_forall. Qed.

Lemma filter_all v xs :
  Forall (λ x, same_key v x = false) xs → List.filter (λ x, negb (same_key v x)) xs = xs.
Proof using Type. induction 1 as [|x xs Hx _ IH]; cbn; [done|]. by rewrite Hx, IH. Qed.

Lemma vals_insert_cut v xs ys :
  cut_at vcmp id v xs ys → vals_insert v (xs ++ ys) = xs ++ v :: ys.
Proof using Type.
  intros [Hx Hy]. induction Hx as [|x xs Hx _ IH]; cbn in *; [|by rewrite Hx, IH].
  destruct Hy as [|y ys Hy _]; cbn in *; [done|]. by rewrite Hy.
Qed.

Lemma vals_insert_found v xs c ys :
  cut_at vcmp id v xs ys → vcmp c v = Eq → vals_insert v (xs ++ c :: ys) = xs ++ c :: ys.
Proof using Type.
  intros [Hx _] Hc. induction Hx as [|x xs Hx _ IH]; cbn in *; [by rewrite Hc|by rewrite Hx, IH].
Qed.

(** The values searched: found at [c], or to be inserted between [xs] and [ys]. *)
Lemma search_vals v vs :
  vals_sorted vs →
  (∃ xs c ys, vs = xs ++ c :: ys ∧ same_key v c = true ∧ vcmp c v = Eq
     ∧ Forall (λ x, same_key v x = false) (xs ++ ys) ∧ cut_at vcmp id v xs ys
     ∧ binary_search_by (λ x, Ok (vcmp x v)) vs = Ok (true, length xs))
  ∨ (∃ xs ys, vs = xs ++ ys ∧ Forall (λ x, same_key v x = false) vs ∧ cut_at vcmp id v xs ys
     ∧ binary_search_by (λ x, Ok (vcmp x v)) vs = Ok (false, length xs)).
Proof using CmpLaws0.
  intros Hs. destruct (search_cases vcmp id v vs (λ x, Ok (vcmp x v)))
    as [(xs & c & ys & E & Hc & Hcut & Hb)|(xs & ys & E & Hcut & Hb)]; [done|done|left|right].
  - exists xs, c, ys. split_and!; try done; [|by apply same_key_cut]. unfold same_key. cbn in Hc. by rewrite Hc.
  - exists xs, ys. split_and!; try done. rewrite E. by apply same_key_cut.
Qed.

Lemma insert_value_spec v name cs vs :
  vals_sorted vs →
  insert_value (Child name cs vs) v
    = Ok (Child name cs (vals_insert v vs), (length vs =? 0)%nat, existsb (same_key v) vs)
  ∧ vals_sorted (vals_insert v vs) ∧ vals_insert v vs ≠ [].
Proof using CmpLaws0.
  intros Hv. unfold insert_value. destruct (Nat.eqb_spec (length vs) 0) as [->%length_zero_iff_nil|Hne];
    [split; [done|]; split; [by repeat constructor|done]|].
  destruct (search_vals v vs Hv) as [(xs & c & ys & -> & Hk & Hc & _ & Hcut & ->)|(xs & ys & -> & Hno & Hcut & ->)]; run.
  - rewrite vals_insert_found by done. rewrite existsb_app; cbn. rewrite Hk, orb_true_r.
    split; [done|]. split; [done|]. by destruct xs.
  - rewrite vec_insert_app; run. rewrite vals_insert_cut, not_existsb by done.
    split; [done|]. split; [|by destruct xs]. eapply sorted_put; [done|done|apply (cmp_refl _)|done].
Qed.

Lemma remove_value_spec v name cs vs :
  vals_sorted vs →
  match vals_remove v vs with
  | Some (vs', (last, miss)) =>
      remove_value (Child name cs vs) v = Ok (Child name cs vs', last, miss) ∧ vals_sorted vs'
  | None => remove_value (Child name cs vs) v = Panic
  end.
Proof using CmpLaws0.
  intros Hv. unfold remove_value, vals_remove. destruct vs as [|v0 [|v1 vs]]; [done| |].
  { destruct (veq v0 v); split; try done. constructor. }
  revert Hv. generalize (v0 :: v1 :: vs). intros ws Hv.
  destruct (search_vals v ws Hv) as [(xs & c & ys & -> & Hk & Hc & Hno & Hcut & ->)|(xs & ys & -> & Hno & Hcut & ->)]; run.
  - rewrite vec_remove_app; run. apply Forall_app in Hno as [H1 H2].
    rewrite List.filter_app, existsb_app. cbn. rewrite Hk, orb_true_r. cbn [negb].
    rewrite !filter_all by done. split; [done|]. by eapply sorted_drop.
  - by rewrite filter_all, not_existsb by done.
Qed.
End values.

(** ** The operations on a trie *)

Lemma sub_spec `{!CmpLaws vcmp} ls v n :
  wf_root n → ls ≠ [] →
  ∃ n', sub ls v n = Ok (n', (length (get ls n) =? 0)%nat, existsb (same_key v) (get ls n))
    ∧ wf_root n'
    ∧ ∀ p, get p n' = if decide (p = ls) then vals_insert v (get ls n) else get p n.
Proof using Type.
  intros [Hk Hn] Hls. rewrite sub_update.
  destruct (update_at_spec (λ n, '(n, a, b) ← insert_value n v; Ok (n, (a, b)))
    (λ vs, (vals_insert v vs, ((length vs =? 0)%nat, existsb (same_key v) vs)))) with (ls := ls) (n := n)
    as (n' & -> & Hb & [Hk' _] & _ & Hg); [|done|done|].
  { intros name cs vs Hv. destruct (insert_value_spec v name cs vs Hv) as (-> & ? & ?). done. }
  run. exists n'. split; [done|]. split; [|done]. split; [congruence|done].
Qed.

Lemma set_spec ls v n :
  wf_root n → ls ≠ [] →
  ∃ n', set ls v n = Ok (n', (length (get ls n) =? 0)%nat)
    ∧ wf_root n' ∧ ∀ p, get p n' = if decide (p = ls) then [v] else get p n.
Proof using Type.
  intros [Hk Hn] Hls. rewrite set_update.
  destruct (update_at_spec (λ n, replace_value n v) (λ vs, ([v], (length vs =? 0)%nat)))
    with (ls := ls) (n := n) as (n' & -> & Hb & [Hk' _] & _ & Hg); [|done|done|].
  { intros name cs vs Hv. split; [done|]. by split; [repeat constructor|]. }
  exists n'. split; [done|]. split; [|done]. split; [congruence|done].
Qed.

(** Removing: the path is not there; it is there without values, and the code
    panics; or the values change. *)
Definition prune_result {R} (ls : list rstring) n (res : Result (option (Node V) * R)) (miss : R)
    (g : list V → option (list V * R)) : Prop :=
  match node_at ls n with
  | None => res = Ok (Some n, miss)
  | Some m =>
      match g (node_values m) with
      | None => res = Panic
      | Some (vs, r) => ∃ n', res = Ok (Some n', r) ∧ wf_root n'
          ∧ ∀ p, get p n' = if decide (p = ls) then vs else get p n
      end
  end.

Lemma prune_root {R} f (miss : R) g ls n :
  (∀ name cs vs, vals_sorted vs →
    match g vs with
    | Some (vs', r) => f (Child name cs vs) = Ok (Child name cs vs', r) ∧ vals_sorted vs'
    | None => f (Child name cs vs) = Panic
    end) →
  wf_root n → ls ≠ [] → prune_result ls n (prune_at f miss ls n) miss g.
Proof using Type.
  intros Hf [Hk Hn] Hls. unfold prune_result.
  assert (is_empty n = false) as He by by destruct n.
  pose proof (prune_at_spec f miss g Hf ls n Hn ltac:(done) He) as Hp.
  destruct (node_at ls n) as [m|]; [|done]. destruct (g (node_values m)) as [[vs r]|]; [|done].
  destruct Hp as (o & -> & Ho). destruct o as [n'|].
  - destruct Ho as (Hb & [Hk' _] & _ & Hg). exists n'. split; [done|]. split; [|done]. split; [congruence|done].
  - destruct Ho as (Hc & _). congruence.
Qed.

Lemma unsub_spec `{!CmpLaws vcmp} ls v n :
  wf_root n → ls ≠ [] →
  prune_result ls n ('(n, last, miss) ← unsub ls v n; Ok (n, (last, miss))) (false, true) (vals_remove v).
Proof using Type.
  intros Hn Hls.
  assert (('(n, last, miss) ← unsub ls v n; Ok (n, (last, miss)))
    = prune_at (λ n, '(n, a, b) ← remove_value n v; Ok (n, (a, b))) (false, true) ls n) as ->.
  { rewrite unsub_prune. by destruct (prune_at _ _ _ _) as [[? [? ?]]| | |]. }
  apply prune_root; [|done|done]. intros name cs vs Hv.
  pose proof (remove_value_spec v name cs vs Hv) as Hr.
  destruct (vals_remove v vs) as [[vs' [a b]]|]; [|by rewrite Hr]. by destruct Hr as [-> ?].
Qed.

Lemma remove_spec ls n :
  wf_root n → ls ≠ [] →
  prune_result ls n (remove ls n) true
    (λ vs, if (length vs =? 1)%nat then Some ([], false) else None).
Proof using Type.
  intros Hn Hls. rewrite remove_prune. apply prune_root; [|done|done].
  intros name cs vs Hv. cbn [remove_topic]. destruct (length vs =? 1)%nat; [|done].
  split; [done|constructor].
Qed.

(** ** Matching *)

(** The paths a sequence of levels selects. *)
Fixpoint selects (ls p : list rstring) : bool :=
  match ls, p with
  | [], [] => true
  | l :: ls, x :: p =>
      match match_level l x with
      | (_, true) => bool_decide (p = [])
      | (true, _) => selects ls p
      | (false, false) => false
      end
  | _, _ => false
  end.

Definition wildcard (l : rstring) : bool := bool_decide (l = hash) || bool_decide (l = plus).

(** The paths that the root hides. *)
Definition hidden (dollar : bool) n (p : list rstring) : bool :=
  match n, p with Root _, l :: _ => dollar && wildcard l | _, _ => false end.

Lemma no_wildcards_spec cs :
  Forall wf_child cs →
  no_wildcards cs = Ok (List.filter (λ c, negb (wildcard (node_name c))) cs).
Proof using Type.
  intros Hc. unfold no_wildcards.
  rewrite (foldM_collect _ (λ c, if wildcard (node_name c) then [] else [c])).
  - f_equal. cbn. induction cs as [|c cs IH]; [done|]. inversion Hc; subst. cbn.
    rewrite IH by done. by destruct (wildcard (node_name c)).
  - intros acc c Hin. eapply Forall_forall in Hc; [|exact Hin]. destruct Hc. cbn [as_name node_name]; run.
    unfold wildcard. destruct (_ || _); [by rewrite app_nil_r|done].
Qed.

Lemma find_child_iff l n c :
  wf_body n → find_child l (node_children n) = Some c ↔ c ∈ node_children n ∧ node_name c = l.
Proof using Type.
  intros Hn. split.
  - intros [? ?%bool_decide_eq_true]%find_some. by rewrite list_elem_of_In.
  - intros [Hin Hl]. destruct (search_level_cases l n Hn) as
      [(xs & c' & ys & E & Hl' & _ & Hcut & -> & _)|(xs & ys & E & Hcut & _ & _)].
    + f_equal. rewrite E in Hin. assert (c ∈ xs ++ ys ∨ c = c') as [Hxy|] by set_solver; [exfalso|done].
      pose proof (find_child_cut l xs ys Hcut) as Hno. unfold find_child in Hno.
      apply list_elem_of_In in Hxy. eapply find_none in Hno; [|exact Hxy].
      by rewrite bool_decide_eq_true_2 in Hno.
    + exfalso. rewrite E in Hin. pose proof (find_child_cut l xs ys Hcut) as Hno. unfold find_child in Hno.
      apply list_elem_of_In in Hin. eapply find_none in Hno; [|exact Hin].
      by rewrite bool_decide_eq_true_2 in Hno.
Qed.

Lemma elem_of_get v l p n :
  wf_body n → v ∈ get (l :: p) n ↔ ∃ c, c ∈ node_children n ∧ node_name c = l ∧ v ∈ get p c.
Proof using Type.
  intros Hn. rewrite get_cons. split.
  - destruct (find_child l _) as [c|] eqn:E; [|by intros ?%not_elem_of_nil].
    apply find_child_iff in E as [? ?]; [|done]. intros. by exists c.
  - intros (c & Hin & Hl & Hv). by rewrite (proj2 (find_child_iff l n c Hn)).
Qed.

(** The values matched in one child. *)
Definition child_matches in_level (rest : Node V → Result (option (list V))) child : list V :=
  match match_level in_level (node_name child) with
  | (_, true) => node_values child
  | (true, _) => match rest child with Ok (Some vs) => vs | _ => [] end
  | (false, false) => []
  end.

Lemma match_topic_spec ls dollar n :
  wf_body n →
  ∃ o, match_topic ls dollar n = Ok o
    ∧ (∀ v, v ∈ default [] o ↔ ∃ p, selects ls p = true ∧ hidden dollar n p = false ∧ v ∈ get p n)
    ∧ (o = None ↔ ls = [] ∧ is_child n = false).
Proof using Type.
  revert n; induction ls as [|l ls IH]; intros n Hn; cbn [match_topic].
  { destruct n as [cs|name cs vs]; eexists; (split; [done|]); (split; [|naive_solver]); intros v; cbn [from_option].
    - split; [by intros ?%not_elem_of_nil|]. intros ([|? ?] & ? & _ & Hv); [|done].
      by apply not_elem_of_nil in Hv.
    - split; [intros; by exists []|]. by intros ([|? ?] & ? & _ & Hv). }
  set (shown := List.filter (λ c, negb (hidden dollar n [node_name c])) (node_children n)).
  assert (match n with
          | Root children => if dollar then no_wildcards children else Ok children
          | Child _ children _ => Ok children end = Ok shown) as ->.
  { destruct Hn as (Hc & _). unfold shown. destruct n as [cs|name cs vs]; cbn [hidden node_children] in *.
    - destruct dollar; [by apply no_wildcards_spec|]. f_equal. clear. induction cs as [|c cs E]; [done|]. cbn in *. by f_equal.
    - f_equal. clear. induction cs as [|c cs E]; [done|]. cbn in *. by f_equal. }
  run. rewrite (foldM_collect _ (child_matches l (match_topic ls dollar))); run.
  - eexists; split; [done|]. split; [|naive_solver]. intros v. cbn [from_option app]. unfold id at 1.
    rewrite list_elem_of_bind. unfold shown.
    assert (∀ c, c ∈ node_children n → wf_body c ∧ is_child c = true) as Hcs.
    { intros c Hc. destruct Hn as (Hn & _). eapply Forall_forall in Hn; [|exact Hc].
      by destruct (wf_child_body c Hn) as (? & ? & ?). }
    setoid_rewrite list_elem_of_In. setoid_rewrite filter_In. setoid_rewrite <-list_elem_of_In.
    setoid_rewrite negb_true_iff. split.
    + intros (c & Hv & Hin & Hhid). unfold child_matches in Hv. destruct (Hcs c Hin) as [Hcb Hck].
      assert (∀ p, hidden dollar n (node_name c :: p) = false) as Hhid'
        by (intros p; destruct n; [exact Hhid|done]).
      destruct (match_level l (node_name c)) as [b []] eqn:Em; [|destruct b; [|by apply not_elem_of_nil in Hv]].
      * exists [node_name c]. cbn [selects]. rewrite Em, bool_decide_eq_true_2 by done.
        assert (v ∈ node_values c) by (by destruct b). split; [by destruct b|]. split; [done|]. apply elem_of_get; [done|]. by exists c.
      * destruct (IH c Hcb) as (o & Eo & Ho & Hnone). rewrite Eo in Hv.
        destruct o as [vs|]; [|by apply not_elem_of_nil in Hv].
        apply Ho in Hv as (p & Hp & _ & Hv). exists (node_name c :: p). cbn [selects]. rewrite Em.
        do 2 (split; [done|]). apply elem_of_get; [done|]. by exists c.
    + intros ([|x p] & Hsel & Hhid & Hv); [done|]. cbn [selects] in Hsel.
      apply elem_of_get in Hv as (c & Hin & <- & Hv); [|done]. exists c. destruct (Hcs c Hin) as [Hcb Hck].
      split; [|split; [done|by destruct n]]. unfold child_matches.
      destruct (match_level l (node_name c)) as [b []] eqn:Em; [|destruct b; [|done]].
      * assert (p = []) as -> by (by destruct b; apply bool_decide_eq_true in Hsel). by destruct b.
      * destruct (IH c Hcb) as (o & -> & Ho & Hnone).
        assert (v ∈ default [] o) as Hvo. { apply Ho. exists p. by destruct c. }
        by destruct o.
  - intros acc c Hin. unfold shown in Hin. apply list_elem_of_In, filter_In in Hin as [Hin _].
    apply list_elem_of_In in Hin. destruct Hn as (Hn & _). eapply Forall_forall in Hn; [|exact Hin].
    destruct (wf_child_body c Hn) as (Hcb & Hck & _). destruct c as [|name cs vs]; [done|]. cbn [as_name]; run.
    unfold child_matches. cbn [node_name node_values]. destruct (match_level l name) as [b []]; [by destruct b|].
    destruct b; [|by rewrite app_nil_r]. destruct (IH _ Hcb) as (o & -> & _); run.
    destruct o; [done|by rewrite app_nil_r].
Qed.
End node.
