(* ===== verification/Tries.v ===== *)
(** * SubscribedTrie and RetainedTrie (src/src/broker/ttrie.rs)

    The two tries as shared state: each operation reads the current version, works
    on it and writes a new version.  The operations are proved to refine a finite
    map from topic filters to subscriptions, and matching to follow the rules of
    MQTT up to two stated exceptions.  The last section interleaves threads. *)
From S2P Require Import Prelude Errors Utf8 Types V5Header V5Publish V5Subscribe SortedVec Subscription TopicTrie.
Local Open Scope Z_scope.

Record Stats := MkStats {
  st_count : Z;
  st_repeat : Z;
  st_missing : Z;
  st_lookups : Z;
  st_hits : Z;
}.
#[export] Instance Stats_eta : Eta Stats :=
  λ s, MkStats (st_count s) (st_repeat s) (st_missing s) (st_lookups s) (st_hits s).

Definition Stats_default : Stats := MkStats 0 0 0 0 0.

(** [usize::saturating_add(1)] and [usize::saturating_sub(1)] *)
Definition saturating_inc (z : Z) : Z := Z.min (z + 1) (2 ^ 64 - 1).
Definition saturating_dec (z : Z) : Z := Z.max (z - 1) 0.

Record Inner (V : Type) := MkInner { stats : Stats; root : Node V }.
Arguments MkInner {V} stats root.
Arguments stats {V} i.
Arguments root {V} i.

Definition Inner_default {V} : Inner V := MkInner Stats_default (Root []).

(** ** SubscribedTrie *)

Definition do_subscribe (key : rstring) (value : Subscription) (inner : Inner Subscription)
    : Result (Inner Subscription) :=
  let in_levels := iter_topic_path key in
  let stats := stats inner in
  '(root, first, repeat) ← sub Subscription_cmp in_levels value (root inner);
  let stats := if first : bool then stats <| st_count := saturating_inc (st_count stats) |>
               else stats in
  let stats := if repeat : bool then stats <| st_repeat := saturating_inc (st_repeat stats) |>
               else stats in
  Ok (MkInner stats root).

Definition do_unsubscribe (key : rstring) (value : Subscription) (inner : Inner Subscription)
    : Result (Inner Subscription) :=
  let in_levels := iter_topic_path key in
  let stats := stats inner in
  '(root, last, missing) ← unsub Subscription_eq Subscription_cmp in_levels value (root inner);
  root ← opt_unwrap root;
  let stats := if last : bool then stats <| st_count := saturating_dec (st_count stats) |>
               else stats in
  let stats := if missing : bool then stats <| st_missing := saturating_dec (st_missing stats) |>
               else stats in
  Ok (MkInner stats root).

Definition match_topic_name (key : rstring) (inner : Inner Subscription)
    : Result (Inner Subscription * list Subscription) :=
  let in_levels := iter_topic_path key in
  let stats := stats inner in
  let stats := stats <| st_lookups := saturating_inc (st_lookups stats) |> in
  vals ← match_topic in_levels true (root inner);
  let '(stats, matches) :=
    match vals with
    | Some vals => (stats <| st_hits := saturating_inc (st_hits stats) |>, vals)
    | None => (stats, [])
    end in
  Ok (MkInner stats (root inner), matches).

(** ** RetainedTrie *)

Definition do_set (key : rstring) (value : Publish) (inner : Inner Publish)
    : Result (Inner Publish) :=
  let in_levels := iter_topic_path key in
  let stats := stats inner in
  '(root, first) ← set in_levels value (root inner);
  let stats := if first : bool then stats <| st_count := saturating_inc (st_count stats) |>
               else stats in
  Ok (MkInner stats root).

Definition do_remove (key : rstring) (inner : Inner Publish) : Result (Inner Publish) :=
  let in_levels := iter_topic_path key in
  let stats := stats inner in
  '(root, missing) ← remove in_levels (root inner);
  root ← opt_unwrap root;
  let stats := if missing : bool then stats <| st_missing := saturating_dec (st_missing stats) |>
               else stats <| st_count := saturating_dec (st_count stats) |> in
  Ok (MkInner stats root).

(** [assert!(vals.len() == 1)] *)
Definition match_topic_filter (key : rstring) (inner : Inner Publish)
    : Result (Inner Publish * option Publish) :=
  let in_levels := iter_topic_path key in
  let stats := stats inner in
  let stats := stats <| st_lookups := saturating_inc (st_lookups stats) |> in
  vals ← match_topic in_levels false (root inner);
  '(stats, res) ←
    match vals with
    | Some [val] => Ok (stats <| st_hits := saturating_inc (st_hits stats) |>, Some val)
    | Some _ => Panic
    | None => Ok (stats, None)
    end;
  Ok (MkInner stats (root inner), res).

(** ** What MQTT says about matching (section 4.7)

    A filter as its levels: [#] stands for any levels, also for none; [+] for one. *)
Inductive mqtt_match : list rstring → list rstring → Prop :=
| Match_nil : mqtt_match [] []
| Match_hash t : mqtt_match t [hash]
| Match_plus l t f : mqtt_match t f → mqtt_match (l :: t) (plus :: f)
| Match_level l t f : wildcard l = false → mqtt_match t f → mqtt_match (l :: t) (l :: f).

(** Levels of a valid filter, and of a valid topic name. *)
Definition filter_levels (f : list rstring) : Prop :=
  ∃ ls l, f = ls ++ [l] ∧ Forall plain_level ls ∧ (l = hash ∨ plain_level l).

Definition name_levels (t : list rstring) : Prop := Forall (λ l, wildcard l = false) t.

(** The filter ends in [#] and names the parent of what it covers: [a/#] for [a]. *)
Definition names_parent (t f : list rstring) : Prop :=
  last f = Some hash ∧ length f = S (length t).

Lemma plain_not_hash l : plain_level l → l ≠ hash.
Proof. intros [->|[H _]]; [done|]. intros ->. apply H. by left. Qed.

Lemma match_level_name l x :
  wildcard l = false →
  match_level l x = (bool_decide (x = hash) || bool_decide (x = plus) || bool_decide (l = x),
                     bool_decide (x = hash)).
Proof.
  unfold wildcard, match_level. rewrite orb_false_iff. intros [-> ->].
  destruct (bool_decide (x = hash)); [done|]. destruct (bool_decide (x = plus)); [done|].
  by destruct (bool_decide (l = x)).
Qed.

Lemma filter_levels_cons x f :
  filter_levels (x :: f) ↔ (f = [] ∧ (x = hash ∨ plain_level x)) ∨ (plain_level x ∧ filter_levels f).
Proof.
  split.
  - intros (ls & l & E & Hls & Hl). destruct ls as [|y ls]; cbn in E; simplify_eq; [by left|].
    apply Forall_cons in Hls as [? ?]. right. split; [done|]. by exists ls, l.
  - intros [[-> Hx]|(Hx & ls & l & -> & Hls & Hl)]; [by exists [], x; split_and!; [|constructor|]|].
    exists (x :: ls), l. split; [done|]. by split; [constructor|].
Qed.

Lemma filter_levels_nonempty f : filter_levels f → f ≠ [].
Proof. intros (ls & l & -> & _). by destruct ls. Qed.

(** What the trie selects is what MQTT matches, but for the parent level. *)
Lemma selects_mqtt t f :
  name_levels t → f = [] ∨ filter_levels f →
  selects t f = true ↔ mqtt_match t f ∧ ¬ names_parent t f.
Proof.
  intros Ht. revert f; induction Ht as [|l t Hl Ht IH]; intros f Hf.
  - destruct f as [|x f]; cbn [selects].
    + split; [|done]. intros _. split; [constructor|]. by intros [? _].
    + split; [done|]. intros [Hm Hp]. inversion Hm; subst. by destruct Hp.
  - destruct f as [|x f]; cbn [selects]; [split; [done|]; intros [Hm _]; by inversion Hm|].
    destruct Hf as [|Hf]; [done|]. apply filter_levels_cons in Hf.
    rewrite match_level_name by done. destruct (bool_decide (x = hash)) eqn:Ex; cbn [orb].
    { apply bool_decide_eq_true in Ex as ->. destruct Hf as [[-> _]|[Hx _]]; [|by apply plain_not_hash in Hx].
      rewrite bool_decide_eq_true_2 by done. split; [|done]. intros _. split; [constructor|].
      by intros [_ ?]. }
    apply bool_decide_eq_false in Ex.
    assert (f = [] ∨ filter_levels f) as Hf' by tauto.
    assert (names_parent (l :: t) (x :: f) ↔ names_parent t f) as Hpar.
    { unfold names_parent. cbn [length]. destruct f as [|y f]; cbn [last]; [|naive_solver lia].
      split; intros [? ?]; simplify_eq; done. }
    destruct (bool_decide (x = plus)) eqn:Ep; cbn [orb].
    { apply bool_decide_eq_true in Ep as ->. rewrite IH, Hpar by done. split.
      - intros [? ?]. split; [by constructor|done].
      - intros [Hm ?]. split; [|done]. by inversion Hm; subst. }
    apply bool_decide_eq_false in Ep. case_bool_decide as El; subst.
    + rewrite IH, Hpar by done. split.
      * intros [? ?]. split; [by constructor|done].
      * intros [Hm ?]. split; [|done]. by inversion Hm; subst.
    + split; [done|]. intros [Hm _]. by inversion Hm; subst.
Qed.

(** ** The invariant, and the map a trie stands for *)

Definition wf_inner (inner : Inner Subscription) : Prop := wf_root Subscription_cmp (root inner).

Definition subscriptions (inner : Inner Subscription) (f : rstring) : list Subscription :=
  get (iter_topic_path f) (root inner).

Lemma iter_topic_path_inj f f' : iter_topic_path f = iter_topic_path f' → f = f'.
Proof. unfold iter_topic_path. intros E. by rewrite <-(join_split 47 f), <-(join_split 47 f'), E. Qed.

Lemma iter_topic_path_ne f : iter_topic_path f ≠ [].
Proof. apply split_nonempty. Qed.

Lemma decide_path {A} f f' (x y : A) :
  (if decide (iter_topic_path f = iter_topic_path f') then x else y)
  = if decide (f = f') then x else y.
Proof.
  destruct (decide (f = f')) as [->|Hne]; [by rewrite decide_True|].
  rewrite decide_False; [done|]. by intros ?%iter_topic_path_inj.
Qed.

Lemma wf_inner_default : wf_inner Inner_default.
Proof. split; [done|]. split_and!; constructor. Qed.

Definition valid_filter (f : rstring) : Prop := TopicFilter_validate f = Ok ().
Definition valid_name (t : rstring) : Prop := TopicName_validate t = Ok ().

Lemma valid_filter_levels f : valid_filter f → filter_levels (iter_topic_path f).
Proof. intros (_ & _ & ls & l & -> & ? & ?)%TopicFilter_validate_Ok. by exists ls, l. Qed.

Lemma valid_name_levels t : valid_name t → name_levels (iter_topic_path t).
Proof.
  intros (_ & H35 & H43 & _)%TopicName_validate_Ok. apply Forall_forall. intros l Hl.
  apply orb_false_iff. split; apply bool_decide_eq_false; intros ->.
  - apply H35. eapply split_chars; [exact Hl|by left].
  - apply H43. eapply split_chars; [exact Hl|by left].
Qed.

(** ** The specification: a finite map from filters to subscriptions *)

Inductive trie_op : Type :=
| Op_subscribe (key : rstring) (value : Subscription)
| Op_unsubscribe (key : rstring) (value : Subscription)
| Op_match (key : rstring).

Definition run_op (op : trie_op) (inner : Inner Subscription)
    : Result (Inner Subscription * list Subscription) :=
  match op with
  | Op_subscribe key value => inner ← do_subscribe key value inner; Ok (inner, [])
  | Op_unsubscribe key value => inner ← do_unsubscribe key value inner; Ok (inner, [])
  | Op_match key => match_topic_name key inner
  end.

Abbreviation spec := (gmap rstring (list Subscription)).
Implicit Types (m : spec).

Definition subscribed m f : list Subscription := default [] (m !! f).

Definition spec_op (op : trie_op) m : spec :=
  match op with
  | Op_subscribe key value => <[key := vals_insert Subscription_cmp value (subscribed m key)]> m
  | Op_unsubscribe key value =>
      match vals_remove Subscription_eq Subscription_cmp value (subscribed m key) with
      | Some (vs, _) => <[key := vs]> m
      | None => m
      end
  | Op_match _ => m
  end.

(** The filters whose subscriptions a message on [t] is given to: those that MQTT
    matches, except the ones that start with a wildcard and those that name the
    parent of the levels they cover. *)
Definition delivers (t f : rstring) : Prop :=
  mqtt_match (iter_topic_path t) (iter_topic_path f)
  ∧ ¬ names_parent (iter_topic_path t) (iter_topic_path f)
  ∧ from_option wildcard false (head (iter_topic_path f)) = false.

Definition spec_out (op : trie_op) m (v : Subscription) : Prop :=
  match op with
  | Op_match t => ∃ f, v ∈ subscribed m f ∧ delivers t f
  | _ => False
  end.

(** The types of the arguments are validated when they are decoded. *)
Definition valid_op (op : trie_op) : Prop :=
  match op with
  | Op_subscribe key _ => valid_filter key
  | Op_unsubscribe _ _ => True
  | Op_match key => valid_name key
  end.

(** The trie stands for the map. *)
Definition refines (inner : Inner Subscription) m : Prop :=
  wf_inner inner
  ∧ (∀ p, get p (root inner) ≠ [] → ∃ f, p = iter_topic_path f)
  ∧ (∀ f, subscriptions inner f = subscribed m f)
  ∧ (∀ f, is_Some (m !! f) → valid_filter f).

Lemma subscribed_insert m f f' vs :
  subscribed (<[f := vs]> m) f' = if decide (f' = f) then vs else subscribed m f'.
Proof.
  unfold subscribed. destruct (decide (f' = f)) as [->|]; [by rewrite lookup_insert_eq|].
  by rewrite lookup_insert_ne by congruence.
Qed.

Lemma subscribed_valid inner m f : refines inner m → subscribed m f ≠ [] → valid_filter f.
Proof. intros (_ & _ & _ & Hv) Hne. apply Hv. unfold subscribed in Hne. destruct (m !! f) as [vs|]; [by exists vs|by destruct Hne]. Qed.

Lemma refines_default : refines Inner_default ∅.
Proof.
  split; [apply wf_inner_default|]. split; [|split].
  - intros [|? ?] H; by destruct H.
  - intros f. unfold subscriptions. pose proof (iter_topic_path_ne f). by destruct (iter_topic_path f).
  - intros f [? H]. by rewrite lookup_empty in H.
Qed.

(** A new version that differs at one filter. *)
Lemma refines_update inner m inner' key vs :
  refines inner m → wf_root Subscription_cmp (root inner') →
  (∀ p, get p (root inner') = if decide (p = iter_topic_path key) then vs else get p (root inner)) →
  valid_filter key → refines inner' (<[key := vs]> m).
Proof.
  intros (Hwf & Hp & Ha & Hv) Hwf' Hg Hkey. split; [done|]. split; [|split].
  - intros p. rewrite Hg. destruct (decide _) as [->|]; [by eexists|apply Hp].
  - intros f. unfold subscriptions. rewrite Hg, decide_path, subscribed_insert.
    destruct (decide (f = key)); [done|apply Ha].
  - intros f. rewrite lookup_insert_is_Some'. intros [->|?]; [done|by apply Hv].
Qed.

Lemma subscribe_refines key value inner m :
  refines inner m → valid_filter key →
  ∃ inner', do_subscribe key value inner = Ok inner'
    ∧ refines inner' (spec_op (Op_subscribe key value) m).
Proof.
  intros Hr Hkey. pose proof Hr as (Hwf & Hp & Ha & Hv).
  destruct (sub_spec Subscription_cmp (iter_topic_path key) value (root inner) Hwf
    (iter_topic_path_ne key)) as (n' & E & Hwf' & Hg).
  unfold do_subscribe. rewrite E; run. eexists; split; [done|].
  cbn [spec_op]. rewrite <-(Ha key). by eapply refines_update.
Qed.

Lemma unsubscribe_refines key value inner m :
  refines inner m →
  match do_unsubscribe key value inner with
  | Ok inner' => refines inner' (spec_op (Op_unsubscribe key value) m)
  | Panic => subscribed m key = []
  | _ => False
  end.
Proof.
  intros Hr. pose proof Hr as (Hwf & Hp & Ha & Hv).
  pose proof (unsub_spec Subscription_eq Subscription_cmp (iter_topic_path key) value (root inner) Hwf
    (iter_topic_path_ne key)) as Hs. unfold prune_result in Hs. unfold do_unsubscribe.
  specialize (Ha key) as Hkey. unfold subscriptions, get in Hkey. cbn [spec_op]. rewrite <-Hkey.
  destruct (node_at (iter_topic_path key) (root inner)) as [mm|] eqn:En; cbn [from_option] in *.
  - destruct (vals_remove _ _ value (node_values mm)) as [[vs r]|] eqn:Er.
    + destruct Hs as (n' & E & Hwf' & Hg).
      destruct (unsub _ _ _ _ _) as [[[o a] b]| | |]; [|done..]; cbn in E; simplify_eq; run.
      cbn [opt_unwrap]; run. eapply refines_update; [done|done|done|].
      eapply subscribed_valid; [done|]. rewrite <-Hkey. intros H. by rewrite H in Er.
    + destruct (unsub _ _ _ _ _) as [[[o a] b]| | |]; cbn in Hs; [done..|run|done].
      by destruct (node_values mm) as [|? [|? ?]].
  - destruct (unsub _ _ _ _ _) as [[[o a] b]| | |]; [|done..]; cbn in Hs; simplify_eq; run.
    cbn [opt_unwrap]; run. cbn. done.
Qed.

Lemma match_refines key inner m :
  refines inner m → valid_name key →
  ∃ inner' out, match_topic_name key inner = Ok (inner', out)
    ∧ root inner' = root inner ∧ ∀ v, v ∈ out ↔ spec_out (Op_match key) m v.
Proof.
  intros Hr Hkey. pose proof Hr as (Hwf & Hp & Ha & Hv).
  destruct (match_topic_spec Subscription_cmp (iter_topic_path key) true (root inner))
    as (o & E & Ho & Hnone); [apply Hwf|].
  unfold match_topic_name. rewrite E; run.
  assert (∀ v, v ∈ default [] o ↔ spec_out (Op_match key) m v) as Hout.
  { intros v. rewrite Ho. cbn [spec_out]. pose proof (valid_name_levels key Hkey) as Hname.
    destruct Hwf as [Hk _].
    assert (∀ p, hidden true (root inner) p = from_option wildcard false (head p)) as Hhid
      by (intros p; by destruct (root inner), p).
    split.
    - intros (p & Hsel & Hh & Hin). destruct (Hp p) as [f ->].
      { intros En; rewrite En in Hin. by apply not_elem_of_nil in Hin. }
      fold (subscriptions inner f) in Hin. rewrite Ha in Hin. exists f. split; [done|].
      apply selects_mqtt in Hsel; [|done|].
      + rewrite Hhid in Hh. unfold delivers. tauto.
      + right. apply valid_filter_levels. eapply subscribed_valid; [done|]. intros En; rewrite En in Hin.
        by apply not_elem_of_nil in Hin.
    - intros (f & Hin & Hm & Hpar & Hh). exists (iter_topic_path f). split; [|split].
      + apply selects_mqtt; [done| |done]. right. apply valid_filter_levels.
        eapply subscribed_valid; [done|]. intros En; rewrite En in Hin. by apply not_elem_of_nil in Hin.
      + by rewrite Hhid.
      + fold (subscriptions inner f). by rewrite Ha. }
  destruct o as [vals|]; (eexists _, _; split; [done|]); (split; [done|]); intros v; apply Hout.
Qed.

(** ** Threads

    Every shard has a clone of the trie.  An operation takes the current version
    under a read lock that it gives up at once, and later writes its own version
    under a write lock: two atomic steps. *)
Inductive thread : Type :=
| T_idle (ops : list trie_op)
| T_loaded (op : trie_op) (snapshot : Inner Subscription) (ops : list trie_op).

Record sys := MkSys { shared : Inner Subscription; threads : list thread }.

Inductive trie_step : sys → sys → Prop :=
| Step_read i op ops s :
    threads s !! i = Some (T_idle (op :: ops)) →
    trie_step s (MkSys (shared s) (<[i := T_loaded op (shared s) ops]> (threads s)))
| Step_write i op snapshot ops inner out s :
    threads s !! i = Some (T_loaded op snapshot ops) →
    run_op op snapshot = Ok (inner, out) →
    trie_step s (MkSys inner (<[i := T_idle ops]> (threads s))).

(** Each version stands for some map: the shared one and those in hand. *)
Definition wf_thread (t : thread) : Prop :=
  match t with
  | T_idle ops => Forall valid_op ops
  | T_loaded op snapshot ops => Forall valid_op (op :: ops) ∧ ∃ m, refines snapshot m
  end.

Definition wf_sys (s : sys) : Prop := (∃ m, refines (shared s) m) ∧ Forall wf_thread (threads s).

Lemma run_op_refines op inner m :
  refines inner m → valid_op op →
  match run_op op inner with
  | Ok (inner', out) =>
      refines inner' (spec_op op m) ∧ (∀ v, v ∈ out ↔ spec_out op m v)
  | Panic => ∃ key value, op = Op_unsubscribe key value ∧ subscribed m key = []
  | _ => False
  end.
Proof.
  intros Hr Hop. destruct op as [key value|key value|key]; cbn [run_op].
  - destruct (subscribe_refines key value inner m Hr Hop) as (inner' & -> & ?); run.
    split; [done|]. intros v; cbn. split; [by intros ?%not_elem_of_nil|done].
  - pose proof (unsubscribe_refines key value inner m Hr) as Hu.
    destruct (do_unsubscribe key value inner); [|done| |done]; run; [|by exists key, value].
    split; [done|]. intros v; cbn. split; [by intros ?%not_elem_of_nil|done].
  - destruct (match_refines key inner m Hr Hop) as (inner' & out & -> & E & Hout).
    split; [|done]. cbn [spec_op]. unfold refines, wf_inner, subscriptions in *. by rewrite E.
Qed.

Lemma trie_step_wf s s' : trie_step s s' → wf_sys s → wf_sys s'.
Proof.
  intros Hstep [[m Hm] Ht]. destruct Hstep as [i op ops s Hi|i op snap ops inner out s Hi E];
    pose proof (Forall_lookup_1 _ _ _ _ Ht Hi) as Hw.
  - split; [by exists m|]. apply Forall_insert; [done|]. split; [done|by exists m].
  - destruct Hw as [[Hop Hops]%Forall_cons [m' Hm']].
    pose proof (run_op_refines op snap m' Hm' Hop) as Hr. rewrite E in Hr.
    destruct Hr as [Hr _]. split; [by eexists|]. by apply Forall_insert.
Qed.

(** ** Theorems *)

(** C10. Refinement: on its own, every operation of the subscription trie does to
    the trie what the specification does to a finite map from topic filters to
    sorted subscriptions, and a match returns the subscriptions of exactly the
    filters that deliver.  An unsubscribe can panic, when its filter has none. *)
Theorem trie_refines op inner m :
  refines inner m → valid_op op →
  match run_op op inner with
  | Ok (inner', out) =>
      refines inner' (spec_op op m) ∧ (∀ v, v ∈ out ↔ spec_out op m v)
  | Panic => ∃ key value, op = Op_unsubscribe key value ∧ subscribed m key = []
  | _ => False
  end.
Proof. apply run_op_refines. Qed.

Definition ex_filter : rstring := [97; 47; 35]%Z.
Definition ex_name : rstring := [97; 47; 98]%Z.
Definition ex_sub : Subscription :=
  MkSubscription ex_filter [99]%Z 0 None QoS_AtLeastOnce false false RFR_OnEverySubscribe.

Lemma trie_refines_witness :
  match run_op (Op_subscribe ex_filter ex_sub) Inner_default with
  | Ok (inner', out) =>
      refines inner' (spec_op (Op_subscribe ex_filter ex_sub) ∅)
      ∧ (∀ v, v ∈ out ↔ spec_out (Op_subscribe ex_filter ex_sub) ∅ v)
  | Panic => ∃ key value, Op_subscribe ex_filter ex_sub = Op_unsubscribe key value
                          ∧ subscribed ∅ key = []
  | _ => False
  end.
Proof. apply (trie_refines (Op_subscribe ex_filter ex_sub)); [apply refines_default|by vm_compute]. Defined.

(** Matching and MQTT: a trie filter selects a topic name exactly when MQTT's
    rules do, except that [a/#] does not select its parent [a]; and since the
    broker always asks for the rule on [$] topics, a filter that starts with a
    wildcard delivers no message at all. *)
Theorem delivery_vs_mqtt t f :
  valid_name t → valid_filter f →
  (selects (iter_topic_path t) (iter_topic_path f) = true ↔
     mqtt_match (iter_topic_path t) (iter_topic_path f)
     ∧ ¬ names_parent (iter_topic_path t) (iter_topic_path f))
  ∧ (from_option wildcard false (head (iter_topic_path f)) = true →
     ∀ inner inner' out v m, refines inner m → (∀ f', v ∈ subscribed m f' → f' = f) →
       match_topic_name t inner = Ok (inner', out) → v ∉ out).
Proof.
  intros Ht Hf. split.
  - apply selects_mqtt; [by apply valid_name_levels|]. right. by apply valid_filter_levels.
  - intros Hw inner inner' out v m Hr Hv E.
    destruct (match_refines t inner m Hr Ht) as (inner1 & out1 & E1 & _ & Hout).
    rewrite E1 in E; simplify_eq. rewrite Hout. intros (f' & Hin & _ & _ & Hh).
    by rewrite (Hv f' Hin), Hw in Hh.
Qed.

Lemma delivery_vs_mqtt_witness :
  (selects (iter_topic_path [97]%Z) (iter_topic_path ex_filter) = true ↔
     mqtt_match (iter_topic_path [97]%Z) (iter_topic_path ex_filter)
     ∧ ¬ names_parent (iter_topic_path [97]%Z) (iter_topic_path ex_filter))
  ∧ (from_option wildcard false (head (iter_topic_path ex_filter)) = true →
     ∀ inner inner' out v m, refines inner m → (∀ f', v ∈ subscribed m f' → f' = ex_filter) →
       match_topic_name [97]%Z inner = Ok (inner', out) → v ∉ out).
Proof. apply (delivery_vs_mqtt [97]%Z ex_filter); by vm_compute. Defined.

(** Unsubscribing from a filter that only has longer filters below it panics:
    the node is there, without values. *)
Theorem unsubscribe_inner_panics f key value value' :
  valid_filter f → (∃ l ls, iter_topic_path f = iter_topic_path key ++ l :: ls) →
  (inner ← do_subscribe f value Inner_default; do_unsubscribe key value' inner) = Panic.
Proof.
  intros Hf (l & ls & Ef).
  destruct (sub_spec Subscription_cmp (iter_topic_path f) value (Root []) wf_inner_default
    (iter_topic_path_ne f)) as (n' & E & Hwf & Hg).
  unfold do_subscribe. cbn [root Inner_default]. rewrite E; run.
  assert (get (iter_topic_path f) n' ≠ []) as Hne.
  { rewrite Hg, decide_True by done. destruct (iter_topic_path f); [by destruct (iter_topic_path key)|]. done. }
  assert (get (iter_topic_path key) n' = []) as Hkey.
  { rewrite Hg, decide_False.
    - by destruct (iter_topic_path key).
    - rewrite Ef. intros H%(f_equal length). rewrite length_app in H. cbn in H. lia. }
  assert (∀ p q (n : Node Subscription), get (p ++ q) n ≠ [] → is_Some (node_at p n)) as Hnode.
  { induction p as [|x p IH]; intros q n Hn; [by eexists|]. cbn [app] in Hn. rewrite get_cons in Hn.
    cbn [node_at]. destruct (find_child x _); [by eapply IH|done]. }
  rewrite Ef in Hne. apply Hnode in Hne as [mm Hmm].
  pose proof (unsub_spec Subscription_eq Subscription_cmp (iter_topic_path key) value' n' Hwf
    (iter_topic_path_ne key)) as Hs. unfold prune_result in Hs.
  unfold get in Hkey. rewrite Hmm in Hs, Hkey. cbn [from_option] in Hkey. rewrite Hkey in Hs. cbn in Hs.
  unfold do_unsubscribe. cbn [root]. by destruct (unsub _ _ _ _ _) as [[[? ?] ?]| | |].
Qed.

Lemma unsubscribe_inner_panics_witness :
  (inner ← do_subscribe ex_filter ex_sub Inner_default; do_unsubscribe [97]%Z ex_sub inner) = Panic.
Proof.
  apply (unsubscribe_inner_panics ex_filter [97]%Z ex_sub ex_sub); [by vm_compute|].
  exists [35]%Z, []. by vm_compute.
Defined.

(** Whatever the interleaving of threads, every version of the trie that is
    reachable stands for some map of valid filters. *)
Theorem interleaved_wf s s' : wf_sys s → rtc trie_step s s' → wf_sys s'.
Proof. intros Hs Hr. revert Hs. induction Hr; [done|]. intros Hs. by eapply IHHr, trie_step_wf. Qed.

Definition ex_sys : sys :=
  MkSys Inner_default [T_idle [Op_subscribe ex_filter ex_sub]; T_idle [Op_match ex_name]].

Lemma interleaved_wf_witness :
  wf_sys (MkSys Inner_default [T_idle [Op_subscribe ex_filter ex_sub];
                               T_loaded (Op_match ex_name) Inner_default []]).
Proof.
  apply (interleaved_wf ex_sys).
  - split; [exists ∅; apply refines_default|]. by repeat constructor.
  - eapply rtc_once. by apply (Step_read 1 (Op_match ex_name) [] ex_sys).
Defined.

(** Lost update: when a message is matched while a client subscribes, the
    match can write back the version it read before, and the subscription is gone
    although both operations have completed. *)
Theorem lost_subscription key value t inner m :
  refines inner m → valid_filter key → valid_name t →
  ∃ inner', rtc trie_step
    (MkSys inner [T_idle [Op_subscribe key value]; T_idle [Op_match t]])
    (MkSys inner' [T_idle []; T_idle []])
  ∧ ∀ f, subscriptions inner' f = subscribed m f.
Proof.
  intros Hr Hkey Ht. destruct (subscribe_refines key value inner m Hr Hkey) as (inner1 & E1 & _).
  destruct (match_refines t inner m Hr Ht) as (inner2 & out & E2 & Eroot & _).
  exists inner2. split.
  - eapply rtc_l; [by apply (Step_read 1 (Op_match t) [])|].
    eapply rtc_l; [by apply (Step_read 0 (Op_subscribe key value) [])|].
    eapply rtc_l; [eapply (Step_write 0 (Op_subscribe key value) inner []); [done|]; cbn [run_op]; by rewrite E1|].
    eapply rtc_l; [by eapply (Step_write 1 (Op_match t) inner [] inner2 out)|]. done.
  - intros f. unfold subscriptions. rewrite Eroot. by apply Hr.
Qed.

Lemma lost_subscription_witness :
  ∃ inner', rtc trie_step ex_sys (MkSys inner' [T_idle []; T_idle []])
  ∧ ∀ f, subscriptions inner' f = subscribed ∅ f.
Proof.
  apply (lost_subscription ex_filter ex_sub ex_name Inner_default ∅ refines_default); by vm_compute.
Defined.

(** [wf_root] for retained messages: values are not ordered, and there is at most
    one of them. *)
Abbreviation wf_retained inner := (wf_root (λ _ _ : Publish, Eq) (root inner)).

Definition retained (inner : Inner Publish) (topic : rstring) : list Publish :=
  get (iter_topic_path topic) (root inner).

Lemma do_set_spec key value inner :
  wf_retained inner →
  ∃ inner', do_set key value inner = Ok inner' ∧ wf_retained inner'
    ∧ ∀ t, retained inner' t = if decide (t = key) then [value] else retained inner t.
Proof.
  intros Hwf.
  destruct (set_spec (λ _ _ : Publish, Eq) (iter_topic_path key) value (root inner) Hwf
    (iter_topic_path_ne key)) as (n1 & E1 & Hwf1 & Hg1).
  unfold do_set. rewrite E1; run. eexists. split; [done|]. split; [done|].
  intros t. unfold retained. cbn [root]. by rewrite Hg1, decide_path.
Qed.

(** Removing a topic that no retained message is at or below, one that has a message,
    and one that is a level of a longer one without a message of its own. *)
Lemma do_remove_spec key inner :
  wf_retained inner →
  match node_at (iter_topic_path key) (root inner) with
  | None => ∃ inner', do_remove key inner = Ok inner' ∧ wf_retained inner' ∧ ∀ t, retained inner' t = retained inner t
  | Some _ =>
      match retained inner key with
      | [_] => ∃ inner', do_remove key inner = Ok inner' ∧ wf_retained inner'
                 ∧ ∀ t, retained inner' t = if decide (t = key) then [] else retained inner t
      | _ => do_remove key inner = Panic
      end
  end.
Proof.
  intros Hwf.
  pose proof (remove_spec (λ _ _ : Publish, Eq) (iter_topic_path key) (root inner) Hwf (iter_topic_path_ne key)) as Hs.
  unfold prune_result in Hs. unfold do_remove, retained at 1, get.
  destruct (node_at (iter_topic_path key) (root inner)) as [m|]; cbn [from_option].
  - destruct (node_values m) as [|v [|v' vs]]; cbn in Hs; [by rewrite Hs| |by rewrite Hs].
    destruct Hs as (n2 & -> & Hwf2 & Hg2); run. cbn [opt_unwrap]; run. eexists. split; [done|]. split; [done|].
    intros t. unfold retained. cbn [root]. by rewrite Hg2, decide_path.
  - rewrite Hs; run. cbn [opt_unwrap]; run. eexists. split; [done|]. by split.
Qed.

Lemma retained_node key inner v : retained inner key = [v] → ∃ n, node_at (iter_topic_path key) (root inner) = Some n.
Proof. unfold retained, get. destruct (node_at _ _); [by eexists|done]. Qed.

(** Retained messages: setting a topic replaces what it had and leaves every
    other topic alone, and removing it then leaves it without a message; neither
    panics. *)
Theorem retained_set_remove key value inner :
  wf_retained inner →
  ∃ inner1 inner2, do_set key value inner = Ok inner1 ∧ do_remove key inner1 = Ok inner2
  ∧ wf_retained inner1 ∧ wf_retained inner2
  ∧ (∀ t, retained inner1 t = if decide (t = key) then [value] else retained inner t)
  ∧ (∀ t, retained inner2 t = if decide (t = key) then [] else retained inner t).
Proof.
  intros Hwf. destruct (do_set_spec key value inner Hwf) as (inner1 & E1 & Hwf1 & H1).
  pose proof (do_remove_spec key inner1 Hwf1) as Hr. pose proof (H1 key) as Hkey. rewrite decide_True in Hkey by done.
  destruct (retained_node _ _ _ Hkey) as [m Hm]. rewrite Hm, Hkey in Hr. destruct Hr as (inner2 & E2 & Hwf2 & H2).
  exists inner1, inner2. split_and!; try done. intros t. rewrite H2, H1. by destruct (decide (t = key)).
Qed.

Definition ex_retained : Publish :=
  MkPublish true QoS_AtMostOnce false ex_name None None (Some [1]%Z).

Lemma wf_retained_default : wf_retained Inner_default.
Proof. split; [done|]. split_and!; constructor. Qed.

Lemma retained_set_remove_witness :
  ∃ inner1 inner2, do_set ex_name ex_retained Inner_default = Ok inner1
  ∧ do_remove ex_name inner1 = Ok inner2 ∧ wf_retained inner1 ∧ wf_retained inner2
  ∧ (∀ t, retained inner1 t = if decide (t = ex_name) then [ex_retained] else retained Inner_default t)
  ∧ (∀ t, retained inner2 t = if decide (t = ex_name) then [] else retained Inner_default t).
Proof. apply (retained_set_remove ex_name ex_retained Inner_default wf_retained_default). Defined.

(** Asking the trie of retained messages with a filter asserts that exactly
    one message matches: the answer is never [None], it is the only match when it
    comes, and without a match the code panics. *)
Theorem retained_match_asserts t inner :
  wf_retained inner →
  let matches v := ∃ p, selects (iter_topic_path t) p = true ∧ v ∈ get p (root inner) in
  (∀ inner' o, match_topic_filter t inner = Ok (inner', o) →
     ∃ v, o = Some v ∧ ∀ v', matches v' ↔ v' = v)
  ∧ ((∀ v, ¬ matches v) → match_topic_filter t inner = Panic).
Proof.
  intros [Hk Hb] matches.
  destruct (match_topic_spec (λ _ _, Eq) (iter_topic_path t) false (root inner) Hb)
    as (o & E & Ho & Hnone).
  assert (∀ v, v ∈ default [] o ↔ matches v) as Hm.
  { intros v. rewrite Ho. unfold matches. split; intros (p & ? & Hp); exists p; [tauto|].
    split; [done|]. split; [by destruct (root inner), p|done]. }
  unfold match_topic_filter. rewrite E; run. destruct o as [vals|].
  2:{ destruct (proj1 Hnone eq_refl) as [? _]. by destruct (iter_topic_path_ne t). }
  cbn [from_option] in Hm. unfold id in Hm. split.
  - intros inner' o Eo. destruct vals as [|v [|? ?]]; [done| |done]. cbn in Eo; simplify_eq.
    exists v. split; [done|]. intros v'. rewrite <-Hm. apply list_elem_of_singleton.
  - intros Hno. destruct vals as [|v vals]; [done|]. destruct (Hno v). apply Hm. by left.
Qed.

Lemma retained_match_asserts_witness :
  (∀ inner' o, match_topic_filter ex_name Inner_default = Ok (inner', o) →
     ∃ v, o = Some v ∧ ∀ v', (∃ p, selects (iter_topic_path ex_name) p = true
                              ∧ v' ∈ get p (root (@Inner_default Publish))) ↔ v' = v)
  ∧ ((∀ v, ¬ ∃ p, selects (iter_topic_path ex_name) p = true
                  ∧ v ∈ get p (root (@Inner_default Publish))) →
     match_topic_filter ex_name Inner_default = Panic).
Proof. apply (retained_match_asserts ex_name Inner_default wf_retained_default). Defined.
