(* ===== verification/Timer.v ===== *)
(** * The differential timer (src/src/timer.rs)

    [Timer]: a linked list of entries, each with the time between it and the one
    before in microseconds; [now] is the clock when an operation is called, in
    nanoseconds.  The cursor that the loops move along the list is the recursion. *)
From stdpp Require Import sorting.
From S2P Require Import Prelude Errors.
Local Open Scope Z_scope.

Inductive Titem (T : Type) : Type :=
| Ti_Head (next : Titem T)
| Ti_Timeout (delta : Z) (value : T) (next : Titem T)
| Ti_Sentinel.
Arguments Ti_Head {T} next.
Arguments Ti_Timeout {T} delta value next.
Arguments Ti_Sentinel {T}.

Record Timer (T : Type) := MkTimer { tm_instant : Z; tm_head : Titem T }.
Arguments MkTimer {T} tm_instant tm_head.
Arguments tm_instant {T} t.
Arguments tm_head {T} t.

Section timer.
(** [is_deleted v]: whether [v] is marked as deleted when the operation runs. *)
Context {T : Type} (is_deleted : T → bool).
Implicit Types (n : Titem T) (v : T).

Definition Timer_default (now : Z) : Timer T := MkTimer now (Ti_Head Ti_Sentinel).

(** [prev.take_next()] *)
Definition take_next n : Result (Titem T) :=
  match n with
  | Ti_Head next | Ti_Timeout _ _ next => Ok next
  | Ti_Sentinel => Panic
  end.

(** [prev.set_next(next)] *)
Definition set_next n next : Result (Titem T) :=
  match n with
  | Ti_Head _ => Ok (Ti_Head next)
  | Ti_Timeout delta value _ => Ok (Ti_Timeout delta value next)
  | Ti_Sentinel => Panic
  end.

(** u64 multiplication and subtraction: out of range is a panic. *)
Definition u64_mul (a b : Z) : Result Z := if a * b <? 2 ^ 64 then Ok (a * b) else Panic.
Definition u64_sub (a b : Z) : Result Z := if b <=? a then Ok (a - b) else Panic.
Definition u64_saturating_sub (a b : Z) : Z := Z.max (a - b) 0.

(** [self.instant.elapsed().as_micros() as u64] *)
Definition elapsed_micros (now : Z) (t : Timer T) : Z :=
  (Z.max (now - tm_instant t) 0 `div` 1000) `mod` 2 ^ 64.

(** The loop of [add_timeout], from the entry after the cursor. *)
Fixpoint add_loop (ndelta : Z) (value : T) n : Result (Titem T) :=
  match n with
  | Ti_Sentinel => Ok (Ti_Timeout ndelta value Ti_Sentinel)
  | Ti_Timeout delta v next =>
      if ndelta <? delta then
        delta ← u64_sub delta ndelta;
        Ok (Ti_Timeout ndelta value (Ti_Timeout delta v next))
      else
        ndelta ← u64_sub ndelta delta;
        next ← add_loop ndelta value next;
        Ok (Ti_Timeout delta v next)
  | Ti_Head _ => Panic
  end.

Definition add_timeout (now secs : Z) (value : T) (t : Timer T) : Result (Timer T) :=
  micros ← u64_mul secs 1000000;
  let ndelta := u64_saturating_sub micros (elapsed_micros now t) in
  next ← take_next (tm_head t);
  next ← add_loop ndelta value next;
  head ← set_next (tm_head t) next;
  Ok (MkTimer (tm_instant t) head).

(** The loop of [expired], from the entry after the head: what is left, and the
    values returned. *)
Fixpoint expired_loop (micros : Z) n : Result (Titem T * list T) :=
  match n with
  | Ti_Sentinel => Ok (Ti_Sentinel, [])
  | Ti_Timeout delta value next =>
      if micros <? delta then
        delta ← u64_sub delta micros;
        Ok (Ti_Timeout delta value next, [])
      else
        '(rest, expired) ← expired_loop micros next;
        Ok (rest, if is_deleted value then expired else value :: expired)
  | Ti_Head _ => Panic
  end.

Definition expired (now : Z) (elapsed : option Z) (t : Timer T) : Result (Timer T * list T) :=
  let micros := default (elapsed_micros now t) elapsed in
  next ← take_next (tm_head t);
  '(next, expired) ← expired_loop micros next;
  head ← set_next (tm_head t) next;
  Ok (MkTimer (tm_instant t + 1000 * micros) head, expired).

Fixpoint gc_loop n : Result (Titem T * list T) :=
  match n with
  | Ti_Sentinel => Ok (Ti_Sentinel, [])
  | Ti_Timeout delta value next =>
      '(next, gced) ← gc_loop next;
      Ok (if is_deleted value then (next, value :: gced) else (Ti_Timeout delta value next, gced))
  | Ti_Head _ => Panic
  end.

Definition gc (t : Timer T) : Result (Timer T * list T) :=
  next ← take_next (tm_head t);
  '(next, gced) ← gc_loop next;
  head ← set_next (tm_head t) next;
  Ok (MkTimer (tm_instant t) head, gced).

Fixpoint close_loop n : list T :=
  match n with
  | Ti_Head next => close_loop next
  | Ti_Timeout _ value next => value :: close_loop next
  | Ti_Sentinel => []
  end.

Definition close (t : Timer T) : list T := close_loop (tm_head t).

(** ** What a timer stands for

    [entries]: the values with the times at which they are due, counted from the
    instant of the timer. *)
Fixpoint entries_from (base : Z) n : list (Z * T) :=
  match n with
  | Ti_Head next => entries_from base next
  | Ti_Timeout delta value next => (base + delta, value) :: entries_from (base + delta) next
  | Ti_Sentinel => []
  end.

Definition entries (t : Timer T) : list (Z * T) := entries_from 0 (tm_head t).

(** A list of entries with deltas of u64. *)
Fixpoint wf_items n : Prop :=
  match n with
  | Ti_Timeout delta _ next => is_u64 delta ∧ wf_items next
  | Ti_Sentinel => True
  | Ti_Head _ => False
  end.

Definition wf_timer (t : Timer T) : Prop :=
  match tm_head t with Ti_Head next => wf_items next | _ => False end.

(** Where a new entry goes: after those that are due no later. *)
Fixpoint insert_entry (d : Z) v (l : list (Z * T)) : list (Z * T) :=
  match l with
  | [] => [(d, v)]
  | e :: l' => if d <? e.1 then (d, v) :: l else e :: insert_entry d v l'
  end.

Lemma add_loop_spec base ndelta value n :
  wf_items n → is_u64 ndelta →
  ∃ n', add_loop ndelta value n = Ok n' ∧ wf_items n'
    ∧ entries_from base n' = insert_entry (base + ndelta) value (entries_from base n).
Proof using Type.
  revert base ndelta. induction n as [next _|delta v next IH|]; intros base ndelta Hn Hd;
    cbn [add_loop entries_from insert_entry wf_items] in *; [done| |by eexists].
  destruct Hn as [Hdelta Hn]. unfold is_u64 in *. cbn [fst].
  destruct (Z.ltb_spec ndelta delta) as [Hlt|Hge]; unfold u64_sub.
  - destruct (Z.leb_spec ndelta delta); [|lia]. run. eexists; split; [done|].
    split; [cbn [wf_items]; unfold is_u64; split_and!; try done; lia|].
    destruct (Z.ltb_spec (base + ndelta) (base + delta)); [|lia]. cbn [entries_from].
    by replace (base + ndelta + (delta - ndelta)) with (base + delta) by lia.
  - destruct (Z.leb_spec delta ndelta); [|lia]. run.
    destruct (IH (base + delta) (ndelta - delta) Hn) as (n' & -> & Hn' & E); [lia|]. run.
    eexists; split; [done|]. split; [done|]. cbn [entries_from]. rewrite E.
    destruct (Z.ltb_spec (base + ndelta) (base + delta)); [lia|].
    by replace (base + delta + (ndelta - delta)) with (base + ndelta) by lia.
Qed.

Lemma entries_values a b n : snd <$> entries_from a n = snd <$> entries_from b n.
Proof using Type.
  revert a b. induction n as [next IH|d w next IH|]; intros a b; cbn; [apply IH| |done]. f_equal. apply IH.
Qed.

(** The entries taken by [expired]: as long as the time from the one before is at
    most [micros]. *)
Lemma expired_loop_spec base micros n :
  wf_items n → is_u64 micros →
  ∃ out rest n', expired_loop micros n
      = Ok (n', List.filter (λ v, negb (is_deleted v)) (snd <$> out))
    ∧ wf_items n'
    ∧ entries_from base n = out ++ rest
    ∧ snd <$> entries_from base n' = snd <$> rest
    ∧ Forall (λ e, e.1 ≤ base + Z.of_nat (length out) * micros) out
    ∧ match rest with e :: _ => base + micros < e.1 | [] => True end
    ∧ (∀ e, e ∈ entries_from base n → e.1 ≤ base + micros → e ∈ out).
Proof using Type.
  intros Hn Hm. revert base. induction n as [next _|delta v next IH|]; intros base;
    cbn [expired_loop entries_from wf_items] in *; [done| |].
  2:{ exists [], [], Ti_Sentinel. split_and!; try done. }
  destruct Hn as [Hd Hn]. specialize (IH Hn). unfold is_u64 in *.
  assert (∀ b m, wf_items m → Forall (λ e, b ≤ e.1) (entries_from b m)) as Hge.
  { clear -T. intros b m. revert b. induction m as [next _|d w next IH|]; intros b Hm; cbn in *; [done| |constructor].
    destruct Hm as [[? ?] Hm]. constructor; [cbn; lia|].
    eapply Forall_impl; [by apply IH|]. intros e He; cbn in He. lia. }
  destruct (Z.ltb_spec micros delta) as [Hlt|Hle].
  - unfold u64_sub. destruct (Z.leb_spec micros delta); [|lia]. run.
    exists [], ((base + delta, v) :: entries_from (base + delta) next),
      (Ti_Timeout (delta - micros) v next).
    split; [done|]. split; [cbn [wf_items]; unfold is_u64; split; [lia|done]|]. split; [done|].
    split; [|split; [constructor|split; [cbn; lia|]]].
    + cbn [entries_from fmap list_fmap snd]. f_equal. apply entries_values.
    + intros e [->|He]%elem_of_cons Hle; [cbn in Hle; lia|].
      specialize (Hge (base + delta) next Hn). eapply Forall_forall in Hge; [|exact He]. cbn in Hge. lia.
  - destruct (IH (base + delta)) as (out & rest & n' & -> & Hn' & E & Es & Hout & Hrest & Hall). run.
    exists ((base + delta, v) :: out), rest, n'. split; [|split; [done|]].
    { cbn [fmap list_fmap snd List.filter]. by destruct (is_deleted v). }
    split; [by rewrite E|]. split.
    { rewrite <-Es. apply entries_values. }
    split; [|split].
    + constructor; [cbn [fst length]; nia|]. eapply Forall_impl; [exact Hout|].
      intros e He; cbn [length] in *. nia.
    + destruct rest as [|e rest]; [done|]. lia.
    + intros e [->|He]%elem_of_cons Hle'; [by left|]. right. apply Hall; [done|lia].
Qed.

Lemma gc_loop_spec n :
  wf_items n →
  ∃ n', gc_loop n = Ok (n', List.filter is_deleted (close_loop n)) ∧ wf_items n'
    ∧ close_loop n' = List.filter (λ v, negb (is_deleted v)) (close_loop n).
Proof using Type.
  induction n as [next _|delta v next IH|]; cbn [gc_loop close_loop wf_items]; [done| |by eexists].
  intros [Hd Hn]. destruct (IH Hn) as (n' & -> & Hn' & E). run. cbn [List.filter].
  destruct (is_deleted v); cbn [negb]; eexists; (split; [done|]); [done|].
  split; [done|]. cbn [close_loop]. by rewrite E.
Qed.
End timer.

Lemma elapsed_micros_range {T} now (t : Timer T) : is_u64 (elapsed_micros now t).
Proof. unfold is_u64, elapsed_micros. apply Z.mod_pos_bound. lia. Qed.

Lemma add_timeout_spec {T} now secs (value : T) t :
  wf_timer t → 0 ≤ secs → secs * 1000000 < 2 ^ 64 →
  ∃ t', add_timeout now secs value t = Ok t' ∧ wf_timer t' ∧ tm_instant t' = tm_instant t
    ∧ entries t' = insert_entry (Z.max (secs * 1000000 - elapsed_micros now t) 0) value (entries t).
Proof.
  intros Ht Hs Ho. unfold add_timeout, u64_mul. destruct (Z.ltb_spec (secs * 1000000) (2 ^ 64)); [|lia]. run.
  pose proof (elapsed_micros_range now t) as He. set (el := elapsed_micros now t) in *. clearbody el.
  destruct t as [i head]; unfold wf_timer in Ht; cbn [tm_instant tm_head] in *.
  destruct head as [next| |]; [|done|done]. cbn [take_next]; run.
  destruct (add_loop_spec 0 (u64_saturating_sub (secs * 1000000) el) value next Ht)
    as (n' & -> & Hn' & E); [unfold is_u64, u64_saturating_sub in *; lia|]. run. cbn [set_next]; run.
  eexists; split; [done|]. split; [done|]. split; [done|]. exact E.
Qed.

Lemma expired_spec {T} (is_deleted : T → bool) now t :
  wf_timer t →
  ∃ t' out rest, expired is_deleted now None t
      = Ok (t', List.filter (λ v, negb (is_deleted v)) (snd <$> out))
    ∧ wf_timer t' ∧ tm_instant t' = tm_instant t + 1000 * elapsed_micros now t
    ∧ entries t = out ++ rest ∧ snd <$> entries t' = snd <$> rest
    ∧ (∀ e, e ∈ entries t → e.1 ≤ elapsed_micros now t → e ∈ out)
    ∧ Forall (λ e, e.1 ≤ Z.of_nat (length out) * elapsed_micros now t) out
    ∧ match rest with e :: _ => elapsed_micros now t < e.1 | [] => True end.
Proof.
  intros Ht. unfold expired. cbn [from_option]. unfold id.
  pose proof (elapsed_micros_range now t) as Hm. set (el := elapsed_micros now t) in *. clearbody el.
  destruct t as [i head]; unfold wf_timer in Ht; cbn [tm_instant tm_head] in *.
  destruct head as [next| |]; [|done|done]. cbn [take_next]; run.
  destruct (expired_loop_spec is_deleted 0 el next Ht Hm)
    as (out & rest & n' & -> & Hn' & E & Es & Hout & Hrest & Hall). run. cbn [set_next]; run.
  eexists _, out, rest. by split_and!.
Qed.

(** ** Theorems *)

(** Adding a timeout keeps the timer well formed and puts the new entry, due
    after the seconds asked for less the time since the timer's last expiry, after
    the entries that are due no later; no subtraction of deltas underflows. *)
Theorem add_timeout_sorted {T} now secs (value : T) t :
  wf_timer t → 0 ≤ secs → secs * 1000000 < 2 ^ 64 →
  ∃ t', add_timeout now secs value t = Ok t' ∧ wf_timer t' ∧ tm_instant t' = tm_instant t
    ∧ entries t' = insert_entry (Z.max (secs * 1000000 - elapsed_micros now t) 0) value (entries t).
Proof. apply add_timeout_spec. Qed.

Lemma add_timeout_sorted_witness :
  ∃ t', add_timeout 5000 2 7 (MkTimer 0 (Ti_Head (Ti_Timeout 1000000 8 Ti_Sentinel))) = Ok t'
    ∧ wf_timer t' ∧ tm_instant t' = 0
    ∧ entries t' = insert_entry (Z.max (2 * 1000000 - 5) 0) 7 [(1000000, 8)].
Proof.
  apply (add_timeout_sorted 5000 2 7 (MkTimer 0 (Ti_Head (Ti_Timeout 1000000 8 Ti_Sentinel)))); try done.
Defined.

(** C38. Expiry is never late: every entry that is due is taken off the timer, and
    those not marked as deleted are returned in order.  It can be early: the
    deltas of the entries taken are compared with the whole elapsed time, not with
    what is left of it, so the [k]-th entry is taken when it is due within [k]
    times the elapsed time; the first entry left is not due. *)
Theorem expired_not_late {T} (is_deleted : T → bool) now t :
  wf_timer t →
  ∃ t' out rest, expired is_deleted now None t
      = Ok (t', List.filter (λ v, negb (is_deleted v)) (snd <$> out))
    ∧ wf_timer t' ∧ tm_instant t' = tm_instant t + 1000 * elapsed_micros now t
    ∧ entries t = out ++ rest ∧ snd <$> entries t' = snd <$> rest
    ∧ (∀ e, e ∈ entries t → e.1 ≤ elapsed_micros now t → e ∈ out)
    ∧ Forall (λ e, e.1 ≤ Z.of_nat (length out) * elapsed_micros now t) out
    ∧ match rest with e :: _ => elapsed_micros now t < e.1 | [] => True end.
Proof. apply expired_spec. Qed.

Lemma expired_not_late_witness :
  ∃ t' out rest, expired (λ _ : nat, false) 3000 None (MkTimer 0 (Ti_Head (Ti_Timeout 2 8%nat Ti_Sentinel)))
      = Ok (t', List.filter (λ v, negb false) (snd <$> out))
    ∧ wf_timer t' ∧ tm_instant t' = 3000
    ∧ [(2, 8%nat)] = out ++ rest ∧ snd <$> entries t' = snd <$> rest
    ∧ (∀ e, e ∈ [(2, 8%nat)] → e.1 ≤ 3 → e ∈ out)
    ∧ Forall (λ e, e.1 ≤ Z.of_nat (length out) * 3) out
    ∧ match rest with e :: _ => 3 < e.1 | [] => True end.
Proof.
  by apply (expired_not_late (λ _ : nat, false) 3000 (MkTimer 0 (Ti_Head (Ti_Timeout 2 8%nat Ti_Sentinel)))).
Defined.

(** Two timeouts of one and of two seconds both fire after one second. *)
Theorem timer_fires_early {T} (a b : T) :
  (t ← add_timeout 0 1 a (Timer_default 0);
   t ← add_timeout 0 2 b t;
   '(_, out) ← expired (λ _, false) 1000000000 None t;
   Ok out) = Ok [a; b].
Proof. done. Qed.

(** Collecting garbage removes and returns exactly the entries marked as
    deleted, and keeps the others in order. *)
Theorem gc_deleted {T} (is_deleted : T → bool) t :
  wf_timer t →
  ∃ t', gc is_deleted t = Ok (t', List.filter is_deleted (close t)) ∧ wf_timer t'
    ∧ close t' = List.filter (λ v, negb (is_deleted v)) (close t).
Proof.
  intros Ht. unfold gc, close. destruct t as [i head]; unfold wf_timer in Ht; cbn [tm_instant tm_head] in *.
  destruct head as [next| |]; [|done|done]. cbn [take_next]; run.
  destruct (gc_loop_spec is_deleted next Ht) as (n' & -> & Hn' & E). run. cbn [set_next]; run.
  eexists; split; [done|]. split; [done|]. exact E.
Qed.

Lemma gc_deleted_witness :
  ∃ t', gc Z.even (MkTimer 0 (Ti_Head (Ti_Timeout 2 8 (Ti_Timeout 3 9 Ti_Sentinel))))
      = Ok (t', [8]) ∧ wf_timer t' ∧ close t' = [9].
Proof. by apply (gc_deleted Z.even (MkTimer 0 (Ti_Head (Ti_Timeout 2 8 (Ti_Timeout 3 9 Ti_Sentinel))))). Defined.
