(* ===== verification/Spinlock.v ===== *)
(** * The spinlock (src/src/broker/spinlock.rs)

    [Spinlock] as the steps that threads take on its one shared word, each of them
    an atomic load, compare-and-exchange or subtraction: the number of readers, the
    latch that a writer takes to keep new readers out, and the lock it takes when
    the last reader has left.  The orderings are [SeqCst], so that the steps of
    different threads interleave. *)
From S2P Require Import Prelude.
Local Open Scope Z_scope.

Definition LATCH_FLAG : Z := 0x40000000.
Definition LOCK_FLAG : Z := 0x80000000.
Definition LATCH_LOCK_FLAG : Z := 0xC0000000.
Definition READERS_FLAG : Z := 0x3FFFFFFF.

(** Where a thread is: in the loop of [read] or in one of the two of [write] before
    a load or before the exchange of the value it has loaded; with a guard; in the
    drop of the write guard. *)
Inductive spin_pc : Set :=
| Idle
| ReadLoad
| ReadExchange (old : Z)
| Reading
| LatchLoad
| LatchExchange (old : Z)
| LockLoad
| LockExchange (old : Z)
| Writing
| UnlockExchange (old : Z).

(** One atomic step on the word [latchlock]; a thread without a guard begins with
    what [writes] says. The panics are those of the source. *)
Definition spin_step (writes : bool) (latchlock : Z) (pc : spin_pc) : outcome unit (Z * spin_pc) :=
  match pc with
  | Idle => Ok (latchlock, if writes then LatchLoad else ReadLoad)
  | ReadLoad =>
      if Z.land latchlock LATCH_LOCK_FLAG =? 0 then Ok (latchlock, ReadExchange latchlock)
      else Ok (latchlock, ReadLoad)
  | ReadExchange old =>
      if latchlock =? old then Ok (old + 1, Reading) else Ok (latchlock, ReadLoad)
  | Reading => Ok ((latchlock - 1) `mod` 2 ^ 32, Idle)
  | LatchLoad =>
      if Z.land latchlock LATCH_FLAG =? 0 then
        if negb (Z.land latchlock LOCK_FLAG =? 0) then Panic
        else Ok (latchlock, LatchExchange latchlock)
      else Ok (latchlock, LatchLoad)
  | LatchExchange old =>
      if latchlock =? old then Ok (Z.lor old LATCH_FLAG, LockLoad) else Ok (latchlock, LatchLoad)
  | LockLoad =>
      if Z.land latchlock READERS_FLAG =? 0 then Ok (latchlock, LockExchange latchlock)
      else Ok (latchlock, LockLoad)
  | LockExchange old =>
      if latchlock =? old then Ok (Z.lor old LOCK_FLAG, Writing) else Panic
  | Writing =>
      if 0 <? Z.land latchlock READERS_FLAG then Panic else Ok (latchlock, UnlockExchange latchlock)
  | UnlockExchange old => if latchlock =? old then Ok (0, Idle) else Panic
  end.

(** The word and the threads; [reaches n s]: [s] can come about with [n] threads. *)
Record spin := MkSpin { latchlock : Z; threads : list spin_pc }.

Inductive reaches (n : nat) : spin → Prop :=
| reaches_new : reaches n (MkSpin 0 (replicate n Idle))
| reaches_step s i pc writes door pc' :
    reaches n s → threads s !! i = Some pc → spin_step writes (latchlock s) pc = Ok (door, pc') →
    reaches n (MkSpin door (<[i := pc']> (threads s))).

(** ** Bits of the word *)

Lemma land_bit x k : 0 ≤ k → Z.land x (2 ^ k) = if Z.testbit x k then 2 ^ k else 0.
Proof.
  intros Hk. apply Z.bits_inj'. intros m Hm. rewrite Z.land_spec, Z.pow2_bits_eqb by done.
  destruct (Z.eqb_spec k m) as [<-|Hne]; destruct (Z.testbit x k) eqn:E; rewrite ?E, ?Z.bits_0, ?Z.pow2_bits_eqb by done;
    rewrite ?andb_true_r, ?andb_false_r, ?Z.eqb_refl; try done.
  symmetry. by apply Z.eqb_neq.
Qed.

(** A word with [r] readers, a latch if [a] and a lock if [b]. *)
Definition word (r a b : Z) : Z := r + 2 ^ 30 * a + 2 ^ 31 * b.

Definition bit (a : Z) : Prop := a = 0 ∨ a = 1.

Lemma word_latch r a b : 0 ≤ r < 2 ^ 30 → bit a → bit b → Z.land (word r a b) LATCH_FLAG = 2 ^ 30 * a.
Proof.
  intros Hr Ha Hb. change LATCH_FLAG with (2 ^ 30). rewrite land_bit by done.
  assert (Z.testbit (word r a b) 30 = (a =? 1)) as ->; [|by destruct Ha as [-> | ->]].
  rewrite Z.testbit_eqb by done. unfold word.
  replace ((r + 2 ^ 30 * a + 2 ^ 31 * b) / 2 ^ 30) with (a + 2 * b) by (apply (Z.div_unique _ _ _ r); lia).
  f_equal. destruct Ha as [-> | ->], Hb as [-> | ->]; done.
Qed.

Lemma word_lock r a b : 0 ≤ r < 2 ^ 30 → bit a → bit b → Z.land (word r a b) LOCK_FLAG = 2 ^ 31 * b.
Proof.
  intros Hr Ha Hb. change LOCK_FLAG with (2 ^ 31). rewrite land_bit by done.
  assert (Z.testbit (word r a b) 31 = (b =? 1)) as ->; [|by destruct Hb as [-> | ->]].
  rewrite Z.testbit_eqb by done. unfold word.
  replace ((r + 2 ^ 30 * a + 2 ^ 31 * b) / 2 ^ 31) with b
    by (apply (Z.div_unique _ _ _ (r + 2 ^ 30 * a)); destruct Ha as [-> | ->]; lia).
  by destruct Hb as [-> | ->].
Qed.

Lemma word_latch_lock r a b :
  0 ≤ r < 2 ^ 30 → bit a → bit b → Z.land (word r a b) LATCH_LOCK_FLAG = 2 ^ 30 * a + 2 ^ 31 * b.
Proof.
  intros Hr Ha Hb. change LATCH_LOCK_FLAG with (Z.lor LATCH_FLAG LOCK_FLAG).
  rewrite Z.land_lor_distr_r, word_latch, word_lock by done. by destruct Ha as [-> | ->], Hb as [-> | ->].
Qed.

Lemma word_readers r a b : 0 ≤ r < 2 ^ 30 → bit a → bit b → Z.land (word r a b) READERS_FLAG = r.
Proof.
  intros Hr Ha Hb. change READERS_FLAG with (Z.ones 30). rewrite Z.land_ones by done.
  unfold word. symmetry. apply (Z.mod_unique _ _ (a + 2 * b)); lia.
Qed.

Lemma lor_word x m : Z.land x m = 0 → Z.lor x m = x + m.
Proof. intros H. pose proof (Z.add_lor_land x m). lia. Qed.

(** ** The invariant *)

Section total.
Context {A : Type} (f : A → Z).

Fixpoint total (l : list A) : Z := match l with [] => 0 | x :: l => f x + total l end.

Lemma total_insert l i x y : l !! i = Some x → total (<[i := y]> l) = total l - f x + f y.
Proof.
  revert i. induction l as [|z l IH]; intros [|i]; cbn; try done.
  - intros [= ->]. lia.
  - intros H. rewrite IH by done. lia.
Qed.

Context (Hf : ∀ x, 0 ≤ f x).

Lemma total_nonneg l : 0 ≤ total l.
Proof using Hf. induction l as [|z l IH]; cbn; [lia|]. specialize (Hf z). lia. Qed.

Lemma total_one l i x : l !! i = Some x → f x ≤ total l.
Proof using Hf.
  revert i. induction l as [|z l IH]; intros [|i]; cbn; try done.
  - intros [= ->]. pose proof (total_nonneg l). lia.
  - intros H%IH. specialize (Hf z). lia.
Qed.

Lemma total_two l i j x y : l !! i = Some x → l !! j = Some y → i ≠ j → f x + f y ≤ total l.
Proof using Hf.
  revert i j. induction l as [|z l IH]; intros [|i] [|j]; cbn; try done.
  - intros [= ->] H%total_one _. lia.
  - intros H%total_one [= ->] _. lia.
  - intros Hi Hj Hij. specialize (IH i j Hi Hj ltac:(congruence)). specialize (Hf z). lia.
Qed.

Lemma total_le l n : (∀ x, f x ≤ 1) → length l = n → total l ≤ Z.of_nat n.
Proof. intros H. revert n. induction l as [|z l IH]; intros n <-; cbn; [lia|]. specialize (IH _ eq_refl). specialize (H z). lia. Qed.

Lemma total_replicate n x : f x = 0 → total (replicate n x) = 0.
Proof. intros H. induction n as [|n IH]; cbn; lia. Qed.
End total.

Lemma total_mono {A} (f g : A → Z) l i x :
  (∀ x, f x ≤ g x) → l !! i = Some x → total f l + (g x - f x) ≤ total g l.
Proof.
  intros H. revert i. induction l as [|y l IH]; intros [|i]; cbn; try done.
  - intros [= ->]. enough (total f l ≤ total g l) by lia.
    clear IH. induction l as [|y l IH]; cbn; [done|]. specialize (H y). lia.
  - intros Hi%IH. specialize (H y). lia.
Qed.

(** What a thread contributes to the word. *)
Definition reads (pc : spin_pc) : Z := match pc with Reading => 1 | _ => 0 end.
Definition locks (pc : spin_pc) : Z := match pc with Writing | UnlockExchange _ => 1 | _ => 0 end.
Definition latches (pc : spin_pc) : Z :=
  match pc with LockLoad | LockExchange _ | Writing | UnlockExchange _ => 1 | _ => 0 end.

(** What a thread has loaded. *)
Definition loaded_ok (door r : Z) (pc : spin_pc) : Prop :=
  match pc with
  | ReadExchange old | LatchExchange old => 0 ≤ old < 2 ^ 30
  | LockExchange old => r = 0 ∧ old = door
  | UnlockExchange old => old = door
  | _ => True
  end.

Definition spin_inv (n : nat) (s : spin) : Prop :=
  let r := total reads (threads s) in
  let a := total latches (threads s) in
  let b := total locks (threads s) in
  length (threads s) = n ∧ latchlock s = word r a b ∧ bit a ∧ bit b ∧ (b = 1 → r = 0)
  ∧ ∀ i pc, threads s !! i = Some pc → loaded_ok (latchlock s) r pc.

Lemma reads_nonneg pc : 0 ≤ reads pc. Proof. destruct pc; cbn; lia. Qed.
Lemma latches_nonneg pc : 0 ≤ latches pc. Proof. destruct pc; cbn; lia. Qed.
Lemma locks_nonneg pc : 0 ≤ locks pc. Proof. destruct pc; cbn; lia. Qed.

(** A thread with the latch sees no one else change the word, once the readers have
    left. *)
Lemma loaded_kept n s i pc door pc' j pcj :
  spin_inv n s → threads s !! i = Some pc → threads s !! j = Some pcj → i ≠ j →
  loaded_ok (latchlock s) (total reads (threads s)) pcj →
  (latches pc = 0 → reads pc = 0 → 2 ^ 30 ≤ latchlock s → door = latchlock s ∧ reads pc' = 0) →
  loaded_ok door (total reads (threads s) - reads pc + reads pc') pcj.
Proof.
  intros (_ & Hw & Ha & Hb & Hbr & _) Hi Hj Hij Hok Hstep.
  pose proof (total_two latches latches_nonneg _ _ _ _ _ Hi Hj Hij) as Hab.
  pose proof (total_one reads reads_nonneg _ _ _ Hi) as Hr.
  pose proof (total_one locks locks_nonneg _ _ _ Hj) as Hl.
  pose proof (latches_nonneg pc). pose proof (reads_nonneg pc).
  pose proof (total_nonneg reads reads_nonneg (threads s)) as Hr0.
  destruct pcj; cbn [loaded_ok latches locks] in *; try done; unfold word, bit in *.
  - destruct Hok as [Hz ->]. destruct Hstep as [-> E]; [lia..|]. split; [lia|done].
  - destruct Hstep as [-> E]; [lia..|]. done.
Qed.

Lemma inv_step n s i pc door pc' :
  spin_inv n s → threads s !! i = Some pc →
  let r := total reads (threads s) - reads pc + reads pc' in
  let a := total latches (threads s) - latches pc + latches pc' in
  let b := total locks (threads s) - locks pc + locks pc' in
  door = word r a b → bit a → bit b → (b = 1 → r = 0) → loaded_ok door r pc' →
  (latches pc = 0 → reads pc = 0 → 2 ^ 30 ≤ latchlock s → door = latchlock s ∧ reads pc' = 0) →
  spin_inv n (MkSpin door (<[i := pc']> (threads s))).
Proof.
  intros Hinv Hi r a b Hw Ha Hb Hbr Hok Hstep. unfold spin_inv. cbn [threads latchlock].
  rewrite length_insert, !(total_insert _ _ _ _ _ Hi). split; [apply Hinv|]. split_and!; try done.
  intros j pcj Hj. destruct (decide (i = j)) as [<-|Hne].
  - rewrite list_lookup_insert_eq in Hj by by apply lookup_lt_Some in Hi. by injection Hj as <-.
  - rewrite list_lookup_insert_ne in Hj by done. eapply loaded_kept; try done. destruct Hinv as (_&_&_&_&_&H). by eapply H.
Qed.

Lemma spin_step_inv n s i pc writes :
  Z.of_nat n < 2 ^ 30 → spin_inv n s → threads s !! i = Some pc →
  ∃ door pc', spin_step writes (latchlock s) pc = Ok (door, pc')
    ∧ spin_inv n (MkSpin door (<[i := pc']> (threads s))).
Proof.
  intros Hn Hinv Hi. pose proof Hinv as (Hlen & Hw & Ha & Hb & Hbr & Hok). specialize (Hok _ _ Hi).
  pose proof (total_le reads (threads s) n) as Hr. pose proof (total_nonneg reads reads_nonneg (threads s)) as Hr0.
  pose proof (total_one reads reads_nonneg _ _ _ Hi) as Hri.
  pose proof (total_one latches latches_nonneg _ _ _ Hi) as Hai.
  pose proof (total_one locks locks_nonneg _ _ _ Hi) as Hbi.
  assert (0 ≤ total reads (threads s) < 2 ^ 30) as Hrr.
  { split; [done|]. enough (total reads (threads s) ≤ Z.of_nat n) by lia. apply Hr; [|done]. intros []; cbn; lia. }
  set (r := total reads (threads s)) in *. set (a := total latches (threads s)) in *. set (b := total locks (threads s)) in *.
  assert (∀ door pc', door = word (r - reads pc + reads pc') (a - latches pc + latches pc') (b - locks pc + locks pc') →
    bit (a - latches pc + latches pc') → bit (b - locks pc + locks pc') →
    (b - locks pc + locks pc' = 1 → r - reads pc + reads pc' = 0) →
    loaded_ok door (r - reads pc + reads pc') pc' →
    (latches pc = 0 → reads pc = 0 → 2 ^ 30 ≤ latchlock s → door = latchlock s ∧ reads pc' = 0) →
    ∃ door2 pc2, (Ok (door, pc') : outcome unit _) = Ok (door2, pc2) ∧ spin_inv n (MkSpin door2 (<[i := pc2]> (threads s)))) as Hgo.
  { intros door pc' H1 H2 H3 H4 H5 H6. exists door, pc'. split; [done|]. by eapply inv_step. }
  assert (Z.land (latchlock s) LATCH_LOCK_FLAG = 2 ^ 30 * a + 2 ^ 31 * b) as Hll by (rewrite Hw; by apply word_latch_lock).
  assert (Z.land (latchlock s) LATCH_FLAG = 2 ^ 30 * a) as Hla by (rewrite Hw; by apply word_latch).
  assert (Z.land (latchlock s) LOCK_FLAG = 2 ^ 31 * b) as Hlo by (rewrite Hw; by apply word_lock).
  assert (Z.land (latchlock s) READERS_FLAG = r) as Hrd by (rewrite Hw; by apply word_readers).
  pose proof (λ old, lor_word old LATCH_FLAG) as Hor1. pose proof (λ old, lor_word old LOCK_FLAG) as Hor2.
  assert (b + (latches pc - locks pc) ≤ a) as Hba by (eapply total_mono; [intros []; cbn; lia|done]).
  assert (latches pc = 1 → a = 1) as Hai1 by (unfold bit in *; lia).
  destruct pc as [| |old| | |old| |old| |old]; cbn [spin_step]; cbn [loaded_ok reads latches locks] in *;
    rewrite ?Hll, ?Hla, ?Hlo, ?Hrd.
  - destruct writes; apply Hgo; cbn [reads latches locks]; rewrite ?Z.sub_0_r, ?Z.add_0_r; done.
  - destruct (Z.eqb_spec (2 ^ 30 * a + 2 ^ 31 * b) 0) as [E|_]; apply Hgo; cbn [reads latches locks];
      rewrite ?Z.sub_0_r, ?Z.add_0_r; try done.
    cbn [loaded_ok]. rewrite Hw. unfold word, bit in *. lia.
  - destruct (Z.eqb_spec (latchlock s) old) as [E|_]; apply Hgo; cbn [reads latches locks loaded_ok];
      rewrite ?Z.sub_0_r, ?Z.add_0_r; try done; unfold word, bit in *; lia.
  - apply Hgo; cbn [reads latches locks loaded_ok]; unfold word, bit in *; try done; try lia.
    rewrite Z.mod_small; lia.
  - destruct (Z.eqb_spec (2 ^ 30 * a) 0) as [E|_].
    + destruct (Z.eqb_spec (2 ^ 31 * b) 0) as [E2|E2]; cbn [negb].
      * apply Hgo; cbn [reads latches locks loaded_ok]; rewrite ?Z.sub_0_r, ?Z.add_0_r; try done. rewrite Hw. unfold word, bit in *. lia.
      * unfold bit in *. lia.
    + apply Hgo; cbn [reads latches locks]; rewrite ?Z.sub_0_r, ?Z.add_0_r; done.
  - destruct (Z.eqb_spec (latchlock s) old) as [E|_]; [rewrite Hor1|]; try (apply Hgo; cbn [reads latches locks loaded_ok];
      rewrite ?Z.sub_0_r, ?Z.add_0_r; try done; change LATCH_FLAG with (2 ^ 30); unfold word, bit in *; lia).
    rewrite <-E, Hla. unfold word, bit in *. lia.
  - destruct (Z.eqb_spec r 0) as [E|_]; apply Hgo; cbn [reads latches locks loaded_ok]; rewrite ?Z.sub_0_r, ?Z.add_0_r; try done;
      rewrite ?Z.sub_add; done.
  - destruct Hok as [Hz ->]. rewrite Z.eqb_refl, Hor2.
    + apply Hgo; cbn [reads latches locks loaded_ok]; change LOCK_FLAG with (2 ^ 31); unfold word, bit in *; try done; try lia.
    + rewrite Hlo. unfold word, bit in *. lia.
  - destruct (Z.ltb_spec 0 r); [unfold bit in *; lia|].
    apply Hgo; cbn [reads latches locks loaded_ok]; rewrite ?Z.sub_add, ?Z.sub_0_r, ?Z.add_0_r; done.
  - rewrite Hok, Z.eqb_refl. apply Hgo; cbn [reads latches locks loaded_ok]; unfold word, bit in *; try done; lia.
Qed.

Lemma reaches_inv n s : Z.of_nat n < 2 ^ 30 → reaches n s → spin_inv n s.
Proof.
  intros Hn. induction 1 as [|s i pc writes door pc' _ IH Hi Hstep].
  - unfold spin_inv. cbn [threads latchlock]. rewrite !total_replicate by done.
    split_and!; [apply length_replicate|done|by left|by left|done|].
    intros i pc [-> _]%lookup_replicate. done.
  - destruct (spin_step_inv n s i pc writes Hn IH Hi) as (door2 & pc2 & E & H). rewrite E in Hstep.
    by injection Hstep as <- <-.
Qed.

(** ** Theorems *)

Definition guarded (pc : spin_pc) : Prop :=
  match pc with Reading | Writing | UnlockExchange _ => True | _ => False end.

Definition writing (pc : spin_pc) : Prop := match pc with Writing | UnlockExchange _ => True | _ => False end.

(** C8. The spinlock excludes: in every state that up to 2^30 - 1 threads can bring
    about by interleaving their steps, a thread with a write guard is the only one
    with a guard, every thread can take a step, and none of the panics of the
    source is reached. *)
Theorem spinlock_excludes n s :
  Z.of_nat n < 2 ^ 30 → reaches n s →
  (∀ i j pc pc', threads s !! i = Some pc → threads s !! j = Some pc' → writing pc → guarded pc' → i = j)
  ∧ ∀ i pc writes, threads s !! i = Some pc → is_Ok (spin_step writes (latchlock s) pc).
Proof.
  intros Hn Hs. pose proof (reaches_inv n s Hn Hs) as Hinv. split.
  - intros i j pc pc' Hi Hj Hw Hg. destruct (decide (i = j)) as [|Hne]; [done|exfalso].
    destruct Hinv as (_ & _ & _ & Hb & Hbr & _).
    pose proof (total_one locks locks_nonneg _ _ _ Hi) as H1.
    pose proof (total_two locks locks_nonneg _ _ _ _ _ Hi Hj Hne) as H2.
    pose proof (total_one reads reads_nonneg _ _ _ Hj) as H3.
    destruct pc; try done; destruct pc'; try done; cbn in *; unfold bit in *; lia.
  - intros i pc writes Hi. destruct (spin_step_inv n s i pc writes Hn Hinv Hi) as (door & pc' & E & _).
    by eexists.
Qed.

(** ** Witness *)

Lemma spinlock_excludes_witness :
  ∃ s, reaches 2 s ∧ threads s = [Writing; ReadLoad] ∧ latchlock s = 0xC0000000
    ∧ (∀ i j pc pc', threads s !! i = Some pc → threads s !! j = Some pc' → writing pc → guarded pc' → i = j)
    ∧ ∀ i pc writes, threads s !! i = Some pc → is_Ok (spin_step writes (latchlock s) pc).
Proof.
  eexists. assert (reaches 2 (MkSpin 0xC0000000 [Writing; ReadLoad])) as Hr.
  { refine (reaches_step 2 (MkSpin 0xC0000000 [Writing; Idle]) 1 Idle false _ _ _ eq_refl eq_refl).
    refine (reaches_step 2 (MkSpin 0x40000000 [LockExchange 0x40000000; Idle]) 0 _ false _ _ _ eq_refl eq_refl).
    refine (reaches_step 2 (MkSpin 0x40000000 [LockLoad; Idle]) 0 _ false _ _ _ eq_refl eq_refl).
    refine (reaches_step 2 (MkSpin 0 [LatchExchange 0; Idle]) 0 _ false _ _ _ eq_refl eq_refl).
    refine (reaches_step 2 (MkSpin 0 [LatchLoad; Idle]) 0 _ false _ _ _ eq_refl eq_refl).
    refine (reaches_step 2 (MkSpin 0 [Idle; Idle]) 0 _ true _ _ _ eq_refl eq_refl).
    apply (reaches_new 2). }
  split; [exact Hr|]. split; [reflexivity|]. split; [reflexivity|]. by apply (spinlock_excludes 2).
Defined.
