(* ===== verification/Socket.v ===== *)
(** * Sockets (src/src/broker/socket.rs)

    [Socket]: packets read from a connection and passed on to the session's shard,
    packets taken from the miot queue and written to the connection, with a timeout
    on each side. *)
From S2P Require Import Prelude Errors Utf8 Util Types V5Header V5Property V5Codec V5Packet Framing Config Queues.
Local Open Scope Z_scope.

Abbreviation QueuePkt := (QueueStatus Packet).
Abbreviation PktTx := (QueueTx Packet).
Abbreviation PktRx := (QueueRx Packet).

(** ** Time

    The clock: the time of each successive call of [SystemTime::now()] or [Instant::now()], in
    nanoseconds. *)
Record clock := MkClock { ck_time : nat → Z; ck_reads : nat }.

Definition now (ck : clock) : Z * clock :=
  (ck_time ck (ck_reads ck), MkClock (ck_time ck) (S (ck_reads ck))).

Definition from_secs (secs : Z) : Z := secs * 1000000000.

(** [read_elapsed] and [write_elapsed] *)
Definition elapsed (timeout : option Z) (ck : clock) : bool * clock :=
  let '(now, ck) := now ck in
  (match timeout with Some t => t <? now | None => false end, ck).

(** [set_read_timeout] and [set_write_timeout] *)
Definition set_timeout (timeout : option Z) (retry : bool) (secs : Z) (ck : clock)
    : option Z * clock :=
  match retry, timeout with
  | true, None => let '(now, ck) := now ck in (Some (now + from_secs secs), ck)
  | true, Some _ => (timeout, ck)
  | false, _ => (None, ck)
  end.

(** ** Socket *)

Record Source := MkSource {
  pr : MQTTRead;
  rd_timeout : option Z;
  session_tx : PktTx;
  rd_packets : list Packet;
}.
#[export] Instance Source_eta : Eta Source :=
  λ s, MkSource (pr s) (rd_timeout s) (session_tx s) (rd_packets s).

Record Sink := MkSink {
  pw : MQTTWrite;
  wt_timeout : option Z;
  miot_rx : PktRx;
  wt_packets : list Packet;
}.
#[export] Instance Sink_eta : Eta Sink :=
  λ s, MkSink (pw s) (wt_timeout s) (miot_rx s) (wt_packets s).

(** What a reading call can use: the source, the connection and the clock; and
    whether the shard has been woken. *)
Record rd_env := MkRdEnv { re_src : Source; re_conn : reader; re_clock : clock; re_woken : bool }.

Definition set_src (src : Source) (e : rd_env) : rd_env :=
  MkRdEnv src (re_conn e) (re_clock e) (re_woken e).

Definition set_read_timeout (retry : bool) (secs : Z) (e : rd_env) : rd_env :=
  let '(t, ck) := set_timeout (rd_timeout (re_src e)) retry secs (re_clock e) in
  MkRdEnv ((re_src e) <| rd_timeout := t |>) (re_conn e) ck (re_woken e).

(** The arms of [read_packet] for a packet that is not complete: retry until the
    timeout has passed. *)
Definition read_wait (config : Config) (st : MQTTRead) (e : rd_env) : rd_env * QueuePkt :=
  let '(late, ck) := elapsed (rd_timeout (re_src e)) (re_clock e) in
  let e := MkRdEnv (re_src e) (re_conn e) ck (re_woken e) in
  let e := set_read_timeout (negb late) (sock_mqtt_read_timeout config) e in
  (set_src ((re_src e) <| pr := st |>) e, if negb late then Q_Block [] else Q_Disconnected []).

(** [read_packet]: an error of the crate is a result, since it leaves the source
    without a reader state ([mem::replace(.., MQTTRead::default())]). *)
Definition read_packet (config : Config) (e : rd_env) : Result (rd_env * (QueuePkt + Error)) :=
  let src := re_src e in
  let taken := set_src (src <| pr := MR_None |>) e in
  match MQTTRead_read (pr src) (re_conn e) with
  | Err err =>
      if bool_decide (Error_kind err = EK_Disconnected)
      then Ok (taken, inl (Q_Disconnected []))
      else Ok (taken, inr err)
  | Panic => Panic
  | NoFuel => NoFuel
  | Ok (st, _, conn) =>
      let e := MkRdEnv (re_src taken) conn (re_clock e) (re_woken e) in
      match st with
      | MR_Init _ _ | MR_Header _ _ _ | MR_Remain _ _ _ _ =>
          let '(e, q) := read_wait config st e in Ok (e, inl q)
      | MR_Fin _ _ _ _ =>
          let e := set_read_timeout false (sock_mqtt_read_timeout config) e in
          match MQTTRead_parse st with
          | Ok pkt =>
              st ← MQTTRead_reset st;
              Ok (set_src ((re_src e) <| pr := st |>) e, inl (Q_Ok [pkt]))
          | Err err => Ok (e, inr err)
          | Panic => Panic
          | NoFuel => NoFuel
          end
      | MR_None => Panic
      end
  end.

(** [send_upstream]: the handle is cloned, and dropped at the end. *)
Definition send_upstream (e : rd_env) : rd_env * QueuePkt :=
  let src := re_src e in
  let session := session_tx src in
  let '(status, session') := try_sends (rd_packets src) session in
  let '(remaining, status) := take_values status in
  let src := src <| session_tx := MkTx (tx session') (tx_count session) |>
                 <| rd_packets := remaining |> in
  (MkRdEnv src (re_conn e) (re_clock e) (re_woken e || PktTx_drop session'), status).

Fixpoint read_packets (fuel : nat) (config : Config) (e : rd_env)
    : Result (rd_env * (QueuePkt + Error)) :=
  match fuel with
  | O => NoFuel
  | S fuel =>
      match send_upstream e with
      | (e, Q_Ok _) =>
          '(e, res) ← read_packet config e;
          match res with
          | inr err => Ok (e, inr err)
          | inl status =>
              let '(vals, status) := take_values status in
              let e := set_src ((re_src e) <| rd_packets := rd_packets (re_src e) ++ vals |>) e in
              let n := length (rd_packets (re_src e)) in
              match status with
              | Q_Ok _ =>
                  if Z.of_nat n <? mqtt_pkt_batch_size config then read_packets fuel config e
                  else let '(e, status) := send_upstream e in Ok (e, inl status)
              | Q_Block _ => let '(e, status) := send_upstream e in Ok (e, inl status)
              | Q_Disconnected _ =>
                  if (n =? 0)%nat then Ok (e, inl status)
                  else let '(e, status) := send_upstream e in Ok (e, inl status)
              end
          end
      | (e, status) => Ok (e, inl status)
      end
  end.

(** *** Writing *)

Record SockStats := MkSockStats { items : Z; stat_bytes : Z }.
Definition SockStats_default : SockStats := MkSockStats 0 0.

(** [Stats::update] *)
Definition SockStats_update (self other : SockStats) : SockStats :=
  MkSockStats (items other) (stat_bytes other).

Record wt_env := MkWtEnv { we_sink : Sink; we_conn : writer; we_clock : clock }.

Definition set_sink (sink : Sink) (e : wt_env) : wt_env := MkWtEnv sink (we_conn e) (we_clock e).

Definition set_write_timeout (retry : bool) (secs : Z) (e : wt_env) : wt_env :=
  let '(t, ck) := set_timeout (wt_timeout (we_sink e)) retry secs (we_clock e) in
  MkWtEnv ((we_sink e) <| wt_timeout := t |>) (we_conn e) ck.

(** The arms of [write_packet] for a packet that is not out yet. *)
Definition write_wait (config : Config) (st : MQTTWrite) (e : wt_env) : wt_env * QueuePkt :=
  let '(late, ck) := elapsed (wt_timeout (we_sink e)) (we_clock e) in
  let e := MkWtEnv (we_sink e) (we_conn e) ck in
  let e := set_write_timeout (negb late) (sock_mqtt_write_timeout config) e in
  (set_sink ((we_sink e) <| pw := st |>) e, if negb late then Q_Block [] else Q_Disconnected []).

Definition write_packet (config : Config) (e : wt_env) : Result (wt_env * QueuePkt) :=
  let sink := we_sink e in
  match MQTTWrite_write (pw sink) (we_conn e) with
  | Ok (st, _, conn) =>
      let e := MkWtEnv (sink <| pw := MW_None |>) conn (we_clock e) in
      match st with
      | MW_Init _ _ | MW_Remain _ _ _ =>
          Ok (write_wait config st e)
      | MW_Fin _ _ =>
          let e := set_write_timeout false (sock_mqtt_write_timeout config) e in
          Ok (set_sink ((we_sink e) <| pw := st |>) e, Q_Ok [])
      | MW_None => Panic
      end
  | Err err =>
      if bool_decide (Error_kind err = EK_Disconnected)
      then Ok (set_sink (sink <| pw := MW_None |>) e, Q_Disconnected [])
      else Panic
  | Panic => Panic
  | NoFuel => NoFuel
  end.

Section writing.
(** [conn.flush()] of the connection library: whether it succeeds. *)
Context (flush : writer → bool).

(** The loop of [flush_packets] over the packets drained: what it leaves of them. *)
Fixpoint flush_loop (config : Config) (iter : list Packet) (st : SockStats) (e : wt_env)
    : Result (wt_env * QueuePkt * SockStats * list Packet) :=
  '(e, res) ← write_packet config e;
  match res with
  | Q_Ok _ =>
      match iter with
      | packet :: iter =>
          match encoded Packet_ packet with
          | Ok blob =>
              let st := MkSockStats (items st) (stat_bytes st + len blob) in
              if flush (we_conn e) then
                let st := MkSockStats (items st + 1) (stat_bytes st) in
                w ← MQTTWrite_reset (pw (we_sink e)) blob;
                flush_loop config iter st (set_sink ((we_sink e) <| pw := w |>) e)
              else Ok (e, Q_Disconnected [], st, iter)
          | Err _ => flush_loop config iter st e
          | Panic => Panic
          | NoFuel => NoFuel
          end
      | [] => Ok (e, Q_Ok [], st, [])
      end
  | _ => Ok (e, res, st, iter)
  end.

Definition flush_packets (config : Config) (e : wt_env) : Result (wt_env * QueuePkt * SockStats) :=
  let iter := wt_packets (we_sink e) in
  let e := set_sink ((we_sink e) <| wt_packets := @nil Packet |>) e in
  '(e, res, st, iter) ← flush_loop config iter SockStats_default e;
  let sink := we_sink e in
  Ok (set_sink (sink <| wt_packets := wt_packets sink ++ iter |>) e, res, st).

Fixpoint write_packets_loop (fuel : nat) (config : Config) (stats : SockStats) (e : wt_env)
    : Result (wt_env * QueuePkt * SockStats) :=
  match fuel with
  | O => NoFuel
  | S fuel =>
      '(e, status, flush_stats) ← flush_packets config e;
      let stats := SockStats_update stats flush_stats in
      match status with
      | Q_Ok _ =>
          '(status, r) ← try_recvs (miot_rx (we_sink e));
          let '(vals, status) := take_values status in
          let e := set_sink ((we_sink e) <| miot_rx := r |>
                               <| wt_packets := wt_packets (we_sink e) ++ vals |>) e in
          match status with
          | Q_Ok _ => write_packets_loop fuel config stats e
          | Q_Block _ =>
              '(e, status, flush_stats) ← flush_packets config e;
              Ok (e, status, SockStats_update stats flush_stats)
          | Q_Disconnected _ => Ok (e, status, stats)
          end
      | _ => Ok (e, status, stats)
      end
  end.

(** Every turn takes packets from the queue. *)
Definition write_packets (config : Config) (e : wt_env) : Result (wt_env * QueuePkt * SockStats) :=
  write_packets_loop (S (length (ch_items (rx (miot_rx (we_sink e)))))) config SockStats_default e.
End writing.

(** *** Socket *)

(** [TcpStream]: what it will read and what it takes. *)
Record TcpStream := MkTcpStream { tcp_rd : reader; tcp_wr : writer }.

(** What the threads ask of the operating system: the address of the peer of a stream
    ([None] if the connection has been reset, from some point of the stream on), the
    registration of a stream with the poller, [flush] of a stream, and the wakers. *)
Class System := {
  peer_addr : TcpStream → option rstring;
  register : TcpStream → nat → bool;
  deregister : TcpStream → bool;
  flush : writer → bool;
  wakes : bool;
}.
Record Socket := MkSocket {
  so_client_id : rstring;
  so_conn : TcpStream;
  so_token : nat;
  so_rd : Source;
  so_wt : Sink;
}.

(** What the sockets of a thread share: the clock, and whether the shard that
    receives their packets has been woken. *)
Record world := MkWorld { w_clock : clock; w_woken : bool }.

Definition rd_env_of (so : Socket) (w : world) : rd_env :=
  MkRdEnv (so_rd so) (tcp_rd (so_conn so)) (w_clock w) (w_woken w).

Definition wt_env_of (so : Socket) (w : world) : wt_env :=
  MkWtEnv (so_wt so) (tcp_wr (so_conn so)) (w_clock w).

Definition with_rd (so : Socket) (e : rd_env) : Socket :=
  MkSocket (so_client_id so) (MkTcpStream (re_conn e) (tcp_wr (so_conn so))) (so_token so) (re_src e) (so_wt so).

Definition with_wt (so : Socket) (e : wt_env) : Socket :=
  MkSocket (so_client_id so) (MkTcpStream (tcp_rd (so_conn so)) (we_conn e)) (so_token so) (so_rd so) (we_sink e).

(** The room in the queue to the shard. *)
Definition room (src : Source) : nat :=
  ch_size (tx (session_tx src)) + 1 - length (ch_items (tx (session_tx src))) - length (rd_packets src).

(** Every turn but the last takes room. *)
Definition Socket_read_packets (config : Config) (so : Socket) (w : world)
    : Result (Socket * world * (QueuePkt + Error)) :=
  '(e, res) ← read_packets (S (room (so_rd so))) config (rd_env_of so w);
  Ok (with_rd so e, MkWorld (re_clock e) (re_woken e), res).

Definition Socket_write_packets (flush : writer → bool) (config : Config) (so : Socket) (w : world)
    : Result (Socket * world * QueuePkt * SockStats) :=
  '(e, status, stats) ← write_packets flush config (wt_env_of so w);
  Ok (with_wt so e, MkWorld (we_clock e) (w_woken w), status, stats).

(** ** Reading *)

(** The packets on their way to the shard, oldest first, and the bytes on their
    way to the packets. *)
Definition upstream (src : Source) : list Packet :=
  ch_items (tx (session_tx src)) ++ rd_packets src.

Definition incoming (e : rd_env) : bytes := pending (pr (re_src e)) ++ rd_bytes (re_conn e).

(** [data] is one packet, and decodes to [pkt]. *)
Definition decodes (pkt : Packet) (data : bytes) : Prop :=
  Packet_decode data = Ok (pkt, length data) ∧ wf_Packet pkt.

(** A complete packet whose type or QoS does not exist. *)
Definition reserved (data : bytes) : Prop :=
  ∃ fh max, framed_as data fh max ∧ ¬ is_Ok (FixedHeader_unwrap fh).

(** A complete packet with a field that is longer than the packet. *)
Definition short (data : bytes) : Prop :=
  ∃ err, Packet_decode data = Err err ∧ Error_kind err = EK_InsufficientBytes.

(** Why [read_packet] fails: the bytes after the packets [datas] are not a packet. *)
Definition refused (stream : bytes) (err : Error) : Prop :=
  Error_kind err = EK_MalformedPacket ∨ Error_kind err = EK_ProtocolError
  ∨ (Error_kind err = EK_InsufficientBytes
     ∧ ∃ datas data rest, stream = concat datas ++ data ++ rest ∧ short data).

Definition wf_rd (e : rd_env) : Prop := wf_read (pr (re_src e)) ∧ is_bytes (rd_bytes (re_conn e)).

Lemma send_upstream_spec e :
  let '(e', status) := send_upstream e in
  upstream (re_src e') = upstream (re_src e) ∧ incoming e' = incoming e
  ∧ pr (re_src e') = pr (re_src e) ∧ re_conn e' = re_conn e
  ∧ ch_size (tx (session_tx (re_src e'))) = ch_size (tx (session_tx (re_src e)))
  ∧ values status = []
  ∧ (if status is Q_Ok _ then rd_packets (re_src e') = [] else rd_packets (re_src e') ≠ [])
  ∧ (length (ch_items (tx (session_tx (re_src e)))) ≤ ch_size (tx (session_tx (re_src e))) →
     length (ch_items (tx (session_tx (re_src e')))) ≤ ch_size (tx (session_tx (re_src e'))))%nat
  ∧ (re_woken e' = true ↔ re_woken e = true ∨ (0 < tx_count (session_tx (re_src e)))%nat
     ∨ ch_items (tx (session_tx (re_src e'))) ≠ ch_items (tx (session_tx (re_src e)))).
Proof.
  unfold send_upstream. destruct e as [[p t s pkts] conn ck w]; cbn [re_src re_conn session_tx rd_packets].
  destruct (try_sends_spec pkts s) as (sent & rest & -> & Hi & Hsz & Hv & Hc & Hr & Hl).
  destruct (try_sends (sent ++ rest) s) as [status s']; cbn [fst snd take_values] in *.
  unfold upstream, incoming; cbn [re_src re_conn session_tx rd_packets pr tx re_woken].
  rewrite Hi, Hsz, Hv, <-app_assoc. split_and!; try done.
  - by destruct status.
  - by destruct status.
  - intros Hle. rewrite length_app. destruct sent; [cbn; lia|]. by apply Hl.
  - unfold PktTx_drop. rewrite orb_true_iff, Hc, Nat.ltb_lt. destruct sent as [|x sent].
    + rewrite app_nil_r. cbn [length]. rewrite Nat.add_0_r. naive_solver.
    + cbn [length]. split; [|intros _; right; lia].
      intros _. right; right. intros E%(f_equal length). rewrite length_app in E. cbn in E. lia.
Qed.

(** What one [read_packet] does to the stream. *)
Definition read_packet_result (e : rd_env) (r : rd_env * (QueuePkt + Error)) : Prop :=
  let '(e', res) := r in
  session_tx (re_src e') = session_tx (re_src e) ∧ rd_packets (re_src e') = rd_packets (re_src e)
  ∧ match res with
    | inl (Q_Ok vals) => ∃ pkt data, vals = [pkt] ∧ decodes pkt data
                          ∧ incoming e = data ++ incoming e' ∧ wf_rd e'
    | inl (Q_Block vals) => vals = [] ∧ incoming e' = incoming e ∧ wf_rd e'
    | inl (Q_Disconnected vals) =>
        vals = [] ∧ (pr (re_src e') = MR_None ∨ incoming e' = incoming e ∧ wf_rd e')
    | inr err => pr (re_src e') = MR_None ∧ refused (incoming e) err
    end.

Lemma set_read_timeout_src retry secs e :
  let e' := set_read_timeout retry secs e in
  session_tx (re_src e') = session_tx (re_src e) ∧ rd_packets (re_src e') = rd_packets (re_src e)
  ∧ pr (re_src e') = pr (re_src e) ∧ re_conn e' = re_conn e.
Proof. unfold set_read_timeout. by destruct (set_timeout _ _ _ _). Qed.

Lemma is_bytes_app_r (s t u : bytes) : s ++ t = u → is_bytes u → is_bytes t.
Proof. intros <- [_ ?]%Forall_app. done. Qed.

Lemma parse_decodes data rem fh max pkt :
  wf_read (MR_Fin data rem fh max) → is_Ok (FixedHeader_unwrap fh) →
  MQTTRead_parse (MR_Fin data rem fh max) = Ok pkt → decodes pkt data.
Proof.
  intros Hwf Hu E. pose proof (MQTTRead_parse_post _ data rem fh max eq_refl Hwf Hu) as Hp.
  rewrite E in Hp. split; [|done]. destruct Hwf as [Hb Hf]. cbn [pending] in Hb.
  apply Forall_app in Hb as [Hb _]. rewrite (MQTTRead_parse_eq data rem fh max) in E; [|by destruct Hf as (tl & m & -> & _); apply Forall_cons in Hb as [? _]|done|done].
  destruct (Packet_decode data) as [[p n]| | |]; run; try done. revert E. run.
  destruct (Nat.eqb_spec n (length data)) as [E2|]; cbn [negb]; [|done]. intros E. by simplify_eq.
Qed.

Lemma refused_app datas stream err : refused stream err → refused (concat datas ++ stream) err.
Proof.
  intros [?|[?|(? & ds & data & rest & -> & Hs)]]; [by left|by right; left|]. right; right. split; [done|].
  exists (datas ++ ds), data, rest. by rewrite concat_app, <-app_assoc.
Qed.

Lemma dec_error_refused stream err :
  dec_error err → (Error_kind err = EK_InsufficientBytes → ∃ data rest, stream = data ++ rest ∧ short data) →
  refused stream err.
Proof.
  intros [Hk _] Hs. set_unfold in Hk. destruct Hk as [?|[?|[?|[]]]]; [by left|by right; left|].
  right; right. split; [done|]. destruct (Hs ltac:(done)) as (data & rest & -> & ?). by exists [], data, rest.
Qed.

(** The errors of the framing itself. *)
Definition frame_error (e : Error) : Prop :=
  Error_kind e = EK_MalformedPacket ∧ Error_code e ∈ [RC_MalformedPacket; RC_PacketTooLarge].

Lemma VarU32_decode_kind l e : VarU32_decode l = Err e → frame_error e.
Proof.
  unfold VarU32_decode. generalize (take (Nat.min (length l) 4) l). clear l. intros l. generalize 0%nat 0.
  induction l as [|x l IH]; intros i out; cbn [VarU32_loop]; [|case_match; [done|apply IH]].
  intros [= <-]. split; [done|by left].
Qed.

Lemma after_header_kind b data max e : after_header b data max = Err e → frame_error e.
Proof.
  unfold after_header, slice, check_packet_limit, err. case_match; run; [|done].
  destruct (head _); [|done]. destruct (VarU32_decode _) as [[n m]|e'| |] eqn:E; run; [| |done..].
  - destruct (max <? _); run; [intros [= <-]; split; [done|by right; left]|]. case_match; [case_match; by run|done].
  - intros [= <-]. by eapply VarU32_decode_kind.
Qed.

(** A read fails for the bytes of the header or for the connection. *)
Lemma MQTTRead_read_kind st rd e :
  MQTTRead_read st rd = Err e → frame_error e ∨ Error_kind e = EK_Disconnected.
Proof.
  unfold MQTTRead_read. destruct (pre_read st) as [[st1 []]|e'| |] eqn:Ep; run; [done| | |done..].
  - destruct st1 as [d mx|b d mx|d start fh mx|d rem fh mx|]; try done.
    + destruct (io_read 5 rd) as [[[|x c]| | |] rd']; [by intros [= <-]; right| |done..|by intros [= <-]; right].
      destruct (index0 _) as [b|?| |] eqn:Ei; run; [|by destruct d..].
      destruct (after_header b _ mx) eqn:E; run; [done| |done..]. intros [= <-]. left. by eapply after_header_kind.
    + destruct (io_read 5 rd) as [[[|x c]| | |] rd']; [by intros [= <-]; right| |done..|by intros [= <-]; right].
      destruct (after_header b _ mx) eqn:E; run; [done| |done..]. intros [= <-]. left. by eapply after_header_kind.
    + case_match; [|done]. destruct (io_read _ rd) as [[[|x c]| | |] rd']; [by intros [= <-]; right| |done..|by intros [= <-]; right].
      cbv zeta. case_match; [done|]. by case_match.
  - intros [= <-]. left. revert Ep. unfold pre_read, check_packet_limit, err. destruct st as [d mx|b d mx|d start fh mx|d rem fh mx|]; try done.
    case_match; [|done]. destruct (index0 d) as [?|?| |] eqn:Ei; run; [|by destruct d..]. unfold slice.
    case_match; run; [|done]. destruct (VarU32_decode _) as [[z m]|?| |]; [|done..]. destruct (mx <? _); run; [intros [= <-]; split; [done|by right; left]|].
    case_match; [case_match; by run|done].
Qed.

Lemma read_wait_spec config st e :
  let '(e', q) := read_wait config st e in
  session_tx (re_src e') = session_tx (re_src e) ∧ rd_packets (re_src e') = rd_packets (re_src e)
  ∧ pr (re_src e') = st ∧ re_conn e' = re_conn e ∧ values q = []
  ∧ (if q is Q_Ok _ then False else True).
Proof.
  unfold read_wait, elapsed, now. set (late := match rd_timeout (re_src e) with Some t => _ | None => _ end).
  set (e1 := MkRdEnv _ _ _ _).
  destruct (set_read_timeout_src (negb late) (sock_mqtt_read_timeout config) e1) as (A1 & A2 & A3 & A4).
  cbn [set_src re_src re_conn session_tx rd_packets pr]. rewrite A1, A2, A4. by destruct late.
Qed.

Lemma unwrap_Ok_or_panic fh :
  match FixedHeader_unwrap fh with Ok _ | Panic => True | _ => False end.
Proof.
  unfold FixedHeader_unwrap. destruct (PacketType_try_from _) eqn:E1; cbn; try done.
  - by destruct (QoS_try_from _) eqn:E2; cbn; try done; pose proof (QoS_try_from_post (Z.land (byte1 fh) HDR_QOS ≫ 1)) as Hp; rewrite E2 in Hp.
  - pose proof (PacketType_try_from_post (byte1 fh ≫ 4)) as Hp. by rewrite E1 in Hp.
Qed.

(** Parsing a packet that has been read. *)
Lemma parse_spec data rem fh mx :
  wf_read (MR_Fin data rem fh mx) →
  match MQTTRead_parse (MR_Fin data rem fh mx) with
  | Ok pkt => decodes pkt data
  | Err err => dec_error err
      ∧ (Packet_decode data = Err err ∨ err = MkError EK_MalformedPacket (Some RC_MalformedPacket) NoCause)
  | Panic => reserved data
  | NoFuel => False
  end.
Proof.
  intros Hwf. pose proof (unwrap_Ok_or_panic fh) as Hn. pose proof Hwf as [Hb Hf]. cbn [pending] in Hb.
  destruct (FixedHeader_unwrap fh) as [u| | |] eqn:Eu; [|done| |done].
  - assert (is_Ok (FixedHeader_unwrap fh)) as Hu by (rewrite Eu; by eexists).
    pose proof (MQTTRead_parse_post _ data rem fh mx eq_refl Hwf Hu) as Hp.
    destruct (MQTTRead_parse _) as [pkt|err| |] eqn:Ep; try done; [by apply parse_decodes in Ep|].
    split; [exact Hp|]. apply Forall_app in Hb as [Hb _].
    rewrite (MQTTRead_parse_eq data rem fh mx) in Ep; [|by destruct Hf as (tl & m & -> & _); apply Forall_cons in Hb as [? _]|done|done].
    destruct (Packet_decode data) as [[p n]|err'| |]; [|left; revert Ep; run; congruence|done..]. right.
    revert Ep. run. destruct (negb _); [|done]. by intros [= <-].
  - cbn [MQTTRead_parse]. rewrite Eu; run. exists fh, mx. split; [done|]. rewrite Eu. by intros [? ?].
Qed.

Lemma wf_read_reset data rem fh mx : wf_read (MR_Fin data rem fh mx) → wf_read (MR_Init rem mx).
Proof. intros [Hb _]. cbn [pending] in Hb. apply Forall_app in Hb as [_ ?]. by split. Qed.

Lemma read_packet_spec config e :
  wf_rd e →
  match read_packet config e with
  | Ok r => read_packet_result e r
  | Panic => ∃ data rest, incoming e = data ++ rest ∧ reserved data
  | _ => False
  end.
Proof.
  intros [Hwf Hb]. unfold read_packet.
  pose proof (MQTTRead_read_post (pr (re_src e)) (re_conn e) Hwf Hb) as Hp.
  destruct (MQTTRead_read _ _) as [[[st wb] conn]|err| |] eqn:Er; [| |done|done].
  2:{ apply MQTTRead_read_kind in Er. case_bool_decide; split_and!; try done; [by left|]. by destruct Er as [[? _]|?]; [left|]. }
  destruct Hp as (Hwf' & Hmax & Hbytes & _ & _).
  assert (is_bytes (rd_bytes conn)) as Hb'.
  { eapply is_bytes_app_r; [exact Hbytes|]. apply Forall_app. by destruct Hwf. }
  set (e1 := MkRdEnv _ conn _ _).
  assert (session_tx (re_src e1) = session_tx (re_src e) ∧ rd_packets (re_src e1) = rd_packets (re_src e)
    ∧ re_conn e1 = conn ∧ pr (re_src e1) = MR_None) as (H1 & H2 & H3 & H4) by done. clearbody e1.
  assert (is_Fin st = false → match (let '(e, q) := read_wait config st e1 in
    Ok (e, inl q) : Result (rd_env * (QueuePkt + Error))) with
    | Ok r => read_packet_result e r | _ => False end) as Hwait.
  { intros _. pose proof (read_wait_spec config st e1) as Hw.
    destruct (read_wait config st e1) as [e' q]. destruct Hw as (A1 & A2 & A3 & A4 & A5 & A6).
    assert (incoming e' = incoming e) as Hin by (unfold incoming; rewrite A3, A4, H3; exact Hbytes).
    assert (wf_rd e') as Hwf2 by (split; rewrite ?A3, ?A4, ?H3; done).
    split; [congruence|]. split; [congruence|].
    destruct q; cbn [values] in A5; subst; [done|done|]. split; [done|]. by right. }
  destruct st as [d mx|b d mx|d start fh mx|data rem fh mx|]; [by apply Hwait..| |by destruct Hwf'].
  destruct (set_read_timeout_src false (sock_mqtt_read_timeout config) e1) as (A1 & A2 & A3 & A4).
  set (e2 := set_read_timeout _ _ _) in *. clearbody e2.
  pose proof (parse_spec data rem fh mx Hwf') as Hpp.
  assert (incoming e = data ++ rem ++ rd_bytes conn) as Hin
    by (unfold incoming; rewrite <-Hbytes; cbn [pending]; by rewrite app_assoc).
  destruct (MQTTRead_parse _) as [pkt|err| |] eqn:Ep; [| | |done].
  - cbn [MQTTRead_reset]; run. split; [cbn; congruence|]. split; [cbn; congruence|].
    exists pkt, data. split; [done|]. split; [done|].
    cbn [set_src re_src re_conn pr]. unfold incoming at 2. cbn [pending set_src re_src re_conn pr].
    rewrite A4, H3. split; [exact Hin|].
    split; cbn [set_src re_src re_conn pr]; [by eapply wf_read_reset|by rewrite A4, H3].
  - destruct Hpp as [Hde Hsh]. split; [congruence|]. split; [congruence|]. split; [congruence|].
    apply dec_error_refused; [exact Hde|]. intros Hk. exists data, (rem ++ rd_bytes conn). split; [exact Hin|].
    destruct Hsh as [?|Hsh]; [by exists err|by rewrite Hsh in Hk].
  - by exists data, (rem ++ rd_bytes conn).
Qed.

(** What [read_packets] has done: it decoded [pkts], which follow on the way to the
    shard, from the bytes at the front of the stream. *)
Definition read_done (e e' : rd_env) : Prop :=
  ∃ pkts datas rest, upstream (re_src e') = upstream (re_src e) ++ pkts
    ∧ Forall2 decodes pkts datas ∧ incoming e = concat datas ++ rest
    ∧ (wf_rd e' ∧ rest = incoming e' ∨ pr (re_src e') = MR_None).

Lemma read_done_upstream e e1 e2 :
  read_done e e1 → upstream (re_src e2) = upstream (re_src e1) → incoming e2 = incoming e1 →
  pr (re_src e2) = pr (re_src e1) → re_conn e2 = re_conn e1 → read_done e e2.
Proof.
  intros (pkts & datas & rest & Hu & Hd & Hin & Hor) E1 E2 E3 E4.
  exists pkts, datas, rest. unfold wf_rd in *. rewrite E1, E2, E3, E4. done.
Qed.

Lemma read_done_trans e e1 e2 : wf_rd e1 → read_done e e1 → read_done e1 e2 → read_done e e2.
Proof.
  intros Hwf (p1 & d1 & r1 & Hu1 & Hd1 & Hin1 & Hor1) (p2 & d2 & r2 & Hu2 & Hd2 & Hin2 & Hor2).
  exists (p1 ++ p2), (d1 ++ d2), r2. split; [by rewrite Hu2, Hu1, app_assoc|].
  split; [by apply Forall2_app|]. split; [|done]. rewrite concat_app, <-app_assoc, <-Hin2, Hin1.
  destruct Hor1 as [[_ ->]|E]; [done|]. destruct Hwf as [Hwf _]. rewrite E in Hwf. by destruct Hwf.
Qed.

Lemma read_done_refl e : wf_rd e → read_done e e.
Proof. intros Hwf. exists [], [], (incoming e). rewrite app_nil_r. split_and!; [done|constructor|done|by left]. Qed.

(** One turn: [read_packet], and its packets put in the queue of the source. *)
Lemma read_packet_done config e e' res vals :
  wf_rd e → read_packet config e = Ok (e', res) →
  vals = (if res is inl q then values q else []) →
  let e2 := set_src ((re_src e') <| rd_packets := rd_packets (re_src e') ++ vals |>) e' in
  read_done e e2
  ∧ match res with
    | inl (Q_Ok _) => wf_rd e2 ∧ length (rd_packets (re_src e2)) = S (length (rd_packets (re_src e)))
    | inl (Q_Block _) => vals = [] ∧ wf_rd e2
    | inl (Q_Disconnected _) => vals = []
    | inr err => pr (re_src e') = MR_None ∧ refused (incoming e) err
    end
  ∧ session_tx (re_src e2) = session_tx (re_src e).
Proof.
  intros Hwf E Hvals e2. pose proof (read_packet_spec config e Hwf) as Hp. rewrite E in Hp.
  destruct Hp as (Htx & Hrd & Hres). unfold read_done, upstream, wf_rd, incoming. cbn [e2 set_src re_src re_conn session_tx rd_packets pr].
  rewrite Htx, Hrd. destruct res as [[v|v|v]|err]; cbn [values] in Hvals; subst vals.
  - destruct Hres as (pkt & data & -> & Hd & Hin & Hwf'). split; [|split; [split; [done|]|done]].
    + exists [pkt], [data], (incoming e'). rewrite app_assoc. cbn [concat]. rewrite app_nil_r.
      split_and!; [done|by constructor|done|by left].
    + rewrite length_app. cbn. lia.
  - destruct Hres as (-> & Hin & Hwf'). split; [|by split; [split|]]. exists [], [], (incoming e).
    rewrite !app_nil_r. split_and!; [done|constructor|done|]. left. by split.
  - destruct Hres as (-> & Hor). split; [|done]. exists [], [], (incoming e).
    rewrite !app_nil_r. split_and!; [done|constructor|done|]. destruct Hor as [?|[? ?]]; [by right|left; by split].
  - split; [|done]. destruct Hres as [Hnone _]. exists [], [], (incoming e). rewrite !app_nil_r.
    split; [done|]. split; [constructor|]. split; [done|by right].
Qed.

Definition fits (src : Source) : Prop :=
  (length (ch_items (tx (session_tx src))) ≤ ch_size (tx (session_tx src)))%nat.

(** A loop that has not failed leaves a source that can be read on. *)
Definition read_ended (e e' : rd_env) (res : QueuePkt + Error) : Prop :=
  match res with
  | inl (Q_Disconnected vals) => vals = []
  | inl (Q_Ok vals) | inl (Q_Block vals) => vals = [] ∧ wf_rd e' ∧ fits (re_src e')
  | inr err => pr (re_src e') = MR_None ∧ refused (incoming e) err
  end.

Lemma read_packets_spec fuel config e :
  wf_rd e → fits (re_src e) → (room (re_src e) < fuel)%nat →
  match read_packets fuel config e with
  | Ok (e', res) => read_done e e' ∧ read_ended e e' res
  | Panic => ∃ datas data rest, incoming e = concat datas ++ data ++ rest ∧ reserved data
  | _ => False
  end.
Proof.
  revert e. induction fuel as [|fuel IH]; intros e Hwf Hfit Hfuel; [lia|]. cbn [read_packets].
  pose proof (send_upstream_spec e) as Hs. destruct (send_upstream e) as [e1 status].
  destruct Hs as (Hu & Hin & Hpr & Hconn & Hsz & Hval & Hst & Hfit1 & _). specialize (Hfit1 Hfit).
  assert (wf_rd e1) as Hwf1 by (unfold wf_rd; by rewrite Hpr, Hconn).
  assert (read_done e e1) as Hdone1 by (by eapply (read_done_upstream e e); [apply read_done_refl|..]).
  destruct status as [vals|vals|vals]; [|by split..].
  pose proof (read_packet_spec config e1 Hwf1) as Hp.
  destruct (read_packet config e1) as [[e2 res]|err| |] eqn:Erp; [|done| |done]; run.
  2:{ destruct Hp as (data & rest & E & Hres). exists [], data, rest. by rewrite <-Hin. }
  destruct (read_packet_done config e1 e2 res _ Hwf1 Erp eq_refl) as (Hdone2 & Hres & Htx).
  pose proof (read_done_trans e e1 _ Hwf1 Hdone1 Hdone2) as Hdone3.
  destruct res as [q|err].
  2:{ destruct Hres as [Hnone Href]. split; [|split; [done|by rewrite <-Hin]].
      eapply read_done_upstream; [exact Hdone3|..]; try done.
      unfold upstream; cbn [set_src re_src session_tx rd_packets]. by rewrite app_nil_r. }
  cbn [take_values]. set (e3 := set_src _ _) in *.
  assert (wf_rd e3 → let '(e', status) := send_upstream e3 in
    match (Ok (e', inl status) : Result (rd_env * (QueuePkt + Error))) with
    | Ok (e', res) => read_done e e' ∧ read_ended e e' res
    | _ => False end) as Hfinal.
  { intros Hwf3. pose proof (send_upstream_spec e3) as Hs3. destruct (send_upstream e3) as [e4 s4].
    destruct Hs3 as (A1 & A2 & A3 & A4 & _ & A6 & _ & A7 & _). split; [by eapply read_done_upstream|].
    assert (wf_rd e4 ∧ fits (re_src e4)).
    { unfold wf_rd. rewrite A3, A4. split; [exact Hwf3|]. apply A7. unfold fits in Hfit1. by rewrite Htx. }
    destruct s4; cbn [values] in A6; subst; done. }
  destruct q as [v|v|v]; cbn [with_values values] in *.
  - destruct Hres as [Hwf3 Hlen]. destruct (Z.ltb_spec (Z.of_nat (length (rd_packets (re_src e3)))) (mqtt_pkt_batch_size config));
      [|specialize (Hfinal Hwf3); by destruct (send_upstream e3)].
    assert (fits (re_src e3)) as Hfit3 by (unfold fits; rewrite Htx; exact Hfit1).
    assert (room (re_src e3) < fuel)%nat as Hroom.
    { unfold room, fits in *. rewrite Htx, Hlen, Hst. cbn [length].
      assert (length (upstream (re_src e1)) = length (upstream (re_src e))) as El by by rewrite Hu.
      unfold upstream in El. rewrite !length_app, Hst in El. cbn [length] in El. lia. }
    assert (∃ d3, incoming e = concat d3 ++ incoming e3) as [d3 E3].
    { destruct Hdone3 as (p3 & d3 & r3 & _ & _ & E3 & Hor). exists d3. rewrite E3.
      destruct Hor as [[_ ->]|En]; [done|]. destruct Hwf3 as [Hw _]. rewrite En in Hw. by destruct Hw. }
    specialize (IH e3 Hwf3 Hfit3 Hroom). destruct (read_packets fuel config e3) as [[e4 r4]|?| |]; try done.
    + destruct IH as [Hd4 Hr4]. split; [by eapply read_done_trans|]. destruct r4 as [q|err]; [done|].
      destruct Hr4 as [? ?]. split; [done|]. rewrite E3. by apply refused_app.
    + destruct IH as (datas & data & rest & E & Hr). exists (d3 ++ datas), data, rest.
      split; [|done]. by rewrite concat_app, <-app_assoc, <-E, E3.
  - destruct Hres as [_ Hwf3]. specialize (Hfinal Hwf3). by destruct (send_upstream e3).
  - assert (length (rd_packets (re_src e3)) = 0)%nat as ->; [|done].
    destruct Hp as (_ & Hrd2 & _). unfold e3. cbn [set_src re_src rd_packets].
    cbn. by rewrite Hrd2, Hst, Hres.
Qed.

(** ** Writing *)

(** The bytes of a write that are still to go out; a packet over the limit is
    dropped. *)
Definition to_send (st : MQTTWrite) : bytes :=
  match st with
  | MW_Init d m => if m <? len d then [] else d
  | MW_Remain d start _ => drop start d
  | MW_Fin _ _ | MW_None => []
  end.

(** What [flush_packets] makes of a packet. *)
Definition blob (max : Z) (p : Packet) : bytes :=
  match encoded Packet_ p with Ok bs => if max <? len bs then [] else bs | _ => [] end.

Definition blobs (max : Z) (ps : list Packet) : bytes := ps ≫= blob max.

(** What has been sent and what is on its way: the packet being written, those
    kept by the sink, and those in the queue. *)
Definition out (e : wt_env) : bytes := wr_sent (we_conn e) ++ to_send (pw (we_sink e)).

Definition outgoing (max : Z) (e : wt_env) : bytes :=
  out e ++ blobs max (wt_packets (we_sink e) ++ ch_items (rx (miot_rx (we_sink e)))).

Definition wf_wt (max : Z) (e : wt_env) : Prop :=
  ∃ data sent, wf_write data sent max (pw (we_sink e)) (we_conn e).

Lemma wf_write_out data sent max st wr :
  wf_write data sent max st wr →
  wr_sent wr ++ to_send st = sent ++ (if max <? len data then [] else data).
Proof.
  destruct st as [d m|d start m|d m|]; cbn [wf_write to_send]; [| | |done].
  - by intros (-> & -> & ->).
  - intros (-> & -> & Hs & Hm & ->). destruct (Z.ltb_spec max (len data)); [lia|].
    by rewrite <-app_assoc, take_drop.
  - intros (-> & -> & ->). rewrite app_nil_r. case_match; [by rewrite app_nil_r|done].
Qed.

Lemma wf_Fin max e d m : pw (we_sink e) = MW_Fin d m → wf_wt max e → m = max ∧ out e = wr_sent (we_conn e).
Proof.
  intros E (data & sent & Hwf). rewrite E in Hwf. destruct Hwf as (_ & -> & _).
  split; [done|]. unfold out. by rewrite E, app_nil_r.
Qed.

Lemma set_write_timeout_sink retry secs e :
  let e' := set_write_timeout retry secs e in
  miot_rx (we_sink e') = miot_rx (we_sink e) ∧ wt_packets (we_sink e') = wt_packets (we_sink e)
  ∧ pw (we_sink e') = pw (we_sink e) ∧ we_conn e' = we_conn e.
Proof. unfold set_write_timeout. by destruct (set_timeout _ _ _ _). Qed.

Lemma write_wait_spec config st e :
  let '(e', q) := write_wait config st e in
  miot_rx (we_sink e') = miot_rx (we_sink e) ∧ wt_packets (we_sink e') = wt_packets (we_sink e)
  ∧ pw (we_sink e') = st ∧ we_conn e' = we_conn e ∧ values q = []
  ∧ (if q is Q_Ok _ then False else True).
Proof.
  unfold write_wait, elapsed, now. set (late := match wt_timeout (we_sink e) with Some t => _ | None => _ end).
  set (e1 := MkWtEnv _ _ _).
  destruct (set_write_timeout_sink (negb late) (sock_mqtt_write_timeout config) e1) as (A1 & A2 & A3 & A4).
  cbn [set_sink we_sink we_conn miot_rx wt_packets pw]. rewrite A1, A2, A4. by destruct late.
Qed.

(** What one [write_packet] does: the stream is kept, whole while the connection
    lives. *)
Definition write_packet_result (max : Z) (e e' : wt_env) (q : QueuePkt) : Prop :=
  values q = [] ∧ miot_rx (we_sink e') = miot_rx (we_sink e)
  ∧ wt_packets (we_sink e') = wt_packets (we_sink e)
  ∧ match q with
    | Q_Ok _ => wf_wt max e' ∧ out e' = out e ∧ ∃ d, pw (we_sink e') = MW_Fin d max
    | Q_Block _ => wf_wt max e' ∧ out e' = out e
    | Q_Disconnected _ => wr_sent (we_conn e') `prefix_of` out e
    end.

Lemma write_packet_spec config max e :
  wf_wt max e →
  ∃ e' q, write_packet config e = Ok (e', q) ∧ write_packet_result max e e' q.
Proof.
  intros (data & sent & Hwf). pose proof (wf_write_out _ _ _ _ _ Hwf) as Hout.
  unfold write_packet. pose proof (MQTTWrite_write_post data sent max _ _ Hwf) as Hp.
  destruct (MQTTWrite_write _ _) as [[[st wb] conn]|err| |]; [|destruct Hp as [Hk _]|done|done].
  2:{ rewrite bool_decide_eq_true_2 by done. eexists _, _. split; [done|]. split_and!; try done.
      cbn [set_sink we_conn]. by exists (to_send (pw (we_sink e))). }
  destruct Hp as [Hwf' _]. pose proof (wf_write_out _ _ _ _ _ Hwf') as Hout'.
  rewrite <-Hout in Hout'. set (e1 := MkWtEnv _ conn _).
  assert (miot_rx (we_sink e1) = miot_rx (we_sink e) ∧ wt_packets (we_sink e1) = wt_packets (we_sink e)
    ∧ we_conn e1 = conn) as (H1 & H2 & H3) by done. clearbody e1.
  assert (is_WFin st = false → ∃ e' q, write_wait config st e1 = (e', q)
    ∧ write_packet_result max e e' q) as Hwait.
  { intros _. pose proof (write_wait_spec config st e1) as Hw.
    destruct (write_wait config st e1) as [e' q]. destruct Hw as (A1 & A2 & A3 & A4 & A5 & A6).
    exists e', q. split; [done|]. split; [done|]. split; [congruence|]. split; [congruence|].
    assert (out e' = out e) as Ho by (unfold out; rewrite A3, A4, H3; exact Hout').
    destruct q; [done|split; [|done]|].
    - exists data, sent. by rewrite A3, A4, H3.
    - rewrite <-Ho. unfold out. by eexists. }
  destruct st as [d m|d start m|d m|]; [by destruct (Hwait eq_refl) as (e' & q & -> & ?); exists e', q..| |done].
  destruct (set_write_timeout_sink false (sock_mqtt_write_timeout config) e1) as (A1 & A2 & A3 & A4).
  set (e2 := set_write_timeout _ _ _) in *. clearbody e2. eexists _, _. split; [done|].
  unfold write_packet_result. cbn [set_sink we_sink we_conn miot_rx wt_packets pw values].
  split; [done|]. split; [cbn; congruence|]. split; [cbn; congruence|]. split; [|split].
  - exists data, sent. cbn [set_sink we_sink we_conn pw]. by rewrite A4, H3.
  - unfold out at 1. cbn [set_sink we_sink we_conn pw]. rewrite A4, H3. exact Hout'.
  - exists d. cbn. by destruct Hwf' as (_ & -> & _).
Qed.

Lemma blobs_app max ps qs : blobs max (ps ++ qs) = blobs max ps ++ blobs max qs.
Proof. apply bind_app. Qed.

(** What the flushing loops do to the stream: it is kept, and whole while the
    connection lives; at the end nothing of it is left. *)
Definition flush_result (max : Z) (e e' : wt_env) (iter iter' : list Packet) (q : QueuePkt) : Prop :=
  values q = [] ∧ miot_rx (we_sink e') = miot_rx (we_sink e)
  ∧ (∃ gone, iter = gone ++ iter')
  ∧ match q with
    | Q_Ok _ => wf_wt max e' ∧ iter' = [] ∧ wr_sent (we_conn e') = out e ++ blobs max iter
                ∧ to_send (pw (we_sink e')) = []
    | Q_Block _ => wf_wt max e' ∧ out e' ++ blobs max iter' = out e ++ blobs max iter
    | Q_Disconnected _ => wr_sent (we_conn e') `prefix_of` out e ++ blobs max iter
    end.

Lemma flush_loop_spec flush config max iter st e :
  wf_wt max e → Forall wf_Packet iter →
  ∃ e' q st' iter', flush_loop flush config iter st e = Ok (e', q, st', iter')
    ∧ wt_packets (we_sink e') = wt_packets (we_sink e) ∧ flush_result max e e' iter iter' q.
Proof.
  revert st e. induction iter as [|p iter IH]; intros st e Hwf Hps; cbn [flush_loop];
    destruct (write_packet_spec config max e Hwf) as (e1 & q & -> & Hv & Hm & Hw & Hq); run;
    (destruct q as [v|v|v]; cbn [values] in Hv; subst v; [destruct Hq as (Hwf1 & Ho & d & Hpw)| |]);
    try solve [eexists _, _, _, _; split; [done|]; split; [done|]; split; [done|]; split; [done|];
      split; [by exists []|]; first [destruct Hq as [? ->]; done|by apply prefix_app_r]].
  - eexists _, _, _, _; split; [done|]; split; [done|]; split; [done|]; split; [done|]; split; [by exists []|].
    split_and!; [done|done| |by rewrite Hpw]. destruct (wf_Fin _ _ _ _ Hpw Hwf1) as [_ <-].
    by rewrite Ho, app_nil_r.
  - apply Forall_cons in Hps as [Hp Hps]. destruct (wf_Fin _ _ _ _ Hpw Hwf1) as [_ Hout1].
    change (blobs max (p :: iter)) with (blob max p ++ blobs max iter).
    destruct (Packet_encodes p Hp) as [He _].
    destruct (encoded Packet_ p) as [bs|err| |] eqn:E; [|clear He|done|done].
    + destruct (flush (we_conn e1)).
      * rewrite Hpw. cbn [MQTTWrite_reset]; run. set (e2 := set_sink _ _).
        assert (out e2 = out e ++ blob max p) as Ho2.
        { unfold out at 1. cbn [e2 set_sink we_sink we_conn pw to_send].
          rewrite <-Hout1, Ho. unfold blob. by rewrite E. }
        destruct (IH (MkSockStats (items st + 1) (stat_bytes st + len bs)) e2) as (e' & q & st' & iter' & E' & Hw' & Hv' & Hm' & (gone & ->) & Hq').
        { exists bs, (wr_sent (we_conn e1)). by cbn. }
        { done. }
        cbn [items stat_bytes]. rewrite E'. eexists _, _, _, _; split; [done|].
        split; [rewrite Hw'; exact Hw|]. split; [done|]. split; [rewrite Hm'; exact Hm|].
        split; [by exists (p :: gone)|]. by rewrite Ho2, <-app_assoc in Hq'.
      * eexists _, _, _, _; split; [done|]. split; [done|]. split; [done|]. split; [done|].
        split; [by exists [p]|]. rewrite <-Hout1, Ho. by eexists.
    + destruct (IH st e1 Hwf1 Hps) as (e' & q & st' & iter' & E' & Hw' & Hv' & Hm' & (gone & ->) & Hq').
      rewrite E'. eexists _, _, _, _; split; [done|]. split; [congruence|]. split; [done|]. split; [congruence|].
      split; [by exists (p :: gone)|]. change (blobs max (p :: gone ++ iter')) with (blob max p ++ blobs max (gone ++ iter')).
      assert (blob max p = []) as -> by (unfold blob; by rewrite E). by rewrite Ho in Hq'.
Qed.

Lemma flush_packets_spec flush config max e :
  wf_wt max e → Forall wf_Packet (wt_packets (we_sink e)) →
  ∃ e' q st, flush_packets flush config e = Ok (e', q, st)
    ∧ flush_result max e e' (wt_packets (we_sink e)) (wt_packets (we_sink e')) q.
Proof.
  intros Hwf Hps. unfold flush_packets. set (e0 := set_sink _ e).
  destruct (flush_loop_spec flush config max _ SockStats_default e0 Hwf Hps)
    as (e1 & q & st & iter' & -> & Hw & Hr). run.
  eexists _, _, _. split; [done|]. cbn [set_sink we_sink]. cbn. by rewrite Hw.
Qed.

(** The packets of the sink and of its queue. *)
Definition wf_sink (sink : Sink) : Prop :=
  Forall wf_Packet (wt_packets sink) ∧ Forall wf_Packet (ch_items (rx (miot_rx sink))).

(** Writing until the queue is empty: the packets queued go out in order. *)
Lemma write_packets_loop_spec flush fuel config max stats e :
  wf_wt max e → Forall wf_Packet (wt_packets (we_sink e)) →
  Forall wf_Packet (ch_items (rx (miot_rx (we_sink e)))) →
  (length (ch_items (rx (miot_rx (we_sink e)))) < fuel)%nat →
  ∃ e' q st, write_packets_loop flush fuel config stats e = Ok (e', q, st) ∧ values q = []
    ∧ match q with
      | Q_Ok _ => wf_wt max e' ∧ wr_sent (we_conn e') = outgoing max e
                  ∧ to_send (pw (we_sink e')) = [] ∧ wt_packets (we_sink e') = []
                  ∧ ch_items (rx (miot_rx (we_sink e'))) = []
      | Q_Block _ => wf_wt max e' ∧ wf_sink (we_sink e') ∧ outgoing max e' = outgoing max e
      | Q_Disconnected _ => wr_sent (we_conn e') `prefix_of` outgoing max e
      end.
Proof.
  revert stats e. induction fuel as [|fuel IH]; intros stats e Hwf Hps Hch Hfuel; [lia|].
  cbn [write_packets_loop].
  destruct (flush_packets_spec flush config max e Hwf Hps) as (e1 & q & st & -> & Hv & Hm & [gone Hgone] & Hq). run.
  assert (Forall wf_Packet (wt_packets (we_sink e1))) as Hps1 by (rewrite Hgone in Hps; by apply Forall_app in Hps as [_ ?]).
  destruct q as [v|v|v]; cbn [values] in Hv; subst v.
  - destruct Hq as (Hwf1 & Hw1 & Hsent & Hrest). rewrite Hm. unfold try_recvs.
    destruct (try_recvs_loop_spec (S (length (ch_items (rx (miot_rx (we_sink e)))))) []
      (miot_rx (we_sink e))) as (q & got & r & -> & Hvals & Hitems & _ & Hq); [lia|]. run.
    cbn [take_values]. rewrite Hvals, Hw1. cbn [app]. set (e2 := set_sink _ e1).
    assert (wf_wt max e2) as Hwf2 by exact Hwf1.
    assert (out e2 = out e ++ blobs max (wt_packets (we_sink e))) as Hout2.
    { unfold out at 1. cbn [e2 set_sink we_sink we_conn]. cbn. by rewrite Hrest, app_nil_r, Hsent. }
    assert (outgoing max e2 = outgoing max e) as Hgo.
    { unfold outgoing. rewrite Hout2, <-app_assoc, <-blobs_app, Hitems. done. }
    rewrite Hitems in Hch. apply Forall_app in Hch as [Hgot Hch].
    destruct q as [v|v|v]; cbn [with_values values] in *.
    + destruct (IH (SockStats_update stats st) e2 Hwf2 Hgot Hch) as (e' & q & st' & E & Hv & Hr).
      { rewrite Hitems, length_app in Hfuel. destruct got; [done|]. cbn in *. lia. }
      exists e', q, st'. split; [exact E|]. split; [done|]. by rewrite Hgo in Hr.
    + destruct Hq as [Hempty _].
      destruct (flush_packets_spec flush config max e2 Hwf2 Hgot) as (e' & q & st' & -> & Hv & Hm' & [gone' Hgone'] & Hr). run.
      assert (Forall wf_Packet (wt_packets (we_sink e'))) as Hps' by (cbn in Hgone'; rewrite Hgone' in Hgot; by apply Forall_app in Hgot as [_ ?]).
      assert (outgoing max e = out e2 ++ blobs max (wt_packets (we_sink e2))) as Ho.
      { rewrite <-Hgo. unfold outgoing. cbn [e2 set_sink we_sink]. cbn. by rewrite Hempty, app_nil_r. }
      eexists _, _, _. split; [done|]. split; [done|]. rewrite Ho. destruct q as [v'|v'|v']; [| |exact Hr].
      * destruct Hr as (? & ? & ? & ?). split_and!; try done. rewrite Hm'. exact Hempty.
      * destruct Hr as [? Hr]. split; [done|]. split; [split; [done|]; rewrite Hm'; exact Hch|]. unfold outgoing. rewrite Hm'.
        cbn [e2 set_sink we_sink]. cbn. rewrite Hempty, app_nil_r. exact Hr.
    + eexists _, _, _. split; [done|]. split; [done|]. rewrite <-Hgo. unfold outgoing, out.
      rewrite <-app_assoc. by eexists.
  - eexists _, _, _. split; [done|]. split; [done|]. destruct Hq as [Hwf1 Hq]. split; [done|].
    split; [split; [done|by rewrite Hm]|]. unfold outgoing. by rewrite !blobs_app, !app_assoc, Hq, Hm.
  - eexists _, _, _. split; [done|]. split; [done|].
    unfold outgoing. rewrite blobs_app, app_assoc. by apply prefix_app_r.
Qed.

(** *** Sockets *)

(** The invariant of a socket: both sides can go on, and the packets in its queues
    are well formed. *)
Definition wf_socket (so : Socket) : Prop :=
  (∀ w, wf_rd (rd_env_of so w)) ∧ fits (so_rd so)
  ∧ (∃ max, ∀ w, wf_wt max (wt_env_of so w)) ∧ wf_sink (so_wt so).

(** What reading leaves of a socket. *)
Definition socket_read (so so' : Socket) : Prop :=
  so_client_id so' = so_client_id so ∧ so_token so' = so_token so ∧ so_wt so' = so_wt so
  ∧ tcp_wr (so_conn so') = tcp_wr (so_conn so) ∧ ∀ w, read_done (rd_env_of so w) (rd_env_of so' w).

(** The bytes a socket has received and not handed out. *)
Definition socket_stream (so : Socket) : bytes := pending (pr (so_rd so)) ++ rd_bytes (tcp_rd (so_conn so)).

(** What writing leaves of a socket: [stays] or only part of the stream is sent. *)
Definition socket_written (stays : bool) (so so' : Socket) : Prop :=
  so_client_id so' = so_client_id so ∧ so_token so' = so_token so ∧ so_rd so' = so_rd so
  ∧ tcp_rd (so_conn so') = tcp_rd (so_conn so)
  ∧ ∀ w max, wf_wt max (wt_env_of so w) →
    if stays then wf_wt max (wt_env_of so' w) ∧ outgoing max (wt_env_of so' w) = outgoing max (wt_env_of so w)
    else wr_sent (tcp_wr (so_conn so')) `prefix_of` outgoing max (wt_env_of so w).

Lemma wf_wt_unique max max' e : wf_wt max e → wf_wt max' e → max = max'.
Proof.
  intros (d & s & Hwf) (d' & s' & Hwf'). destruct (pw (we_sink e)); cbn in *; naive_solver.
Qed.

Lemma Socket_read_packets_spec config so w :
  wf_socket so →
  match Socket_read_packets config so w with
  | Ok (so', w', res) => socket_read so so'
      ∧ match res with
        | inl (Q_Disconnected vals) => vals = []
        | inl (Q_Ok vals) | inl (Q_Block vals) => vals = [] ∧ wf_socket so'
        | inr err => refused (socket_stream so) err
        end
  | Panic => ∃ datas data rest, socket_stream so = concat datas ++ data ++ rest ∧ reserved data
  | _ => False
  end.
Proof.
  intros (Hrd & Hfit & Hwt & Hsink). unfold Socket_read_packets.
  pose proof (read_packets_spec (S (room (so_rd so))) config (rd_env_of so w) (Hrd w) Hfit (Nat.lt_succ_diag_r _)) as Hp.
  destruct (read_packets _ _ _) as [[e res]|?| |]; run; [|done|exact Hp|done]. destruct Hp as [Hdone Hend].
  split; [split_and!; try done; intros w'; exact Hdone|].
  assert (wf_rd e ∧ fits (re_src e) → wf_socket (with_rd so e)) as Hgo by (intros [? ?]; by split_and!).
  destruct res as [[v|v|v]|err]; [| |done|by destruct Hend]; (destruct Hend as (-> & ? & ?); split; [done|]; by apply Hgo).
Qed.

Lemma Socket_write_packets_spec flush config so w :
  wf_socket so →
  ∃ so' w' q st, Socket_write_packets flush config so w = Ok (so', w', q, st)
    ∧ match q with
      | Q_Ok _ | Q_Block _ => socket_written true so so' ∧ wf_socket so'
      | Q_Disconnected _ => socket_written false so so'
      end.
Proof.
  intros (Hrd & Hfit & [max Hwt] & Hps & Hch). unfold Socket_write_packets, write_packets.
  destruct (write_packets_loop_spec flush _ config max SockStats_default _ (Hwt w) Hps Hch (Nat.lt_succ_diag_r _))
    as (e & q & st & -> & Hv & Hq); run.
  eexists _, _, q, st. split; [done|].
  assert (∀ m, wf_wt m (wt_env_of so w) → m = max) as Hm by (intros; by eapply wf_wt_unique).
  destruct q as [v|v|v].
  - destruct Hq as (Hwf' & Hsent & Hto & Hp & Hc). split.
    + split_and!; try done. intros w' m ->%Hm. split; [done|]. change (outgoing max (wt_env_of so w')) with (outgoing max (wt_env_of so w)). rewrite <-Hsent.
      unfold outgoing, out. cbn. rewrite Hto, Hp, Hc. by rewrite !app_nil_r.
    + split_and!; try done; [by exists max|]. split; cbn; by rewrite ?Hp, ?Hc.
  - destruct Hq as (Hwf' & Hs & Ho). split; [|split_and!; try done; by exists max].
    split_and!; try done. intros w' m ->%Hm. by split.
  - split_and!; try done. intros w' m ->%Hm. exact Hq.
Qed.

(** *** Timeouts *)

(** [n] calls of [read_packet] that find the packet incomplete. *)
Fixpoint waits (config : Config) (st : MQTTRead) (n : nat) (e : rd_env) : rd_env :=
  match n with
  | O => e
  | S n => (read_wait config st (waits config st n e)).1
  end.

Lemma waits_S config st n e : waits config st (S n) e = waits config st n (read_wait config st e).1.
Proof. induction n as [|n IH]; [done|]. cbn [waits] in *. by rewrite IH. Qed.

Lemma waits_deadline config st d n e :
  rd_timeout (re_src e) = Some d →
  (∀ k, (k < n)%nat → ck_time (re_clock e) (ck_reads (re_clock e) + k) ≤ d) →
  rd_timeout (re_src (waits config st n e)) = Some d
  ∧ re_clock (waits config st n e) = MkClock (ck_time (re_clock e)) (ck_reads (re_clock e) + n).
Proof.
  intros Hd. induction n as [|n IH]; intros Hk; cbn [waits].
  { rewrite Nat.add_0_r. by destruct e as [? ? [] ?]. }
  destruct IH as [IHt IHc]; [intros; apply Hk; lia|].
  set (e1 := waits _ _ _ _) in *. clearbody e1. unfold read_wait, elapsed, now. rewrite IHt, IHc.
  cbn [ck_time ck_reads].
  assert ((d <? ck_time (re_clock e) (ck_reads (re_clock e) + n)) = false) as ->
    by (apply Z.ltb_ge, Hk; lia).
  unfold set_read_timeout. cbn. rewrite IHt. split; [done|]. cbn. f_equal. lia.
Qed.

(** ** Theorems *)

(** C21. [read_packets] keeps the stream: the packets that join the way to the shard
    (its queue and the backlog of the source, oldest first) are, in order, those
    whose bytes are at the front of the connection; nothing is lost, repeated or
    overtaken however the calls of [read] are cut and however full the queue is.
    It returns no packets and it terminates: [fuel] turns are enough when the queue
    has room for fewer.  Unless it ends with [Disconnected] or an error, the source
    can be read on; an error leaves it without a reader state, and is of kind
    malformed, protocol, or, for a packet shorter than one of its fields,
    insufficient bytes.  It panics on a complete packet with a reserved type or QoS
    only. *)
Theorem read_packets_order fuel config e :
  wf_rd e → fits (re_src e) → (room (re_src e) < fuel)%nat →
  match read_packets fuel config e with
  | Ok (e', res) => read_done e e' ∧ read_ended e e' res
  | Panic => ∃ datas data rest, incoming e = concat datas ++ data ++ rest ∧ reserved data
  | _ => False
  end.
Proof. apply read_packets_spec. Qed.

(** C22. [write_packets] keeps the stream: what has been sent, then the packet being
    written, the packets of the sink and those of the queue go out in this order.
    It terminates without a panic and returns no packets; with [Ok] everything is
    sent and the queue is empty, with [Block] nothing is lost, and after a
    disconnect the peer has got a prefix of the stream.  Packets that cannot be
    encoded or are over the limit are left out. *)
Theorem write_packets_order flush config max e :
  wf_wt max e → Forall wf_Packet (wt_packets (we_sink e)) →
  Forall wf_Packet (ch_items (rx (miot_rx (we_sink e)))) →
  ∃ e' q st, write_packets flush config e = Ok (e', q, st) ∧ values q = []
    ∧ match q with
      | Q_Ok _ => wf_wt max e' ∧ wr_sent (we_conn e') = outgoing max e
                  ∧ to_send (pw (we_sink e')) = [] ∧ wt_packets (we_sink e') = []
                  ∧ ch_items (rx (miot_rx (we_sink e'))) = []
      | Q_Block _ => wf_wt max e' ∧ wf_sink (we_sink e') ∧ outgoing max e' = outgoing max e
      | Q_Disconnected _ => wr_sent (we_conn e') `prefix_of` outgoing max e
      end.
Proof. intros Hwf Hps Hch. by apply write_packets_loop_spec; [..|lia]. Qed.

(** The read timeout: the first call that leaves a packet incomplete sets a
    deadline, the configured seconds ahead; the calls up to the deadline ask for a
    retry and do not move it, and the first call after it disconnects. *)
Theorem read_deadline config st e n :
  rd_timeout (re_src e) = None →
  let at_ i := ck_time (re_clock e) (ck_reads (re_clock e) + i) in
  let d := at_ 1%nat + from_secs (sock_mqtt_read_timeout config) in
  (∀ k, (k < n)%nat → at_ (2 + k)%nat ≤ d) →
  (read_wait config st e).2 = Q_Block []
  ∧ (read_wait config st (waits config st (S n) e)).2
    = (if d <? at_ (2 + n)%nat then Q_Disconnected [] else Q_Block []).
Proof.
  intros Hnone at_ d Hk. split; [unfold read_wait, elapsed, now; by rewrite Hnone|].
  set (e1 := (read_wait config st e).1).
  assert (rd_timeout (re_src e1) = Some d
    ∧ re_clock e1 = MkClock (ck_time (re_clock e)) (ck_reads (re_clock e) + 2)) as [H1 H2].
  { unfold e1, read_wait, elapsed, now. rewrite Hnone. unfold set_read_timeout. cbn. rewrite Hnone. cbn.
    unfold d, at_. rewrite Nat.add_1_r. split; [done|]. f_equal. lia. }
  rewrite waits_S. fold e1.
  destruct (waits_deadline config st d n e1 H1) as [H3 H4].
  { intros k Hkn. rewrite H2; cbn [ck_time ck_reads].
    rewrite <-Nat.add_assoc. by apply Hk. }
  unfold read_wait, elapsed, now. rewrite H3, H4, H2. cbn [ck_time ck_reads].
  unfold at_. rewrite <-Nat.add_assoc. cbn [snd]. by destruct (d <? _).
Qed.

(** After an error of [read_packet] the source has lost its reader state: the
    next call panics. *)
Theorem read_after_error_panics config e err e' :
  wf_rd e → read_packet config e = Ok (e', inr err) → read_packet config e' = Panic.
Proof.
  intros Hwf E. pose proof (read_packet_spec config e Hwf) as Hp. rewrite E in Hp.
  destruct Hp as (_ & _ & Hpr & _). unfold read_packet. by rewrite Hpr.
Qed.

(** The statistics of [write_packets] are those of the last flush: a packet
    sent by the first one is not counted. *)
Theorem write_stats_last config ck :
  ∃ e', write_packets (λ _, true) config
    (MkWtEnv (MkSink (MQTTWrite_new [] 10) None (MkRx 1 (MkChannel [] 1 true)) [Pkt_PingReq])
      (MkWriter [Wr_Accept 2] []) ck)
    = Ok (e', Q_Ok [], SockStats_default) ∧ wr_sent (we_conn e') = [192; 0].
Proof. eexists. split; [vm_compute; reflexivity|done]. Qed.

(** ** Witnesses *)

(** Every peer is known and all calls succeed. *)
Definition ex_os : System := {|
  peer_addr _ := Some []; register _ _ := true; deregister _ := true; flush _ := true; wakes := true |}.

Definition ex_config : Config := Config_default 1.
Definition ex_clock : clock := MkClock (λ i, Z.of_nat i * 1000000000) 0.

(** Two packets that arrive in three chunks, and a queue with room for one. *)
Definition ex_rd : rd_env :=
  MkRdEnv (MkSource (MQTTRead_new 100) None (MkTx (MkChannel [] 1 true) 0) [])
    [Rd_Data [192]; Rd_Interrupted; Rd_Data [0; 192]; Rd_Data [0]; Rd_WouldBlock] ex_clock false.

Definition ex_wt : wt_env :=
  MkWtEnv (MkSink (MW_Remain [192; 0] 1 10) None
      (MkRx 1 (MkChannel [Pkt_PingResp; Pkt_PingReq] 2 true)) [Pkt_PingReq])
    (MkWriter [Wr_WouldBlock; Wr_Accept 1; Wr_Accept 5] [192]) ex_clock.

Lemma read_packets_order_witness :
  match read_packets 3 ex_config ex_rd with
  | Ok (e', res) => read_done ex_rd e' ∧ read_ended ex_rd e' res
  | Panic => ∃ datas data rest, incoming ex_rd = concat datas ++ data ++ rest ∧ reserved data
  | _ => False
  end.
Proof.
  apply (read_packets_order 3 ex_config ex_rd).
  - split; [split; [constructor|done]|by repeat constructor].
  - unfold fits; cbn; lia.
  - unfold room; cbn; lia.
Defined.

Lemma write_packets_order_witness :
  ∃ e' q st, write_packets (λ _, true) ex_config ex_wt = Ok (e', q, st) ∧ values q = []
    ∧ match q with
      | Q_Ok _ => wf_wt 10 e' ∧ wr_sent (we_conn e') = outgoing 10 ex_wt
                  ∧ to_send (pw (we_sink e')) = [] ∧ wt_packets (we_sink e') = []
                  ∧ ch_items (rx (miot_rx (we_sink e'))) = []
      | Q_Block _ => wf_wt 10 e' ∧ wf_sink (we_sink e') ∧ outgoing 10 e' = outgoing 10 ex_wt
      | Q_Disconnected _ => wr_sent (we_conn e') `prefix_of` outgoing 10 ex_wt
      end.
Proof.
  apply (write_packets_order (λ _, true) ex_config 10 ex_wt).
  - exists [192; 0], []. cbn. split_and!; (done || lia).
  - by repeat constructor.
  - by repeat constructor.
Defined.

Lemma read_deadline_witness :
  (read_wait ex_config (MQTTRead_new 100) ex_rd).2 = Q_Block []
  ∧ (read_wait ex_config (MQTTRead_new 100) (waits ex_config (MQTTRead_new 100) 6 ex_rd)).2
    = Q_Disconnected [].
Proof.
  apply (read_deadline ex_config (MQTTRead_new 100) ex_rd 5); [done|].
  intros k Hk. do 5 (destruct k as [|k]; [done|]). lia.
Defined.

Lemma read_after_error_panics_witness :
  ∃ e err e', read_packet ex_config e = Ok (e', inr err) ∧ read_packet ex_config e' = Panic.
Proof.
  set (e := MkRdEnv (re_src ex_rd) [Rd_Data [192; 1; 0]] ex_clock false).
  destruct (read_packet ex_config e) as [[e' [q|err]]|?| |] eqn:E; try by vm_compute in E.
  exists e, err, e'. split; [exact E|].
  apply (read_after_error_panics ex_config e err e'); [|exact E].
  split; [split; [constructor|done]|by repeat constructor].
Defined.
