(* ===== verification/Client.v ===== *)
(** * The client (src/src/client.rs)

    [Client] and its [ClientIO]: the CONNECT it sends, the loops that read and write a
    packet with their timeout, the handshake, ping, and splitting the connection.
    Opening sockets and their options are calls of the operating system. *)
From S2P Require Import Prelude Errors Utf8 Util Types V5Header V5Property V5Codec V5ConnAck V5Connect V5Packet Framing Config Queues Socket.
Local Open Scope Z_scope.

(** ** State *)

Record ConnectOptions := MkConnectOptions {
  co_will_qos : option QoS;
  co_will_retain : option bool;
  co_keep_alive : Z;
}.

Definition ConnectOptions_default : ConnectOptions := MkConnectOptions None None 0.

(** The connection: of the standard library or of mio, whole or one half of it. *)
Inductive ClientIO : Type :=
| CIO_Blocking (sock : TcpStream) (pktr : MQTTRead) (pktw : MQTTWrite)
| CIO_NoBlock (sock : TcpStream) (pktr : MQTTRead) (pktw : MQTTWrite)
| CIO_BlockRd (sock : TcpStream) (pktr : MQTTRead)
| CIO_BlockWt (sock : TcpStream) (pktw : MQTTWrite)
| CIO_NoBlockRd (sock : TcpStream) (pktr : MQTTRead)
| CIO_NoBlockWt (sock : TcpStream) (pktw : MQTTWrite)
| CIO_None.

(** [ClientBuilder]; durations and instants are in nanoseconds. *)
Record ClientBuilder := MkClientBuilder {
  cb_client_id : option rstring;
  cb_read_timeout : option Z;
  cb_write_timeout : option Z;
  cb_max_packet_size : Z;
  cb_connopts : ConnectOptions;
  cb_connect_properties : option ConnectProperties;
  cb_connect_payload : ConnectPayload;
  cb_protocol_version : MqttProtocol;
}.

Record Client := MkClient {
  cl_client_id : rstring;
  cl_protocol_version : MqttProtocol;
  cl_read_timeout : option Z;
  cl_write_timeout : option Z;
  cl_max_packet_size : Z;
  cl_connopts : ConnectOptions;
  cl_connect_properties : option ConnectProperties;
  cl_connect_payload : ConnectPayload;
  cl_connack : ConnAck;
  cl_last_rcvd : Z;
  cl_last_sent : Z;
  cl_cio : ClientIO;
}.

Definition set_cio (cio : ClientIO) (c : Client) : Client :=
  MkClient (cl_client_id c) (cl_protocol_version c) (cl_read_timeout c) (cl_write_timeout c)
    (cl_max_packet_size c) (cl_connopts c) (cl_connect_properties c) (cl_connect_payload c)
    (cl_connack c) (cl_last_rcvd c) (cl_last_sent c) cio.

Definition set_connack (connack : ConnAck) (c : Client) : Client :=
  MkClient (cl_client_id c) (cl_protocol_version c) (cl_read_timeout c) (cl_write_timeout c)
    (cl_max_packet_size c) (cl_connopts c) (cl_connect_properties c) (cl_connect_payload c)
    connack (cl_last_rcvd c) (cl_last_sent c) (cl_cio c).

Definition set_last_sent (t : Z) (c : Client) : Client :=
  MkClient (cl_client_id c) (cl_protocol_version c) (cl_read_timeout c) (cl_write_timeout c)
    (cl_max_packet_size c) (cl_connopts c) (cl_connect_properties c) (cl_connect_payload c)
    (cl_connack c) (cl_last_rcvd c) t (cl_cio c).

(** [into_client]: [uuid] is the identifier that the uuid library would generate, and
    [connack] is [ConnAck::default()]. *)
Definition into_client (uuid : rstring) (connack : ConnAck) (b : ClientBuilder) (ck : clock) : Client * clock :=
  let '(sent, ck) := now ck in
  let '(rcvd, ck) := now ck in
  (MkClient (default uuid (cb_client_id b)) (cb_protocol_version b) (cb_read_timeout b) (cb_write_timeout b)
     (cb_max_packet_size b) (cb_connopts b) (cb_connect_properties b) (cb_connect_payload b)
     connack rcvd sent CIO_None, ck).

(** ** CONNECT *)

Definition is_will (c : Client) : bool :=
  negb (is_none (cpl_will_topic (cl_connect_payload c)))
  && negb (is_none (cpl_will_properties (cl_connect_payload c)))
  && negb (is_none (cpl_will_payload (cl_connect_payload c))).

Definition CF_WILL_QOS0 : Z := 0.
Definition CF_WILL_QOS1 : Z := 8.
Definition CF_WILL_QOS2 : Z := 16.

(** The flags that [to_connect] collects. *)
Definition to_flags (c : Client) (clean_start : bool) : list Z :=
  (if clean_start then [CF_CLEAN_START] else [])
  ++ (if is_will c then
        [CF_WILL_FLAG;
         match default QoS_AtMostOnce (co_will_qos (cl_connopts c)) with
         | QoS_AtMostOnce => CF_WILL_QOS0
         | QoS_AtLeastOnce => CF_WILL_QOS1
         | QoS_ExactlyOnce => CF_WILL_QOS2
         end]
        ++ match co_will_retain (cl_connopts c) with Some true => [CF_WILL_RETAIN] | _ => [] end
      else [])
  ++ match cpl_username (cl_connect_payload c) with Some _ => [CF_USERNAME] | None => [] end
  ++ match cpl_password (cl_connect_payload c) with Some _ => [CF_PASSWORD] | None => [] end.

Definition to_connect (c : Client) (clean_start : bool) : Connect :=
  Connect_normalize (MkConnect MQTT_name (cl_protocol_version c)
    (ConnectFlags_new (to_flags c clean_start)) (co_keep_alive (cl_connopts c))
    (cl_connect_properties c) (cl_connect_payload c)).

(** ** Keep alive *)

(** [Client::keep_alive] *)
Definition Client_keep_alive (c : Client) : Z :=
  match connack_properties (cl_connack c) with
  | Some props => match cap_server_keep_alive props with
                  | Some keep_alive => keep_alive
                  | None => co_keep_alive (cl_connopts c)
                  end
  | None => co_keep_alive (cl_connopts c)
  end.

(** [Client::elapsed] *)
Definition Client_elapsed (c : Client) (ck : clock) : Z * clock :=
  let '(now, ck) := now ck in (now - cl_last_rcvd c, ck).

(** [Client::expired]: the [f64] product of [micros] by 1.5 is exact, as it is a
    whole number below 2^53. *)
Definition Client_expired (c : Client) (ck : clock) : bool * clock :=
  if co_keep_alive (cl_connopts c) =? 0 then (false, ck)
  else
    let micros := co_keep_alive (cl_connopts c) * 1000000 in
    let '(now, ck) := now ck in
    (micros * 3 / 2 <? (now - cl_last_sent c) / 1000, ck).

(** ** Timeouts of one call *)

(** [RwTimeout::read_elapsed] and [write_elapsed] *)
Definition rw_elapsed (timeout : option Z) (ck : clock) : bool * clock :=
  match timeout with
  | Some timeout => let '(now, ck) := now ck in (now <? timeout, ck)
  | None => (false, ck)
  end.

(** [RwTimeout::set_read_timeout] and [set_write_timeout] *)
Definition rw_set_timeout (timeout : option Z) (retry : bool) (dur : Z) (ck : clock) : option Z * clock :=
  match retry, timeout with
  | true, None => let '(now, ck) := now ck in (Some (now + dur), ck)
  | true, Some _ => (timeout, ck)
  | false, _ => (None, ck)
  end.

Definition DEF_READ_TIMEOUT : Z := from_secs 3600.
Definition DEF_WRITE_TIMEOUT : Z := from_secs 3600.

(** ** Reading and writing a packet *)

(** The kinds of [io::Error] that the functions return, and those of the socket. *)
Inductive io_kind : Set := BrokenPipe | TimedOut | InvalidData | SocketError.

(** The loop of [read_packet].  A call that returns with [?] leaves the reader that
    was put in place of [pktr], which is [MQTTRead::None].  Every turn uses up an
    event of the connection. *)
Fixpoint client_read_loop (fuel : nat) (read_timeout : Z) (timeout : option Z) (pr : MQTTRead)
    (sock : reader) (ck : clock) : Result ((Packet + io_kind) * MQTTRead * reader * clock) :=
  match fuel with
  | O => NoFuel
  | S fuel =>
      match MQTTRead_read pr sock with
      | Ok (pr, _, sock) =>
          match pr with
          | MR_Init _ _ | MR_Header _ _ _ | MR_Remain _ _ _ _ =>
              let '(elapsed, ck) := rw_elapsed timeout ck in
              if negb elapsed then
                let '(timeout, ck) := rw_set_timeout timeout true read_timeout ck in
                client_read_loop fuel read_timeout timeout pr sock ck
              else Ok (inr TimedOut, pr, sock, ck)
          | MR_Fin _ _ _ _ =>
              match MQTTRead_parse pr with
              | Ok pkt => pr ← MQTTRead_reset pr; Ok (inl pkt, pr, sock, ck)
              | Err _ => Ok (inr InvalidData, MR_None, sock, ck)
              | Panic => Panic
              | NoFuel => NoFuel
              end
          | MR_None => Panic
          end
      | Err _ => Ok (inr BrokenPipe, MR_None, sock, ck)
      | Panic => Panic
      | NoFuel => NoFuel
      end
  end.

Definition client_read (c : Client) (sock : reader) (pktr : MQTTRead) (ck : clock)
    : Result ((Packet + io_kind) * MQTTRead * reader * clock) :=
  client_read_loop (S (rd_size sock)) (default DEF_READ_TIMEOUT (cl_read_timeout c)) None pktr sock ck.

(** The loop of [write_packet]. *)
Fixpoint client_write_loop (fuel : nat) (write_timeout : Z) (timeout : option Z) (pw : MQTTWrite)
    (sock : writer) (ck : clock) : Result ((() + io_kind) * MQTTWrite * writer * clock) :=
  match fuel with
  | O => NoFuel
  | S fuel =>
      match MQTTWrite_write pw sock with
      | Ok (pw, _, sock) =>
          match pw with
          | MW_Init _ _ | MW_Remain _ _ _ =>
              let '(elapsed, ck) := rw_elapsed timeout ck in
              if elapsed : bool then
                let '(timeout, ck) := rw_set_timeout timeout true write_timeout ck in
                client_write_loop fuel write_timeout timeout pw sock ck
              else Ok (inr TimedOut, MW_None, sock, ck)
          | MW_Fin _ _ => Ok (inl (), pw, sock, ck)
          | MW_None => Panic
          end
      | Err _ => Ok (inr BrokenPipe, MW_None, sock, ck)
      | Panic => Panic
      | NoFuel => NoFuel
      end
  end.

Definition client_write (c : Client) (sock : writer) (pktw : MQTTWrite) (pkt : Packet) (ck : clock)
    : Result ((() + io_kind) * MQTTWrite * writer * clock) :=
  match encoded Packet_ pkt with
  | Ok blob =>
      pw ← MQTTWrite_reset pktw blob;
      client_write_loop (S (length (wr_events sock))) (default DEF_WRITE_TIMEOUT (cl_write_timeout c)) None pw sock ck
  | Err _ => Ok (inr InvalidData, MW_None, sock, ck)
  | Panic => Panic
  | NoFuel => NoFuel
  end.

(** ** ClientIO *)

Definition ClientIO_read_packet (cio : ClientIO) (c : Client) (ck : clock)
    : Result ((Packet + io_kind) * ClientIO * clock) :=
  match cio with
  | CIO_Blocking sock pktr pktw =>
      '(res, pktr, rd, ck) ← client_read c (tcp_rd sock) pktr ck;
      Ok (res, CIO_Blocking (MkTcpStream rd (tcp_wr sock)) pktr pktw, ck)
  | CIO_NoBlock sock pktr pktw =>
      '(res, pktr, rd, ck) ← client_read c (tcp_rd sock) pktr ck;
      Ok (res, CIO_NoBlock (MkTcpStream rd (tcp_wr sock)) pktr pktw, ck)
  | CIO_BlockRd sock pktr =>
      '(res, pktr, rd, ck) ← client_read c (tcp_rd sock) pktr ck;
      Ok (res, CIO_BlockRd (MkTcpStream rd (tcp_wr sock)) pktr, ck)
  | CIO_NoBlockRd sock pktr =>
      '(res, pktr, rd, ck) ← client_read c (tcp_rd sock) pktr ck;
      Ok (res, CIO_NoBlockRd (MkTcpStream rd (tcp_wr sock)) pktr, ck)
  | _ => Panic
  end.

Definition ClientIO_write_packet (cio : ClientIO) (c : Client) (pkt : Packet) (ck : clock)
    : Result ((() + io_kind) * ClientIO * clock) :=
  match cio with
  | CIO_Blocking sock pktr pktw =>
      '(res, pktw, wr, ck) ← client_write c (tcp_wr sock) pktw pkt ck;
      Ok (res, CIO_Blocking (MkTcpStream (tcp_rd sock) wr) pktr pktw, ck)
  | CIO_NoBlock sock pktr pktw =>
      '(res, pktw, wr, ck) ← client_write c (tcp_wr sock) pktw pkt ck;
      Ok (res, CIO_NoBlock (MkTcpStream (tcp_rd sock) wr) pktr pktw, ck)
  | CIO_BlockWt sock pktw =>
      '(res, pktw, wr, ck) ← client_write c (tcp_wr sock) pktw pkt ck;
      Ok (res, CIO_BlockWt (MkTcpStream (tcp_rd sock) wr) pktw, ck)
  | CIO_NoBlockWt sock pktw =>
      '(res, pktw, wr, ck) ← client_write c (tcp_wr sock) pktw pkt ck;
      Ok (res, CIO_NoBlockWt (MkTcpStream (tcp_rd sock) wr) pktw, ck)
  | _ => Panic
  end.

Definition is_blocking (cio : ClientIO) : Result bool :=
  match cio with
  | CIO_Blocking _ _ _ | CIO_BlockRd _ _ | CIO_BlockWt _ _ => Ok true
  | CIO_NoBlock _ _ _ | CIO_NoBlockRd _ _ | CIO_NoBlockWt _ _ => Ok false
  | CIO_None => Panic
  end.

(** [ClientIO::handshake] *)
Definition ClientIO_handshake (c : Client) (connect : Connect) (sock : TcpStream) (blocking : bool) (ck : clock)
    : Result ((ClientIO * ConnAck + io_kind) * clock) :=
  let max_packet_size := Connect_max_packet_size connect (cl_max_packet_size c) in
  let pktr := MQTTRead_new max_packet_size in
  let pktw := MQTTWrite_new [] max_packet_size in
  '(res, pktw, wr, ck) ← client_write c (tcp_wr sock) pktw (Pkt_Connect connect) ck;
  match res with
  | inr k => Ok (inr k, ck)
  | inl _ =>
      '(res, pktr, rd, ck) ← client_read c (tcp_rd sock) pktr ck;
      match res with
      | inr k => Ok (inr k, ck)
      | inl (Pkt_ConnAck connack) =>
          let sock := MkTcpStream rd wr in
          Ok (inl (if blocking then CIO_Blocking sock pktr pktw else CIO_NoBlock sock pktr pktw, connack), ck)
      | inl _ => Ok (inr InvalidData, ck)
      end
  end.

(** [connect] and [connect_noblock] with a socket that the operating system has
    opened. *)
Definition Client_connect (c : Client) (sock : TcpStream) (blocking : bool) (ck : clock)
    : Result ((Client + io_kind) * clock) :=
  '(res, ck) ← ClientIO_handshake c (to_connect c true) sock blocking ck;
  Ok (match res with inl (cio, connack) => inl (set_connack connack (set_cio cio c)) | inr k => inr k end, ck).

(** [reconnect] *)
Definition Client_reconnect (c : Client) (sock : TcpStream) (ck : clock) : Result ((Client + io_kind) * clock) :=
  blocking ← is_blocking (cl_cio c);
  '(res, ck) ← ClientIO_handshake c (to_connect c false) sock blocking ck;
  Ok (match res with inl (cio, connack) => inl (set_connack connack (set_cio cio c)) | inr k => inr k end, ck).

(** [Client::ping] *)
Definition Client_ping (c : Client) (ck : clock) : Result ((() + io_kind) * Client * clock) :=
  let '(t, ck) := now ck in
  let c := set_last_sent t c in
  let cio := cl_cio c in
  let c := set_cio CIO_None c in
  '(res, cio, ck) ← ClientIO_write_packet cio c Pkt_PingReq ck;
  match res with
  | inr k => Ok (inr k, c, ck)
  | inl _ =>
      '(res, cio, ck) ← ClientIO_read_packet cio c ck;
      match res with
      | inr k => Ok (inr k, c, ck)
      | inl Pkt_PingResp => Ok (inl (), c, ck)
      | inl _ => Ok (inr InvalidData, c, ck)
      end
  end.

(** [split_sock] with a socket that can be cloned and shut down; the halves read and
    write one connection, of which each uses its side. *)
Definition split_sock (cio : ClientIO) : Result (ClientIO * ClientIO) :=
  match cio with
  | CIO_Blocking sock pktr pktw => Ok (CIO_BlockRd sock pktr, CIO_BlockWt sock pktw)
  | CIO_NoBlock sock pktr pktw => Ok (CIO_NoBlockRd sock pktr, CIO_NoBlockWt sock pktw)
  | _ => Panic
  end.

(** [clone_read]: the reader, and what is left as the writer. *)
Definition clone_read (c : Client) : Result (Client * Client) :=
  '(rd_cio, wt_cio) ← split_sock (cl_cio c);
  let reader := MkClient (cl_client_id c) (cl_protocol_version c) (cl_read_timeout c) (cl_write_timeout c)
    (cl_max_packet_size c) (cl_connopts c) (cl_connect_properties c) (cl_connect_payload c)
    (cl_connack c) (cl_last_sent c) (cl_last_rcvd c) rd_cio in
  Ok (reader, set_cio wt_cio c).
