(* ===== verification/ClientProps.v ===== *)
(** * The client: theorems *)
From S2P Require Import Prelude Errors Utf8 Util Types V5Header V5Property V5Codec V5ConnAck V5Connect V5Packet Framing Config Queues Socket Client.
Local Open Scope Z_scope.

(** ** Reading *)

Definition stream_of (pr : MQTTRead) (sock : reader) : bytes := pending pr ++ rd_bytes sock.

(** The deadline is ahead at some look at the clock; the first read that leaves the packet
    incomplete sets it, and the looks come after that. *)
Definition time_left (timeout : option Z) (dur : Z) (ck : clock) : Prop :=
  match timeout with
  | Some t => ∃ k, ck_time ck (ck_reads ck + k) < t
  | None => ∃ k, ck_time ck (ck_reads ck + S k) < ck_time ck (ck_reads ck) + dur
  end.

(** What a call of [client_read] makes of a reader [sock0] and the stream in front of it.
    A packet comes from the front of the stream, the next call begins behind it; [TimedOut]
    is for a deadline that is ahead; [InvalidData] for a packet at the front that the decoder
    refuses; [BrokenPipe] for a connection that is not healthy, or a stream without a
    complete packet within the limit at its front. *)
Definition client_read_result (early : Prop) (max : Z) (sock0 : reader) (stream : bytes) (res : Packet + io_kind)
    (pr : MQTTRead) (sock : reader) : Prop :=
  match res with
  | inl pkt => ∃ data fh, framed_as data fh max ∧ decodes pkt data ∧ stream = data ++ stream_of pr sock
      ∧ wf_read pr ∧ read_max pr = max ∧ is_bytes (rd_bytes sock)
  | inr TimedOut => early ∧ stream_of pr sock = stream ∧ wf_read pr ∧ read_max pr = max ∧ is_bytes (rd_bytes sock)
  | inr InvalidData => pr = MR_None
      ∧ ∃ data fh rest, framed_as data fh max ∧ stream = data ++ rest ∧ ∀ pkt, ¬ decodes pkt data
  | inr BrokenPipe => pr = MR_None ∧ (ok_reader sock0 → ¬ complete stream max)
  | inr _ => False
  end.

Lemma parse_refused data rem fh mx err :
  wf_read (MR_Fin data rem fh mx) → MQTTRead_parse (MR_Fin data rem fh mx) = Err err → ∀ pkt, ¬ decodes pkt data.
Proof.
  intros [Hb Hf] E pkt [Hd _]. cbn [pending] in Hb. apply Forall_app in Hb as [Hb _]. pose proof (unwrap_Ok_or_panic fh) as Hn.
  assert (is_Ok (FixedHeader_unwrap fh)) as Hu.
  { destruct (FixedHeader_unwrap fh) eqn:Eu; [by eexists|done| |done]. cbn [MQTTRead_parse] in E. by rewrite Eu in E. }
  rewrite (MQTTRead_parse_eq data rem fh mx) in E; [|by destruct Hf as (tl & m & -> & _); apply Forall_cons in Hb as [? _]|done|done].
  rewrite Hd in E. revert E; run. by rewrite Nat.eqb_refl.
Qed.

Lemma decodes_unwrap data fh max pkt : is_bytes data → framed_as data fh max → decodes pkt data → is_Ok (FixedHeader_unwrap fh).
Proof.
  intros Hb Hf [Hd _]. assert (is_u8 (byte1 fh)) as Hu by (destruct Hf as (tl & m & -> & _); by apply Forall_cons in Hb as [? _]).
  destruct (framed_as_header data fh max Hu Hf) as (m & E & _). unfold Packet_decode in Hd. rewrite E in Hd.
  pose proof (FixedHeader_validate_post fh Hu) as Hp. by destruct (FixedHeader_validate fh).
Qed.

Lemma client_read_loop_spec fuel dur timeout pr sock ck :
  wf_read pr → is_bytes (rd_bytes sock) → (rd_size sock < fuel)%nat →
  match client_read_loop fuel dur timeout pr sock ck with
  | Ok (res, pr', sock', _) =>
      client_read_result (time_left timeout dur ck) (read_max pr) sock (stream_of pr sock) res pr' sock'
  | Panic => ∃ data rest, stream_of pr sock = data ++ rest ∧ reserved data
  | _ => False
  end.
Proof.
  revert timeout pr sock ck. induction fuel as [|fuel IH]; intros timeout pr sock ck Hwf Hb Hf; [lia|]. cbn [client_read_loop].
  pose proof (MQTTRead_read_post pr sock Hwf Hb) as Hp.
  destruct (MQTTRead_read pr sock) as [[[st wb] sock1]|err| |]; [|by split; [|apply Hp]|done..].
  destruct Hp as (Hwf1 & Hmax & Hbytes & Hok & Hsz).
  assert (is_bytes (rd_bytes sock1)) as Hb1 by (eapply is_bytes_app_r; [exact Hbytes|]; apply Forall_app; by destruct Hwf).
  assert (is_Fin st = false → match (let '(elapsed, ck) := rw_elapsed timeout ck in
      if negb elapsed then
        let '(timeout, ck) := rw_set_timeout timeout true dur ck in client_read_loop fuel dur timeout st sock1 ck
      else Ok (inr TimedOut, st, sock1, ck)) with
    | Ok (res, pr', sock', _) =>
        client_read_result (time_left timeout dur ck) (read_max pr) sock (stream_of pr sock) res pr' sock'
    | Panic => ∃ data rest, stream_of pr sock = data ++ rest ∧ reserved data
    | _ => False end) as Hwait.
  { intros Hn. specialize (Hsz Hn).
    assert (∀ t2 ck2, (time_left t2 dur ck2 → time_left timeout dur ck) →
      match client_read_loop fuel dur t2 st sock1 ck2 with
      | Ok (res, pr', sock', _) =>
          client_read_result (time_left timeout dur ck) (read_max pr) sock (stream_of pr sock) res pr' sock'
      | Panic => ∃ data rest, stream_of pr sock = data ++ rest ∧ reserved data
      | _ => False end) as Hrec.
    { intros t2 ck2 Ht. specialize (IH t2 st sock1 ck2 Hwf1 Hb1 ltac:(lia)).
      unfold stream_of in IH at 1 2. rewrite Hbytes, Hmax in IH.
      destruct (client_read_loop _ _ _ _ _ _) as [[[[[pkt|k] pr'] sock'] ck']| | |]; [done| |done..].
      destruct k; try done; [|by destruct IH as [? IH]; split; auto]. destruct IH as [? IH]. split; [done|]. intros Ho. by apply IH, Hok. }
    destruct timeout as [t|]; cbn [rw_elapsed now].
    - destruct (Z.ltb_spec (ck_time ck (ck_reads ck)) t) as [Hlt|Hlt]; cbn [negb rw_set_timeout].
      + split; [exists 0%nat; by rewrite Nat.add_0_r|done].
      + apply Hrec. intros [k Hk]. exists (S k). by rewrite Nat.add_succ_r.
    - cbn [negb rw_set_timeout now]. apply Hrec. intros [k Hk]. exists k. by rewrite Nat.add_succ_r. }
  destruct st as [d mx|b d mx|d start fh mx|data rem fh mx|]; [by apply Hwait..| |by destruct Hwf1].
  clear Hwait. pose proof (parse_spec data rem fh mx Hwf1) as Hpp.
  assert (stream_of pr sock = data ++ rem ++ rd_bytes sock1) as Es by (unfold stream_of; rewrite <-Hbytes; cbn [pending]; by rewrite app_assoc).
  cbn [read_max] in Hmax. rewrite <-Hmax, Es.
  destruct (MQTTRead_parse _) as [pkt|err| |] eqn:Ep; [| | |done].
  - cbn [MQTTRead_reset]; run. exists data, fh. split; [apply Hwf1|]. split; [done|]. split; [done|].
    split; [by eapply wf_read_reset|done].
  - split; [done|]. exists data, fh, (rem ++ rd_bytes sock1). split; [apply Hwf1|]. split; [done|]. by eapply parse_refused.
  - by exists data, (rem ++ rd_bytes sock1).
Qed.

Lemma read_wf st sock st' wb sock' :
  wf_read st → is_bytes (rd_bytes sock) → MQTTRead_read st sock = Ok (st', wb, sock') →
  wf_read st' ∧ is_bytes (rd_bytes sock') ∧ (is_Fin st' = false → (rd_size sock' < rd_size sock)%nat).
Proof.
  intros Hwf Hb E. pose proof (MQTTRead_read_post st sock Hwf Hb) as Hp. rewrite E in Hp.
  destruct Hp as (Hwf' & _ & Hbytes & _ & Hsz). split; [done|]. split; [|done].
  eapply is_bytes_app_r; [exact Hbytes|]. apply Forall_app. by destruct Hwf.
Qed.

Lemma incomplete_match {A} st (x y z : A) :
  wf_read st → is_Fin st = false →
  match st with MR_Init _ _ | MR_Header _ _ _ | MR_Remain _ _ _ _ => x | MR_Fin _ _ _ _ => y | MR_None => z end = x.
Proof. intros Hwf Hf. destruct st; try done. by destruct Hwf. Qed.

(** The deadline of a call: before it, the second read that leaves the packet
    incomplete gives up; after it, none does. *)
Lemma client_read_loop_late fuel dur t pr sock ck pr' sock' ck' :
  (∀ k, t ≤ ck_time ck (ck_reads ck + k)) →
  client_read_loop fuel dur (Some t) pr sock ck ≠ Ok (inr TimedOut, pr', sock', ck').
Proof.
  revert pr sock ck. induction fuel as [|fuel IH]; intros pr sock ck Hk; [done|]. cbn [client_read_loop].
  destruct (MQTTRead_read pr sock) as [[[st wb] sock1]|err| |]; [|done..].
  assert ((ck_time ck (ck_reads ck) <? t) = false) as Hlt by (specialize (Hk 0%nat); rewrite Nat.add_0_r in Hk; lia).
  assert (∀ k, t ≤ ck_time (now ck).2 (ck_reads (now ck).2 + k)) as Hk2.
  { intros k. cbn. specialize (Hk (S k)). by rewrite Nat.add_succ_r in Hk. }
  destruct st as [d mx|b d mx|d start fh mx|data rem fh mx|]; [..|done];
    try (cbn [rw_elapsed now]; rewrite Hlt; cbn [negb rw_set_timeout]; by apply IH).
  destruct (MQTTRead_parse _); [|done..]. cbn [MQTTRead_reset]; by run.
Qed.

(** ** Writing *)

Definition ready (pktw : MQTTWrite) (max : Z) : Prop := ∃ d, pktw = MW_Init d max ∨ pktw = MW_Fin d max.

(** The result of the one write that [client_write] makes. *)
Definition one_write (blob : bytes) (max : Z) (wr : writer) : (() + io_kind) * MQTTWrite * writer :=
  if max <? len blob then (inl (), MW_Fin blob max, wr)
  else match io_write blob wr with
       | (Io_Ok n, wr') =>
           if (n =? 0)%nat then (inr BrokenPipe, MW_None, wr)
           else if (n =? length blob)%nat then (inl (), MW_Fin blob max, wr')
           else (inr TimedOut, MW_None, wr')
       | (Io_Interrupted, wr') | (Io_WouldBlock, wr') => (inr TimedOut, MW_None, wr')
       | (Io_Error, _) => (inr BrokenPipe, MW_None, wr)
       end.

Lemma io_write_le buf wr n wr' : io_write buf wr = (Io_Ok n, wr') → (n ≤ length buf)%nat.
Proof. unfold io_write. destruct (wr_events wr) as [|[] ?]; intros E; simplify_eq. lia. Qed.

Lemma client_write_spec c wr pktw max pkt blob ck :
  ready pktw max → encoded Packet_ pkt = Ok blob → blob ≠ [] →
  client_write c wr pktw pkt ck = (let '(res, pktw', wr') := one_write blob max wr in Ok (res, pktw', wr', ck)).
Proof.
  intros [d Hd] E Hne. unfold client_write. rewrite E.
  assert (MQTTWrite_reset pktw blob = Ok (MW_Init blob max)) as -> by (by destruct Hd as [-> | ->]). run.
  cbn [client_write_loop MQTTWrite_write]. unfold one_write. destruct (max <? len blob); [done|].
  assert ((length blob =? 0)%nat = false) as -> by by destruct blob.
  destruct (io_write blob wr) as [[n| | |] wr'] eqn:Ew; [|done..].
  destruct (n =? 0)%nat; [done|]. apply io_write_le in Ew. destruct (Nat.eqb_spec n (length blob)); [done|].
  destruct (Nat.ltb_spec n (length blob)); [done|lia].
Qed.

(** ** CONNECT *)

(** A client whose CONNECT is well formed: the will is complete or missing. *)
Record wf_Client (c : Client) : Prop := {
  wf_version : cl_protocol_version c = MqttProtocol_V5;
  wf_keep_alive : is_u16 (co_keep_alive (cl_connopts c));
  wf_props : option_Forall wf_ConnectProperties (cl_connect_properties c);
  wf_payload : wf_ConnectPayload (cl_connect_payload c);
  wf_will : let pld := cl_connect_payload c in
    match cpl_will_topic pld, cpl_will_properties pld, cpl_will_payload pld with
    | Some _, Some props, Some payload =>
        WillProperties_is_empty props = false ∧ (WillProperties_is_utf8 props = true → is_Some (from_utf8 payload))
    | None, None, None => True
    | _, _, _ => False
    end;
}.

Lemma norm_props_idemp {A} (is_empty : A → bool) o : norm_props is_empty (norm_props is_empty o) = norm_props is_empty o.
Proof. destruct o as [p|]; [|done]. unfold norm_props. destruct (is_empty p) eqn:E; [done|]. by rewrite E. Qed.

Lemma Connect_normalize_idemp p : Connect_normalize (Connect_normalize p) = Connect_normalize p.
Proof. unfold Connect_normalize; cbn. by rewrite !norm_props_idemp. Qed.

Lemma norm_props_Forall {A} (is_empty : A → bool) (P : A → Prop) o : option_Forall P o → option_Forall P (norm_props is_empty o).
Proof. intros H. destruct o as [p|]; [|done]. unfold norm_props. destruct (is_empty p); [constructor|exact H]. Qed.

(** The flags of a CONNECT, bit by bit. *)
Definition flag (flags mask : Z) : bool := 0 <? Z.land flags mask.

Lemma to_flags_spec c clean :
  let flags := ConnectFlags_new (to_flags c clean) in
  let opts := cl_connopts c in
  is_u8 flags ∧ Z.land flags 1 = 0
  ∧ flag flags CF_CLEAN_START = clean
  ∧ flag flags CF_WILL_FLAG = is_will c
  ∧ Z.shiftr (Z.land flags CF_WILL_QOS_MASK) 3
    = (if is_will c then QoS_into_u8 (default QoS_AtMostOnce (co_will_qos opts)) else 0)
  ∧ flag flags CF_WILL_RETAIN = is_will c && default false (co_will_retain opts)
  ∧ flag flags CF_USERNAME = negb (is_none (cpl_username (cl_connect_payload c)))
  ∧ flag flags CF_PASSWORD = negb (is_none (cpl_password (cl_connect_payload c))).
Proof.
  unfold to_flags. destruct clean, (is_will c), (co_will_qos (cl_connopts c)) as [[]|],
    (co_will_retain (cl_connopts c)) as [[]|], (cpl_username (cl_connect_payload c)),
    (cpl_password (cl_connect_payload c)); by repeat split.
Qed.

Lemma to_connect_flags c clean : connect_flags (to_connect c clean) = ConnectFlags_new (to_flags c clean).
Proof. done. Qed.

Lemma wf_MQTT_name : wf_string MQTT_name.
Proof. unfold MQTT_name, is_char. repeat (apply Forall_cons; split; [lia|]). constructor. Qed.

Lemma to_connect_wf c clean : wf_Client c → wf_Connect (to_connect c clean) ∧ stable_Connect (to_connect c clean).
Proof.
  intros [Hv Hk Hp (P1 & P2 & P3 & P4 & P5 & P6) Hw]. cbv zeta in Hw.
  destruct (to_flags_spec c clean) as (F1 & F2 & F3 & F4 & F5 & F6 & F7 & F8).
  set (flags := ConnectFlags_new (to_flags c clean)) in *.
  assert (is_will c = negb (is_none (cpl_will_topic (cl_connect_payload c)))) as Ew
    by (revert Hw; unfold is_will; destruct (cpl_will_topic _), (cpl_will_properties _), (cpl_will_payload _); done).
  assert (norm_props WillProperties_is_empty (cpl_will_properties (cl_connect_payload c))
    = cpl_will_properties (cl_connect_payload c)) as En.
  { revert Hw. destruct (cpl_will_topic _), (cpl_will_properties _) as [w|], (cpl_will_payload _); try done.
    intros [Hw _]. cbn. by rewrite Hw. }
  assert (ConnectFlags_validate flags = Ok ()) as Hval by (unfold ConnectFlags_validate; by rewrite F2).
  unfold to_connect, Connect_normalize. fold flags.
  cbn [connect_protocol_name connect_protocol_version connect_flags connect_keep_alive connect_properties connect_payload].
  rewrite En. split.
  - unfold wf_Connect, Connect_flags_agree, Connect_validate, is_will_flag, is_username, is_password.
    cbn [connect_protocol_name connect_protocol_version connect_flags connect_keep_alive connect_properties connect_payload
      cpl_client_id cpl_will_properties cpl_will_topic cpl_will_payload cpl_username cpl_password].
    fold (flag flags CF_WILL_FLAG) (flag flags CF_USERNAME) (flag flags CF_PASSWORD).
    rewrite Hv, Hval, F4, F5, F7, F8, Ew.
    assert (∀ {A} (o : option A), negb (is_none o) = bool_decide (is_Some o)) as Hb
      by (intros A [x|]; [by rewrite bool_decide_eq_true_2|by rewrite bool_decide_eq_false_2 by (intros [? ?]; done)]).
    split; [apply wf_MQTT_name|]. split; [by split|]. split; [done|]. split; [by apply norm_props_Forall|].
    split; [by split_and!|]. split.
    + rewrite <-!Hb. revert Hw. destruct (cpl_will_topic _), (cpl_will_properties _), (cpl_will_payload _); try done.
    + assert (∀ q, QoS_try_from (QoS_into_u8 q) = Ok q) as Hq by by intros [].
      revert Hw. destruct (cpl_will_topic _), (cpl_will_properties _) as [w|], (cpl_will_payload _) as [pl|]; try done.
      intros [_ Hu]. cbn [negb is_none]; run. rewrite Hq; run. cbn [fmap option_fmap option_map].
      destruct (WillProperties_is_utf8 w); [|done]. cbn [opt_unwrap]; run. by destruct (Hu eq_refl) as [x ->].
  - unfold stable_Connect. cbn [connect_payload cpl_will_properties]. revert Hw.
    destruct (cpl_will_topic _), (cpl_will_properties _) as [w|], (cpl_will_payload _) as [pl|]; try done; [|constructor].
    intros [? _]. by constructor.
Qed.

(** What the client writes is what the decoder makes of it. *)
Lemma to_connect_decodes c clean bs rest :
  wf_Client c → encoded Packet_ (Pkt_Connect (to_connect c clean)) = Ok bs →
  Packet_decode (bs ++ rest) = Ok (Pkt_Connect (to_connect c clean), length bs).
Proof.
  intros Hwf E. destruct (to_connect_wf c clean Hwf) as [Hw Hst].
  rewrite (Packet_roundtrip_gen (Pkt_Connect (to_connect c clean)) bs rest Hw Hst E).
  cbn [Packet_normalize]. unfold to_connect. by rewrite Connect_normalize_idemp.
Qed.

(** ** Theorems *)

(** C33. Reading a packet in the client, from any reader: the loop ends, and panics on a
    packet with a reserved type or QoS only; what its success and each of its errors say of
    the stream is in [client_read_result]; a timeout loses nothing, so that the call can be
    repeated.  And it reads: on a healthy connection with a packet at the front, in whatever
    pieces it comes, the call gives that packet and the next one begins behind it, unless it
    looks at the clock before its deadline (sic). *)
Theorem client_read_stream c sock pktr ck :
  wf_read pktr → is_bytes (rd_bytes sock) →
  let early := time_left None (default DEF_READ_TIMEOUT (cl_read_timeout c)) ck in
  match client_read c sock pktr ck with
  | Ok (res, pktr', sock', _) => client_read_result early (read_max pktr) sock (stream_of pktr sock) res pktr' sock'
  | Panic => ∃ data rest, stream_of pktr sock = data ++ rest ∧ reserved data
  | _ => False
  end
  ∧ ∀ data fh pkt rest, ok_reader sock → framed_as data fh (read_max pktr) → decodes pkt data →
      stream_of pktr sock = data ++ rest → ¬ early →
      ∃ pktr' sock' ck', client_read c sock pktr ck = Ok (inl pkt, pktr', sock', ck') ∧ stream_of pktr' sock' = rest.
Proof.
  intros Hwf Hb early.
  pose proof (client_read_loop_spec (S (rd_size sock)) (default DEF_READ_TIMEOUT (cl_read_timeout c)) None pktr sock ck Hwf Hb ltac:(lia)) as Hp.
  unfold client_read. split; [exact Hp|]. intros data fh pkt rest Hok Hf [Hd Hwp] Es He. rewrite Es in Hp.
  destruct (client_read_loop _ _ _ _ _ _) as [[[[[pkt'|k] pktr'] sock'] ck']| | |]; [| |done| |done].
  - destruct Hp as (data' & fh' & Hf' & [Hd' _] & Es' & _). destruct (framed_as_unique _ _ _ _ _ _ _ _ Hf Hf' Es') as (<- & _ & ->).
    rewrite Hd in Hd'. injection Hd' as <-. by eexists _, _, _.
  - destruct k; try done.
    + destruct Hp as [_ Hno]. destruct (Hno Hok). by exists data, fh, rest.
    + by destruct Hp as [? _].
    + destruct Hp as (_ & data' & fh' & rest' & Hf' & Es' & Hno). destruct (framed_as_unique _ _ _ _ _ _ _ _ Hf Hf' Es') as (<- & _).
      by destruct (Hno pkt).
  - destruct Hp as (data' & rest' & Es' & fh' & max' & Hf' & Hu). destruct (framed_as_unique _ _ _ _ _ _ _ _ Hf Hf' Es') as (<- & <- & _).
    destruct Hu. eapply decodes_unwrap; [|exact Hf|by split].
    assert (is_bytes (data ++ rest)) as [Hd' _]%Forall_app; [|done]. rewrite <-Es. apply Forall_app. by destruct Hwf.
Qed.

(** The timeout of a call works the wrong way round.  A packet that is not complete
    after two reads makes the call fail while its deadline is still ahead; once the
    clock is past the deadline no call fails for the time it takes. *)
Theorem client_timeout_reversed c sock pktr ck :
  let dur := default DEF_READ_TIMEOUT (cl_read_timeout c) in
  let at_ i := ck_time ck (ck_reads ck + i) in
  (∀ st1 wb1 sock1 st2 wb2 sock2, wf_read pktr → is_bytes (rd_bytes sock) →
    MQTTRead_read pktr sock = Ok (st1, wb1, sock1) → is_Fin st1 = false →
    MQTTRead_read st1 sock1 = Ok (st2, wb2, sock2) → is_Fin st2 = false →
    at_ 1%nat < at_ 0%nat + dur → ∃ ck', client_read c sock pktr ck = Ok (inr TimedOut, st2, sock2, ck'))
  ∧ ((∀ k, at_ 0%nat + dur ≤ at_ (S k)) →
     ∀ pktr' sock' ck', client_read c sock pktr ck ≠ Ok (inr TimedOut, pktr', sock', ck')).
Proof.
  intros dur at_. split.
  - intros st1 wb1 sock1 st2 wb2 sock2 Hwf Hb E1 F1 E2 F2 Hlt.
    destruct (read_wf _ _ _ _ _ Hwf Hb E1) as (Hwf1 & Hb1 & Hsz). specialize (Hsz F1).
    destruct (read_wf _ _ _ _ _ Hwf1 Hb1 E2) as (Hwf2 & _). unfold client_read. fold dur.
    unfold at_ in Hlt. rewrite Nat.add_0_r, Nat.add_1_r in Hlt.
    destruct (rd_size sock) as [|n] eqn:En; [lia|]. cbn [client_read_loop]. rewrite E1, incomplete_match by done.
    cbn [rw_elapsed negb rw_set_timeout now client_read_loop]. rewrite E2, incomplete_match by done.
    cbn [rw_elapsed now ck_time ck_reads]. rewrite (proj2 (Z.ltb_lt _ _) Hlt). by eexists.
  - intros Hk pktr' sock' ck'. unfold client_read. fold dur. cbn [client_read_loop].
    destruct (MQTTRead_read pktr sock) as [[[st wb] sock1]|err| |]; [|done..].
    assert (∀ fuel, client_read_loop fuel dur (Some (ck_time ck (ck_reads ck) + dur)) st sock1 (now ck).2
      ≠ Ok (inr TimedOut, pktr', sock', ck')) as Hl.
    { intros fuel. apply client_read_loop_late. intros k. specialize (Hk k). unfold at_ in Hk.
      rewrite Nat.add_0_r, Nat.add_succ_r in Hk. exact Hk. }
    destruct st as [d mx|b d mx|d start fh mx|data rem fh mx|]; [apply Hl..| |done].
    destruct (MQTTRead_parse _); [|done..]. cbn [MQTTRead_reset]; by run.
Qed.

(** Writing a packet in the client is one write: the call succeeds exactly if the
    packet is over the limit, and then nothing is sent, or if the connection takes all
    of it at once.  Otherwise it fails, a part of the packet may be out, and the client
    is left without a writer: the next packet it writes panics. *)
Theorem client_write_once c wr pktw max pkt blob ck :
  ready pktw max → encoded Packet_ pkt = Ok blob → blob ≠ [] →
  ∃ res pktw' wr', client_write c wr pktw pkt ck = Ok (res, pktw', wr', ck)
    ∧ (res = inl () ↔ max < len blob ∨ ∃ n evs, wr_events wr = Wr_Accept n :: evs ∧ (length blob ≤ n)%nat)
    ∧ match res with
      | inl _ => ready pktw' max ∧ wr_sent wr' = wr_sent wr ++ (if max <? len blob then [] else blob)
      | inr _ => (∃ sent, wr_sent wr' = wr_sent wr ++ sent ∧ sent `prefix_of` blob)
          ∧ ∀ pkt2 blob2 ck2, encoded Packet_ pkt2 = Ok blob2 → client_write c wr' pktw' pkt2 ck2 = Panic
      end.
Proof.
  intros Hr E Hne. rewrite (client_write_spec c wr pktw max pkt blob ck Hr E Hne). unfold one_write.
  destruct (Z.ltb_spec max (len blob)) as [Hm|Hm].
  { eexists _, _, _. split; [done|]. split; [split; [by left|done]|]. rewrite app_nil_r. split; [exists blob; by right|done]. }
  assert (∀ k wr' sent, wr_sent wr' = wr_sent wr ++ sent → sent `prefix_of` blob →
    (∀ n evs, wr_events wr = Wr_Accept n :: evs → (n < length blob)%nat) →
    ∃ res pktw' wr'', (Ok (inr k, MW_None, wr', ck) : Result ((() + io_kind) * MQTTWrite * writer * clock)) = Ok (res, pktw', wr'', ck)
    ∧ (res = inl () ↔ max < len blob ∨ ∃ n evs, wr_events wr = Wr_Accept n :: evs ∧ (length blob ≤ n)%nat)
    ∧ match res with
      | inl _ => ready pktw' max ∧ wr_sent wr'' = wr_sent wr ++ blob
      | inr _ => (∃ sent, wr_sent wr'' = wr_sent wr ++ sent ∧ sent `prefix_of` blob)
          ∧ ∀ pkt2 blob2 ck2, encoded Packet_ pkt2 = Ok blob2 → client_write c wr'' pktw' pkt2 ck2 = Panic
      end) as Hfail.
  { intros k wr' sent Hs Hpre Hn. eexists _, _, _. split; [done|]. split.
    - split; [done|]. intros [?|(n & evs & Hev & Hl)]; [lia|]. specialize (Hn n evs Hev). lia.
    - split; [by exists sent|]. intros pkt2 blob2 ck2 E2. unfold client_write. by rewrite E2. }
  assert (wr_sent wr = wr_sent wr ++ []) as Hnil by by rewrite app_nil_r.
  assert (1 ≤ length blob)%nat as Hlen by (destruct blob; [done|cbn; lia]).
  unfold io_write. destruct (wr_events wr) as [|[n| | | |] evs] eqn:Ev;
    [| |by apply (Hfail _ _ []); [exact Hnil|by eexists|by intros]..].
  { apply (Hfail _ _ []); [exact Hnil|by eexists|done]. }
  destruct (Nat.eqb_spec (Nat.min n (length blob)) 0).
  { apply (Hfail _ _ []); [exact Hnil|by eexists|]. intros n' evs' [= <- <-]. lia. }
  destruct (Nat.eqb_spec (Nat.min n (length blob)) (length blob)) as [E3|].
  - eexists _, _, _. split; [done|]. split; [split; [|done]; intros _; right; exists n, evs; split; [done|lia]|].
    split; [exists blob; by right|]. cbn [wr_sent]. by rewrite E3, firstn_all.
  - apply (Hfail _ _ (take (Nat.min n (length blob)) blob)); [done|exists (drop (Nat.min n (length blob)) blob); by rewrite take_drop|].
    intros n' evs' [= <- <-]. lia.
Qed.

(** The CONNECT of a client whose will is complete or missing is well formed: its
    bytes decode to itself, whatever follows, and each flag says what the options say. *)
Theorem to_connect_roundtrip c clean bs rest :
  wf_Client c → encoded Packet_ (Pkt_Connect (to_connect c clean)) = Ok bs →
  Packet_decode (bs ++ rest) = Ok (Pkt_Connect (to_connect c clean), length bs)
  ∧ (let flags := connect_flags (to_connect c clean) in
     let opts := cl_connopts c in
     flag flags CF_CLEAN_START = clean
     ∧ flag flags CF_WILL_FLAG = is_will c
     ∧ Z.shiftr (Z.land flags CF_WILL_QOS_MASK) 3
       = (if is_will c then QoS_into_u8 (default QoS_AtMostOnce (co_will_qos opts)) else 0)
     ∧ flag flags CF_WILL_RETAIN = is_will c && default false (co_will_retain opts)
     ∧ flag flags CF_USERNAME = negb (is_none (cpl_username (cl_connect_payload c)))
     ∧ flag flags CF_PASSWORD = negb (is_none (cpl_password (cl_connect_payload c)))).
Proof.
  intros Hwf E. split; [by apply to_connect_decodes|]. rewrite to_connect_flags.
  destruct (to_flags_spec c clean) as (_ & _ & ?). done.
Qed.

(** A ping takes the connection from the client and drops it, whatever comes of it:
    pinging again or reconnecting panics. *)
Theorem ping_drops_connection c ck res c' ck' :
  Client_ping c ck = Ok (res, c', ck') →
  cl_cio c' = CIO_None ∧ (∀ ck2, Client_ping c' ck2 = Panic) ∧ (∀ sock ck2, Client_reconnect c' sock ck2 = Panic).
Proof.
  intros E. assert (cl_cio c' = CIO_None) as Hc.
  { revert E. unfold Client_ping. destruct (now ck) as [t ck1]. set (c1 := set_cio CIO_None _).
    assert (cl_cio c1 = CIO_None) as H1 by done. clearbody c1.
    destruct (ClientIO_write_packet _ _ _ _) as [[[[[]|] cio] ck2]|?| |]; run; [|by intros [= _ <- _]|done..].
    destruct (ClientIO_read_packet _ _ _) as [[[[pkt|] cio2] ck3]|?| |]; run; [|by intros [= _ <- _]|done..].
    destruct pkt; by intros [= _ <- _]. }
  split; [done|]. unfold Client_ping, Client_reconnect. split.
  - intros ck2. destruct (now ck2) as [t ck3]. cbn [cl_cio set_last_sent]. by rewrite Hc.
  - intros sock ck2. by rewrite Hc.
Qed.

(** ** Witnesses *)

(** A client with a will. *)
Definition ex_client : Client :=
  MkClient [99] MqttProtocol_V5 None None 1024 (MkConnectOptions (Some QoS_AtLeastOnce) (Some true) 60) None
    (MkConnectPayload [97]
       (Some (MkWillProperties (Some 5) PF_Binary None None None None [])) (Some [97]) (Some [1; 2]) (Some [117]) None)
    (ConnAck_new_success None) 0 0 CIO_None.

(** Its CONNECT. *)
Definition ex_connect_bytes : bytes :=
  [16; 30; 0; 4; 77; 81; 84; 84; 5; 110; 0; 60; 0; 0; 1; 97; 5; 24; 0; 0; 0; 5; 0; 1; 97; 0; 2; 1; 2; 0; 1; 117].

Definition ck0 : clock := MkClock (λ i, Z.of_nat i) 0.

Lemma ex_client_wf : wf_Client ex_client.
Proof.
  split; [done|done|constructor| |by split].
  split; [apply (bool_decide_unpack _); by lazy|].
  split; [constructor; split_and!; repeat constructor; done|].
  split; [constructor; apply (bool_decide_unpack _); by lazy|].
  split; [constructor; apply (bool_decide_unpack _); by lazy|].
  split; [constructor; apply (bool_decide_unpack _); by lazy|]. constructor.
Qed.

Lemma ex_connect_encoded : encoded Packet_ (Pkt_Connect (to_connect ex_client true)) = Ok ex_connect_bytes.
Proof. lazy. reflexivity. Qed.

(** A ping that comes back in three parts, and one byte more. *)
Definition ex_sock : reader := [Rd_Data [208]; Rd_WouldBlock; Rd_Data [0; 192]].

(** A clock that goes a minute at each look, and a client that waits for a second. *)
Definition ck_slow : clock := MkClock (λ i, from_secs (60 * Z.of_nat i)) 0.
Definition ex_hasty : Client :=
  MkClient [99] MqttProtocol_V5 (Some (from_secs 1)) None 1024 (cl_connopts ex_client) None
    (cl_connect_payload ex_client) (ConnAck_new_success None) 0 0 CIO_None.

Lemma client_read_stream_witness :
  ∃ pktr' sock' ck', client_read ex_hasty ex_sock (MQTTRead_new 100) ck_slow = Ok (inl Pkt_PingResp, pktr', sock', ck')
    ∧ stream_of pktr' sock' = [192].
Proof.
  apply (client_read_stream ex_hasty ex_sock (MQTTRead_new 100) ck_slow) with (data := [208; 0]) (fh := MkFixedHeader 208 0).
  - split; [constructor|done].
  - by repeat constructor.
  - by repeat constructor.
  - exists [0], 1%nat. by split_and!.
  - by split.
  - done.
  - cbn. intros [k Hk]. unfold from_secs in Hk. lia.
Defined.

(** The packet is there with the third read, the call fails after the second. *)
Lemma client_timeout_reversed_witness :
  ∃ pktr' sock' ck', client_read ex_client ex_sock (MQTTRead_new 100) ck0 = Ok (inr TimedOut, pktr', sock', ck').
Proof.
  destruct (client_timeout_reversed ex_client ex_sock (MQTTRead_new 100) ck0) as [H _]. cbv zeta in H.
  eexists _, _. eapply H; [split; [constructor|done]|by repeat constructor|lazy; reflexivity|done|lazy; reflexivity|done|by lazy].
Defined.

(** A connection that takes five bytes. *)
Lemma client_write_once_witness :
  ∃ res pktw' wr', client_write ex_client (MkWriter [Wr_Accept 5; Wr_Accept 100] []) (MQTTWrite_new [] 100)
      (Pkt_Connect (to_connect ex_client true)) ck0 = Ok (res, pktw', wr', ck0)
    ∧ (res = inl () ↔ 100 < len ex_connect_bytes ∨ ∃ n evs, [Wr_Accept 5; Wr_Accept 100] = Wr_Accept n :: evs ∧ (length ex_connect_bytes ≤ n)%nat)
    ∧ match res with
      | inl _ => ready pktw' 100 ∧ wr_sent wr' = [] ++ (if 100 <? len ex_connect_bytes then [] else ex_connect_bytes)
      | inr _ => (∃ sent, wr_sent wr' = [] ++ sent ∧ sent `prefix_of` ex_connect_bytes)
          ∧ ∀ pkt2 blob2 ck2, encoded Packet_ pkt2 = Ok blob2 → client_write ex_client wr' pktw' pkt2 ck2 = Panic
      end.
Proof.
  apply (client_write_once ex_client (MkWriter [Wr_Accept 5; Wr_Accept 100] []) (MQTTWrite_new [] 100) 100 _ ex_connect_bytes ck0);
    [by exists []; left|exact ex_connect_encoded|done].
Defined.

Lemma to_connect_roundtrip_witness :
  Packet_decode (ex_connect_bytes ++ [192; 0]) = Ok (Pkt_Connect (to_connect ex_client true), 32%nat).
Proof. apply (to_connect_roundtrip ex_client true ex_connect_bytes [192; 0] ex_client_wf ex_connect_encoded). Defined.

(** A client that is connected, and whose ping is answered. *)
Definition ex_pinging : Client :=
  set_cio (CIO_Blocking (MkTcpStream [Rd_Data [208; 0]] (MkWriter [Wr_Accept 2] [])) (MQTTRead_new 100) (MQTTWrite_new [] 100)) ex_client.

Lemma ping_drops_connection_witness :
  ∃ c' ck', Client_ping ex_pinging ck0 = Ok (inl (), c', ck')
    ∧ cl_cio c' = CIO_None ∧ (∀ ck2, Client_ping c' ck2 = Panic) ∧ (∀ sock ck2, Client_reconnect c' sock ck2 = Panic).
Proof.
  assert (∃ c' ck', Client_ping ex_pinging ck0 = Ok (inl (), c', ck')) as (c' & ck' & E)
    by (eexists _, _; lazy; reflexivity).
  exists c', ck'. exact (conj E (ping_drops_connection ex_pinging ck0 (inl ()) c' ck' E)).
Defined.
