(* ===== verification/ClientSocket.v ===== *)
(** * Clients: defaults, and what they say of their socket (src/src/client.rs)

    The builder as applications start with it, and the methods of [Client] that pass the
    question on to the socket. *)
From S2P Require Import Prelude Errors Utf8 Util Text Types V5Header V5Property V5Codec V5ConnAck V5Connect V5Packet Framing Config Queues Socket Client ClientProps.
Local Open Scope Z_scope.

Definition CLIENT_MAX_PACKET_SIZE : Z := 1024 * 1024.

(** [ClientBuilder::default()]: the uuid library generates an identifier for the builder and
    another one for its payload. *)
Definition ClientBuilder_default (uuid uuid' : rstring) : ClientBuilder :=
  MkClientBuilder (Some uuid) None None CLIENT_MAX_PACKET_SIZE ConnectOptions_default
    (Some ConnectProperties_default) (ConnectPayload_default uuid') MqttProtocol_V5.

(** ** Questions to the socket *)

Section socket.
(** What the operating system answers for a socket; a read timeout of [None] is no
    timeout.  The calls can fail. *)
Context (sock_local_addr sock_peer_addr : TcpStream → Result rstring) (sock_nodelay : TcpStream → Result bool)
  (sock_ttl : TcpStream → Result Z) (sock_read_timeout : TcpStream → Result (option Z)).

(** A question that each form of the connection passes on. *)
Definition on_sock {A} (ask : TcpStream → Result A) (cio : ClientIO) : Result A :=
  match cio with
  | CIO_Blocking sock _ _ => ask sock
  | CIO_NoBlock sock _ _ => ask sock
  | CIO_BlockRd sock _ => ask sock
  | CIO_BlockWt sock _ => ask sock
  | CIO_NoBlockRd sock _ => ask sock
  | CIO_NoBlockWt sock _ => ask sock
  | CIO_None => Panic
  end.

Definition ClientIO_local_addr : ClientIO → Result rstring := on_sock sock_local_addr.
Definition ClientIO_peer_addr : ClientIO → Result rstring := on_sock sock_peer_addr.
Definition ClientIO_nodelay : ClientIO → Result bool := on_sock sock_nodelay.
Definition ClientIO_ttl : ClientIO → Result Z := on_sock sock_ttl.

(** The sockets of mio have no timeouts. *)
Definition ClientIO_read_timeout (cio : ClientIO) : Result (option Z) :=
  match cio with
  | CIO_Blocking sock _ _ => sock_read_timeout sock
  | CIO_NoBlock _ _ _ => Ok None
  | CIO_BlockRd sock _ => sock_read_timeout sock
  | CIO_BlockWt sock _ => sock_read_timeout sock
  | CIO_NoBlockRd _ _ => Ok None
  | CIO_NoBlockWt _ _ => Ok None
  | CIO_None => Panic
  end.

Definition ClientIO_write_timeout (cio : ClientIO) : Result (option Z) :=
  match cio with
  | CIO_Blocking sock _ _ => sock_read_timeout sock
  | CIO_NoBlock _ _ _ => Ok None
  | CIO_BlockRd sock _ => sock_read_timeout sock
  | CIO_BlockWt sock _ => sock_read_timeout sock
  | CIO_NoBlockRd _ _ => Ok None
  | CIO_NoBlockWt _ _ => Ok None
  | CIO_None => Panic
  end.

(** [Client]'s own methods of these names *)
Definition Client_local_addr (c : Client) : Result rstring := ClientIO_local_addr (cl_cio c).
Definition Client_peer_addr (c : Client) : Result rstring := ClientIO_peer_addr (cl_cio c).
Definition Client_nodelay (c : Client) : Result bool := ClientIO_nodelay (cl_cio c).
Definition Client_read_timeout (c : Client) : Result (option Z) := ClientIO_read_timeout (cl_cio c).
Definition Client_write_timeout (c : Client) : Result (option Z) := ClientIO_write_timeout (cl_cio c).
Definition Client_ttl (c : Client) : Result Z := ClientIO_ttl (cl_cio c).

(** [as_mut_mio_tcpstream] *)
Definition as_mut_mio_tcpstream (c : Client) : Result TcpStream :=
  match cl_cio c with
  | CIO_NoBlock sock _ _ | CIO_NoBlockRd sock _ | CIO_NoBlockWt sock _ => Ok sock
  | _ => Panic
  end.

(** ** Theorems *)

(** The methods panic when the client has lost its connection, and then only. *)
Lemma on_sock_panics {A} (ask : TcpStream → Result A) cio :
  (∀ sock, ask sock ≠ Panic) → on_sock ask cio = Panic ↔ cio = CIO_None.
Proof using Type. intros Ha. destruct cio; cbn; split; intros H; try done; by destruct (Ha _ H). Qed.

(** Whatever write timeout an application has set, it is told the read timeout. *)
Lemma write_timeout_is_read c : Client_write_timeout c = Client_read_timeout c.
Proof using Type. unfold Client_write_timeout, Client_read_timeout. by destruct (cl_cio c). Qed.

(** A client has its socket for mio exactly when its reads and writes do not block. *)
Lemma mio_or_blocking c :
  (∃ sock, as_mut_mio_tcpstream c = Ok sock) ↔ cl_cio c ≠ CIO_None ∧ is_blocking (cl_cio c) = Ok false.
Proof using Type.
  unfold as_mut_mio_tcpstream, is_blocking. destruct (cl_cio c); split; try (intros [? ?]; done); try (intros _; by eexists); done.
Qed.
End socket.

(** A client made from the default builder: its CONNECT is read back as it was written; it
    asks for nothing but a clean start, and the identifier it carries is that of the
    payload and never the one the builder has. *)
Theorem default_client_connects uuid uuid' id connack ck c ck' bs rest :
  wf_string uuid' → into_client id connack (ClientBuilder_default uuid uuid') ck = (c, ck') →
  encoded Packet_ (Pkt_Connect (to_connect c true)) = Ok bs →
  Packet_decode (bs ++ rest) = Ok (Pkt_Connect (Connect_default uuid'), length bs)
  ∧ cl_client_id c = uuid ∧ cpl_client_id (connect_payload (to_connect c true)) = uuid'.
Proof.
  intros Hu Ec E. assert (to_connect c true = Connect_default uuid' ∧ cl_client_id c = uuid ∧ wf_Client c) as (Et & Ei & Hwf).
  { revert Ec. unfold into_client. destruct (now ck) as [t1 ck1], (now ck1) as [t2 ck2]. intros [= <- _]. split; [done|].
    split; [done|]. split; cbn; try done.
    - unfold wf_ConnectProperties. cbn. repeat constructor.
    - destruct (Connect_default_wf uuid' Hu) as (_ & _ & _ & _ & Hp & _). exact Hp. }
  split_and!; [|done|by rewrite Et]. rewrite <-Et. by apply to_connect_decodes.
Qed.
