(* ===== verification/Handshake.v ===== *)
(** * The handshake (src/src/broker/handshake.rs)

    The thread that is spawned for a connection that comes in: it waits for the
    CONNECT and hands the connection to the cluster, or refuses it with a CONNACK.
    The addresses of the socket are for the log, but the thread ends without that of the
    peer; its own address is taken to be known. *)
From S2P Require Import Prelude Errors Utf8 Util Types V5Header V5Property V5Codec V5ConnAck V5Connect V5Packet Framing Config Queues Socket Client ClientProps.
Local Open Scope Z_scope.

(** The loop of [main_loop]: the reason code, whether to send it in a CONNACK, and the
    CONNECT.  Every turn uses up an event of the connection. *)
Fixpoint handshake_loop (fuel : nat) (timeout : Z) (packetr : MQTTRead) (sock : reader) (ck : clock)
    : Result (ReasonCode * bool * option Connect * reader * clock) :=
  match fuel with
  | O => NoFuel
  | S fuel =>
      match MQTTRead_read packetr sock with
      | Ok (packetr, _, sock) =>
          match packetr with
          | MR_Init _ _ | MR_Header _ _ _ | MR_Remain _ _ _ _ =>
              let '(now, ck) := now ck in
              if now <? timeout then handshake_loop fuel timeout packetr sock ck
              else Ok (RC_UnspecifiedError, true, None, sock, ck)
          | MR_Fin _ _ _ _ =>
              match MQTTRead_parse packetr with
              | Ok (Pkt_Connect connect) =>
                  match Connect_validate connect with
                  | Ok () => Ok (RC_Success, false, Some connect, sock, ck)
                  | Err err => Ok (Error_code err, true, None, sock, ck)
                  | Panic => Panic
                  | NoFuel => NoFuel
                  end
              | Ok _ => Ok (RC_ProtocolError, true, None, sock, ck)
              | Err err =>
                  match Error_kind err with
                  | EK_MalformedPacket | EK_ProtocolError => Ok (Error_code err, true, None, sock, ck)
                  | _ => Panic
                  end
              | Panic => Panic
              | NoFuel => NoFuel
              end
          | MR_None => Ok (RC_UnspecifiedError, true, None, sock, ck)
          end
      | Err err =>
          match Error_kind err with
          | EK_MalformedPacket | EK_ProtocolError => Ok (Error_code err, true, None, sock, ck)
          | _ => Panic
          end
      | Panic => Panic
      | NoFuel => NoFuel
      end
  end.

(** The loop of [send_connack]: whether the CONNACK counts as sent. *)
Fixpoint send_connack_loop (fuel : nat) (timeout : Z) (packetw : MQTTWrite) (sock : writer) (ck : clock)
    : Result (bool * writer * clock) :=
  match fuel with
  | O => NoFuel
  | S fuel =>
      match MQTTWrite_write packetw sock with
      | Ok (packetw, would_block, sock) =>
          if would_block : bool then
            let '(now, ck) := now ck in
            if timeout <? now then send_connack_loop fuel timeout packetw sock ck
            else Ok (false, sock, ck)
          else Ok (true, sock, ck)
      | Err _ => Ok (false, sock, ck)
      | Panic => Panic
      | NoFuel => NoFuel
      end
  end.

Definition connect_timeout (config : Config) (ck : clock) : Z * clock :=
  let '(now, ck) := now ck in (now + from_secs (sock_mqtt_connect_timeout config), ck).

Definition send_connack (config : Config) (code : ConnackReasonCode) (sock : writer) (ck : clock)
    : Result (bool * writer * clock) :=
  let max_size := mqtt_max_packet_size config in
  let '(timeout, ck) := connect_timeout config ck in
  cack ← res_unwrap (encoded ConnAck_ (ConnAck_from_reason_code code));
  send_connack_loop (S (length (wr_events sock))) timeout (MQTTWrite_new cack max_size) sock ck.

(** What becomes of a connection: [AddConnectionArgs] for the cluster, or the code of
    the CONNACK that was tried. *)
Inductive handshake_result : Type :=
| HandOver (pkt : Connect)
| Refused (code : ConnackReasonCode).

(** [main_loop] *)
Definition handshake `{sys : System} (config : Config) (sock : TcpStream) (ck : clock)
    : Result (handshake_result * TcpStream * clock) :=
  let packetr := MQTTRead_new (mqtt_max_packet_size config) in
  let '(timeout, ck) := connect_timeout config ck in
  _ ← opt_unwrap (peer_addr sock);
  '(code, connack, connect, rd, ck) ← handshake_loop (S (rd_size (tcp_rd sock))) timeout packetr (tcp_rd sock) ck;
  if connack : bool then
    code ← res_unwrap (ConnackReasonCode_try_from (ReasonCode_as_u8 code));
    '(_, wr, ck) ← send_connack config code (tcp_wr sock) ck;
    Ok (Refused code, MkTcpStream rd wr, ck)
  else
    match connect with
    | Some connect => Ok (HandOver connect, MkTcpStream rd (tcp_wr sock), ck)
    | None => Panic
    end.

(** ** Lemmas *)

(** The states of a reader that has not finished a packet since it was made. *)
Definition early (st : MQTTRead) : Prop :=
  match st with
  | MR_Init data _ => data = []
  | MR_Header _ _ _ | MR_Remain _ _ _ _ => True
  | _ => False
  end.

Lemma after_header_early b data max st : after_header b data max = Ok st → is_Fin st = false → early st.
Proof.
  unfold after_header, check_packet_limit, err. destruct (slice data 1 _) as [tl|?| |]; run; [|done..].
  destruct (head _); [|by intros [= <-]]. destruct (VarU32_decode tl) as [[zz m]|?| |]; run; [|done..].
  destruct (max <? _); run; [done|]. destruct (_ <=? len data); [|by intros [= <-]].
  destruct (slice data _ _); run; [by intros [= <-]|done..].
Qed.

(** Reading the header takes at most five bytes, and reading the body no more than the
    packet has. *)
Lemma read_early st rd st' wb rd' :
  wf_read st → is_bytes (rd_bytes rd) → early st → MQTTRead_read st rd = Ok (st', wb, rd') →
  (is_Fin st' = false → early st')
  ∧ match st' with
    | MR_Fin data rem _ _ => rem = [] ∨ (length data + length rem ≤ length (pending st) + 5)%nat ∧ ∃ b d m, st = MR_Header b d m ∨ st = MR_Init [] m
    | _ => True
    end.
Proof.
  intros Hwf Hb He. pose proof (MQTTRead_read_post st rd Hwf Hb) as Hp. revert Hp. unfold MQTTRead_read.
  assert (∀ b d m, (st = MR_Header b d m ∨ st = MR_Init [] m) → ∀ chunk rd1, io_read 5 rd = (Io_Ok chunk, rd1) → chunk ≠ [] →
    ∀ b', post (st' ← after_header b' (pending st ++ chunk) m; Ok (st', false, rd1)) (read_post st rd) (read_fail st rd) →
    (st' ← after_header b' (pending st ++ chunk) m; Ok (st', false, rd1)) = Ok (st', wb, rd') →
    (is_Fin st' = false → early st')
    ∧ match st' with
      | MR_Fin data rem _ _ => rem = [] ∨ (length data + length rem ≤ length (pending st) + 5)%nat ∧ ∃ b d m, st = MR_Header b d m ∨ st = MR_Init [] m
      | _ => True
      end) as Hhead.
  { intros b d m Hst chunk rd1 Eio Hne b' Hp E. rewrite E in Hp. apply bind_Ok_inv in E as (st1 & E & [= -> _ <-]).
    split; [by eapply after_header_early|]. destruct st' as [| | |data rem fh mx|]; try done. right. split; [|by exists b, d, m].
    destruct (io_read_data 5 rd chunk rd1 ltac:(lia) Eio) as (Hc & Hl & _).
    destruct Hp as (_ & _ & Hbytes & _). cbn [pending] in Hbytes. rewrite <-Hc, app_assoc in Hbytes.
    apply app_inv_tail in Hbytes. apply (f_equal length) in Hbytes. rewrite !length_app in Hbytes. lia. }
  destruct st as [d m|b d m|d start fh mx|d rem fh mx|]; [| | |done|done].
  - cbn [early] in He. subst d. cbn [pre_read length Nat.ltb Nat.leb]; run.
    destruct (io_read 5 rd) as [[[|x c]| | |] rd1] eqn:Eio; [done| |by intros _ [= <- _ _]..|done].
    cbn [app index0]; run. intros Hp E. by eapply (Hhead 0 [] m (or_intror eq_refl) _ _ eq_refl).
  - cbn [pre_read]; run. destruct (io_read 5 rd) as [[[|x c]| | |] rd1] eqn:Eio; [done| |by intros _ [= <- _ _]..|done].
    intros Hp E. by eapply (Hhead b d m (or_introl eq_refl) _ _ eq_refl).
  - cbn [pre_read]; run. destruct (start <=? length d)%nat; [|done].
    destruct (io_read (length d - start) rd) as [[[|x c]| | |] rd1]; [done| |by intros _ [= <- _ _]..|done].
    cbv zeta. destruct (_ =? _)%nat; [intros _ [= <- _ _]; split; [done|by left]|]. destruct (_ <? _)%nat; [by intros _ [= <- _ _]|done].
Qed.

(** The length of a packet's header. *)
Lemma VarU32_decode_le4 s z m : VarU32_decode s = Ok (z, m) → (m ≤ 4)%nat.
Proof.
  rewrite VarU32_decode_take. intros (pre & b & post & E & _ & _ & -> & _)%VarU32_loop_spec.
  apply (f_equal length) in E. rewrite length_take, length_app in E. cbn [length] in *. lia.
Qed.

Lemma header_short b tl max t bs fh r :
  wf_read (MR_Header b tl max) → tl ++ t = bs ++ r → framed_as bs fh max → (length tl ≤ 4)%nat.
Proof.
  intros [_ (l & -> & Hl)] E Hf. destruct (framed_as_app _ _ _ r Hf) as (tl' & m & E' & Hd & _).
  rewrite <-E in E'. injection E' as _ <-. pose proof (VarU32_decode_le4 _ _ _ Hd).
  apply varint_ready in Hd. cbn [length]. destruct (skip_while _ l) as [|x r'] eqn:Es; cbn [head] in Hd; [lia|].
  apply skip_while_head in Es as (Hx & l' & -> & _). apply Forall_app in Hl as [_ [Hy _]%Forall_cons]. congruence.
Qed.

(** Of a stream that starts with a packet of ten bytes or more, a reader that finishes
    it has taken no more. *)
Lemma read_no_more st rd data rem fh mx wb rd' bs fh' r :
  wf_read st → is_bytes (rd_bytes rd) → early st →
  MQTTRead_read st rd = Ok (MR_Fin data rem fh mx, wb, rd') →
  pending st ++ rd_bytes rd = bs ++ r → framed_as bs fh' (read_max st) → (10 ≤ length bs)%nat →
  data = bs ∧ fh = fh' ∧ rem = [] ∧ rd_bytes rd' = r.
Proof.
  intros Hwf Hb He E Hs Hf Hl. destruct (read_early st rd _ wb rd' Hwf Hb He E) as [_ Hrem].
  pose proof (MQTTRead_read_post st rd Hwf Hb) as Hp. rewrite E in Hp.
  destruct Hp as ([_ Hf1] & _ & Hbytes & _). cbn [pending] in Hbytes. rewrite Hs, <-app_assoc in Hbytes.
  destruct (framed_as_unique _ _ _ _ _ _ _ _ Hf1 Hf Hbytes) as (-> & -> & Hr).
  assert (rem = []) as ->; [|by split_and!].
  destruct Hrem as [|[Hlen (b & d & m & Hst)]]; [done|]. destruct rem as [|x rem]; [done|]. exfalso.
  destruct Hst as [-> | ->]; cbn [pending length] in *; [|lia].
  pose proof (header_short _ _ _ _ _ _ _ Hwf Hs Hf). lia.
Qed.

Lemma handshake_loop_complete fuel timeout st sock ck bs fh r p :
  wf_read st → ok_reader sock → is_bytes (rd_bytes sock) → early st → (rd_size sock < fuel)%nat →
  (∀ i, (i < fuel)%nat → ck_time ck (ck_reads ck + i) < timeout) →
  pending st ++ rd_bytes sock = bs ++ r → framed_as bs fh (read_max st) → (10 ≤ length bs)%nat →
  (∀ rem, MQTTRead_parse (MR_Fin bs rem fh (read_max st)) = Ok (Pkt_Connect p)) → Connect_validate p = Ok () →
  ∃ sock' ck', handshake_loop fuel timeout st sock ck = Ok (RC_Success, false, Some p, sock', ck') ∧ rd_bytes sock' = r.
Proof.
  revert st sock ck. induction fuel as [|fuel IH]; intros st sock ck Hwf Hok Hb He Hfuel Hck Hs Hf Hl Hparse Hval; [lia|].
  cbn [handshake_loop]. pose proof (MQTTRead_read_post st sock Hwf Hb) as Hp.
  destruct (MQTTRead_read st sock) as [[[st1 wb] sock1]|e| |] eqn:E; [| |done..].
  2:{ destruct Hp as [_ Hnc]. destruct (Hnc Hok). by exists bs, fh, r. }
  destruct (read_wf _ _ _ _ _ Hwf Hb E) as (Hwf1 & Hb1 & Hsz). destruct Hp as (_ & Hmax & Hbytes & Hok1 & _).
  destruct (is_Fin st1) eqn:Efin.
  - destruct st1 as [| | |data rem fh1 mx|]; try done.
    destruct (read_no_more _ _ _ _ _ _ _ _ _ _ _ Hwf Hb He E Hs Hf Hl) as (-> & -> & -> & Hr).
    cbn [read_max] in Hmax. rewrite Hmax, Hparse, Hval. by exists sock1, ck.
  - destruct (read_early _ _ _ _ _ Hwf Hb He E) as [He1 _]. rewrite incomplete_match by done. cbn [now].
    assert (ck_time ck (ck_reads ck) < timeout) as Hlt by (specialize (Hck 0%nat ltac:(lia)); by rewrite Nat.add_0_r in Hck).
    rewrite (proj2 (Z.ltb_lt _ _) Hlt).
    apply IH; rewrite ?Hmax; try done; [by apply Hok1|by apply He1|specialize (Hsz eq_refl); lia| |by rewrite Hbytes].
    intros i Hi. cbn [ck_time ck_reads]. specialize (Hck (S i) ltac:(lia)). by rewrite Nat.add_succ_r in Hck.
Qed.

Lemma Connect_encoded_long p bs : connect_protocol_name p = MQTT_name → encoded Packet_ (Pkt_Connect p) = Ok bs → (10 ≤ length bs)%nat.
Proof.
  intros Hn E. change (encoded Packet_ (Pkt_Connect p)) with (encoded Connect_ p) in E.
  apply Connect_encoded in E as (b1 & b2 & b3 & b4 & b5 & b6 & b7 & b8 & b9 & b10 & b11 & E). cbv zeta in E.
  destruct E as (E1 & E2 & E3 & E4 & _ & _ & _ & _ & _ & _ & _ & _ & ->). rewrite Hn in E1.
  rewrite u8_encoded in E2, E3. rewrite u16_encoded in E4. simplify_eq.
  assert (length b1 = 6)%nat by (lazy in E1; by injection E1 as <-).
  rewrite length_framed, !length_app. cbn [length u16_to_be_bytes]. lia.
Qed.

Lemma parse_connect c clean bs max :
  wf_Client c → encoded Packet_ (Pkt_Connect (to_connect c clean)) = Ok bs → len bs ≤ max →
  ∃ fh, framed_as bs fh max
    ∧ ∀ rem, MQTTRead_parse (MR_Fin bs rem fh max) = Ok (Pkt_Connect (to_connect c clean)).
Proof.
  intros Hwf E Hm. destruct (to_connect_wf c clean Hwf) as [Hw Hst].
  destruct (encoded_parse (Pkt_Connect (to_connect c clean)) bs max [] Hw Hst E Hm) as (fh & Hf & _ & _).
  exists fh. split; [done|]. intros rem.
  destruct (encoded_parse (Pkt_Connect (to_connect c clean)) bs max rem Hw Hst E Hm) as (fh' & Hf' & _ & Hp).
  destruct (framed_as_unique _ _ _ _ _ _ [] [] Hf Hf' eq_refl) as (_ & -> & _). rewrite Hp. cbn [Packet_normalize].
  unfold to_connect. by rewrite Connect_normalize_idemp.
Qed.

(** Every error of a decoder has a CONNACK code. *)
Lemma dec_error_connack e : dec_error e → is_Ok (ConnackReasonCode_try_from (ReasonCode_as_u8 (Error_code e))).
Proof.
  intros [_ Hc]. unfold Error_code. set_unfold in Hc. destruct Hc as [->|[->|[->|[->|[->|[]]]]]]; by eexists.
Qed.

Lemma frame_error_connack e : frame_error e → is_Ok (ConnackReasonCode_try_from (ReasonCode_as_u8 (Error_code e))).
Proof. intros [_ [->|[->|[]%elem_of_nil]%elem_of_cons]%elem_of_cons]; by eexists. Qed.

Lemma handshake_loop_spec fuel timeout st sock ck :
  wf_read st → is_bytes (rd_bytes sock) → (rd_size sock < fuel)%nat →
  match handshake_loop fuel timeout st sock ck with
  | Ok (_, false, Some connect, sock', _) =>
      ∃ data rem, decodes (Pkt_Connect connect) data ∧ stream_of st sock = data ++ rem ++ rd_bytes sock'
  | Ok (code, true, None, _, _) => is_Ok (ConnackReasonCode_try_from (ReasonCode_as_u8 code))
  | Panic => (ok_reader sock → ¬ complete (stream_of st sock) (read_max st))
      ∨ ∃ data rest, stream_of st sock = data ++ rest ∧ (reserved data ∨ short data)
  | _ => False
  end.
Proof.
  revert st sock ck. induction fuel as [|fuel IH]; intros st sock ck Hwf Hb Hf; [lia|]. cbn [handshake_loop].
  pose proof (MQTTRead_read_post st sock Hwf Hb) as Hp.
  destruct (MQTTRead_read st sock) as [[[st1 wb] sock1]|e| |] eqn:E; [| |done..].
  2:{ apply MQTTRead_read_kind in E as [He|He].
      - pose proof (frame_error_connack e He). by destruct He as [-> _].
      - rewrite He. left. by destruct Hp. }
  destruct (read_wf _ _ _ _ _ Hwf Hb E) as (Hwf1 & Hb1 & Hsz). destruct Hp as (_ & Hmax & Hbytes & Hok1 & _).
  destruct (is_Fin st1) eqn:Efin.
  2:{ rewrite incomplete_match by done. destruct (now ck) as [t ck1]. destruct (t <? timeout); [|by eexists].
      specialize (IH st1 sock1 ck1 Hwf1 Hb1 ltac:(specialize (Hsz eq_refl); lia)). unfold stream_of in *. rewrite Hmax, Hbytes in IH.
      destruct (handshake_loop _ _ _ _ _) as [[[[[code []] [connect|]] rd] ck2]|?| |]; try done.
      destruct IH as [IH|IH]; [left; intros Hok; by apply IH, Hok1|by right]. }
  destruct st1 as [| | |data rem fh mx|]; try done.
  assert (stream_of st sock = data ++ rem ++ rd_bytes sock1) as Hs
    by (unfold stream_of; rewrite <-Hbytes; cbn [pending]; by rewrite <-app_assoc).
  pose proof (parse_spec data rem fh mx Hwf1) as Hpp.
  destruct (MQTTRead_parse _) as [pkt|err| |]; [| | |done].
  - assert (is_Ok (ConnackReasonCode_try_from (ReasonCode_as_u8 RC_ProtocolError))) as Hpe by by eexists.
    destruct pkt; try exact Hpe. pose proof Hpp as [_ (_ & _ & _ & _ & _ & _ & Hval)]. rewrite Hval. by exists data, rem.
  - destruct Hpp as [Hde Hd]. pose proof (dec_error_connack err Hde) as Hans.
    destruct Hde as [Hk _]. set_unfold in Hk. destruct Hk as [Hk|[Hk|[Hk|[]]]]; rewrite Hk; [exact Hans..|].
    right. exists data, (rem ++ rd_bytes sock1). split; [done|]. right. destruct Hd as [?| ->]; [by exists err|done].
  - right. exists data, (rem ++ rd_bytes sock1). split; [done|by left].
Qed.

Lemma ConnAck_from_reason_code_encoded code :
  ∃ cack, encoded ConnAck_ (ConnAck_from_reason_code code) = Ok cack.
Proof. destruct code; eexists; lazy; reflexivity. Qed.

Lemma send_connack_loop_spec fuel timeout data sent max st wr ck :
  wf_write data sent max st wr → (length (wr_events wr) < fuel)%nat →
  match send_connack_loop fuel timeout st wr ck with
  | Ok (_, wr', _) => ∃ part, wr_sent wr' = sent ++ part ∧ part `prefix_of` data
  | NoFuel => Wr_Blocked ∈ wr_events wr
  | _ => False
  end.
Proof.
  revert st wr ck. induction fuel as [|fuel IH]; intros st wr ck Hwf Hf; [lia|]. cbn [send_connack_loop].
  pose proof (MQTTWrite_write_post data sent max st wr Hwf) as Hp.
  destruct (MQTTWrite_write st wr) as [[[st' wb] wr']|e| |] eqn:E; [| |done..].
  2:{ by apply (wf_write_part _ _ _ _ _ Hwf). }
  destruct Hp as [Hwf' Hfin]. pose proof (wf_write_part _ _ _ _ _ Hwf') as Hpart.
  destruct wb; [|done]. destruct (now ck) as [t ck1]. destruct (timeout <? t); [|done].
  destruct Hfin as [Hfin|[([evs Hb] & -> & _)|[Hlt _]]]; [by rewrite (would_block_open _ _ _ _ E) in Hfin| |].
  - assert (Wr_Blocked ∈ wr_events wr) as Hin by (rewrite Hb; by left).
    assert (∀ fuel ck, match send_connack_loop fuel timeout st' wr ck with
      | Ok (_, wr', _) => ∃ part, wr_sent wr' = sent ++ part ∧ part `prefix_of` data
      | NoFuel => Wr_Blocked ∈ wr_events wr | _ => False end) as Hstuck; [|apply Hstuck].
    clear -Hin E Hpart Hwf Hb. pose proof (MQTTWrite_blocked data sent max st wr Hwf (ex_intro _ evs Hb)) as Hbl. rewrite E in Hbl.
    destruct Hbl as (_ & _ & Es). induction fuel as [|fuel IH]; intros ck; [done|]. cbn [send_connack_loop]. rewrite Es.
    destruct (now ck) as [t ck1]. destruct (timeout <? t); [apply IH|done].
  - specialize (IH st' wr' ck1 Hwf' ltac:(lia)). destruct (send_connack_loop _ _ _ _ _) as [[[? ?] ?]|?| |]; try done.
    eapply elem_of_suffix; [exact IH|]. by eapply MQTTWrite_write_suffix.
Qed.

Lemma send_connack_spec config code wr ck :
  match send_connack config code wr ck with
  | Ok (_, wr', _) => ∃ cack sent, encoded ConnAck_ (ConnAck_from_reason_code code) = Ok cack ∧ sent `prefix_of` cack
      ∧ wr_sent wr' = wr_sent wr ++ sent
  | NoFuel => Wr_Blocked ∈ wr_events wr
  | _ => False
  end.
Proof.
  unfold send_connack. destruct (connect_timeout config ck) as [timeout ck1].
  destruct (ConnAck_from_reason_code_encoded code) as [cack E]. rewrite E; cbn [res_unwrap]; run.
  pose proof (send_connack_loop_spec (S (length (wr_events wr))) timeout cack (wr_sent wr) (mqtt_max_packet_size config)
    (MQTTWrite_new cack (mqtt_max_packet_size config)) wr ck1 ltac:(done) (Nat.lt_succ_diag_r _)) as H.
  destruct (send_connack_loop _ _ _ _ _) as [[[? wr'] ?]|?| |]; try done. destruct H as (part & ? & ?). by exists cack, part.
Qed.

(** The handshake of a connection on which the CONNECT of a client comes in time. *)
Lemma handshake_complete `{sys : System} c clean bs config sock rest ck :
  wf_Client c → encoded Packet_ (Pkt_Connect (to_connect c clean)) = Ok bs →
  rd_bytes (tcp_rd sock) = bs ++ rest → ok_reader (tcp_rd sock) → is_bytes (rd_bytes (tcp_rd sock)) →
  len bs ≤ mqtt_max_packet_size config → peer_addr sock ≠ None →
  (∀ i, (i ≤ rd_size (tcp_rd sock))%nat →
     ck_time ck (S (ck_reads ck) + i) < ck_time ck (ck_reads ck) + from_secs (sock_mqtt_connect_timeout config)) →
  ∃ sock' ck', handshake config sock ck = Ok (HandOver (to_connect c clean), sock', ck')
    ∧ tcp_wr sock' = tcp_wr sock ∧ rd_bytes (tcp_rd sock') = rest.
Proof.
  intros Hwf E Hs Hok Hb Hmax Hpeer Hck.
  destruct (parse_connect c clean bs (mqtt_max_packet_size config) Hwf E Hmax) as (fh & Hf & Hparse).
  destruct (to_connect_wf c clean Hwf) as [(_ & _ & _ & _ & _ & _ & Hval) _].
  assert (10 ≤ length bs)%nat as Hl by (apply (Connect_encoded_long (to_connect c clean)); [done|exact E]).
  unfold handshake, connect_timeout. cbn [now]. destruct (peer_addr sock); [|done]. cbn [opt_unwrap]; run.
  destruct (handshake_loop_complete (S (rd_size (tcp_rd sock))) (ck_time ck (ck_reads ck) + from_secs (sock_mqtt_connect_timeout config))
    (MQTTRead_new (mqtt_max_packet_size config)) (tcp_rd sock) (MkClock (ck_time ck) (S (ck_reads ck))) bs fh rest (to_connect c clean))
    as (sock' & ck' & -> & Hrest); try done; [lia|..].
  { intros i Hi. cbn [ck_time ck_reads]. apply Hck. lia. }
  run. eexists _, _. split; [reflexivity|]. by split.
Qed.

(** ** Theorems *)

(** C18. A client reaches the broker.  Its CONNECT, written at once, and followed by
    whatever it sends next, is cut and delayed by the network as it likes; if all of it
    arrives before the timeout the handshake hands the connection to the cluster with
    the CONNECT that the client meant, nothing is written to the connection, and the
    bytes behind the CONNECT are all still to be read.  A connection that has been reset by
    the time the thread begins panics it. *)
Theorem client_reaches_broker `{sys : System} c clean pktw max wr n evs ck0 bs :
  wf_Client c → ready pktw max → encoded Packet_ (Pkt_Connect (to_connect c clean)) = Ok bs → len bs ≤ max →
  wr_events wr = Wr_Accept n :: evs → (length bs ≤ n)%nat → wr_sent wr = [] →
  ∃ pktw' wr', client_write c wr pktw (Pkt_Connect (to_connect c clean)) ck0 = Ok (inl (), pktw', wr', ck0)
    ∧ ∀ config sock rest ck,
      rd_bytes (tcp_rd sock) = wr_sent wr' ++ rest → ok_reader (tcp_rd sock) → is_bytes (rd_bytes (tcp_rd sock)) →
      len bs ≤ mqtt_max_packet_size config →
      (∀ i, (i ≤ rd_size (tcp_rd sock))%nat →
         ck_time ck (S (ck_reads ck) + i) < ck_time ck (ck_reads ck) + from_secs (sock_mqtt_connect_timeout config)) →
      if decide (peer_addr sock = None) then handshake config sock ck = Panic else
      ∃ sock' ck', handshake config sock ck = Ok (HandOver (to_connect c clean), sock', ck')
        ∧ tcp_wr sock' = tcp_wr sock ∧ rd_bytes (tcp_rd sock') = rest.
Proof.
  intros Hwf Hr E Hm Hev Hn Hsent.
  assert (10 ≤ length bs)%nat as Hl by (apply (Connect_encoded_long (to_connect c clean)); [done|exact E]).
  rewrite (client_write_spec c wr pktw max _ bs ck0 Hr E) by (by intros ->; cbn in Hl; lia). unfold one_write, io_write.
  rewrite Hev. destruct (Z.ltb_spec max (len bs)); [lia|].
  replace (Nat.min n (length bs)) with (length bs) by lia.
  destruct (Nat.eqb_spec (length bs) 0); [lia|]. rewrite Nat.eqb_refl. eexists _, _. split; [reflexivity|].
  cbn [wr_sent]. rewrite Hsent, firstn_all. cbn [app]. intros config sock rest ck Hs Hok Hb Hl2 Hck.
  destruct (decide _) as [Hp|Hp]; [unfold handshake; by rewrite Hp|]. by apply (handshake_complete c clean bs).
Qed.


(** ** Witnesses *)

(** The CONNECT of [ex_client] in four parts, with a ping behind it. *)
Definition ex_stream : TcpStream :=
  MkTcpStream [Rd_Data (take 1 ex_connect_bytes); Rd_WouldBlock; Rd_Data (take 9 (drop 1 ex_connect_bytes));
    Rd_Interrupted; Rd_Data (drop 10 ex_connect_bytes ++ [192; 0])] (MkWriter [Wr_Accept 100] []).

Lemma client_reaches_broker_witness :
  ∃ sock' ck', handshake (sys := ex_os) (Config_default 1) ex_stream ck0 = Ok (HandOver (to_connect ex_client true), sock', ck')
    ∧ tcp_wr sock' = tcp_wr ex_stream ∧ rd_bytes (tcp_rd sock') = [192; 0].
Proof.
  destruct (client_reaches_broker (sys := ex_os) ex_client true (MQTTWrite_new [] 100) 100 (MkWriter [Wr_Accept 100] []) 100 [] ck0 ex_connect_bytes)
    as (pktw' & wr' & E & H); [exact ex_client_wf|by exists []; left|exact ex_connect_encoded|done|done|cbn; lia|done|].
  apply H.
  - assert (wr_sent wr' = ex_connect_bytes) as ->; [|reflexivity].
    rewrite (client_write_spec ex_client _ (MQTTWrite_new [] 100) 100 _ ex_connect_bytes ck0) in E;
      [|by exists []; left|exact ex_connect_encoded|done]. injection E as _ <-. reflexivity.
  - by repeat constructor.
  - by repeat constructor.
  - done.
  - intros i Hi. change (rd_size (tcp_rd ex_stream)) with 39%nat in Hi.
    replace (ck_time ck0 (ck_reads ck0) + from_secs (sock_mqtt_connect_timeout (Config_default 1))) with 5000000000 by (lazy; done).
    unfold ck0. cbn [ck_time ck_reads]. lia.
Defined.


(** A connection that takes one byte of the CONNACK: it counts as sent. *)
Example ex_connack_cut :
  send_connack (Config_default 1) CRC_BadLogin (MkWriter [Wr_Accept 1; Wr_Accept 100] []) ck0
  = Ok (true, MkWriter [Wr_Accept 100] [32], MkClock (ck_time ck0) 1).
Proof. lazy. reflexivity. Qed.
