(* ===== verification/Miot.v ===== *)
(** * The miot thread (src/src/broker/miot.rs)

    The thread that owns the connections of a shard: it moves packets from each
    connection to the session of its client and back, hands connections that fail to
    the shard, and takes connections on request.  Statistics are left out. *)
From S2P Require Import Prelude Errors Utf8 Types V5Packet Framing Queues Threads Config SortedVec BTree Socket.
Local Open Scope Z_scope.

(** ** The operating system *)

(** The poller and the wakers work. *)
Class Responsive (sys : System) : Prop := {
  registers s t : register s t = true;
  deregisters s : deregister s = true;
  wakes_up : wakes = true;
}.

(** ** State *)

(** [RunLoop]: [mi_shard] is the channel of requests to the shard, of which the
    thread sends [FlushConnection { socket, err }]. *)
Record MiotLoop := MkMiotLoop {
  next_token : nat;
  conns : btree rstring Socket;
  mi_shard : channel (Socket * option Error);
}.

Record MiotFin := MkMiotFin {
  fin_next_token : nat;
  client_ids : list rstring;
  addrs : list rstring;
  tokens : list nat;
}.

Inductive MiotInner : Type :=
| MI_Init
| MI_Handle
| MI_Main (l : MiotLoop)
| MI_Close (fin : MiotFin).

Record Miot := MkMiot { miot_id : Z; mi_config : Config; mi_inner : MiotInner }.

Definition FIRST_TOKEN : nat := 2.

(** The thread that [spawn] starts. *)
Definition Miot_spawn (id : Z) (config : Config) (shard : channel (Socket * option Error)) : Miot :=
  MkMiot id config (MI_Main (MkMiotLoop FIRST_TOKEN [] shard)).

Record AddConnectionArgs := MkAddConnectionArgs {
  ac_client_id : rstring;
  ac_conn : TcpStream;
  ac_upstream : PktTx;
  ac_downstream : PktRx;
  ac_max_packet_size : Z;
}.

Inductive MiotRequest : Type :=
| AddConnection (args : AddConnectionArgs)
| RemoveConnection (id : rstring)
| CloseMiot.

Inductive MiotResponse : Type :=
| MiotOk
| Removed (socket : Socket).

Definition run_loop (m : Miot) : Result MiotLoop :=
  match mi_inner m with MI_Main l => Ok l | _ => Panic end.

Definition set_run_loop (l : MiotLoop) (m : Miot) : Miot := MkMiot (miot_id m) (mi_config m) (MI_Main l).

Definition set_conns (cs : btree rstring Socket) (m : Miot) : Result Miot :=
  l ← run_loop m; Ok (set_run_loop (MkMiotLoop (next_token l) cs (mi_shard l)) m).

Section miot.
Context `{sys : System}.

(** ** Requests *)

(** The socket of a new connection. *)
Definition new_socket (config : Config) (args : AddConnectionArgs) (token : nat) : Socket :=
  let rd := MkSource (MQTTRead_new (mqtt_max_packet_size config)) None (ac_upstream args) [] in
  let wt := MkSink (MQTTWrite_new [] (ac_max_packet_size args)) None (ac_downstream args) [] in
  MkSocket (ac_client_id args) (ac_conn args) token rd wt.

Definition handle_add_connection (args : AddConnectionArgs) (m : Miot) : Result (MiotResponse * Miot) :=
  _ ← opt_unwrap (peer_addr (ac_conn args));
  l ← run_loop m;
  let token := next_token l in
  if register (ac_conn args) token then
    let socket := new_socket (mi_config m) args token in
    Ok (MiotOk, set_run_loop (MkMiotLoop (S token) (bt_insert str_cmp (ac_client_id args) socket (conns l)) (mi_shard l)) m)
  else Panic.

Definition handle_remove_connection (id : rstring) (m : Miot) : Result (MiotResponse * Miot) :=
  l ← run_loop m;
  match bt_get str_cmp id (conns l) with
  | Some socket =>
      m ← set_conns (bt_remove str_cmp id (conns l)) m;
      _ ← opt_unwrap (peer_addr (so_conn socket));
      if deregister (so_conn socket) then Ok (Removed socket, m) else Panic
  | None => Ok (MiotOk, m)
  end.

Definition handle_close_miot (m : Miot) : Result (MiotResponse * Miot) :=
  l ← run_loop m;
  addrs ← mapM_out (λ '(_, sock), opt_unwrap (peer_addr (so_conn sock))) (conns l);
  let fin := MkMiotFin (next_token l) (map (λ '(_, sock), so_client_id sock) (conns l)) addrs
               (map (λ '(_, sock), so_token sock) (conns l)) in
  Ok (MiotOk, MkMiot (miot_id m) (mi_config m) (MI_Close fin)).

(** One step of the loop of [drain_control_chan]: whether the thread has been closed,
    its state and the responses so far.  Every request has to come with a sender for
    its response. *)
Definition handle_miot_request (st : bool * (Miot * list MiotResponse)) (req : MiotRequest * bool)
    : Result (bool * (Miot * list MiotResponse)) :=
  let '(closed, (m, resps)) := st in
  match req with
  | (AddConnection args, true) =>
      '(resp, m) ← handle_add_connection args m; Ok (closed, (m, resps ++ [resp]))
  | (RemoveConnection id, true) =>
      '(resp, m) ← handle_remove_connection id m; Ok (closed, (m, resps ++ [resp]))
  | (CloseMiot, true) =>
      '(resp, m) ← handle_close_miot m; Ok (true, (m, resps ++ [resp]))
  | (_, false) => Panic
  end.

(** ** Connections *)

(** The body of the second loop of [socket_to_session] and [session_to_socket]. *)
Definition hand_over (m : Miot) (fail : rstring * option Error) : Result Miot :=
  let '(id, err) := fail in
  '(resp, m) ← handle_remove_connection id m;
  match resp with
  | Removed socket =>
      l ← run_loop m;
      shard ← res_unwrap (post_request wakes (socket, err) (mi_shard l));
      Ok (set_run_loop (MkMiotLoop (next_token l) (conns l) shard) m)
  | MiotOk => Ok m
  end.

(** The first loop of both: every socket is served, and those that fail are noted. *)
Fixpoint serve_conns (serve : Socket → world → Result (Socket * world * option (option Error)))
    (cs : btree rstring Socket) (w : world)
    : Result (btree rstring Socket * list (rstring * option Error) * world) :=
  match cs with
  | [] => Ok ([], [], w)
  | (id, so) :: cs =>
      '(so, w, fail) ← serve so w;
      '(cs, fail_queues, w) ← serve_conns serve cs w;
      Ok ((id, so) :: cs, match fail with Some err => [(id, err)] | None => [] end ++ fail_queues, w)
  end.

Definition serve_all (serve : Socket → world → Result (Socket * world * option (option Error)))
    (m : Miot) (w : world) : Result (Miot * world) :=
  l ← run_loop m;
  '(cs, fail_queues, w) ← serve_conns serve (conns l) w;
  m ← set_conns cs m;
  m ← foldM hand_over m fail_queues;
  Ok (m, w).

Definition read_conn (config : Config) (so : Socket) (w : world) : Result (Socket * world * option (option Error)) :=
  _ ← opt_unwrap (peer_addr (so_conn so));
  '(so, w, res) ← Socket_read_packets config so w;
  match res with
  | inl (Q_Ok _) | inl (Q_Block _) => Ok (so, w, None)
  | inl (Q_Disconnected _) => Ok (so, w, Some None)
  | inr err =>
      match Error_kind err with
      | EK_ProtocolError | EK_MalformedPacket => Ok (so, w, Some (Some err))
      | _ => Panic
      end
  end.

Definition socket_to_session (m : Miot) (w : world) : Result (Miot * world) :=
  serve_all (read_conn (mi_config m)) m w.

Definition write_conn (config : Config) (so : Socket) (w : world) : Result (Socket * world * option (option Error)) :=
  _ ← opt_unwrap (peer_addr (so_conn so));
  '(so, w, status, _) ← Socket_write_packets flush config so w;
  match status with
  | Q_Ok _ | Q_Block _ => Ok (so, w, None)
  | Q_Disconnected _ => Ok (so, w, Some None)
  end.

Definition session_to_socket (m : Miot) (w : world) : Result (Miot * world) :=
  serve_all (write_conn (mi_config m)) m w.

(** ** The loop of the thread *)

(** [mio_events]: whether the loop is to end, and the responses sent. *)
Definition miot_events (rx : channel (MiotRequest * bool)) (m : Miot) (w : world)
    : Result (bool * list MiotResponse * channel (MiotRequest * bool) * Miot * world) :=
  '(exit, rx, (m, resps)) ← drain_all handle_miot_request rx (m, []);
  match exit, mi_inner m with
  | false, MI_Main _ | false, MI_Init | false, MI_Handle =>
      '(m, w) ← socket_to_session m w;
      '(m, w) ← session_to_socket m w;
      Ok (exit, resps, rx, m, w)
  | _, _ => Ok (exit, resps, rx, m, w)
  end.

(** One time round [main_loop]: the thread goes on, or ends. *)
Definition miot_round (rx : channel (MiotRequest * bool)) (m : Miot) (w : world)
    : Result ((channel (MiotRequest * bool) * Miot * world) + Miot) :=
  '(exit, _, rx, m, w) ← miot_events rx m w;
  if exit : bool then
    match mi_inner m with
    | MI_Main _ => '(_, m) ← handle_close_miot m; Ok (inr m)
    | MI_Close _ => Ok (inr m)
    | _ => Panic
    end
  else Ok (inl (rx, m, w)).
End miot.

(** ** Lemmas *)

Lemma bt_get_middle {V} id (v : V) A B :
  id ∉ A.*1 → bt_get str_cmp id (A ++ (id, v) :: B) = Some v.
Proof.
  induction A as [|[k v'] A IH]; intros Hn; cbn [app bt_get].
  - by rewrite (proj2 (cmp_eq_iff id id) eq_refl).
  - cbn in Hn. apply not_elem_of_cons in Hn as [Hk Hn]. destruct (str_cmp id k) eqn:E; [|by apply IH..].
    by apply cmp_eq_iff in E.
Qed.

Lemma bt_remove_middle {V} id (v : V) A B :
  id ∉ A.*1 → bt_remove str_cmp id (A ++ (id, v) :: B) = A ++ B.
Proof.
  induction A as [|[k v'] A IH]; intros Hn; cbn [app bt_remove].
  - by rewrite (proj2 (cmp_eq_iff id id) eq_refl).
  - cbn in Hn. apply not_elem_of_cons in Hn as [Hk Hn]. destruct (str_cmp id k) eqn:E; [|by rewrite IH..].
    by apply cmp_eq_iff in E.
Qed.

(** The peer of a connection that has been reset *)
Definition unknown `{sys : System} (so : Socket) : Prop := peer_addr (so_conn so) = None.

#[export] Instance unknown_dec `{sys : System} so : Decision (unknown so).
Proof. unfold unknown. apply _. Defined.

Lemma peer_addr_unwrap `{sys : System} so :
  ¬ unknown so → ∃ a, @opt_unwrap Error _ (peer_addr (so_conn so)) = Ok a.
Proof. unfold unknown. destruct (peer_addr (so_conn so)) as [a|]; [by exists a|done]. Qed.

Lemma unknown_unwrap `{sys : System} so : unknown so → @opt_unwrap Error _ (peer_addr (so_conn so)) = Panic.
Proof. by intros ->. Qed.

(** What became of a connection: as it was, as it is after it was served, and why it
    is handed over if it is. *)
Record served := MkServed {
  sv_id : rstring;
  sv_before : Socket;
  sv_after : Socket;
  sv_fail : option (option Error);
}.

Definition sv_old (t : served) : rstring * Socket := (sv_id t, sv_before t).
Definition sv_new (t : served) : rstring * Socket := (sv_id t, sv_after t).
Definition sv_noted (t : served) : option (rstring * option Error) := (λ e, (sv_id t, e)) <$> sv_fail t.
Definition sv_kept (t : served) : option (rstring * Socket) :=
  match sv_fail t with None => Some (sv_new t) | Some _ => None end.
Definition sv_handed (t : served) : option (Socket * option Error) := (λ e, (sv_after t, e)) <$> sv_fail t.

Section serving.
Context (serve : Socket → world → Result (Socket * world * option (option Error))).
Context (P : Socket → Socket → option (option Error) → Prop) (Bad : Socket → Prop).

Definition serves (so : Socket) : Prop := ∀ w,
  match serve so w with Ok (so', _, fail) => P so so' fail | Panic => Bad so | _ => False end.

Definition served_as (t : served) : Prop := P (sv_before t) (sv_after t) (sv_fail t).

Lemma serve_conns_spec cs w :
  Forall (λ e, serves e.2) cs →
  match serve_conns serve cs w with
  | Ok (cs', fails, _) => ∃ ts, cs = sv_old <$> ts ∧ cs' = sv_new <$> ts ∧ fails = omap sv_noted ts ∧ Forall served_as ts
  | Panic => Exists (λ e, Bad e.2) cs
  | _ => False
  end.
Proof using Type.
  intros Hs. revert w. induction Hs as [|[id so] cs Hso _ IH]; intros w; cbn [serve_conns]; [by exists []|].
  specialize (Hso w). cbn [snd] in Hso. destruct (serve so w) as [[[so' w'] fail]|?| |]; run; [|done|by left|done].
  specialize (IH w'). destruct (serve_conns serve cs w') as [[[cs' fails] w'']|?| |]; run; [|done|by right|done].
  destruct IH as (ts & -> & -> & -> & Hts). exists (MkServed id so so' fail :: ts).
  split; [done|]. split; [done|]. split; [|by constructor]. cbn. by destruct fail.
Qed.
End serving.

Section loop.
Context `{sys : System, !Responsive sys}.

Lemma run_loop_Ok m l : mi_inner m = MI_Main l → run_loop m = Ok l.
Proof using Type. unfold run_loop. by intros ->. Qed.

Lemma remove_middle m l id so A B :
  mi_inner m = MI_Main l → conns l = A ++ (id, so) :: B → id ∉ A.*1 →
  handle_remove_connection id m
  = if decide (unknown so) then Panic
    else Ok (Removed so, set_run_loop (MkMiotLoop (next_token l) (A ++ B) (mi_shard l)) m).
Proof using All.
  intros Hl Hc Hid. unfold handle_remove_connection. rewrite (run_loop_Ok m l Hl); run.
  rewrite Hc, bt_get_middle, bt_remove_middle by done. unfold set_conns. rewrite (run_loop_Ok m l Hl); run.
  destruct (decide (unknown so)) as [Hu|Hu]; [by rewrite (unknown_unwrap so Hu)|].
  destruct (peer_addr_unwrap so Hu) as [a ->]; run. by rewrite deregisters.
Qed.

Lemma hand_over_middle m l id so e A B :
  mi_inner m = MI_Main l → conns l = A ++ (id, so) :: B → id ∉ A.*1 → ch_open (mi_shard l) = true →
  hand_over m (id, e)
  = if decide (unknown so) then Panic
    else Ok (set_run_loop (MkMiotLoop (next_token l) (A ++ B)
          (MkChannel (ch_items (mi_shard l) ++ [(so, e)]) (ch_size (mi_shard l)) true)) m).
Proof using All.
  intros Hl Hc Hid Ho. unfold hand_over. rewrite (remove_middle m l id so A B Hl Hc Hid).
  destruct (decide (unknown so)); run; [done|].
  unfold post_request. cbn [run_loop set_run_loop mi_inner]; run. cbn [mi_shard]. by rewrite Ho, wakes_up.
Qed.

(** A connection that is to be handed over, and has been reset *)
Definition lost (t : served) : Prop := sv_fail t ≠ None ∧ unknown (sv_after t).

Lemma hand_over_all A ts m l :
  mi_inner m = MI_Main l → conns l = A ++ (sv_new <$> ts) → NoDup (A.*1 ++ (sv_id <$> ts)) →
  ch_open (mi_shard l) = true →
  match foldM hand_over m (omap sv_noted ts) with
  | Ok m' => ∃ l', m' = set_run_loop l' m
      ∧ next_token l' = next_token l ∧ conns l' = A ++ omap sv_kept ts
      ∧ ch_items (mi_shard l') = ch_items (mi_shard l) ++ omap sv_handed ts ∧ ch_open (mi_shard l') = true
      ∧ Forall (λ t, ¬ lost t) ts
  | Panic => Exists lost ts
  | _ => False
  end.
Proof using All.
  revert A m l. induction ts as [|[id so so' fail] ts IH]; intros A m l Hl Hc Hnd Ho.
  { exists l. cbn [omap list_omap]. rewrite !app_nil_r in *. split_and!; try done.
    unfold set_run_loop. destruct m; cbn in *; by subst. }
  cbn [fmap list_fmap sv_id] in Hnd. destruct fail as [err|].
  - assert (id ∉ A.*1) as Hid by (apply NoDup_app in Hnd as (_ & Hd & _); intros H; destruct (Hd _ H); left).
    cbn [omap list_omap sv_noted sv_fail fmap option_fmap option_map sv_id foldM].
    rewrite (hand_over_middle m l id so' err A _ Hl Hc Hid Ho).
    destruct (decide (unknown so')) as [Hu|Hu]; run; [by left|].
    match goal with |- context [foldM hand_over (set_run_loop ?x _)] => set (l1 := x) end.
    specialize (IH A (set_run_loop l1 m) l1 eq_refl eq_refl).
    destruct (foldM _ _ _) as [m'|?| |].
    + destruct IH as (l' & -> & E1 & E2 & E3 & E4 & E5); [|done|].
      { rewrite <-Permutation_middle in Hnd. by apply NoDup_cons in Hnd as [_ ?]. }
      exists l'. split_and!; [done|by rewrite E1|by rewrite E2|rewrite E3; cbn; by rewrite <-app_assoc|done|].
      constructor; [by intros [_ ?]|done].
    + apply IH; [|done]. rewrite <-Permutation_middle in Hnd. by apply NoDup_cons in Hnd as [_ ?].
    + right. apply IH; [|done]. rewrite <-Permutation_middle in Hnd. by apply NoDup_cons in Hnd as [_ ?].
    + apply IH; [|done]. rewrite <-Permutation_middle in Hnd. by apply NoDup_cons in Hnd as [_ ?].
  - specialize (IH (A ++ [(id, so')]) m l Hl). rewrite Hc, fmap_app, <-!app_assoc in IH.
    specialize (IH eq_refl Hnd Ho). cbn [omap list_omap sv_noted sv_fail fmap option_fmap option_map].
    destruct (foldM _ _ _) as [m'|?| |]; [|done|by right|done].
    destruct IH as (l' & -> & E1 & E2 & E3 & E4 & E5). exists l'. split_and!; try done.
    constructor; [by intros [? _]|done].
Qed.

(** Serving all connections: each one either stays as it is then, or is handed to
    the shard, in their order; unless one to be handed over has been reset. *)
Lemma serve_all_spec serve P Bad m l w :
  mi_inner m = MI_Main l → NoDup (conns l).*1 → ch_open (mi_shard l) = true →
  Forall (λ e, serves serve P Bad e.2) (conns l) →
  match serve_all serve m w with
  | Ok (m', _) => ∃ l' ts, m' = set_run_loop l' m ∧ conns l = sv_old <$> ts ∧ conns l' = omap sv_kept ts
      ∧ ch_items (mi_shard l') = ch_items (mi_shard l) ++ omap sv_handed ts ∧ ch_open (mi_shard l') = true
      ∧ next_token l' = next_token l ∧ Forall (served_as P) ts ∧ Forall (λ t, ¬ lost t) ts
  | Panic => Exists (λ e, Bad e.2) (conns l)
      ∨ ∃ ts, conns l = sv_old <$> ts ∧ Forall (served_as P) ts ∧ Exists lost ts
  | _ => False
  end.
Proof using All.
  intros Hl Hnd Ho Hs. unfold serve_all. rewrite (run_loop_Ok m l Hl); run.
  pose proof (serve_conns_spec serve P Bad (conns l) w Hs) as Hsc.
  destruct (serve_conns serve (conns l) w) as [[[cs fails] w']|?| |]; run; [|done|by left|done].
  destruct Hsc as (ts & Ec & -> & -> & Hts). unfold set_conns. rewrite (run_loop_Ok m l Hl); run.
  set (l1 := MkMiotLoop _ _ _). pose proof (hand_over_all [] ts (set_run_loop l1 m) l1 eq_refl eq_refl) as Hh.
  cbn [app fmap list_fmap] in Hh. rewrite Ec, <-list_fmap_compose in Hnd. specialize (Hh Hnd Ho).
  destruct (foldM _ _ _) as [m'|?| |]; run; [|done|right; by exists ts|done].
  destruct Hh as (l' & -> & E1 & E2 & E3 & E4 & E5). exists l', ts. by split_and!.
Qed.
End loop.
