(* ===== verification/MiotProps.v ===== *)
(** * The miot thread: theorems

    What a time round the loop of the thread does to its connections. *)
From S2P Require Import Prelude Errors Utf8 Types V5Packet Framing Queues Threads Config SortedVec BTree Socket Miot.
Local Open Scope Z_scope.

(** ** What the thread keeps *)

(** A stream that the thread does not survive: after whole packets comes one with a
    reserved type or QoS, or with a field longer than the packet. *)
Definition breaks (so : Socket) : Prop :=
  ∃ datas data rest, socket_stream so = concat datas ++ data ++ rest ∧ (reserved data ∨ short data).

Definition token_of (e : rstring * Socket) : nat := so_token e.2.

Record wf_loop (l : MiotLoop) : Prop := {
  wf_conns : bt_wf str_cmp (conns l);
  wf_sockets : Forall (λ e, wf_socket e.2) (conns l);
  wf_tokens : NoDup (token_of <$> conns l);
  wf_token : Forall (λ e, FIRST_TOKEN ≤ token_of e < next_token l)%nat (conns l);
  wf_next : (FIRST_TOKEN ≤ next_token l)%nat;
  wf_shard : ch_open (mi_shard l) = true;
}.

(** The queues of a new connection. *)
Definition wf_args (args : AddConnectionArgs) : Prop :=
  is_bytes (rd_bytes (tcp_rd (ac_conn args)))
  ∧ (length (ch_items (tx (ac_upstream args))) ≤ ch_size (tx (ac_upstream args)))%nat
  ∧ Forall wf_Packet (ch_items (rx (ac_downstream args))).

Definition wf_request (req : MiotRequest * bool) : Prop :=
  req.2 = true ∧ match req.1 with AddConnection args => wf_args args | _ => True end.

Lemma new_socket_wf config args token : wf_args args → wf_socket (new_socket config args token).
Proof.
  intros (Hb & Hf & Hp). split; [|split; [exact Hf|split]].
  - intros w. split; [split; [constructor|done]|exact Hb].
  - exists (ac_max_packet_size args). intros w. exists [], (wr_sent (tcp_wr (ac_conn args))). by cbn.
  - by split.
Qed.

(** ** Lemmas *)

(** Dropping entries keeps the invariant. *)
Lemma wf_loop_sublist l cs sh :
  wf_loop l → cs.*1 `sublist_of` (conns l).*1 → token_of <$> cs `sublist_of` token_of <$> conns l →
  Forall (λ e, wf_socket e.2) cs → ch_open sh = true →
  wf_loop (MkMiotLoop (next_token l) cs sh).
Proof.
  intros [Hw Hs Ht Hr Hn Hsh] Hk Htk Hso Ho. split; cbn [conns next_token mi_shard].
  - unfold bt_wf in *. by eapply sorted_by_sublist.
  - done.
  - by eapply sublist_NoDup.
  - rewrite Forall_forall in Hr |- *. intros e He. apply (list_elem_of_fmap_2 token_of) in He.
    eapply elem_of_sublist in He; [|exact Htk]. apply list_elem_of_fmap in He as (e' & -> & He'). by apply Hr.
  - done.
  - done.
Qed.

Lemma wf_remove l id : wf_loop l → wf_loop (MkMiotLoop (next_token l) (bt_remove str_cmp id (conns l)) (mi_shard l)).
Proof.
  intros Hl. pose proof (bt_remove_sublist str_cmp id (conns l)) as Hs.
  apply wf_loop_sublist; try done; [by apply fmap_sublist..| |apply Hl].
  apply bt_remove_entries, Hl.
Qed.

Lemma wf_add l id so :
  wf_loop l → wf_socket so → so_token so = next_token l →
  wf_loop (MkMiotLoop (S (next_token l)) (bt_insert str_cmp id so (conns l)) (mi_shard l)).
Proof.
  intros [Hw Hs Ht Hr Hn Hsh] Hso Htok. split; cbn [conns next_token mi_shard].
  - by apply (bt_insert_wf str_cmp).
  - by apply (bt_insert_entries str_cmp).
  - rewrite (bt_insert_perm str_cmp) by done. cbn [fmap list_fmap]. apply NoDup_cons. unfold token_of at 1. cbn [snd]. split.
    + rewrite Htok. intros (e & E & He)%list_elem_of_fmap.
      eapply elem_of_sublist in He; [|apply bt_remove_sublist]. eapply Forall_forall in Hr; [|exact He]. cbn in Hr. lia.
    + eapply sublist_NoDup; [exact Ht|]. apply fmap_sublist, bt_remove_sublist.
  - apply (bt_insert_entries str_cmp); [unfold token_of; cbn [snd]; lia|]. eapply Forall_impl; [exact Hr|]. cbn. lia.
  - lia.
  - done.
Qed.

(** What is kept of the connections served. *)
Lemma kept_sublist ts : (omap sv_kept ts).*1 `sublist_of` (sv_old <$> ts).*1.
Proof.
  induction ts as [|[id so so' [e|]] ts IH]; cbn; [done|by constructor..].
Qed.

Lemma kept_tokens ts :
  Forall (λ t, so_token (sv_after t) = so_token (sv_before t)) ts →
  token_of <$> omap sv_kept ts `sublist_of` token_of <$> (sv_old <$> ts).
Proof.
  induction 1 as [|[id so so' [e|]] ts Ht _ IH]; cbn in *; [done|by constructor|].
  unfold token_of at 1 3; cbn [snd sv_new sv_old sv_after sv_before]. rewrite Ht. by constructor.
Qed.

Lemma kept_Forall (P : Socket → Prop) ts :
  Forall (λ t, sv_fail t = None → P (sv_after t)) ts → Forall (λ e, P e.2) (omap sv_kept ts).
Proof.
  induction 1 as [|[id so so' [e|]] ts Ht _ IH]; cbn in *; [constructor|done|]. constructor; [by apply Ht|done].
Qed.

Section loop.
Context `{sys : System, !Responsive sys}.

Lemma close_miot_spec m l :
  mi_inner m = MI_Main l →
  match handle_close_miot m with
  | Ok (resp, m') => resp = MiotOk ∧ ∃ fin, m' = MkMiot (miot_id m) (mi_config m) (MI_Close fin)
      ∧ tokens fin = token_of <$> conns l
  | Panic => Exists (λ e, unknown e.2) (conns l)
  | _ => False
  end.
Proof using All.
  intros Hl. unfold handle_close_miot. rewrite (run_loop_Ok m l Hl); run.
  assert (match mapM_out (λ '(_, sock), @opt_unwrap Error _ (peer_addr (so_conn sock))) (conns l) with
    | Ok _ => True | Panic => Exists (λ e, unknown e.2) (conns l) | _ => False end) as Ha.
  { induction (conns l) as [|[id so] cs IH]; cbn [mapM_out]; [done|]. destruct (decide (unknown so)) as [Hu|Hu].
    - rewrite (unknown_unwrap so Hu); run. by left.
    - destruct (peer_addr_unwrap so Hu) as [a ->]; run. destruct (mapM_out _ cs); run; [done..|by right|done]. }
  destruct (mapM_out _ _) as [as_|?| |]; run; [|done..]. split; [done|].
  eexists. split; [reflexivity|]. cbn [tokens]. by induction (conns l) as [|[id so] cs IH]; cbn; [|rewrite IH].
Qed.

Lemma add_connection_spec m l args :
  mi_inner m = MI_Main l →
  handle_add_connection args m
  = let so := new_socket (mi_config m) args (next_token l) in
    if decide (unknown so) then Panic
    else Ok (MiotOk, set_run_loop (MkMiotLoop (S (next_token l))
           (bt_insert str_cmp (ac_client_id args) so (conns l)) (mi_shard l)) m).
Proof using All.
  intros Hl. unfold handle_add_connection. cbn zeta. set (so := new_socket _ _ _).
  change (ac_conn args) with (so_conn so). destruct (decide (unknown so)) as [Hu|Hu]; [by rewrite (unknown_unwrap so Hu)|].
  destruct (peer_addr_unwrap so Hu) as [a ->]; run. rewrite (run_loop_Ok m l Hl); run. by rewrite registers.
Qed.

Lemma remove_connection_spec m l id :
  mi_inner m = MI_Main l →
  match handle_remove_connection id m with
  | Ok (resp, m') => m' = set_run_loop (MkMiotLoop (next_token l) (bt_remove str_cmp id (conns l)) (mi_shard l)) m
      ∧ resp = match bt_get str_cmp id (conns l) with Some so => Removed so | None => MiotOk end
  | Panic => ∃ so, bt_get str_cmp id (conns l) = Some so ∧ unknown so
  | _ => False
  end.
Proof using All.
  intros Hl. unfold handle_remove_connection. rewrite (run_loop_Ok m l Hl); run.
  destruct (bt_get str_cmp id (conns l)) as [so|] eqn:E.
  - unfold set_conns. rewrite (run_loop_Ok m l Hl); run. destruct (decide (unknown so)) as [Hu|Hu].
    { rewrite (unknown_unwrap so Hu); run. by exists so. }
    destruct (peer_addr_unwrap so Hu) as [a ->]; run. by rewrite deregisters.
  - split; [|done].
    assert (bt_remove str_cmp id (conns l) = conns l) as ->.
    { revert E. induction (conns l) as [|[k v] cs IH]; cbn; [done|]. destruct (str_cmp id k); [done|..]; intros E; by rewrite IH. }
    destruct m as [? ? i]; cbn in *; subst. by destruct l.
Qed.

(** Handling requests: the thread stays well formed or has been closed, and no
    request can follow one to close. *)
Lemma miot_requests (O : Socket → Prop) reqs m l resps :
  mi_inner m = MI_Main l → wf_loop l → Forall (λ e, O e.2) (conns l) → Forall wf_request reqs →
  (∀ args token, (AddConnection args, true) ∈ reqs → O (new_socket (mi_config m) args token)) →
  match foldM handle_miot_request (false, (m, resps)) reqs with
  | Ok (false, (m', _)) => ∃ l', m' = set_run_loop l' m ∧ wf_loop l' ∧ Forall (λ e, O e.2) (conns l')
  | Ok (true, (m', _)) => (∃ fin, mi_inner m' = MI_Close fin) ∧ (CloseMiot, true) ∈ reqs
  | Panic => (∃ a req b, reqs = a ++ req :: b ∧ (CloseMiot, true) ∈ a) ∨ ∃ so, O so ∧ unknown so
  | _ => False
  end.
Proof using All.
  revert m l resps. induction reqs as [|[req tx] reqs IH]; intros m l resps Hl Hwf HO Hreqs Hadd.
  { cbn [foldM]. exists l. split; [|done]. destruct m; cbn in *. by subst. }
  apply Forall_cons in Hreqs as [[Htx Hreq] Hreqs]. cbn [fst snd] in Htx, Hreq. subst tx.
  assert (∀ l1 resp, wf_loop l1 → Forall (λ e, O e.2) (conns l1) →
    match foldM handle_miot_request (false, (set_run_loop l1 m, resps ++ [resp])) reqs with
    | Ok (false, (m', _)) => ∃ l', m' = set_run_loop l' m ∧ wf_loop l' ∧ Forall (λ e, O e.2) (conns l')
    | Ok (true, (m', _)) => (∃ fin, mi_inner m' = MI_Close fin) ∧ (CloseMiot, true) ∈ (req, true) :: reqs
    | Panic => (∃ a r b, (req, true) :: reqs = a ++ r :: b ∧ (CloseMiot, true) ∈ a) ∨ ∃ so, O so ∧ unknown so
    | _ => False end) as Hgo.
  { intros l1 resp H1 H2. specialize (IH (set_run_loop l1 m) l1 (resps ++ [resp]) eq_refl H1 H2 Hreqs).
    destruct (foldM _ _ reqs) as [[[] [m' ?]]|?| |]; try by apply IH; intros; apply Hadd; right.
    { destruct IH as [? ?]; [intros; apply Hadd; by right|]. split; [done|by right]. }
    destruct IH as [(a & r & b & -> & Ha)|?]; [intros; apply Hadd; by right| |by right].
    left. exists ((req, true) :: a), r, b. split; [done|by right]. }
  destruct req as [args|id|]; cbn [foldM handle_miot_request].
  - rewrite (add_connection_spec m l args Hl). cbn zeta.
    assert (O (new_socket (mi_config m) args (next_token l))) as Hnew by (apply Hadd; by left).
    destruct (decide _) as [Hu|_]; run; [right; by eexists|]. apply Hgo.
    + apply wf_add; [done|by apply new_socket_wf|done].
    + by apply (bt_insert_entries str_cmp).
  - pose proof (remove_connection_spec m l id Hl) as Hrm.
    destruct (handle_remove_connection id m) as [[resp m']|?| |]; run; [|done| |done].
    + destruct Hrm as [-> _]. apply Hgo; [by apply wf_remove|by apply bt_remove_entries].
    + destruct Hrm as (so & Hso & Hu). right. exists so. split; [|done].
      apply (bt_get_elem str_cmp) in Hso as (k & _ & Hin). by eapply Forall_forall in HO; [|exact Hin].
  - pose proof (close_miot_spec m l Hl) as Hcl.
    destruct (handle_close_miot m) as [[resp m']|?| |]; run; [|done| |done].
    2:{ right. apply Exists_exists in Hcl as (e & He & Hu). exists e.2. split; [|done]. by eapply Forall_forall in HO; [|exact He]. }
    destruct Hcl as (_ & fin & -> & _).
    destruct reqs as [|[req tx] reqs]; cbn [foldM]; [split; [by eexists|by left]|].
    assert (∀ args, handle_add_connection args (MkMiot (miot_id m) (mi_config m) (MI_Close fin)) = Panic) as Ha.
    { intros args. unfold handle_add_connection. by destruct (peer_addr (ac_conn args)); run. }
    assert (∃ a r b, (CloseMiot, true) :: (req, tx) :: reqs = a ++ r :: b ∧ (CloseMiot, true) ∈ a) as Hp
      by (exists [(CloseMiot, true)], (req, tx), reqs; split; [done|by left]).
    apply Forall_cons in Hreqs as [[Htx _] _]. cbn in Htx. subst tx.
    destruct req as [args|id|]; cbn [handle_miot_request]; [rewrite Ha|..]; by left.
Qed.

(** ** The passes over the connections *)

Definition read_result (so so' : Socket) (fail : option (option Error)) : Prop :=
  socket_read so so'
  ∧ match fail with
    | None => wf_socket so'
    | Some None => True
    | Some (Some err) => refused (socket_stream so) err
    end.

Definition write_result (so so' : Socket) (fail : option (option Error)) : Prop :=
  match fail with
  | None => socket_written true so so' ∧ wf_socket so'
  | Some err => err = None ∧ socket_written false so so'
  end.

(** A pass comes to a connection whose peer is known. *)
Definition heard (P : Socket → Socket → option (option Error) → Prop) (so so' : Socket) (fail : option (option Error)) : Prop :=
  P so so' fail ∧ ¬ unknown so.

Lemma read_conn_spec config so : wf_socket so → serves (read_conn config) (heard read_result) (λ so, breaks so ∨ unknown so) so.
Proof using All.
  intros Hwf w. unfold read_conn. destruct (decide (unknown so)) as [Hu|Hu].
  { rewrite (unknown_unwrap so Hu); run. by right. }
  destruct (peer_addr_unwrap so Hu) as [a ->]; run.
  pose proof (Socket_read_packets_spec config so w Hwf) as Hp.
  destruct (Socket_read_packets config so w) as [[[so' w'] res]|?| |]; run; [|done| |done].
  - destruct Hp as [Hr Hres]. destruct res as [[v|v|v]|err]; [split; [by destruct Hres|done]|split; [by destruct Hres|done]|by split|].
    destruct Hres as [Hk|[Hk|(Hk & datas & data & rest & Es & Hs)]]; rewrite Hk.
    + split; [|done]. split; [done|]. by left.
    + split; [|done]. split; [done|]. by right; left.
    + left. exists datas, data, rest. split; [done|by right].
  - destruct Hp as (datas & data & rest & Es & Hs). left. exists datas, data, rest. split; [done|by left].
Qed.

Lemma write_conn_spec config so : wf_socket so → serves (write_conn config) (heard write_result) unknown so.
Proof using All.
  intros Hwf w. unfold write_conn. destruct (decide (unknown so)) as [Hu|Hu]; [by rewrite (unknown_unwrap so Hu); run|].
  destruct (peer_addr_unwrap so Hu) as [a ->]; run.
  destruct (Socket_write_packets_spec flush config so w Hwf) as (so' & w' & q & st & -> & Hq); run. by destruct q.
Qed.

Lemma wf_NoDup_keys l : wf_loop l → NoDup (conns l).*1.
Proof using Type.
  intros [Hw _ _ _ _ _]. unfold bt_wf, sorted_by in Hw. induction Hw as [|[k v] cs _ IH Hk]; [constructor|].
  cbn [fmap list_fmap fst]. apply NoDup_cons. split; [|done]. intros (e & -> & He)%list_elem_of_fmap.
  eapply Forall_forall in Hk; [|exact He]. cbn in Hk. by rewrite (proj2 (cmp_eq_iff e.1 e.1) eq_refl) in Hk.
Qed.

(** Serving keeps the invariant. *)
Lemma served_wf P l l' ts :
  wf_loop l → conns l = sv_old <$> ts → conns l' = omap sv_kept ts → next_token l' = next_token l →
  ch_open (mi_shard l') = true → Forall (served_as P) ts →
  (∀ so so' fail, P so so' fail → so_token so' = so_token so ∧ (fail = None → wf_socket so')) →
  wf_loop l'.
Proof using Type.
  intros Hwf Eo Ek Et Ho Hts HP. destruct l' as [n cs sh]; cbn in *; subst.
  apply wf_loop_sublist; try done.
  - rewrite Eo. apply kept_sublist.
  - rewrite Eo. apply kept_tokens. eapply Forall_impl; [exact Hts|]. intros t Ht. by apply HP in Ht as [? _].
  - apply kept_Forall. eapply Forall_impl; [exact Hts|]. intros t Ht. by apply HP in Ht as [_ ?].
Qed.

(** What is left of the connections [l] after a pass, whose failures are handed over. *)
Definition pass_result (P : Socket → Socket → option (option Error) → Prop) (l l' : MiotLoop) : Prop :=
  ∃ ts, conns l = sv_old <$> ts ∧ conns l' = omap sv_kept ts
    ∧ ch_items (mi_shard l') = ch_items (mi_shard l) ++ omap sv_handed ts
    ∧ Forall (served_as (heard P)) ts ∧ Forall (λ t, ¬ lost t) ts.

(** A connection that fails in the pass has been reset by the time it is to be handed over. *)
Definition loses (P : Socket → Socket → option (option Error) → Prop) (l : MiotLoop) : Prop :=
  ∃ ts, conns l = sv_old <$> ts ∧ Forall (served_as (heard P)) ts ∧ Exists lost ts.

Lemma reads_spec m l w :
  mi_inner m = MI_Main l → wf_loop l →
  match socket_to_session m w with
  | Ok (m', _) => ∃ l', m' = set_run_loop l' m ∧ wf_loop l' ∧ pass_result read_result l l'
  | Panic => Exists (λ e, breaks e.2 ∨ unknown e.2) (conns l) ∨ loses read_result l
  | _ => False
  end.
Proof using All.
  intros Hl Hwf. unfold socket_to_session.
  assert (Forall (λ e, serves (read_conn (mi_config m)) (heard read_result) (λ so, breaks so ∨ unknown so) e.2) (conns l)) as Hf
    by (eapply Forall_impl; [apply (wf_sockets l Hwf)|]; intros; by apply read_conn_spec).
  pose proof (serve_all_spec _ _ _ m l w Hl (wf_NoDup_keys l Hwf) (wf_shard l Hwf) Hf) as Hs.
  destruct (serve_all _ m w) as [[m' w']|?| |]; [|done..].
  destruct Hs as (l' & ts & -> & Eo & Ek & Eh & Ho & Et & Hts & Hlost).
  exists l'. split; [done|]. split; [|by exists ts]. eapply (served_wf (heard read_result) l l' ts); try done.
  intros so so' fail [[(_ & ? & _) Hf'] _]. split; [done|]. by intros ->.
Qed.

Lemma writes_spec m l w :
  mi_inner m = MI_Main l → wf_loop l →
  match session_to_socket m w with
  | Ok (m', _) => ∃ l', m' = set_run_loop l' m ∧ wf_loop l' ∧ pass_result write_result l l'
  | Panic => Exists (λ e, unknown e.2) (conns l) ∨ loses write_result l
  | _ => False
  end.
Proof using All.
  intros Hl Hwf. unfold session_to_socket.
  assert (Forall (λ e, serves (write_conn (mi_config m)) (heard write_result) unknown e.2) (conns l)) as Hf
    by (eapply Forall_impl; [apply (wf_sockets l Hwf)|]; intros; by apply write_conn_spec).
  pose proof (serve_all_spec _ _ _ m l w Hl (wf_NoDup_keys l Hwf) (wf_shard l Hwf) Hf) as Hs.
  destruct (serve_all _ m w) as [[m' w']|?| |]; [|done..].
  destruct Hs as (l' & ts & -> & Eo & Ek & Eh & Ho & Et & Hts & Hlost).
  exists l'. split; [done|]. split; [|by exists ts]. eapply (served_wf (heard write_result) l l' ts); try done.
  intros so so' [err|]; [by intros [[_ (_ & ? & _)] _]|by intros [[(_ & ? & _) ?] _]].
Qed.

(** What becomes of a connection in a time round the loop, until it is served or handed
    over. *)
Inductive passed : Socket → Socket → Prop :=
| Passed_not so : passed so so
| Passed_read so so' fail : read_result so so' fail → passed so so'
| Passed_written so so1 so' fail : read_result so so1 None → write_result so1 so' fail → passed so so'.

(** A connection that the thread does not survive: its stream breaks it, or it is found
    reset. *)
Definition ends_thread (so : Socket) : Prop := breaks so ∨ ∃ so', passed so so' ∧ unknown so'.

Lemma loses_elem P l : loses P l → ∃ e so' err, e ∈ conns l ∧ P e.2 so' (Some err) ∧ unknown so'.
Proof using Type.
  intros (ts & Eo & Hts & Hlost). apply Exists_exists in Hlost as (t & Ht & Hf & Hu).
  eapply Forall_forall in Hts as [HP _]; [|exact Ht]. destruct (sv_fail t) as [err|] eqn:Ef; [|done].
  exists (sv_old t), (sv_after t), err. split; [rewrite Eo; by apply list_elem_of_fmap_2|]. by split.
Qed.

(** What is kept has been read without a failure. *)
Lemma kept_elem P l l' e : pass_result P l l' → e ∈ conns l' → ∃ so, so ∈ (conns l).*2 ∧ P so e.2 None.
Proof using Type.
  intros (ts & Eo & Ek & _ & Hts & _) He. rewrite Ek in He. apply list_elem_of_omap in He as (t & Ht & E).
  unfold sv_kept in E. destruct (sv_fail t) eqn:Ef; [done|]. injection E as <-.
  eapply Forall_forall in Hts as [HP _]; [|exact Ht]. exists (sv_before t). split; [|by rewrite Ef in HP].
  rewrite Eo, <-list_fmap_compose. apply list_elem_of_fmap. by exists t.
Qed.

(** Both passes. *)
Lemma turn_spec m l w :
  mi_inner m = MI_Main l → wf_loop l →
  match ('(m', w') ← socket_to_session m w; session_to_socket m' w') with
  | Ok (m'', _) => ∃ l'', m'' = set_run_loop l'' m ∧ wf_loop l''
  | Panic => Exists (λ e, ends_thread e.2) (conns l)
  | _ => False
  end.
Proof using All.
  intros Hl Hwf. pose proof (reads_spec m l w Hl Hwf) as Hs. destruct (socket_to_session m w) as [[m' w']|?| |]; run; [|done| |done].
  - destruct Hs as (l' & -> & Hwf' & Hr). pose proof (writes_spec (set_run_loop l' m) l' w' eq_refl Hwf') as Hw.
    destruct (session_to_socket _ _) as [[m'' w'']|?| |]; [|done| |done].
    { destruct Hw as (l'' & -> & Hwf'' & _). by exists l''. }
    assert (∃ so1 so', so1 ∈ (conns l').*2 ∧ unknown so' ∧ (so' = so1 ∨ ∃ fail, write_result so1 so' fail)) as (so1 & so' & Hin & Hu & Hor).
    { destruct Hw as [Hw|Hw]; [apply Exists_exists in Hw as (e & He & Hu)|apply loses_elem in Hw as (e & so' & err & He & HP & Hu)].
      - exists e.2, e.2. split; [by apply list_elem_of_fmap_2|]. by split; [|left].
      - exists e.2, so'. split; [by apply list_elem_of_fmap_2|]. split; [done|]. right. by eexists. }
    apply list_elem_of_fmap in Hin as (e & -> & He). destruct (kept_elem _ _ _ _ Hr He) as (so & Hso & HP).
    apply list_elem_of_fmap in Hso as (e0 & -> & He0). apply Exists_exists. exists e0. split; [done|]. right. exists so'. split; [|done].
    destruct Hor as [->|[fail Hwr]]; [by eapply Passed_read|by eapply Passed_written].
  - destruct Hs as [Hs|Hs]; apply Exists_exists; [apply Exists_exists in Hs as (e & He & [Hb|Hu])|apply loses_elem in Hs as (e & so' & err & He & HP & Hu)];
      exists e; (split; [done|]); [by left|right; exists e.2; split; [constructor|done]|right; exists so'; split; [by eapply Passed_read|done]].
Qed.

(** ** Theorems *)


(** C13. Writing to the connections of a shard: every connection is served
    once, in the order of the clients; one that stays has the same stream of bytes to
    come, sent or still on its way, and one that has closed or is too late has got a
    part of its stream from the front and leaves the thread for the shard.  The thread gets
    through only if the peer of every connection is known when its turn comes, and that of
    a failed one still when it is handed over, and panics only on a connection that has been
    reset by then. *)
Theorem miot_writes m l w :
  mi_inner m = MI_Main l → wf_loop l →
  match session_to_socket m w with
  | Ok (m', _) => ∃ l', m' = set_run_loop l' m ∧ wf_loop l' ∧ pass_result write_result l l'
  | Panic => Exists (λ e, unknown e.2) (conns l) ∨ loses write_result l
  | _ => False
  end.
Proof using All. apply writes_spec. Qed.

End loop.

(** ** Witnesses *)

#[export] Instance ex_os_responsive : Responsive ex_os.
Proof. by split. Qed.

Definition ex_socket (id : rstring) (token : nat) (rd : reader) : Socket :=
  MkSocket id (MkTcpStream rd (MkWriter [Wr_Accept 9] [])) token
    (MkSource (MQTTRead_new 100) None (MkTx (MkChannel [] 2 true) 0) [])
    (MkSink (MQTTWrite_new [] 100) None (MkRx 2 (MkChannel [Pkt_PingResp] 2 true)) []).

Definition ex_world : world := MkWorld (MkClock (λ i, Z.of_nat i) 0) false.

(** One client pings and waits, one has hung up. *)
Definition ex_miot_loop : MiotLoop :=
  MkMiotLoop 4
    [([97], ex_socket [97] 2 [Rd_Data [192; 0]; Rd_WouldBlock]); ([98], ex_socket [98] 3 [])]
    (MkChannel [] 0 true).

Definition ex_miot : Miot := MkMiot 0 (Config_default 1) (MI_Main ex_miot_loop).

Lemma ex_socket_wf id token rd : is_bytes (rd_bytes rd) → wf_socket (ex_socket id token rd).
Proof.
  intros Hb. split; [|split; [cbn; unfold fits; cbn; lia|split]].
  - intros w. split; [split; [constructor|done]|exact Hb].
  - exists 100. intros w. exists [], []. by cbn.
  - split; [constructor|by repeat constructor].
Qed.

Lemma ex_miot_loop_wf : wf_loop ex_miot_loop.
Proof.
  split; cbn [conns ex_miot_loop next_token mi_shard].
  - by repeat constructor.
  - apply Forall_cons; split; [|apply Forall_singleton]; cbn [snd]; apply ex_socket_wf; by repeat constructor.
  - cbn. apply NoDup_cons. split; [|apply NoDup_singleton]. intros H. by apply list_elem_of_singleton in H.
  - repeat constructor; cbn; lia.
  - unfold FIRST_TOKEN; lia.
  - done.
Qed.

(** The pinging client stays, its ping is in the queue to the shard; the other one is
    handed over. *)
Example ex_reads :
  match socket_to_session (sys := ex_os) ex_miot ex_world with
  | Ok (m', _) =>
      match mi_inner m' with
      | MI_Main l => (λ e, (e.1, ch_items (tx (session_tx (so_rd e.2))))) <$> conns l = [([97], [Pkt_PingReq])]
                     ∧ (λ e, (so_client_id e.1, e.2)) <$> ch_items (mi_shard l) = [([98], None)]
      | _ => False
      end
  | _ => False
  end.
Proof. lazy. by split. Qed.

(** A PUBLISH of two bytes with a topic of five: the error is none of the kinds that
    the thread expects, and the connections of all its clients are gone. *)
Example ex_short_packet_panics :
  socket_to_session (sys := ex_os)
    (set_run_loop (MkMiotLoop 3 [([97], ex_socket [97] 2 [Rd_Data [48; 2; 0; 5]])] (MkChannel [] 0 true)) ex_miot) ex_world
  = Panic.
Proof. lazy. reflexivity. Qed.

(** A client that resets its connection: the peer is known until the next thing to read is the
    error. *)
Definition reset_sys : System := {|
  peer_addr s := match tcp_rd s with Rd_Error :: _ => None | _ => Some [] end;
  register _ _ := true; deregister _ := true; flush _ := true; wakes := true |}.

#[export] Instance reset_sys_responsive : Responsive reset_sys.
Proof. by split. Qed.

(** The thread reads a ping and the reset, is about to hand the connection over, and panics; the
    client next to it, which pings, goes with it. *)
Definition ex_reset_loop : MiotLoop :=
  MkMiotLoop 4
    [([97], ex_socket [97] 2 [Rd_Data [192; 0]; Rd_WouldBlock]); ([98], ex_socket [98] 3 [Rd_Data [192; 0]; Rd_Error])]
    (MkChannel [] 0 true).

Definition ex_reset_miot : Miot := MkMiot 0 (Config_default 1) (MI_Main ex_reset_loop).

Example ex_reset_panics : socket_to_session (sys := reset_sys) ex_reset_miot ex_world = Panic.
Proof. lazy. reflexivity. Qed.

Lemma ex_reset_loop_wf : wf_loop ex_reset_loop.
Proof.
  split; cbn [conns ex_reset_loop next_token mi_shard].
  - by repeat constructor.
  - apply Forall_cons; split; [|apply Forall_singleton]; cbn [snd]; apply ex_socket_wf; by repeat constructor.
  - cbn. apply NoDup_cons. split; [|apply NoDup_singleton]. intros H. by apply list_elem_of_singleton in H.
  - repeat constructor; cbn; lia.
  - unfold FIRST_TOKEN; lia.
  - done.
Qed.


Lemma miot_writes_witness :
  ∃ m' w' l', session_to_socket (sys := ex_os) ex_miot ex_world = Ok (m', w') ∧ m' = set_run_loop l' ex_miot
    ∧ wf_loop l' ∧ pass_result (sys := ex_os) write_result ex_miot_loop l'.
Proof.
  pose proof (miot_writes (sys := ex_os) ex_miot ex_miot_loop ex_world eq_refl ex_miot_loop_wf) as H.
  destruct (session_to_socket ex_miot ex_world) as [[m' w']|?| |] eqn:E; [|destruct H|lazy in E; discriminate E|destruct H].
  destruct H as (l' & H). exists m', w', l'. exact (conj eq_refl H).
Defined.

(** A new connection, and the removal of one. *)
Definition ex_requests : channel (MiotRequest * bool) :=
  MkChannel [(AddConnection (MkAddConnectionArgs [99] (MkTcpStream [Rd_WouldBlock] (MkWriter [] []))
      (MkTx (MkChannel [] 2 true) 0) (MkRx 2 (MkChannel [] 2 true)) 100), true);
    (RemoveConnection [97], true)] 0 true.

