(* ===== verification/Flush.v ===== *)
(** * The flusher (src/src/broker/flush.rs)

    The thread that gets the connections whose session has ended: it writes what the
    session has left in its queue, and a DISCONNECT.  The event counters of the
    thread are left out, but for what it has written. *)
From S2P Require Import Prelude Errors Utf8 Types V5Header V5Session V5Packet Framing Queues Threads Config SortedVec BTree Socket Miot.
Local Open Scope Z_scope.

(** What the session does to its queue while a connection is flushed, a step for each
    turn of the loop: the packets it sends, and whether it is gone then. *)
Abbreviation session_step := (list Packet * bool)%type.

Definition session_sends (a : session_step) (sink : Sink) : Sink :=
  let r := miot_rx sink in
  let ch := MkChannel (ch_items (rx r) ++ a.1) (ch_size (rx r)) (ch_open (rx r) && negb a.2) in
  sink <| miot_rx := MkRx (batch_size r) ch |>.

Section flush.
Context `{sys : System}.

(** The loop of [handle_flush_connection], as long as there are steps; with the status
    of the last flush. *)
Fixpoint flush_connection_loop (steps : list session_step) (config : Config) (timeout : Z)
    (stats : SockStats) (e : wt_env) : Result (wt_env * QueuePkt * SockStats) :=
  match steps with
  | [] => NoFuel
  | a :: steps =>
      let sink := session_sends a (we_sink e) in
      '(status, r) ← try_recvs (miot_rx sink);
      let '(vals, status) := take_values status in
      let e := set_sink (sink <| miot_rx := r |> <| wt_packets := wt_packets sink ++ vals |>) e in
      '(e, flushed, sock_stats) ← flush_packets flush config e;
      let stats := SockStats_update stats sock_stats in
      let ends := match status with Q_Disconnected _ => true | _ => false end in
      match flushed with
      | Q_Ok _ =>
          if ends then Ok (e, flushed, stats) else flush_connection_loop steps config timeout stats e
      | Q_Block _ =>
          let '(now, ck) := now (we_clock e) in
          let e := MkWtEnv (we_sink e) (we_conn e) ck in
          if (timeout <? now) || ends then Ok (e, flushed, stats)
          else flush_connection_loop steps config timeout stats e
      | Q_Disconnected _ => Ok (e, flushed, stats)
      end
  end.

(** The answers of [timeout < Instant::now()] from now on. *)
Definition late_answers (n : nat) (timeout : Z) (ck : clock) : list bool :=
  (λ i, timeout <? ck_time ck (ck_reads ck + i)%nat) <$> seq 0 n.

(** What becomes of a connection: the status of the last flush and what has been
    written then, and the connection behind a DISCONNECT that could be sent. *)
Record flushed := MkFlushed {
  fl_stats : SockStats;
  fl_status : QueuePkt;
  fl_env : wt_env;
  fl_disconnect : option writer;
}.

Definition disconnect_code (conn_err : option Error) : Result DisconnReasonCode :=
  match conn_err with
  | Some err => res_unwrap (DisconnReasonCode_try_from (ReasonCode_as_u8 (Error_code err)))
  | None => Ok DRC_NormalDisconnect
  end.

(** [handle_flush_connection], with at most so many looks at the clock while it tries to
    send the DISCONNECT ([NoFuel]: it is still trying then) *)
Definition flush_connection_for (looks : nat) (config : Config) (socket : Socket) (conn_err : option Error)
    (steps : list session_step) (w : world) : Result flushed :=
  let max_size := mqtt_max_packet_size config in
  let '(t, ck) := now (w_clock w) in
  _ ← opt_unwrap (peer_addr (so_conn socket));
  let timeout := t + from_secs (sock_mqtt_flush_timeout config) in
  '(e, status, stats) ← flush_connection_loop steps config timeout SockStats_default
                          (wt_env_of socket (MkWorld ck (w_woken w)));
  code ← disconnect_code conn_err;
  match send_disconnect code (we_conn e) (late_answers looks timeout (we_clock e)) max_size with
  | Ok conn => Ok (MkFlushed stats status e (Some conn))
  | Err _ => Ok (MkFlushed stats status e None)
  | Panic => Panic
  | NoFuel => NoFuel
  end.

(** As many looks as there are events to come: if it is trying still, then it does so for
    ever ([flush_connection_ends]). *)
Definition flush_connection (config : Config) (socket : Socket) : option Error → list session_step → world → Result flushed :=
  flush_connection_for (S (length (wr_events (tcp_wr (so_conn socket))))) config socket.

(** ** The loop of the thread *)

Inductive FlushRequest : Type :=
| FlushConnection (socket : Socket) (err : option Error)
| CloseFlusher.

(** [RunLoop] and [FinState]: what has been written, and the connections that have been
    flushed, latest last. *)
Record FlushLoop := MkFlushLoop { n_pkts : Z; n_bytes : Z; flushed_conns : list flushed }.

Inductive FlushInner : Type :=
| FI_Init
| FI_Handle
| FI_Tx
| FI_Main (l : FlushLoop)
| FI_Close (l : FlushLoop).

(** [handle_close] *)
Definition handle_close_flusher (f : FlushInner) : Result FlushInner :=
  match f with
  | FI_Main l => Ok (FI_Close l)
  | FI_Close l => Ok (FI_Close l)
  | _ => Panic
  end.

(** What happens around the thread while it flushes its [n]th connection. *)
Context (config : Config) (around : nat → list session_step * world).

(** [incr_n_flush_conns] and [incr_stats] around [handle_flush_connection]. *)
Definition handle_flush_request (socket : Socket) (err : option Error) (f : FlushInner) : Result FlushInner :=
  match f with
  | FI_Main l =>
      let '(steps, w) := around (length (flushed_conns l)) in
      fl ← flush_connection config socket err steps w;
      Ok (FI_Main (MkFlushLoop (n_pkts l + items (fl_stats fl)) (n_bytes l + stat_bytes (fl_stats fl))
                     (flushed_conns l ++ [fl])))
  | _ => Panic
  end.

(** The inner loop of [main_loop]: whether the thread is to end.  A request behind a
    close is dropped. *)
Fixpoint flush_requests (reqs : list (FlushRequest * bool)) (f : FlushInner) : Result (bool * FlushInner) :=
  match reqs with
  | [] => Ok (false, f)
  | (FlushConnection socket err, true) :: reqs =>
      f ← handle_flush_request socket err f;
      flush_requests reqs f
  | (CloseFlusher, true) :: _ =>
      f ← handle_close_flusher f;
      Ok (true, f)
  | (_, false) :: _ => Panic
  end.

(** One time round [main_loop]: the thread waits ([None]), goes on, or ends. *)
Definition flusher_round (rx : channel (FlushRequest * bool)) (f : FlushInner)
    : Result (option (channel (FlushRequest * bool) * FlushInner + FlushInner)) :=
  r ← get_requests CONTROL_CHAN_SIZE rx;
  match r with
  | None => Ok None
  | Some (status, rx) =>
      let '(reqs, status) := take_values status in
      '(exit, f) ← flush_requests reqs f;
      if exit || match status with Q_Disconnected _ => true | _ => false end
      then f ← handle_close_flusher f; Ok (Some (inr f))
      else Ok (Some (inl (rx, f)))
  end.
End flush.
