(* ===== verification/FlushProps.v ===== *)
(** * The flusher: theorems

    What flushing a connection writes and when it ends, and which errors it can report
    to the client. *)
From S2P Require Import Prelude Errors Utf8 Types V5Header V5Session V5Packet Framing Queues Threads Config SortedVec BTree Socket Miot MiotProps Flush.
Local Open Scope Z_scope.

(** ** Lemmas *)

(** What a turn of the loop finds in the queue, before it flushes. *)
Definition turn_env (a : session_step) (vals : list Packet) (r : PktRx) (e : wt_env) : wt_env :=
  let sink := session_sends a (we_sink e) in
  set_sink (sink <| miot_rx := r |> <| wt_packets := wt_packets sink ++ vals |>) e.

(** The queue of a sink. *)
Definition queue (e : wt_env) : list Packet := ch_items (rx (miot_rx (we_sink e))).
Definition session_open (e : wt_env) : bool := ch_open (rx (miot_rx (we_sink e))).

(** What a turn does: the stream gets what the session has sent. *)
Definition turn_result (max : Z) (a : session_step) (e e' : wt_env) (status fl : QueuePkt) : Prop :=
  wf_sink (we_sink e') ∧ values fl = []
  ∧ queue e ++ a.1 = values status ++ queue e' ∧ session_open e' = session_open e && negb a.2
  ∧ match status with
    | Q_Ok _ => values status ≠ []
    | Q_Block _ => session_open e' = true
    | Q_Disconnected _ => session_open e' = false ∧ queue e' = []
    end
  ∧ let stream := outgoing max e ++ blobs max a.1 in
    match fl with
    | Q_Ok _ => wf_wt max e' ∧ outgoing max e' = stream ∧ wr_sent (we_conn e') ++ blobs max (queue e') = stream
    | Q_Block _ => wf_wt max e' ∧ outgoing max e' = stream
    | Q_Disconnected _ => wr_sent (we_conn e') `prefix_of` stream
    end.

Lemma flush_turn flush config max a e :
  wf_wt max e → wf_sink (we_sink e) → Forall wf_Packet a.1 →
  ∃ status r, try_recvs (miot_rx (session_sends a (we_sink e))) = Ok (status, r)
  ∧ ∃ e' fl st, flush_packets flush config (turn_env a (values status) r e) = Ok (e', fl, st)
  ∧ turn_result max a e e' status fl.
Proof.
  intros Hwf [Hps Hch] Ha. unfold try_recvs. set (r0 := miot_rx (session_sends a (we_sink e))).
  destruct (try_recvs_loop_spec (S (length (ch_items (rx r0)))) [] r0) as (status & got & r & E & Hv & Hi & _ & Hst); [lia|].
  exists status, r. split; [exact E|]. apply try_recvs_loop_open in E as Ho.
  assert (ch_items (rx r0) = queue e ++ a.1) as Hq by done.
  assert (ch_open (rx r0) = session_open e && negb a.2) as Hop by done.
  clearbody r0. cbn [app] in Hv. subst got. rewrite Hq in Hi. set (e1 := turn_env _ _ _ _).
  assert (Forall wf_Packet (values status ++ ch_items (rx r))) as Hall by (rewrite <-Hi; apply Forall_app; split; [exact Hch|done]).
  apply Forall_app in Hall as [Hvals Hrest].
  assert (Forall wf_Packet (wt_packets (we_sink e1))) as Hps1 by (apply Forall_app; by split).
  destruct (flush_packets_spec flush config max e1 Hwf Hps1) as (e' & fl & st & Ef & Hfv & Hm & [gone Hg] & Hfl).
  exists e', fl, st. split; [exact Ef|]. clear Ef.
  assert (queue e' = ch_items (rx r)) as Hqe by (unfold queue; by rewrite Hm).
  assert (session_open e' = ch_open (rx r)) as Hoe by (unfold session_open; by rewrite Hm).
  assert (out e1 ++ blobs max (wt_packets (we_sink e1)) ++ blobs max (queue e') = outgoing max e ++ blobs max a.1) as Hstream.
  { unfold outgoing. change (out e1) with (out e). change (wt_packets (we_sink e1)) with (wt_packets (we_sink e) ++ values status).
    fold (queue e). by rewrite Hqe, !blobs_app, <-!app_assoc, <-!blobs_app, Hi, !blobs_app, <-?app_assoc. }
  split; [|split; [done|split; [by rewrite Hqe|split; [congruence|split]]]].
  - split; [|by fold (queue e'); rewrite Hqe]. rewrite Hg in Hps1. by apply Forall_app in Hps1 as [_ ?].
  - rewrite Hoe, Hqe. destruct status; [done| |]; destruct Hst as [Hst1 Hst2]; [congruence|]. split; [congruence|done].
  - rewrite <-Hstream. destruct fl.
    + destruct Hfl as (Hwf' & Hn & Hw & Hs). split; [exact Hwf'|]. rewrite Hw, <-app_assoc. split; [|done].
      unfold outgoing, out. fold (queue e'). by rewrite Hn, Hs, Hw, app_nil_r, <-app_assoc.
    + destruct Hfl as [Hwf' Hw]. split; [exact Hwf'|]. unfold outgoing. fold (queue e').
      by rewrite blobs_app, !app_assoc, Hw.
    + rewrite app_assoc. by apply prefix_app_r.
Qed.

(** How the loop can end: with all of the stream sent, or with what is left of it when
    the connection blocks or fails. *)
Definition flush_ended (max : Z) (steps : list session_step) (e e' : wt_env) (status : QueuePkt) : Prop :=
  ∃ taken rest, steps = taken ++ rest ∧
  let stream := outgoing max e ++ blobs max (taken ≫= fst) in
  match status with
  | Q_Ok _ => wr_sent (we_conn e') = stream ∧ (session_open e = false ∨ Exists (λ a, a.2 = true) taken)
  | Q_Block _ => wf_wt max e' ∧ outgoing max e' = stream
  | Q_Disconnected _ => wr_sent (we_conn e') `prefix_of` stream
  end.

Lemma flush_ended_cons max a steps e e1 e' status :
  outgoing max e1 = outgoing max e ++ blobs max a.1 → session_open e1 = session_open e && negb a.2 →
  flush_ended max steps e1 e' status → flush_ended max (a :: steps) e e' status.
Proof.
  intros E Ho (taken & rest & -> & Hs). exists (a :: taken), rest. split; [done|].
  cbn [mbind list_bind]. rewrite blobs_app, app_assoc, <-E. destruct status; [|done|done].
  destruct Hs as [Hs Hgone]. split; [done|]. rewrite Exists_cons. rewrite Ho in Hgone.
  destruct Hgone as [Hgone|Hgone]; [|by right; right]. apply andb_false_iff in Hgone as [Hgone|Hgone]; [by left|].
  right; left. by apply negb_false_iff.
Qed.

Lemma flush_ended_here max a steps e e' status fl :
  turn_result max a e e' status fl → (if status is Q_Disconnected _ then True else if fl is Q_Ok _ then False else True) →
  flush_ended max (a :: steps) e e' fl.
Proof.
  intros (_ & _ & _ & Ho & Hst & Hfl) Hend. exists [a], steps. split; [done|].
  cbn [mbind list_bind]. rewrite app_nil_r. destruct fl; [|done|done].
  destruct status as [v|v|v]; [done..|]. destruct Hfl as (_ & _ & <-). destruct Hst as [Hc ->]. rewrite app_nil_r. split; [done|].
  rewrite Ho in Hc. rewrite Exists_cons. apply andb_false_iff in Hc as [Hc|Hc]; [by left|].
  right; left. by apply negb_false_iff.
Qed.

(** Steps after which the session is gone: then every turn takes a packet. *)
Inductive session_goes : list session_step → nat → Prop :=
| Goes_now a after n :
    a.2 = true → Forall (λ b, b.1 = []) after → (n + length a.1 ≤ length after)%nat → session_goes (a :: after) n
| Goes_later a steps n : a.2 = false → session_goes steps (n + length a.1) → session_goes (a :: steps) n.

Section lemmas.
Context `{sys : System} (config : Config) (max : Z).

Lemma flush_connection_loop_spec steps timeout stats e :
  wf_wt max e → wf_sink (we_sink e) → Forall (λ a, Forall wf_Packet a.1) steps →
  flush_connection_loop steps config timeout stats e = NoFuel
  ∨ ∃ e' status stats', flush_connection_loop steps config timeout stats e = Ok (e', status, stats')
      ∧ flush_ended max steps e e' status.
Proof using Type.
  revert stats e. induction steps as [|a steps IH]; intros stats e Hwf Hs Hsteps; [by left|].
  apply Forall_cons in Hsteps as [Ha Hsteps]. cbn [flush_connection_loop].
  destruct (flush_turn flush config max a e Hwf Hs Ha) as (status & r & -> & e' & fl & st & Ef & Hturn). run.
  cbn [take_values]. unfold turn_env in Ef. rewrite Ef; run.
  pose proof Hturn as (Hs' & _ & _ & Hop & _ & Hfl). cbn zeta in Hfl.
  destruct fl as [v|v|v].
  - destruct Hfl as (Hwf' & Ho & _). destruct status as [w|w|w]; cbn [with_values].
    1,2: destruct (IH (SockStats_update stats st) e' Hwf' Hs' Hsteps) as [->|(e2 & q & st2 & -> & He)]; [by left|];
      right; eexists _, _, _; (split; [done|]); by eapply flush_ended_cons.
    right. eexists _, _, _. split; [done|]. by eapply flush_ended_here.
  - destruct Hfl as (Hwf' & Ho). cbn [now]. set (e1 := MkWtEnv _ _ _).
    assert (flush_ended max (a :: steps) e e1 (Q_Block v)) as Hend.
    { change (flush_ended max (a :: steps) e e' (Q_Block v)). eapply flush_ended_here; [exact Hturn|by destruct status]. }
    case_match; [right; eexists _, _, _; split; [done|exact Hend]|].
    destruct (IH (SockStats_update stats st) e1 Hwf' Hs' Hsteps) as [->|(e2 & q & st2 & -> & He)]; [by left|].
    right. eexists _, _, _. split; [done|]. by eapply flush_ended_cons.
  - right. eexists _, _, _. split; [done|]. eapply flush_ended_here; [exact Hturn|by destruct status].
Qed.

Lemma flush_gone_ends steps timeout stats e :
  wf_wt max e → wf_sink (we_sink e) → session_open e = false → Forall (λ b, b.1 = []) steps →
  (length (queue e) < length steps)%nat → flush_connection_loop steps config timeout stats e ≠ NoFuel.
Proof using Type.
  revert stats e. induction steps as [|a steps IH]; intros stats e Hwf Hs Ho Hsteps Hl; [cbn in Hl; lia|].
  apply Forall_cons in Hsteps as [Ha Hsteps]. cbn [flush_connection_loop].
  destruct (flush_turn flush config max a e Hwf Hs) as (status & r & -> & e' & fl & st & Ef & Hturn); [by rewrite Ha|]. run.
  cbn [take_values]. unfold turn_env in Ef. rewrite Ef; run. clear Ef.
  destruct Hturn as (Hs' & _ & Hq & Ho' & Hst & Hfl). rewrite Ho in Ho'. cbn [andb] in Ho'.
  rewrite Ha, app_nil_r in Hq. apply (f_equal length) in Hq. rewrite length_app in Hq.
  destruct status as [w|w|w]; cbn [with_values values] in *; [|congruence|].
  - assert (length (queue e') < length steps)%nat by (destruct w; [done|cbn in *; lia]).
    destruct fl; [|cbn [now]; destruct (_ || _); [done|]|done]; (apply IH; first [done|by destruct Hfl]).
  - destruct fl; [done| |done]. cbn [now]. by rewrite orb_true_r.
Qed.

Lemma flush_ends steps n timeout stats e :
  wf_wt max e → wf_sink (we_sink e) → Forall (λ a, Forall wf_Packet a.1) steps →
  session_goes steps n → (length (queue e) ≤ n)%nat →
  flush_connection_loop steps config timeout stats e ≠ NoFuel.
Proof using Type.
  intros Hwf Hs Hsteps Hgo. revert stats e Hwf Hs Hsteps.
  induction Hgo as [a after n Ha Hafter Hn|a steps n Ha Hgo IH]; intros stats e Hwf Hs Hsteps Hl;
    apply Forall_cons in Hsteps as [Hpa Hsteps]; cbn [flush_connection_loop];
    destruct (flush_turn flush config max a e Hwf Hs Hpa) as (status & r & -> & e' & fl & st & Ef & Hturn); run;
    cbn [take_values]; unfold turn_env in Ef; rewrite Ef; run; clear Ef;
    destruct Hturn as (Hs' & _ & Hq & Ho' & Hst & Hfl);
    apply (f_equal length) in Hq; rewrite !length_app in Hq.
  - rewrite Ha, andb_false_r in Ho'. destruct status as [w|w|w]; cbn [with_values values] in *; [|congruence|].
    + assert (length (queue e') < length after)%nat by (destruct w; [done|cbn in *; lia]).
      destruct fl; [|cbn [now]; destruct (_ || _); [done|]|done]; (apply flush_gone_ends; first [done|by destruct Hfl]).
    + destruct fl; [done| |done]. cbn [now]. by rewrite orb_true_r.
  - assert (length (queue e') ≤ n + length a.1)%nat by lia.
    destruct fl; [|cbn [now]; destruct (_ || _); [done|]|done]; [destruct status; try done|]; (apply IH; first [done|by destruct Hfl]).
Qed.
End lemmas.

(** What a session sends, once it is known that it has gone. *)
Lemma session_goes_all steps n taken rest :
  session_goes steps n → steps = taken ++ rest → Exists (λ a, a.2 = true) taken → taken ≫= fst = steps ≫= fst.
Proof.
  intros Hgo. revert taken. induction Hgo as [a after n Ha Hafter _|a steps n Ha _ IH]; intros [|b taken] E Hex;
    try (by apply Exists_nil in Hex); injection E as -> ->; cbn [mbind list_bind]; f_equal.
  - apply Forall_app in Hafter as [Ht Hr].
    assert (∀ l : list session_step, Forall (λ b, b.1 = []) l → l ≫= fst = []) as Hnil.
    { induction 1 as [|c l Hc _ IHl]; cbn; [done|]. by rewrite Hc, IHl. }
    rewrite bind_app. by rewrite !Hnil.
  - apply (IH taken); [done|]. apply Exists_cons in Hex as [Hex|Hex]; [congruence|done].
Qed.

(** What the peer will do next is what it was going to do, from some point on, and the
    clock is the same. *)
Definition later (e e' : wt_env) : Prop :=
  wr_events (we_conn e') `suffix_of` wr_events (we_conn e) ∧ ck_time (we_clock e') = ck_time (we_clock e).

#[export] Instance later_preorder : PreOrder later.
Proof.
  split; [by intros e|]. intros e1 e2 e3 [H1 E1] [H2 E2]. split; [by trans (wr_events (we_conn e2))|congruence].
Qed.

Lemma set_write_timeout_later retry secs e : later e (set_write_timeout retry secs e).
Proof. unfold set_write_timeout, set_timeout. by destruct retry, (wt_timeout (we_sink e)). Qed.

Lemma write_wait_later config st e : later e (write_wait config st e).1.
Proof.
  unfold write_wait, elapsed. cbn [now]. set (late := match wt_timeout (we_sink e) with Some t => _ | None => _ end).
  match goal with |- context [set_write_timeout _ _ ?x] => etrans; [|apply (set_write_timeout_later (negb late) (sock_mqtt_write_timeout config) x)] end.
  by split.
Qed.

Lemma write_packet_later config e e' q : write_packet config e = Ok (e', q) → later e e'.
Proof.
  unfold write_packet. destruct (MQTTWrite_write _ _) as [[[st wb] conn]|err| |] eqn:E; [|by case_match; intros [= <- _]|done..].
  apply MQTTWrite_write_suffix in E. set (e1 := MkWtEnv _ conn _). assert (later e e1) as He by done. clearbody e1.
  destruct st as [d m|d start m|d m|]; [(intros [= <- <-])..|done].
  all: try (trans e1; [done|apply write_wait_later]).
  all: trans e1; [done|]. all: pose proof (set_write_timeout_later false (sock_mqtt_write_timeout config) e1) as [? ?]; by split.
Qed.

Lemma flush_loop_later flush config iter st e r :
  flush_loop flush config iter st e = Ok r → later e r.1.1.1.
Proof.
  revert st e. induction iter as [|p iter IH]; intros st e; cbn [flush_loop];
    destruct (write_packet config e) as [[e1 q]|?| |] eqn:E; run; try done; apply write_packet_later in E.
  - destruct q; by intros [= <-].
  - destruct q; [|by intros [= <-]..]. destruct (encoded Packet_ p) as [bs|?| |]; [|by intros ?%IH; trans e1|done..].
    destruct (flush (we_conn e1)); [|by intros [= <-]]. destruct (MQTTWrite_reset _ _) as [w|?| |]; run; [|done..].
    intros Hr%IH. trans e1; [done|exact Hr].
Qed.

Lemma flush_packets_later flush config e e' q st : flush_packets flush config e = Ok (e', q, st) → later e e'.
Proof.
  unfold flush_packets. destruct (flush_loop _ _ _ _ _) as [[[[e1 q1] st1] iter]|?| |] eqn:E; run; [|done..].
  apply flush_loop_later in E. by intros [= <- _ _].
Qed.

Lemma flush_connection_loop_later `{sys : System} steps config timeout stats e r :
  flush_connection_loop steps config timeout stats e = Ok r → later e r.1.1.
Proof.
  revert stats e. induction steps as [|a steps IH]; intros stats e; cbn [flush_connection_loop]; [done|].
  destruct (try_recvs _) as [[status r1]|?| |]; run; [|done..]. cbn [take_values].
  destruct (flush_packets _ _ _) as [[[e1 q] st]|?| |] eqn:E; run; [|done..]. apply flush_packets_later in E.
  destruct q; [| |by intros [= <-]].
  - destruct status; cbn [with_values]; [| |by intros [= <-]]; intros Hr%IH; trans e1; [exact E|exact Hr|exact E|exact Hr].
  - cbn [now]. destruct (_ || _); [by intros [= <-]|]. intros Hr%IH. trans e1; [exact E|exact Hr].
Qed.

(** A clock that does not go back. *)
Definition monotone (ck : clock) : Prop := ∀ i j, (i ≤ j)%nat → ck_time ck i ≤ ck_time ck j.

Lemma late_answers_S n timeout t i :
  late_answers (S n) timeout (MkClock t i) = (timeout <? t i) :: late_answers n timeout (MkClock t (S i)).
Proof.
  unfold late_answers. cbn [seq fmap list_fmap ck_time ck_reads]. rewrite Nat.add_0_r. f_equal.
  rewrite <-seq_shift, <-list_fmap_compose. apply list_fmap_ext. intros k m _. cbn. by rewrite Nat.add_succ_r.
Qed.

(** A peer that is blocked when the deadline is behind: the loop goes on for ever. *)
Lemma send_disconnect_stuck data sent max timeout t i st wr n :
  wf_write data sent max st wr → blocked wr → monotone (MkClock t i) → timeout < t i →
  (∃ st', MQTTWrite_write st wr = Ok (st', true, wr)) →
  send_disconnect_loop (late_answers n timeout (MkClock t i)) st wr = NoFuel.
Proof.
  intros Hwf Hb Hm. revert i st Hwf Hm. induction n as [|n IH]; intros i st Hwf Hm Ht [st' E].
  { cbn [late_answers seq fmap list_fmap send_disconnect_loop]. by rewrite E; run. }
  rewrite late_answers_S. rewrite (proj2 (Z.ltb_lt _ _) Ht). cbn [send_disconnect_loop]. rewrite E; run.
  pose proof (MQTTWrite_blocked _ _ _ _ _ Hwf Hb) as Hs. rewrite E in Hs. destruct Hs as (_ & _ & Hs).
  apply IH; [|done| |by exists st'].
  - pose proof (MQTTWrite_write_post _ _ _ _ _ Hwf) as Hp. rewrite E in Hp. by destruct Hp.
  - specialize (Hm i (S i) ltac:(lia)). cbn in Hm. lia.
Qed.

(** Until then it either goes on or gives up. *)
Lemma send_disconnect_blocked data sent max timeout t n i st wr :
  wf_write data sent max st wr → blocked wr → (∃ st', MQTTWrite_write st wr = Ok (st', true, wr)) →
  match send_disconnect_loop (late_answers n timeout (MkClock t i)) st wr with
  | Err e => Error_kind e = EK_Disconnected
  | NoFuel => True
  | _ => False
  end.
Proof.
  intros Hwf Hb. revert i st Hwf. induction n as [|n IH]; intros i st Hwf [st' E].
  { cbn [late_answers seq fmap list_fmap send_disconnect_loop]. by rewrite E; run. }
  rewrite late_answers_S. cbn [send_disconnect_loop]. rewrite E; run. destruct (timeout <? t i); [|done].
  pose proof (MQTTWrite_blocked _ _ _ _ _ Hwf Hb) as Hs. rewrite E in Hs. destruct Hs as (_ & _ & Hs).
  apply IH; [|by exists st']. pose proof (MQTTWrite_write_post _ _ _ _ _ Hwf) as Hp. rewrite E in Hp. by destruct Hp.
Qed.

Lemma send_disconnect_loop_spec data sent max timeout t n i st wr :
  wf_write data sent max st wr → (length (wr_events wr) < n)%nat →
  match send_disconnect_loop (late_answers n timeout (MkClock t i)) st wr with
  | Ok wr' => ∃ part, wr_sent wr' = sent ++ part ∧ part `prefix_of` data
  | Err e => Error_kind e = EK_Disconnected
  | NoFuel => Wr_Blocked ∈ wr_events wr ∧ (∃ j, timeout < t j)
      ∧ (monotone (MkClock t i) → ∀ n', send_disconnect_loop (late_answers n' timeout (MkClock t i)) st wr = NoFuel)
  | Panic => False
  end.
Proof.
  revert i st wr. induction n as [|n IH]; intros i st wr Hwf Hn; [lia|].
  rewrite late_answers_S. cbn [send_disconnect_loop]. pose proof (MQTTWrite_write_post data sent max st wr Hwf) as Hp.
  destruct (MQTTWrite_write st wr) as [[[st' wb] wr']|err| |] eqn:E; run; [|by destruct Hp|done..].
  destruct Hp as [Hwf' Hfin]. destruct wb; [|by apply (wf_write_part _ _ _ _ _ Hwf')].
  destruct (Z.ltb_spec timeout (t i)) as [Ht|Ht]; [|done].
  destruct Hfin as [Hfin|[(Hb & -> & _)|[Hlt _]]]; [by rewrite (would_block_open _ _ _ _ E) in Hfin| |].
  - pose proof (MQTTWrite_blocked _ _ _ _ _ Hwf Hb) as Hs. rewrite E in Hs. destruct Hs as (_ & _ & Hs).
    pose proof (send_disconnect_blocked data sent max timeout t n (S i) st' wr Hwf' Hb (ex_intro _ _ Hs)) as Hbl.
    destruct (send_disconnect_loop _ _ _); try done. split; [destruct Hb as [evs ->]; by left|]. split; [by exists i|].
    intros Hm n'. by apply (send_disconnect_stuck data sent max); [..|exists st'].
  - specialize (IH (S i) st' wr' Hwf' ltac:(lia)). destruct (send_disconnect_loop _ _ _) as [wr2|err| |]; try done.
    destruct IH as (Hin & Hj & Hgo). split; [eapply elem_of_suffix; [exact Hin|by eapply MQTTWrite_write_suffix]|].
    split; [done|]. intros Hm [|n']; [cbn [late_answers seq fmap list_fmap send_disconnect_loop]; by rewrite E; run|].
    rewrite late_answers_S, (proj2 (Z.ltb_lt _ _) Ht). cbn [send_disconnect_loop]. rewrite E; run. by apply Hgo.
Qed.

(** A turn for a sink with nothing to write and a session that sends nothing. *)
Lemma flush_idle `{sys : System} config timeout n stats b size d m t conn ck :
  flush_connection_loop (replicate n ([], false)) config timeout stats
    (MkWtEnv (MkSink (MW_Fin d m) t (MkRx b (MkChannel [] size true)) []) conn ck) = NoFuel.
Proof.
  revert stats t. induction n as [|n IH]; intros stats t; [done|]. cbn [replicate flush_connection_loop].
  unfold try_recvs. cbn. run. apply IH.
Qed.

(** ** Theorems *)

(** The session is gone, or goes in these steps, and does not leave more in its queue than
    there are steps to take it. *)
Definition session_ends (steps : list session_step) (e : wt_env) : Prop :=
  if session_open e then session_goes steps (length (queue e))
  else Forall (λ a, a.1 = []) steps ∧ (length (queue e) < length steps)%nat.

(** What flushing a connection comes to. *)
Definition flush_result (config : Config) (so : Socket) (err : option Error) (steps : list session_step) (w : world)
    (max : Z) (fl : flushed) : Prop :=
  let stream := outgoing max (wt_env_of so w) ++ blobs max (steps ≫= fst) in
  let sent := wr_sent (we_conn (fl_env fl)) in
  sent `prefix_of` stream ∧ (if fl_status fl is Q_Ok _ then sent = stream else True)
  ∧ ∃ code dc, disconnect_code err = Ok code ∧ encoded Disconnect_ (MkDisconnect code None) = Ok dc
    ∧ from_option (λ conn, ∃ part, wr_sent conn = sent ++ part ∧ part `prefix_of` dc) True (fl_disconnect fl).

(** The loop ends, whatever the peer does. *)
Lemma flush_loop_ends `{sys : System} config steps timeout e max :
  wf_wt max e → wf_sink (we_sink e) → Forall (λ a, Forall wf_Packet a.1) steps → session_ends steps e →
  ∃ e' status stats, flush_connection_loop steps config timeout SockStats_default e = Ok (e', status, stats)
    ∧ later e e'
    ∧ let stream := outgoing max e ++ blobs max (steps ≫= fst) in
      wr_sent (we_conn e') `prefix_of` stream ∧ (if status is Q_Ok _ then wr_sent (we_conn e') = stream else True).
Proof.
  intros Hwf Hs Hsteps Hends. unfold session_ends in Hends.
  destruct (flush_connection_loop_spec config max steps timeout SockStats_default e Hwf Hs Hsteps)
    as [E|(e' & status & stats & E & taken & rest & Et & Hend)].
  { destruct (session_open e) eqn:Ho.
    - by destruct (flush_ends config max steps _ timeout SockStats_default e Hwf Hs Hsteps Hends).
    - destruct Hends. by destruct (flush_gone_ends config max steps timeout SockStats_default e Hwf Hs Ho). }
  exists e', status, stats. split; [done|]. split; [by apply flush_connection_loop_later in E|]. cbn zeta in *.
  rewrite Et, bind_app, blobs_app, app_assoc.
  assert (wr_sent (we_conn e') `prefix_of` outgoing max e ++ blobs max (taken ≫= fst)) as Hpre.
  { destruct status; [by destruct Hend as [-> _]| |exact Hend]. destruct Hend as [_ <-].
    unfold outgoing, out. rewrite <-app_assoc. by eexists. }
  split; [by apply prefix_app_r|]. destruct status; [|done|done]. destruct Hend as [-> Hgone].
  assert (rest ≫= fst = []) as ->; [|by rewrite app_nil_r]. destruct (session_open e) eqn:Ho.
  - destruct Hgone as [?|Hgone]; [done|]. pose proof (session_goes_all _ _ _ _ Hends Et Hgone) as Ea.
    rewrite Et, bind_app in Ea. apply (f_equal length) in Ea. rewrite length_app in Ea. destruct (rest ≫= fst); [done|cbn in Ea; lia].
  - destruct Hends as [Hn _]. rewrite Et in Hn. apply Forall_app in Hn as [_ Hn].
    clear -Hn. induction Hn as [|b rest Hb _ IH]; [done|]. cbn. by rewrite Hb, IH.
Qed.

(** C25. Flushing a connection whose session has gone, or goes.  The loop over what
    the session leaves always ends, even if the peer takes nothing: what has been written then
    is the start of what was on its way and of what the session has sent since, in
    order, and all of it if the last flush did not block or fail; behind it comes the start of
    a DISCONNECT, if one could be sent.  Only sending the DISCONNECT may not end: that
    needs a peer that is blocked for good and a deadline that has passed, and then
    it goes on for ever, as long as time does not go back.  The thread panics exactly on an
    unknown peer and on an error without a reason code for a DISCONNECT. *)
Theorem flush_connection_ends `{sys : System} config so err steps w max :
  wf_wt max (wt_env_of so w) → wf_sink (so_wt so) → Forall (λ a, Forall wf_Packet a.1) steps →
  session_ends steps (wt_env_of so w) →
  match flush_connection config so err steps w with
  | Ok fl => peer_addr (so_conn so) ≠ None ∧ flush_result config so err steps w max fl
  | NoFuel => peer_addr (so_conn so) ≠ None ∧ disconnect_code err ≠ Panic
      ∧ Wr_Blocked ∈ wr_events (tcp_wr (so_conn so))
      ∧ (∃ j, ck_time (w_clock w) (ck_reads (w_clock w)) + from_secs (sock_mqtt_flush_timeout config) < ck_time (w_clock w) j)
      ∧ (monotone (w_clock w) → ∀ looks, flush_connection_for looks config so err steps w = NoFuel)
  | Panic => peer_addr (so_conn so) = None ∨ disconnect_code err = Panic
  | Err _ => False
  end.
Proof.
  intros Hwf Hs Hsteps Hends. unfold flush_connection, flush_connection_for. cbn [now].
  destruct (peer_addr (so_conn so)) as [raddr|] eqn:Er; cbn [opt_unwrap]; run; [|by left].
  set (timeout := _ + _). set (w0 := MkWorld _ _).
  destruct (flush_loop_ends config steps timeout (wt_env_of so w0) max Hwf Hs Hsteps Hends)
    as (e & status & stats & -> & [Hsuf Hck] & Hpre & Hall). run.
  destruct (disconnect_code err) as [code|?| |] eqn:Ecode; run; [| |by right|].
  2,3: by destruct err as [err|]; [unfold disconnect_code in Ecode; destruct (Error_code err)|].
  destruct (encoded Disconnect_ (MkDisconnect code None)) as [dc|?| |] eqn:Edc; [|by destruct code..].
  assert (∀ looks, send_disconnect code (we_conn e) (late_answers looks timeout (we_clock e)) (mqtt_max_packet_size config)
    = send_disconnect_loop (late_answers looks timeout (we_clock e)) (MQTTWrite_new dc (mqtt_max_packet_size config)) (we_conn e)) as Esend
    by (intros looks; unfold send_disconnect; by rewrite Edc).
  destruct (we_clock e) as [t i] eqn:Eck. cbn [ck_time w0 wt_env_of we_clock w_clock] in Hck. subst t.
  pose proof (send_disconnect_loop_spec dc (wr_sent (we_conn e)) (mqtt_max_packet_size config) timeout (ck_time (w_clock w))
    (S (length (wr_events (tcp_wr (so_conn so))))) i (MQTTWrite_new dc (mqtt_max_packet_size config)) (we_conn e)
    ltac:(done) ltac:(apply suffix_length in Hsuf; cbn in Hsuf; lia)) as Hsend.
  rewrite Esend. destruct (send_disconnect_loop _ _ _) as [conn|err'| |] eqn:El.
  - split; [done|]. split_and!; [done|done|]. by exists code, dc.
  - split; [done|]. split_and!; [done|done|]. by exists code, dc.
  - done.
  - destruct Hsend as (Hin & Hj & Hgo). split; [done|]. split; [done|]. split; [by eapply elem_of_suffix|]. split; [done|].
    intros Hm looks. rewrite Esend. by rewrite (Hgo Hm).
Qed.

(** As long as the session of a connection keeps its queue, and the connection takes
    what comes, flushing does not end: the deadline is looked at only when the
    connection blocks. *)
Theorem flush_waits_for_session `{sys : System} config so err w n d m :
  peer_addr (so_conn so) ≠ None → pw (so_wt so) = MW_Fin d m → wt_packets (so_wt so) = [] →
  queue (wt_env_of so w) = [] → session_open (wt_env_of so w) = true →
  flush_connection config so err (replicate n ([], false)) w = NoFuel.
Proof.
  intros Hp Hpw Hpk Hq Ho. unfold flush_connection, flush_connection_for. cbn [now].
  destruct (peer_addr (so_conn so)); [|done]. cbn [opt_unwrap]; run.
  destruct so as [id tok conn rd [p t [b [items size op]] pkts]]. unfold queue, session_open in Hq, Ho.
  cbn in Hpw, Hpk, Hq, Ho. subst. unfold wt_env_of. cbn [so_wt so_conn w_clock]. by rewrite flush_idle.
Qed.

Lemma flush_waits_for_session_witness :
  let so := MkSocket [97] (MkTcpStream [] (MkWriter [Wr_Accept 100] [])) 2
    (MkSource (MQTTRead_new 100) None (MkTx (MkChannel [] 4 true) 0) [])
    (MkSink (MW_Fin [] 100) None (MkRx 4 (MkChannel [] 4 true)) []) in
  flush_connection (sys := ex_os) (Config_default 1) so None (replicate 1000 ([], false)) ex_world = NoFuel.
Proof. by eapply (flush_waits_for_session (sys := ex_os)). Defined.

(** The DISCONNECT of a flushed connection has the reason code of its error, unless
    no DISCONNECT can have it: then the thread panics. *)
Theorem disconnect_code_spec err :
  match disconnect_code (Some err) with
  | Ok code => DisconnReasonCode_as_u8 code = ReasonCode_as_u8 (Error_code err)
  | Panic => Error_code err ∈ [RC_QoS1; RC_QoS2; RC_NoMatchingSubscribers; RC_NoSubscriptionExisted;
      RC_ContinueAuthentication; RC_ReAuthenticate; RC_UnsupportedProtocolVersion; RC_InvalidClientID;
      RC_BadLogin; RC_ServerNotAvailable; RC_Banned; RC_BadAuthenticationMethod; RC_PacketIdInuse;
      RC_PacketIdNotFound]
  | _ => False
  end.
Proof. unfold disconnect_code. destruct (Error_code err); cbn; try done; set_solver. Qed.

Definition ex_steps : list session_step := [([Pkt_PingResp], false); ([], true); ([], false); ([], false)].

Lemma flush_connection_ends_witness :
  ∃ fl, flush_connection (sys := ex_os) (Config_default 1) (ex_socket [97] 2 []) None ex_steps ex_world = Ok fl
    ∧ flush_result (Config_default 1) (ex_socket [97] 2 []) None ex_steps ex_world 100 fl.
Proof.
  assert (session_ends ex_steps (wt_env_of (ex_socket [97] 2 []) ex_world)) as Hends.
  { apply Goes_later; [done|]. apply Goes_now; [done|by repeat constructor|cbn; lia]. }
  assert (wf_wt 100 (wt_env_of (ex_socket [97] 2 []) ex_world)) as Hwf by (exists [], []; by cbn).
  assert (wf_sink (so_wt (ex_socket [97] 2 []))) as Hs by (split; by repeat constructor).
  assert (Forall (λ a, Forall wf_Packet a.1) ex_steps) as Hp by by repeat constructor.
  pose proof (flush_connection_ends (sys := ex_os) (Config_default 1) (ex_socket [97] 2 []) None ex_steps ex_world 100
    Hwf Hs Hp Hends) as H.
  destruct (flush_connection _ _ _ _ _) as [fl|?| |].
  - destruct H as [_ H]. by exists fl.
  - done.
  - by destruct H.
  - destruct H as (_ & _ & H & _). by apply list_elem_of_singleton in H.
Defined.

(** A peer that takes one byte and then nothing, and a session that leaves a ping: the
    connection is given up at the deadline, ten seconds on, and then the DISCONNECT is tried, however
    often the clock is looked at. *)
Definition ex_blocked : Socket :=
  MkSocket [97] (MkTcpStream [] (MkWriter [Wr_Accept 1; Wr_Blocked] [])) 2
    (MkSource (MQTTRead_new 100) None (MkTx (MkChannel [] 2 true) 0) [])
    (MkSink (MQTTWrite_new [] 100) None (MkRx 2 (MkChannel [Pkt_PingResp] 2 true)) []).

Definition ex_slow_world : world := MkWorld (MkClock (λ i, Z.of_nat i * 10000000000) 0) false.

Example ex_flush_stuck :
  flush_connection_for (sys := ex_os) 50 (Config_default 1) ex_blocked None [([], true); ([], false)] ex_slow_world = NoFuel.
Proof. lazy. reflexivity. Qed.

(** With time left the same connection is given up at once. *)
Example ex_flush_given_up :
  match flush_connection (sys := ex_os) (Config_default 1) ex_blocked None [([], true); ([], false)] ex_world with
  | Ok fl => fl_disconnect fl = None
  | _ => False
  end.
Proof. lazy. reflexivity. Qed.

(** A connection that blocks in the middle of a packet when the session has gone: the
    rest of the packet is dropped although there is time, and the DISCONNECT begins
    where it should be. *)
Example ex_flush_cut :
  match flush_connection (sys := ex_os) (Config_default 1)
      (MkSocket [97] (MkTcpStream [] (MkWriter [Wr_Accept 1; Wr_Accept 9] [])) 2
        (MkSource (MQTTRead_new 100) None (MkTx (MkChannel [] 2 true) 0) [])
        (MkSink (MQTTWrite_new [] 100) None (MkRx 2 (MkChannel [Pkt_PingResp] 2 true)) []))
      None [([], true)] ex_world with
  | Ok fl => wr_sent <$> fl_disconnect fl = Some [208; 224; 2; 0; 0]
  | _ => False
  end.
Proof. lazy. reflexivity. Qed.

(** A client that is connected sends another CONNECT, of version 3: the error of the
    socket has a reason code that no DISCONNECT can have. *)
Example ex_second_connect :
  match read_conn (sys := ex_os) (Config_default 1)
      (ex_socket [97] 2 [Rd_Data [16; 13; 0; 4; 77]; Rd_Data [81; 84; 84; 3; 2; 0; 10; 0; 1; 97]]) ex_world with
  | Ok (so, w, None) =>
      match read_conn (sys := ex_os) (Config_default 1) so w with
      | Ok (_, _, Some err) => disconnect_code err = Panic
      | _ => False
      end
  | _ => False
  end.
Proof. lazy. reflexivity. Qed.
