(* ===== verification/Session.v ===== *)
(** * Sessions (src/src/broker/session.rs)

    [SessionState] and what a session does on its own: back-logs towards the miot
    thread, packet identifiers, acknowledgements, topic aliases, duplicates.  What
    it does with its shard is in Shard, the theorems are in SessionProps. *)
From S2P Require Import Prelude Errors Utf8 Types V5Header V5PubAck V5ConnAck V5Connect V5Publish V5Subscribe V5Packet Queues Config SortedVec BTree Message Subscription.
Local Open Scope Z_scope.

Abbreviation PktTx := (QueueTx Packet).
Abbreviation PktRx := (QueueRx Packet).

(** ** State *)

Record Active := MkActive {
  sa_config : Config;
  sa_keep_alive : KeepAlive;
  sa_connect : Connect;
  miot_tx : PktTx;
  session_rx : PktRx;
  topic_aliases : btree Z rstring;
  subscriptions : btree rstring Subscription;
  inp_qos12 : list Z;
  qos0_back_log : list Message;
  out_acks : list Message;
  qos12_unacks : btree Z Message;
  next_packet_id : Z;
  out_seqno : Z;
  back_log : btree Z Message;
}.
#[export] Instance Active_eta : Eta Active :=
  λ a, MkActive (sa_config a) (sa_keep_alive a) (sa_connect a) (miot_tx a) (session_rx a)
    (topic_aliases a) (subscriptions a) (inp_qos12 a) (qos0_back_log a) (out_acks a)
    (qos12_unacks a) (next_packet_id a) (out_seqno a) (back_log a).

Inductive SessionState : Type :=
| SS_Active (a : Active)
| SS_Reconnect (topic_aliases : btree Z rstring) (subscriptions : btree rstring Subscription)
    (inp_qos12 : list Z) (next_packet_id out_seqno : Z)
| SS_Replica (config : Config) (out_seqno : Z) (back_log : btree Z Message).

Record Session := MkSession {
  client_id : rstring;
  sess_shard_id : Z;
  sess_config : Config;
  state : SessionState;
}.
#[export] Instance Session_eta : Eta Session :=
  λ s, MkSession (client_id s) (sess_shard_id s) (sess_config s) (state s).

(** [match self { SessionState::Active { .. } => .., ss => unreachable!() }] *)
Definition active (st : SessionState) : Result Active :=
  match st with SS_Active a => Ok a | _ => Panic end.

(** ** Operations of SessionState *)

(** Sends what the queue takes; the rest of the messages is in the status. *)
Definition flush_to_miot (mtx : PktTx) (msgs : list Message) : Result (QueueMsg * PktTx) :=
  pkts ← mapM_out to_v5_packet msgs;
  let '(status, mtx) := try_sends pkts mtx in
  let '(pkts, status) := take_values status in
  status ← QueueStatus_map status (drop (length msgs - length pkts) msgs);
  Ok (status, mtx).

Definition incr_out_seqno (msg : Message) (st : SessionState) : Result (Message * SessionState) :=
  a ← active st;
  let seqno := out_seqno a in
  let a := a <| out_seqno := Z.min (seqno + 1) (2 ^ 64 - 1) |> in
  Ok (match msg with
      | Msg_Routed shard client inp _ publish ack => Msg_Routed shard client inp seqno publish ack
      | msg => msg
      end, SS_Active a).

Definition out_qos0 (msgs : list Message) (st : SessionState) : Result (QueueMsg * SessionState) :=
  a ← active st;
  let m := Z.of_nat (length (qos0_back_log a)) in
  let n := mqtt_pkt_batch_size (sa_config a) * 4 in
  if n <? m then Ok (Q_Disconnected [], st)
  else
    msgs ← mapM_out (into_packet None) msgs;
    '(status, mtx) ← flush_to_miot (miot_tx a) (qos0_back_log a ++ msgs);
    let '(rest, status) := take_values status in
    Ok (status, SS_Active ((a : Active) <| miot_tx := mtx |> <| qos0_back_log := rest |>)).

(** The three loops of [out_qos_active]: new messages get packet identifiers (a u16
    that wraps around) and go to the back-log; a batch is taken from its front, and
    recorded as not acknowledged. *)
Fixpoint assign_ids (msgs : list Message) (a : Active) : Result Active :=
  match msgs with
  | [] => Ok a
  | msg :: msgs =>
      let packet_id := next_packet_id a in
      let a := a <| next_packet_id := (packet_id + 1) `mod` 65536 |> in
      msg ← into_packet (Some packet_id) msg;
      seqno ← to_out_seqno msg;
      assign_ids msgs (a <| back_log := bt_insert Z.compare seqno msg (back_log a) |>)
  end.

Fixpoint pop_batch (max : Z) (msgs : list Message) (back_log : btree Z Message)
    : list Message * btree Z Message :=
  if len msgs <? max then
    match back_log with
    | (_, msg) :: back_log => pop_batch max (msgs ++ [msg]) back_log
    | [] => (msgs, [])
    end
  else (msgs, back_log).

Definition book_unack (unacks : btree Z Message) (msg : Message) : Result (btree Z Message) :=
  packet_id ← to_packet_id msg;
  Ok (bt_insert Z.compare packet_id msg unacks).

(** The messages the queue did not take go back. *)
Definition put_back (a : Active) (msg : Message) : Result Active :=
  packet_id ← to_packet_id msg;
  seqno ← to_out_seqno msg;
  Ok (a <| back_log := bt_insert Z.compare seqno msg (back_log a) |>
        <| qos12_unacks := bt_remove Z.compare packet_id (qos12_unacks a) |>).

Definition out_qos_active (msgs : list Message) (st : SessionState)
    : Result (QueueMsg * SessionState) :=
  a ← active st;
  let m := Z.of_nat (length (back_log a)) in
  let n := mqtt_pkt_batch_size (sa_config a) * 4 in
  if n <? m then Ok (Q_Disconnected [], st)
  else if mqtt_receive_maximum (sa_config a) <=? Z.of_nat (length (qos12_unacks a))
  then Ok (Q_Block [], st)
  else
    a ← assign_ids msgs a;
    let '(msgs, rest_log) := pop_batch (mqtt_pkt_batch_size (sa_config a)) [] (back_log a) in
    unacks ← foldM book_unack (qos12_unacks a) msgs;
    '(status, mtx) ← flush_to_miot (miot_tx a) msgs;
    let '(rest, status) := take_values status in
    a ← foldM put_back ((a : Active) <| back_log := rest_log |> <| qos12_unacks := unacks |>
                          <| miot_tx := mtx |>) rest;
    Ok (status, SS_Active a).

(** It asks for the state [Active], which a replica never is in. *)
Definition out_qos_replica (msgs : list Message) (st : SessionState)
    : Result (QueueMsg * SessionState) :=
  a ← active st;
  bl ← foldM (λ bl msg,
    msg ← into_packet None msg;
    seqno ← to_out_seqno msg;
    Ok (bt_insert Z.compare seqno msg bl)) (back_log a) msgs;
  Ok (Q_Ok [], SS_Active ((a : Active) <| back_log := bl |>)).

Definition out_qos (msgs : list Message) (st : SessionState) : Result (QueueMsg * SessionState) :=
  match st with
  | SS_Active _ => out_qos_active msgs st
  | SS_Replica _ _ _ => out_qos_replica msgs st
  | _ => Panic
  end.

Definition out_acks_extend (msgs : list Message) (st : SessionState) : Result SessionState :=
  a ← active st;
  Ok (SS_Active ((a : Active) <| out_acks := out_acks a ++ msgs |>)).

Definition out_acks_publish (packet_id : Z) (st : SessionState) : Result SessionState :=
  a ← active st;
  Ok (SS_Active ((a : Active) <| out_acks := out_acks a ++ [new_pub_ack (Pub_new_pub_ack packet_id)] |>)).

Definition search_id (packet_id : Z) (ids : list Z) : Result (bool * nat) :=
  binary_search_by (λ id, Ok (Z.compare id packet_id)) ids.

(** The loop over the acknowledgements: it looks for PUBLISH packets. *)
Definition release_id (ids : list Z) (ack : Message) : Result (list Z) :=
  match ack with
  | Msg_ClientAck (Pkt_Publish publish) =>
      match publish_packet_id publish with
      | Some packet_id =>
          '(found, off) ← search_id packet_id ids;
          if found : bool then '(_, ids) ← vec_remove off ids; Ok ids else Ok ids
      | None => Ok ids
      end
  | Msg_ClientAck _ => Ok ids
  | _ => Panic
  end.

Definition out_acks_flush (st : SessionState) : Result (QueueMsg * SessionState) :=
  a ← active st;
  ids ← foldM release_id (inp_qos12 a) (out_acks a);
  '(status, mtx) ← flush_to_miot (miot_tx a) (out_acks a);
  let '(rest, status) := take_values status in
  Ok (status, SS_Active ((a : Active) <| inp_qos12 := ids |> <| miot_tx := mtx |> <| out_acks := rest |>)).

Definition commit_acks (out_seqnos : list Z) (st : SessionState) : Result SessionState :=
  match st with
  | SS_Active _ => Ok st
  | SS_Replica config seqno back_log =>
      Ok (SS_Replica config seqno
        (foldl (λ back_log seqno, bt_remove Z.compare seqno back_log) back_log out_seqnos))
  | _ => Panic
  end.

Definition state_publish_topic_name (publ : Publish) (st : SessionState) : Result (rstring * SessionState) :=
  a ← active st;
  let topic_name := publish_topic_name publ in
  let server_alias_max := config_topic_alias_max (sa_config a) in
  match Publish_topic_alias publ with
  | Some alias =>
      match server_alias_max with
      | None => err EK_ProtocolError RC_TopicAliasInvalid
      | Some max =>
          if max <? alias then err EK_ProtocolError RC_TopicAliasInvalid
          else if (0 <? length topic_name)%nat then
            Ok (topic_name,
              SS_Active ((a : Active) <| topic_aliases := bt_insert Z.compare alias topic_name (topic_aliases a) |>))
          else
            match bt_get Z.compare alias (topic_aliases a) with
            | Some topic_name => Ok (topic_name, st)
            | None => err EK_ProtocolError RC_TopicAliasInvalid
            end
      end
  | None =>
      if (length topic_name =? 0)%nat then err EK_ProtocolError RC_TopicNameInvalid
      else Ok (topic_name, st)
  end.

Definition is_duplicate (publish : Publish) (st : SessionState) : Result bool :=
  a ← active st;
  match publish_qos publish with
  | QoS_AtMostOnce => Ok false
  | QoS_AtLeastOnce | QoS_ExactlyOnce =>
      if publish_duplicate publish then Ok (negb (mqtt_ignore_duplicate (sa_config a)))
      else
        packet_id ← opt_unwrap (publish_packet_id publish);
        '(found, _) ← search_id packet_id (inp_qos12 a);
        Ok found
  end.

Definition book_qos (publish : Publish) (st : SessionState) : Result SessionState :=
  a ← active st;
  match publish_qos publish with
  | QoS_AtMostOnce => Ok st
  | QoS_AtLeastOnce | QoS_ExactlyOnce =>
      packet_id ← opt_unwrap (publish_packet_id publish);
      '(found, off) ← search_id packet_id (inp_qos12 a);
      if found : bool then Ok st
      else
        ids ← vec_insert off packet_id (inp_qos12 a);
        Ok (SS_Active ((a : Active) <| inp_qos12 := ids |>))
  end.

(** ** The operations of Session *)

Definition Session_new (client_id : rstring) (shard_id : Z) (miot_tx : PktTx) (session_rx : PktRx)
    (config : Config) (pkt : Connect) (now : Z) : Session :=
  MkSession client_id shard_id config
    (SS_Active (MkActive config (KeepAlive_new pkt config now) pkt miot_tx session_rx
       [] [] [] [] [] [] 1 1 [])).

(** [success_ack] *)
Definition success_ack (pkt : Connect) (s : Session) : Result ConnAck :=
  a ← active (state s);
  let config := sess_config s in
  let sei := match mqtt_session_expiry_interval config, Connect_session_expiry_interval pkt with
             | Some _, Some two => Some two
             | Some one, None => Some one
             | None, Some two => Some two
             | None, None => None
             end in
  qos ← res_unwrap (QoS_try_from (mqtt_maximum_qos config));
  let props := MkConnAckProperties sei (Some (mqtt_receive_maximum config)) (Some qos)
    (Some (mqtt_retain_available config)) (Some (mqtt_max_packet_size config)) None
    (config_topic_alias_max config) None (Some true) (Some true) None None None None None None [] in
  let props := if (length (cpl_client_id (connect_payload pkt)) =? 0)%nat
               then props <| cap_assigned_client_identifier := Some (client_id s) |> else props in
  let props := match keep_alive (sa_keep_alive a) with
               | Some secs => props <| cap_server_keep_alive := Some secs |>
               | None => props
               end in
  Ok (ConnAck_new_success (Some props)).

(** [incr_out_seqno], [out_qos0] and the others pass the call on to the state. *)
Definition on_state {A} (f : SessionState → Result (A * SessionState)) (s : Session)
    : Result (A * Session) :=
  '(res, st) ← f (state s);
  Ok (res, MkSession (client_id s) (sess_shard_id s) (sess_config s) st).

Definition Session_out_acks_flush (s : Session) : Result (QueueStatus Packet * Session) :=
  '(status, s) ← on_state out_acks_flush s;
  status ← QueueStatus_map status (@nil Packet);
  Ok (status, s).
