(* ===== verification/SessionProps.v ===== *)
(** * Sessions: invariant and theorems

    The lemmas and theorems about the operations of Session: its invariant, the
    order of the messages to the socket, packet identifiers and topic aliases. *)
From S2P Require Import Prelude Errors Utf8 Types V5Header V5PubAck V5ConnAck V5Connect V5Publish V5Subscribe V5Packet Queues Config SortedVec BTree Message Subscription Session.
Local Open Scope Z_scope.

(** ** Lemmas *)

Lemma flush_to_miot_spec mtx msgs :
  Forall sendable msgs →
  ∃ status mtx' sent rest, flush_to_miot mtx msgs = Ok (status, mtx') ∧ msgs = sent ++ rest
    ∧ values status = rest ∧ ch_items (tx mtx') = ch_items (tx mtx) ++ pkts_of sent
    ∧ (if status is Q_Ok _ then rest = [] else True).
Proof.
  intros Hs. unfold flush_to_miot. rewrite sendable_pkts by done; run.
  destruct (try_sends_spec (pkts_of msgs) mtx) as (sent & rest & E & Hi & _ & Hv & _ & Hq & _).
  destruct (try_sends (pkts_of msgs) mtx) as [status mtx']; cbn [fst snd take_values] in *.
  pose proof (sendable_length msgs Hs) as Hl. rewrite E, length_app in Hl.
  set (k := (length msgs - length rest)%nat).
  assert (pkts_of (take k msgs) = sent) as Ht.
  { assert (length (pkts_of (take k msgs)) = length sent) as Hlt.
    { rewrite sendable_length by by apply Forall_take. rewrite length_take. unfold k. lia. }
    rewrite <-(take_drop k msgs), pkts_of_app in E. by apply app_inj_1 in E as [? _]. }
  unfold QueueStatus_map. rewrite Hv.
  assert (length (values (with_values status (@nil Packet))) = 0%nat) as -> by by destruct status.
  cbn [Nat.eqb]. eexists _, mtx', (take k msgs), (drop k msgs). split; [done|].
  split; [by rewrite take_drop|]. split; [by destruct status|]. split; [by rewrite Hi, Ht|].
  destruct status; cbn [with_values]; try done. subst rest. apply drop_ge. unfold k. rewrite Hq. cbn [length]. lia.
Qed.

(** What the miot thread is owed: what is in its queue, then the back-log. *)
Definition owed0 (a : Active) : list Packet :=
  ch_items (tx (miot_tx a)) ++ pkts_of (qos0_back_log a).

(** The packet that a routed message becomes. *)
Definition routed_packet (pktid : option Z) (m : Message) : list Packet :=
  match m with
  | Msg_Routed _ _ _ _ publish _ =>
      [Pkt_Publish (match pktid with Some id => Publish_set_packet_id publish id | None => publish end)]
  | _ => []
  end.

Definition is_routed (m : Message) : Prop :=
  match m with Msg_Routed _ _ _ _ _ _ => True | _ => False end.

Lemma into_packets_None msgs :
  Forall is_routed msgs →
  ∃ ms, mapM_out (into_packet None) msgs = Ok ms ∧ Forall sendable ms
    ∧ pkts_of ms = msgs ≫= routed_packet None.
Proof.
  induction 1 as [|m msgs Hm _ (ms & E & Hs & Hp)]; [by exists []|].
  destruct m as [| | |sh cl inp out publ ack|]; try done.
  cbn [mapM_out into_packet]; run. rewrite E; run.
  exists (Msg_Packet out None publ :: ms). split; [done|]. split; [constructor; [by eexists|done]|].
  rewrite (pkts_of_cons _ (Pkt_Publish publ)) by done. by rewrite Hp.
Qed.

(** *** Messages that are to be acknowledged *)

Definition entry_id (e : Z * Message) : Z :=
  match e.2 with Msg_Packet _ (Some id) _ => id | _ => 0 end.

(** An entry of the back-log: under its sequence number, with its packet identifier. *)
Definition log_entry (e : Z * Message) : Prop :=
  ∃ id publ, e.2 = Msg_Packet e.1 (Some id) publ.

(** What [assign_ids] makes of routed messages. *)
Fixpoint assigned (id : Z) (msgs : list Message) : btree Z Message :=
  match msgs with
  | Msg_Routed _ _ _ seqno publish _ :: msgs =>
      (seqno, Msg_Packet seqno (Some id) (Publish_set_packet_id publish id))
        :: assigned ((id + 1) `mod` 65536) msgs
  | _ => []
  end.

Lemma assigned_entries id msgs : Forall log_entry (assigned id msgs).
Proof.
  revert id. induction msgs as [|m msgs IH]; intros id; cbn; [done|]. destruct m; try done.
  constructor; [by eexists _, _|apply IH].
Qed.

Lemma entries_sendable es : Forall log_entry es → Forall sendable (snd <$> es).
Proof.
  intros H. apply Forall_fmap. eapply Forall_impl; [exact H|].
  intros [s m] (id & p & E). cbn in *. rewrite E. by eexists.
Qed.

(** A session with other back-log, unacknowledged messages, identifier and queue. *)
Definition with12 (a : Active) (bl unacks : btree Z Message) (next : Z) (mtx : PktTx) : Active :=
  MkActive (sa_config a) (sa_keep_alive a) (sa_connect a) mtx (session_rx a) (topic_aliases a)
    (subscriptions a) (inp_qos12 a) (qos0_back_log a) (out_acks a) unacks next (out_seqno a) bl.

Lemma with12_id a : with12 a (back_log a) (qos12_unacks a) (next_packet_id a) (miot_tx a) = a.
Proof. by destruct a. Qed.

Lemma assign_ids_spec msgs a :
  Forall is_routed msgs → bt_wf Z.compare (back_log a ++ assigned (next_packet_id a) msgs) →
  ∃ id', assign_ids msgs a
    = Ok (with12 a (back_log a ++ assigned (next_packet_id a) msgs) (qos12_unacks a) id' (miot_tx a)).
Proof.
  intros Hr. revert a. induction Hr as [|m msgs Hm _ IH]; intros a Hwf.
  { exists (next_packet_id a). cbn [assigned]. by rewrite app_nil_r, with12_id. }
  destruct m as [| | |sh cl inp seqno publ ack|]; try done.
  cbn [assign_ids into_packet to_out_seqno assigned] in *; run.
  set (e := Msg_Packet seqno _ _) in *. set (id1 := (next_packet_id a + 1) `mod` 65536) in *.
  cbn [to_out_seqno e]; run.
  set (a1 := with12 a (bt_insert Z.compare seqno e (back_log a)) (qos12_unacks a) id1 (miot_tx a)). assert (back_log a1 = back_log a ++ [(seqno, e)]) as Hb.
  { pose proof (bt_insert_cut Z.compare (back_log a) seqno e []) as Hc. rewrite app_nil_r in Hc. apply Hc.
    unfold bt_wf in *. rewrite cons_middle, app_assoc in Hwf. by apply sorted_app in Hwf as [? _]. }
  destruct (IH a1) as [id' E].
  { rewrite Hb, <-app_assoc. exact Hwf. }
  exists id'. etrans; [exact E|]. rewrite Hb, <-app_assoc.
  done.
Qed.

Lemma pop_batch_spec max msgs bl :
  pop_batch max msgs bl
  = (msgs ++ (snd <$> take (Z.to_nat (max - len msgs)) bl), drop (Z.to_nat (max - len msgs)) bl).
Proof.
  revert msgs. induction bl as [|[s m] bl IH]; intros msgs; cbn [pop_batch].
  - rewrite take_nil, drop_nil, app_nil_r. by case_match.
  - destruct (Z.ltb_spec (len msgs) max) as [Hlt|Hge].
    + rewrite IH. replace (Z.to_nat (max - len msgs)) with (S (Z.to_nat (max - len (msgs ++ [m]))))
        by (rewrite len_app; change (len [m]) with 1; lia).
      cbn [take drop]. by rewrite fmap_cons, <-app_assoc.
    + replace (Z.to_nat (max - len msgs)) with 0%nat by lia. cbn [take drop]. by rewrite fmap_nil, app_nil_r.
Qed.

Lemma book_unacks_spec es unacks :
  Forall log_entry es →
  foldM book_unack unacks (snd <$> es)
  = Ok (foldl (λ m e, bt_insert Z.compare (entry_id e) e.2 m) unacks es).
Proof.
  intros H. revert unacks. induction H as [|[s m] es (id & p & E) _ IH]; intros unacks; [done|].
  cbn in E. subst m. rewrite fmap_cons. cbn [foldM snd]. unfold book_unack at 1. cbn [to_packet_id]; run. apply IH.
Qed.

Lemma put_backs_spec es a :
  Forall log_entry es → bt_wf Z.compare (es ++ back_log a) →
  foldM put_back a (snd <$> es)
  = Ok (with12 a (es ++ back_log a)
      (foldl (λ m e, bt_remove Z.compare (entry_id e) m) (qos12_unacks a) es)
      (next_packet_id a) (miot_tx a)).
Proof.
  intros Hes Hwf.
  assert (foldM put_back a (snd <$> es)
    = Ok (with12 a (foldl (λ m e, bt_insert Z.compare e.1 e.2 m) (back_log a) es)
        (foldl (λ m e, bt_remove Z.compare (entry_id e) m) (qos12_unacks a) es)
        (next_packet_id a) (miot_tx a))) as ->.
  { clear Hwf. revert a. induction Hes as [|[s m] es (id & p & E) _ IH]; intros a; [by destruct a|].
    cbn in E. subst m. rewrite fmap_cons. cbn [foldM snd]. unfold put_back at 1. cbn [to_packet_id to_out_seqno]; run.
    etrans; [apply IH|]. done. }
  pose proof (bt_inserts_cut Z.compare [] es (back_log a) Hwf) as Hc. cbn [app] in Hc. by rewrite Hc.
Qed.

Definition ids (es : btree Z Message) : list Z := entry_id <$> es.

Lemma unacks_insert es (unacks : btree Z Message) id :
  id ∉ ids es →
  bt_get Z.compare id (foldl (λ m e, bt_insert Z.compare (entry_id e) e.2 m) unacks es)
  = bt_get Z.compare id unacks.
Proof.
  revert unacks. induction es as [|e es IH]; intros unacks Hn; [done|]. cbn [ids fmap list_fmap foldl] in *.
  apply not_elem_of_cons in Hn as [Hne Hn]. rewrite IH by done. rewrite bt_get_insert by apply _.
  destruct (Z.compare_spec id (entry_id e)); [done|done..].
Qed.

Lemma unacks_inserted es (unacks : btree Z Message) e :
  e ∈ es → NoDup (ids es) →
  bt_get Z.compare (entry_id e) (foldl (λ m e, bt_insert Z.compare (entry_id e) e.2 m) unacks es) = Some e.2.
Proof.
  intros He. revert unacks. induction es as [|e' es IH]; intros unacks Hd; [by apply not_elem_of_nil in He|].
  cbn [ids fmap list_fmap foldl] in *. apply NoDup_cons in Hd as [Hn Hd].
  apply elem_of_cons in He as [<-|He]; [|by apply IH].
  rewrite unacks_insert by done. rewrite bt_get_insert by apply _. by rewrite Z.compare_refl.
Qed.

Lemma unacks_remove es (unacks : btree Z Message) id :
  id ∉ ids es → bt_wf Z.compare unacks →
  bt_get Z.compare id (foldl (λ m e, bt_remove Z.compare (entry_id e) m) unacks es)
  = bt_get Z.compare id unacks.
Proof.
  revert unacks. induction es as [|e es IH]; intros unacks Hn Hwf; [done|]. cbn [ids fmap list_fmap foldl] in *.
  apply not_elem_of_cons in Hn as [Hne Hn]. rewrite IH by (done || by apply bt_remove_wf).
  rewrite bt_get_remove by (done || apply _). by destruct (Z.compare_spec id (entry_id e)).
Qed.

Lemma unacks_removed es (unacks : btree Z Message) id :
  id ∈ ids es → bt_wf Z.compare unacks →
  bt_get Z.compare id (foldl (λ m e, bt_remove Z.compare (entry_id e) m) unacks es) = None.
Proof.
  intros Hid. revert unacks. induction es as [|e es IH]; intros unacks Hwf; [by apply not_elem_of_nil in Hid|].
  cbn [ids fmap list_fmap foldl] in *. destruct (decide (id ∈ ids es)) as [Hin|Hn]; [apply IH; [done|by apply bt_remove_wf]|].
  apply elem_of_cons in Hid as [->|]; [|done]. rewrite unacks_remove by (done || by apply bt_remove_wf).
  rewrite bt_get_remove by (done || apply _). by rewrite Z.compare_refl.
Qed.

Lemma unacks_wf es (unacks : btree Z Message) :
  bt_wf Z.compare unacks →
  bt_wf Z.compare (foldl (λ m e, bt_insert Z.compare (entry_id e) e.2 m) unacks es).
Proof. revert unacks. induction es as [|e es IH]; intros unacks H; [done|]. apply IH. apply (bt_insert_wf Z.compare), H. Qed.

(** ** Well-formed sessions *)

Definition is_ack (m : Message) : Prop := match m with Msg_ClientAck _ => True | _ => False end.

Definition sorted_ids : list Z → Prop := sorted_by Z.compare (λ id, id).

Definition wf_active (a : Active) : Prop :=
  sorted_ids (inp_qos12 a)
  ∧ bt_wf Z.compare (topic_aliases a) ∧ bt_wf str_cmp (subscriptions a)
  ∧ bt_wf Z.compare (back_log a) ∧ Forall log_entry (back_log a)
  ∧ bt_wf Z.compare (qos12_unacks a)
  ∧ Forall sendable (qos0_back_log a) ∧ Forall is_ack (out_acks a).

Definition wf_state (st : SessionState) : Prop :=
  match st with SS_Active a => wf_active a | _ => False end.

(** The calls that a shard and its sessions make. *)
Inductive session_op : Type :=
| Op_incr_out_seqno (msg : Message)
| Op_out_qos0 (msgs : list Message)
| Op_out_qos (msgs : list Message)
| Op_out_acks_extend (msgs : list Message)
| Op_out_acks_publish (packet_id : Z)
| Op_out_acks_flush
| Op_commit_acks (out_seqnos : list Z)
| Op_publish_topic_name (publ : Publish)
| Op_book_qos (publ : Publish).

Definition run_session_op (op : session_op) (st : SessionState) : Result SessionState :=
  match op with
  | Op_incr_out_seqno msg => '(_, st) ← incr_out_seqno msg st; Ok st
  | Op_out_qos0 msgs => '(_, st) ← out_qos0 msgs st; Ok st
  | Op_out_qos msgs => '(_, st) ← out_qos msgs st; Ok st
  | Op_out_acks_extend msgs => out_acks_extend msgs st
  | Op_out_acks_publish packet_id => out_acks_publish packet_id st
  | Op_out_acks_flush => '(_, st) ← out_acks_flush st; Ok st
  | Op_commit_acks out_seqnos => commit_acks out_seqnos st
  | Op_publish_topic_name publ => '(_, st) ← state_publish_topic_name publ st; Ok st
  | Op_book_qos publ => book_qos publ st
  end.

Definition has_packet_id (publ : Publish) : Prop :=
  publish_qos publ = QoS_AtMostOnce ∨ ∃ id, publish_packet_id publ = Some id.

Definition valid_session_op (op : session_op) : Prop :=
  match op with
  | Op_out_qos0 msgs | Op_out_qos msgs => Forall is_routed msgs
  | Op_out_acks_extend msgs => Forall is_ack msgs
  | Op_book_qos publ => has_packet_id publ
  | _ => True
  end.

Lemma search_id_spec id ids :
  sorted_ids ids →
  (∃ xs ys, ids = xs ++ id :: ys ∧ search_id id ids = Ok (true, length xs))
  ∨ (∃ xs ys, ids = xs ++ ys ∧ cut_at Z.compare (λ id, id) id xs ys ∧ (id ∉ ids)
      ∧ search_id id ids = Ok (false, length xs)).
Proof.
  intros Hs. unfold search_id.
  destruct (search_cases Z.compare (λ id, id) id ids (λ id', Ok (Z.compare id' id)) (λ _ _, eq_refl) Hs)
    as [(xs & c & ys & -> & ->%Z.compare_eq_iff & _ & E)|(xs & ys & -> & Hcut & E)].
  - left. by exists xs, ys.
  - right. exists xs, ys. split_and!; [done|done| |done]. destruct Hcut as [Hxs Hys].
    intros [Hin|Hin]%elem_of_app; [eapply Forall_forall in Hxs; [|exact Hin]|eapply Forall_forall in Hys; [|exact Hin]];
      cbn in *; by rewrite Z.compare_refl in *.
Qed.

Lemma acks_sendable ms : Forall is_ack ms → Forall sendable ms.
Proof. intros H. eapply Forall_impl; [exact H|]. intros [p| | | |] Hm; try done. by exists p. Qed.

Lemma release_ids_sorted acks ids :
  Forall is_ack acks → sorted_ids ids → post (foldM release_id ids acks) sorted_ids (λ _, False).
Proof.
  intros Ha Hs. apply foldM_post; [done|]. intros ids' ack Hin Hs'.
  eapply Forall_forall in Ha; [|exact Hin]. destruct ack as [p| | | |]; try done.
  destruct p; try done. cbn [release_id]. destruct (publish_packet_id _) as [id|]; [|done].
  destruct (search_id_spec id ids' Hs') as [(xs & ys & -> & ->)|(xs & ys & -> & _ & _ & ->)]; run; [|done].
  rewrite vec_remove_app; run. by eapply sorted_drop.
Qed.

Lemma book_qos_wf publ a :
  has_packet_id publ → wf_active a → post (book_qos publ (SS_Active a)) wf_state (λ _, False).
Proof.
  intros Hid (Hs & Hrest). unfold book_qos. cbn [active]; run.
  assert (∀ id, publish_packet_id publ = Some id →
    post (packet_id ← opt_unwrap (publish_packet_id publ);
      '(found, off) ← search_id packet_id (inp_qos12 a);
      if found : bool then Ok (SS_Active a)
      else ids ← vec_insert off packet_id (inp_qos12 a);
        Ok (SS_Active (a <| inp_qos12 := ids |>))) wf_state (λ _, False)) as Hbook.
  { intros id ->. cbn [opt_unwrap]; run.
    destruct (search_id_spec id (inp_qos12 a) Hs) as [(xs & ys & _ & ->)|(xs & ys & E & Hcut & _ & ->)]; run; [by split|].
    rewrite E, vec_insert_app; run. split; [|exact Hrest].
    eapply sorted_put; [apply _|by rewrite <-E|apply Z.compare_refl|done]. }
  destruct Hid as [->|[id Hid]]; [by split|]. destruct (publish_qos publ); [by split|by eapply Hbook..].
Qed.

(** Whatever the sequence numbers of the messages are, the back-log stays a map of
    its entries. *)
Lemma assign_ids_wf msgs a :
  Forall is_routed msgs → wf_active a → post (assign_ids msgs a) wf_active (λ _, False).
Proof.
  intros Hr. revert a. induction Hr as [|m msgs Hm _ IH]; intros a Ha; [done|].
  destruct m as [| | |sh cl inp seqno publ ack|]; try done.
  cbn [assign_ids into_packet to_out_seqno]; run. cbn [to_out_seqno]; run. apply IH.
  destruct Ha as (? & ? & ? & Hbl & Hes & ? & ? & ?). split_and!; try done.
  - by apply (bt_insert_wf Z.compare).
  - apply (bt_insert_entries Z.compare); [|done]. by eexists _, _.
Qed.

Lemma wf_out_qos_active msgs a :
  Forall is_routed msgs → wf_active a →
  post (out_qos_active msgs (SS_Active a)) (λ r, wf_state r.2) (λ _, False).
Proof.
  intros Hr Ha. unfold out_qos_active. cbn [active]; run.
  case_match; [done|]. case_match; [done|].
  eapply post_bind; [by apply assign_ids_wf|]. intros a1 _ Ha1.
  rewrite pop_batch_spec. set (k := Z.to_nat _). cbn [app].
  destruct Ha1 as (H1 & H2 & H3 & H4 & H5 & H6 & H7 & H8).
  assert (Forall log_entry (take k (back_log a1))) as Htake by by apply Forall_take.
  rewrite book_unacks_spec by done; run.
  destruct (flush_to_miot_spec (miot_tx a1) (snd <$> take k (back_log a1)))
    as (status & mtx & sent & rest & -> & E & Hv & _ & _); [by apply entries_sendable|]; run.
  cbn [take_values]. rewrite Hv.
  apply fmap_app_inv in E as (es & es' & -> & -> & E). rewrite E in Htake.
  apply Forall_app in Htake as [_ Hes'].
  rewrite put_backs_spec; [run|done|].
  - split_and!; try done; cbn.
    + rewrite <-(take_drop k (back_log a1)), E, <-app_assoc in H4. by apply sorted_app in H4 as (_ & ? & _).
    + apply Forall_app; split; [done|]. by apply Forall_drop.
    + assert (∀ es (m : btree Z Message), bt_wf Z.compare m →
        bt_wf Z.compare (foldl (λ m e, bt_remove Z.compare (entry_id e) m) m es)) as Hrm.
      { induction es0 as [|e0 es0 IH]; intros m0 Hm0; [done|]. apply IH. by apply bt_remove_wf. }
      by apply Hrm, unacks_wf.
  - cbn. rewrite <-(take_drop k (back_log a1)), E, <-app_assoc in H4. by apply sorted_app in H4 as (_ & ? & _).
Qed.

Lemma out_qos0_spec msgs a :
  Forall is_routed msgs → Forall sendable (qos0_back_log a) →
  ∃ q a', out_qos0 msgs (SS_Active a) = Ok (q, SS_Active a') ∧ values q = []
    ∧ a' = a <| miot_tx := miot_tx a' |> <| qos0_back_log := qos0_back_log a' |>
    ∧ Forall sendable (qos0_back_log a')
    ∧ (if mqtt_pkt_batch_size (sa_config a) * 4 <? Z.of_nat (length (qos0_back_log a))
       then q = Q_Disconnected [] ∧ owed0 a' = owed0 a
       else owed0 a' = owed0 a ++ (msgs ≫= routed_packet None)
            ∧ (if q is Q_Ok _ then qos0_back_log a' = [] else True)).
Proof.
  intros Hr Hs. unfold out_qos0. cbn [active]; run.
  case_match; [by eexists _, a; destruct a|].
  destruct (into_packets_None msgs Hr) as (ms & -> & Hms & Hp); run.
  destruct (flush_to_miot_spec (miot_tx a) (qos0_back_log a ++ ms))
    as (status & mtx & sent & rest & -> & E & Hv & Hi & Hq); [by apply Forall_app|]; run.
  cbn [take_values]. rewrite Hv. eexists _, _. split; [done|]. split; [by destruct status|].
  split; [done|]. split; [|split].
  - assert (Forall sendable (sent ++ rest)) as Hall by (rewrite <-E; by apply Forall_app).
    cbn. by apply Forall_app in Hall as [_ ?].
  - unfold owed0. cbn. by rewrite Hi, <-!app_assoc, <-Hp, <-!pkts_of_app, E.
  - cbn. by destruct status.
Qed.

Lemma out_acks_flush_spec a :
  wf_active a →
  ∃ q a', out_acks_flush (SS_Active a) = Ok (q, SS_Active a') ∧ values q = [] ∧ wf_active a'
    ∧ ch_items (tx (miot_tx a')) ++ pkts_of (out_acks a')
      = ch_items (tx (miot_tx a)) ++ pkts_of (out_acks a)
    ∧ (if q is Q_Ok _ then out_acks a' = [] else True) ∧ (∃ sent, out_acks a = sent ++ out_acks a')
    ∧ foldM release_id (inp_qos12 a) (out_acks a) = Ok (inp_qos12 a').
Proof.
  intros (H1 & H2 & H3 & H4 & H5 & H6 & H7 & H8). unfold out_acks_flush. cbn [active]; run.
  pose proof (release_ids_sorted _ _ H8 H1) as Hids.
  destruct (foldM release_id _ _) as [ids'| | |]; try done; run.
  destruct (flush_to_miot_spec (miot_tx a) (out_acks a))
    as (status & mtx & sent & rest & -> & E & Hv & Hi & Hq); [by apply acks_sendable|]; run.
  cbn [take_values]. rewrite Hv. eexists _, _. split; [done|]. split; [by destruct status|].
  split; [|split; [|split; [by destruct status|split; [by exists sent|done]]]].
  - split_and!; try done. cbn. rewrite E in H8. by apply Forall_app in H8 as [_ ?].
  - cbn. by rewrite Hi, E, pkts_of_app, <-app_assoc.
Qed.

Lemma session_op_wf op st :
  wf_state st → valid_session_op op →
  post (run_session_op op st) wf_state (λ e, Error_kind e = EK_ProtocolError).
Proof.
  destruct st as [a| |]; [|done|done]. intros Ha Hop.
  destruct op as [msg|msgs|msgs|msgs|id| |seqnos|publ|publ]; cbn [run_session_op valid_session_op] in *.
  - by destruct Ha.
  - destruct Ha as (H1 & H2 & H3 & H4 & H5 & H6 & H7 & H8).
    destruct (out_qos0_spec msgs a Hop H7) as (q & a' & -> & _ & E & Hs & _); run.
    rewrite E. by split_and!.
  - cbn [out_qos]. pose proof (wf_out_qos_active msgs a Hop Ha) as Hp.
    by destruct (out_qos_active msgs (SS_Active a)) as [[q st]| | |].
  - destruct Ha as (H1 & H2 & H3 & H4 & H5 & H6 & H7 & H8). split_and!; try done. by apply Forall_app.
  - destruct Ha as (H1 & H2 & H3 & H4 & H5 & H6 & H7 & H8). split_and!; try done.
    apply Forall_app; split; [done|by repeat constructor].
  - by destruct (out_acks_flush_spec a Ha) as (q & a' & -> & _ & Ha' & _).
  - done.
  - unfold state_publish_topic_name. cbn [active]; run.
    destruct (Publish_topic_alias publ) as [alias|]; [|by case_match].
    destruct (config_topic_alias_max _); [|done]. case_match; [done|]. case_match; [|by case_match].
    destruct Ha as (H1 & H2 & H3 & H4 & H5 & H6 & H7 & H8). split_and!; try done.
    by apply (bt_insert_wf Z.compare).
  - eapply post_err_mono; [by apply book_qos_wf|done].
Qed.

Lemma search_id_found id ids : sorted_ids ids → ∃ off, search_id id ids = Ok (bool_decide (id ∈ ids), off).
Proof.
  intros Hs. destruct (search_id_spec id ids Hs) as [(xs & ys & -> & ->)|(xs & ys & _ & _ & Hn & ->)].
  - rewrite bool_decide_eq_true_2 by (apply elem_of_app; right; by left). by eexists.
  - rewrite bool_decide_eq_false_2 by done. by eexists.
Qed.

Lemma is_duplicate_spec publ id a :
  sorted_ids (inp_qos12 a) → publish_qos publ ≠ QoS_AtMostOnce → publish_packet_id publ = Some id →
  is_duplicate publ (SS_Active a)
  = Ok (if publish_duplicate publ then negb (mqtt_ignore_duplicate (sa_config a))
        else bool_decide (id ∈ inp_qos12 a)).
Proof.
  intros Hs Hq Hid. unfold is_duplicate. cbn [active]; run. rewrite Hid. cbn [opt_unwrap]; run.
  destruct (search_id_found id _ Hs) as [off ->]; run.
  by destruct (publish_qos publ), (publish_duplicate publ).
Qed.

(** An acknowledgement as the sessions and shards make them. *)
Definition plain_ack (m : Message) : Prop :=
  match m with Msg_ClientAck (Pkt_Publish _) => False | Msg_ClientAck _ => True | _ => False end.

Lemma release_plain acks ids : Forall plain_ack acks → foldM release_id ids acks = Ok ids.
Proof.
  induction 1 as [|m acks Hm _ IH]; [done|]. cbn [foldM].
  destruct m as [p| | | |]; try done. by destruct p.
Qed.

Lemma acks_flush_room a :
  Forall plain_ack (out_acks a) → ch_open (tx (miot_tx a)) = true →
  (length (ch_items (tx (miot_tx a))) + length (out_acks a) ≤ ch_size (tx (miot_tx a)))%nat →
  ∃ a', out_acks_flush (SS_Active a) = Ok (Q_Ok [], SS_Active a')
    ∧ a' = (a : Active) <| miot_tx := miot_tx a' |> <| out_acks := @nil Message |>
    ∧ ch_items (tx (miot_tx a')) = ch_items (tx (miot_tx a)) ++ pkts_of (out_acks a)
    ∧ same_queue (tx (miot_tx a)) (tx (miot_tx a')).
Proof.
  intros Hp Ho Hroom. unfold out_acks_flush. cbn [active]; run. rewrite release_plain by done; run.
  assert (Forall sendable (out_acks a)) as Hs.
  { apply acks_sendable. eapply Forall_impl; [exact Hp|]. by intros []. }
  unfold flush_to_miot. rewrite sendable_pkts by done; run.
  rewrite try_sends_room by (done || by rewrite sendable_length by done).
  cbn [take_values values with_values length]. rewrite Nat.sub_0_r, drop_all. cbn [QueueStatus_map values length Nat.eqb]; run.
  eexists. split; [reflexivity|]. by split_and!.
Qed.

(** Limits that fit the fields of a CONNACK. *)
Record sound_limits (config : Config) : Prop := {
  sl_receive : is_u16 (mqtt_receive_maximum config) ∧ mqtt_receive_maximum config ≠ 0;
  sl_packet : is_u32 (mqtt_max_packet_size config) ∧ mqtt_max_packet_size config ≠ 0;
  sl_expiry : option_Forall is_u32 (mqtt_session_expiry_interval config);
  sl_alias : option_Forall is_u16 (mqtt_topic_alias_max config);
}.

(** What a CONNACK announces. *)
Lemma success_ack_spec pkt s a q :
  state s = SS_Active a → QoS_try_from (mqtt_maximum_qos (sess_config s)) = Ok q →
  ∃ props, success_ack pkt s = Ok (ConnAck_new_success (Some props))
    ∧ cap_receive_maximum props = Some (mqtt_receive_maximum (sess_config s))
    ∧ cap_maximum_qos props = Some q
    ∧ cap_server_keep_alive props = keep_alive (sa_keep_alive a)
    ∧ cap_assigned_client_identifier props
      = (if decide (cpl_client_id (connect_payload pkt) = []) then Some (client_id s) else None)
    ∧ (sound_limits (sess_config s) → wf_Connect pkt → wf_string (client_id s) →
       option_Forall is_u16 (keep_alive (sa_keep_alive a)) → wf_ConnAckProperties props).
Proof.
  intros Hst Hq. unfold success_ack. rewrite Hst; cbn [active]; run. rewrite Hq; cbn [res_unwrap]; run.
  eexists. split; [reflexivity|].
  assert (sound_limits (sess_config s) → wf_Connect pkt → option_Forall is_u32
    (match mqtt_session_expiry_interval (sess_config s), Connect_session_expiry_interval pkt with
     | Some _, Some two => Some two | Some one, None => Some one | None, Some two => Some two | None, None => None end)) as Hsei.
  { intros [_ _ He _] (_ & _ & _ & Hp & _). unfold Connect_session_expiry_interval. revert Hp.
    destruct 1 as [|props [Hp _]]; by repeat case_match. }
  assert (option_Forall is_u16 (mqtt_topic_alias_max (sess_config s)) → option_Forall is_u16 (config_topic_alias_max (sess_config s))) as Hal.
  { unfold config_topic_alias_max. destruct 1 as [|[] ?]; cbn; by constructor. }
  destruct (cpl_client_id (connect_payload pkt)) as [|c cs]; cbn [length Nat.eqb];
    destruct (keep_alive (sa_keep_alive a)); (split; [reflexivity|]); (split; [reflexivity|]); (split; [reflexivity|]);
    (split; [reflexivity|]); intros Hl Hc Hid Hka; pose proof (Hsei Hl Hc); destruct Hl as [? ? _ ?];
    split_and!; cbn; (by auto) || (by constructor).
Qed.

(** The identifier is booked, and only plain acknowledgements wait. *)
Definition booked (id : Z) (st : SessionState) : Prop :=
  ∃ a, st = SS_Active a ∧ wf_active a ∧ id ∈ inp_qos12 a ∧ Forall plain_ack (out_acks a).

Definition plain_op (op : session_op) : Prop :=
  valid_session_op op ∧
  match op with Op_out_acks_extend msgs => Forall plain_ack msgs | _ => True end.

Lemma out_qos_keeps msgs a q a' :
  out_qos_active msgs (SS_Active a) = Ok (q, SS_Active a') → Forall is_routed msgs → wf_active a →
  inp_qos12 a' = inp_qos12 a ∧ out_acks a' = out_acks a.
Proof.
  intros E Hr Ha. unfold out_qos_active in E. cbn [active] in E; revert E; run.
  case_match; [by intros [= <- <-]|]. case_match; [by intros [= <- <-]|].
  assert (∀ msgs a a1, assign_ids msgs a = Ok a1 → inp_qos12 a1 = inp_qos12 a ∧ out_acks a1 = out_acks a) as Hassign.
  { clear. induction msgs as [|m msgs IH]; intros a a1; cbn [assign_ids]; [by intros [= ->]|].
    destruct (into_packet _ m) as [m'| | |]; try done; run.
    destruct (to_out_seqno m') as [s| | |]; try done; run. by intros E%IH. }
  assert (∀ ms a a1, foldM put_back a ms = Ok a1 → inp_qos12 a1 = inp_qos12 a ∧ out_acks a1 = out_acks a) as Hput.
  { clear. induction ms as [|m ms IH]; intros a a1; cbn [foldM]; [by intros [= ->]|].
    assert (∀ a2, put_back a m = Ok a2 → inp_qos12 a2 = inp_qos12 a ∧ out_acks a2 = out_acks a) as Hm.
    { intros a2. unfold put_back. destruct (to_packet_id m) as [i| | |]; try done; run.
      destruct (to_out_seqno m) as [s| | |]; try done; run. by intros [= <-]. }
    destruct (put_back a m) as [a2| | |]; try done; run. intros [-> ->]%IH. by apply Hm. }
  destruct (assign_ids msgs a) as [a1| | |] eqn:E1; try done; run.
  apply Hassign in E1 as [<- <-]. destruct (pop_batch _ _ _) as [batch rest_log].
  destruct (foldM book_unack _ _) as [un| | |]; try done; run.
  destruct (flush_to_miot _ _) as [[st mtx]| | |]; try done; run. cbn [take_values].
  destruct (foldM put_back _ _) as [a2| | |] eqn:E2; try done; run.
  apply Hput in E2 as [E3 E4]. intros [= <- <-]. by rewrite E3, E4.
Qed.

Lemma booked_kept id op st st' :
  booked id st → plain_op op → run_session_op op st = Ok st' → booked id st'.
Proof.
  intros (a & -> & Ha & Hid & Hacks) [Hop Hpl] E.
  assert (wf_state st') as Hst'.
  { pose proof (session_op_wf op (SS_Active a) Ha Hop) as Hp. by rewrite E in Hp. }
  destruct st' as [a'| |]; [|done|done]. exists a'. split; [done|]. split; [done|].
  destruct op as [msg|msgs|msgs|msgs|pid| |seqnos|publ|publ]; cbn [run_session_op valid_session_op] in *.
  - revert E. unfold incr_out_seqno. cbn [active]; run. by intros [= <-].
  - destruct Ha as (_ & _ & _ & _ & _ & _ & Hs & _).
    destruct (out_qos0_spec msgs a Hop Hs) as (q & a2 & E2 & _ & E3 & _). rewrite E2 in E.
    revert E; run. intros [= <-]. by rewrite E3.
  - cbn [out_qos] in E. destruct (out_qos_active msgs (SS_Active a)) as [[q st]| | |] eqn:E2; try done.
    revert E; run. intros [= ->]. by destruct (out_qos_keeps _ _ _ _ E2 Hop Ha) as [-> ->].
  - injection E as <-. split; [done|]. by apply Forall_app.
  - injection E as <-. split; [done|]. apply Forall_app. split; [done|by repeat constructor].
  - destruct (out_acks_flush_spec a Ha) as (q & a2 & E2 & _ & _ & _ & _ & [sent Hsent] & Hrel). rewrite E2 in E.
    revert E; run. intros [= <-]. rewrite release_plain in Hrel by done. injection Hrel as Hrel. rewrite <-Hrel. split; [done|].
    rewrite Hsent in Hacks. by apply Forall_app in Hacks as [_ ?].
  - by injection E as <-.
  - revert E. unfold state_publish_topic_name. cbn [active]; run.
    destruct (Publish_topic_alias publ) as [alias|]; [|case_match; [done|]; run; by intros [= <-]].
    destruct (config_topic_alias_max _); [|done]. case_match; [done|]. case_match; [run; by intros [= <-]|].
    case_match; [|done]. run. by intros [= <-].
  - revert E. unfold book_qos. cbn [active]; run. destruct Ha as (Hs & _).
    assert (∀ i, publish_packet_id publ = Some i →
      (packet_id ← opt_unwrap (publish_packet_id publ);
       '(found, off) ← search_id packet_id (inp_qos12 a);
       if found : bool then Ok (SS_Active a)
       else ids ← vec_insert off packet_id (inp_qos12 a);
         Ok (SS_Active (a <| inp_qos12 := ids |>))) = Ok (SS_Active a') →
      id ∈ inp_qos12 a' ∧ Forall plain_ack (out_acks a')) as Hbook.
    { intros i ->. cbn [opt_unwrap]; run.
      destruct (search_id_spec i _ Hs) as [(xs & ys & _ & ->)|(xs & ys & Ei & _ & _ & ->)]; run; [by intros [= <-]|].
      rewrite Ei, vec_insert_app; run. intros [= <-]. split; [|done]. cbn. rewrite Ei in Hid. set_solver. }
    destruct Hop as [->|[i Hi]]; [by intros [= <-]|].
    destruct (publish_qos publ); [by intros [= <-]|by eapply Hbook..].
Qed.

(** ** Theorems *)

(** C7. A session keeps its invariant through every call its shard makes: the maps
    are ordered by their keys, back-logged messages carry their own sequence number
    and a packet identifier, identifiers of received messages are in order, and
    what waits for the socket stands for packets.  No call panics, and the only
    error is [ProtocolError]. *)
Theorem session_wf op st :
  wf_state st → valid_session_op op →
  post (run_session_op op st) wf_state (λ e, Error_kind e = EK_ProtocolError).
Proof. apply session_op_wf. Qed.

(** QoS 0 messages go to the socket in order: what is in the queue to the miot
    thread, the back-log and the new messages follow one another, none lost, and
    with [Ok] the back-log is empty.  A session whose back-log has grown beyond four
    batches drops the new messages and is reported as disconnected. *)
Theorem out_qos0_order msgs a :
  Forall is_routed msgs → Forall sendable (qos0_back_log a) →
  ∃ q a', out_qos0 msgs (SS_Active a) = Ok (q, SS_Active a') ∧ values q = []
    ∧ (if mqtt_pkt_batch_size (sa_config a) * 4 <? Z.of_nat (length (qos0_back_log a))
       then q = Q_Disconnected [] ∧ owed0 a' = owed0 a
       else owed0 a' = owed0 a ++ (msgs ≫= routed_packet None)
            ∧ (if q is Q_Ok _ then qos0_back_log a' = [] else True)).
Proof.
  intros Hr Hs. destruct (out_qos0_spec msgs a Hr Hs) as (q & a' & E & Hv & _ & _ & H).
  by exists q, a'.
Qed.

(** C14. QoS 1 and 2 messages: they get the next packet identifiers and join the
    back-log; its front goes to the socket, in order and a batch at most, and what
    goes is recorded under its identifier until it is acknowledged; the rest
    stays.  When the back-log has grown beyond four batches, and also when
    [mqtt_receive_maximum] messages are not acknowledged, the new messages are
    dropped: the call returns before they join the back-log. *)
Theorem out_qos_order msgs a :
  let new := assigned (next_packet_id a) msgs in
  Forall is_routed msgs → wf_active a →
  bt_wf Z.compare (back_log a ++ new) → NoDup (ids (back_log a ++ new)) →
  ∃ q a', out_qos msgs (SS_Active a) = Ok (q, SS_Active a') ∧ values q = []
    ∧ if mqtt_pkt_batch_size (sa_config a) * 4 <? Z.of_nat (length (back_log a))
      then q = Q_Disconnected [] ∧ a' = a
      else if mqtt_receive_maximum (sa_config a) <=? Z.of_nat (length (qos12_unacks a))
      then q = Q_Block [] ∧ a' = a
      else ∃ sent, back_log a ++ new = sent ++ back_log a'
        ∧ ch_items (tx (miot_tx a')) = ch_items (tx (miot_tx a)) ++ pkts_of (snd <$> sent)
        ∧ (length sent ≤ Z.to_nat (mqtt_pkt_batch_size (sa_config a)))%nat
        ∧ (∀ e, e ∈ sent → bt_get Z.compare (entry_id e) (qos12_unacks a') = Some e.2)
        ∧ (∀ id, id ∉ ids (back_log a ++ new) →
             bt_get Z.compare id (qos12_unacks a') = bt_get Z.compare id (qos12_unacks a)).
Proof.
  intros new Hr Ha Hwf Hnd. cbn [out_qos]. unfold out_qos_active. cbn [active]; run.
  case_match; [by eexists _, a|]. case_match; [by eexists _, a|].
  destruct (assign_ids_spec msgs a Hr Hwf) as [id' ->]; run. fold new.
  destruct Ha as (_ & _ & _ & _ & Hlog & Hun & _).
  rewrite pop_batch_spec. cbn [app with12 back_log qos12_unacks miot_tx sa_config].
  set (all := back_log a ++ new) in *. set (k := Z.to_nat _).
  assert (Forall log_entry all) as Hall by (apply Forall_app; split; [done|apply assigned_entries]).
  assert (Forall log_entry (take k all)) as Htake by by apply Forall_take.
  rewrite book_unacks_spec by done; run.
  destruct (flush_to_miot_spec (miot_tx a) (snd <$> take k all))
    as (status & mtx & sent & rest & -> & E & Hv & Hi & _); [by apply entries_sendable|]; run.
  cbn [take_values]. rewrite Hv.
  apply fmap_app_inv in E as (es & es' & -> & -> & E). rewrite E in Htake |- *.
  apply Forall_app in Htake as [Hes Hes'].
  assert (all = es ++ es' ++ drop k all) as Eall by by rewrite app_assoc, <-E, take_drop.
  rewrite put_backs_spec; [run|done|].
  2:{ cbn. rewrite Eall in Hwf. by apply sorted_app in Hwf as (_ & ? & _). }
  eexists _, _. split; [done|]. split; [by destruct status|]. exists es.
  assert (NoDup (ids es ++ ids es')) as Hnd2.
  { rewrite Eall in Hnd. unfold ids in *. rewrite app_assoc, fmap_app, fmap_app in Hnd.
    by apply NoDup_app in Hnd as [? _]. }
  pose proof (unacks_wf (es ++ es') (qos12_unacks a) Hun) as Hun2.
  split; [exact Eall|]. split; [exact Hi|]. split; [|split].
  - apply (f_equal length) in E. rewrite length_take, length_app in E. unfold k in E.
    change (len (@nil Message)) with 0 in E. rewrite Z.sub_0_r in E. lia.
  - intros e He. cbn. apply NoDup_app in Hnd2 as (H1 & H2 & H3).
    rewrite unacks_remove; [|apply H2; by apply list_elem_of_fmap_2|done].
    apply unacks_inserted; [apply elem_of_app; by left|]. unfold ids. rewrite fmap_app. by apply NoDup_app.
  - intros id Hid. cbn. rewrite Eall in Hid. unfold ids in Hid. rewrite !fmap_app, !not_elem_of_app in Hid.
    destruct Hid as (Hi1 & Hi2 & _). rewrite unacks_remove by done. apply unacks_insert.
    unfold ids. rewrite fmap_app. by apply not_elem_of_app.
Qed.

(** Once a message with a packet identifier has been received, every later
    message with that identifier is a duplicate for as long as the session lives,
    whatever the session sends and acknowledges: the loop that releases
    identifiers looks at PUBLISH packets, and acknowledgements are none. *)
Theorem packet_id_stays_booked id ops st st' publ :
  booked id st → Forall plain_op ops → foldM (λ st op, run_session_op op st) st ops = Ok st' →
  publish_qos publ ≠ QoS_AtMostOnce → publish_packet_id publ = Some id →
  publish_duplicate publ = false →
  is_duplicate publ st' = Ok true.
Proof.
  intros Hb Hops E Hq Hid Hdup.
  assert (booked id st') as (a & -> & (Hs & _) & Hin & _).
  { revert st Hb E. induction Hops as [|op ops Hop _ IH]; intros st Hb; cbn [foldM]; [by intros [= <-]|].
    destruct (run_session_op op st) as [st1| | |] eqn:E1; try done; run. intros E2.
    eapply IH; [|exact E2]. by eapply booked_kept. }
  rewrite (is_duplicate_spec publ id) by done. by rewrite Hdup, bool_decide_eq_true_2.
Qed.

(** Booking a received message makes its packet identifier, and no other, one
    of a duplicate; a message that is flagged as a duplicate counts as one, unless
    the configuration ignores the flag. *)
Theorem book_then_duplicate publ id a :
  wf_active a → publish_qos publ ≠ QoS_AtMostOnce → publish_packet_id publ = Some id →
  ∃ a', book_qos publ (SS_Active a) = Ok (SS_Active a') ∧ wf_active a'
    ∧ ∀ publ2 id2, publish_qos publ2 ≠ QoS_AtMostOnce → publish_packet_id publ2 = Some id2 →
        is_duplicate publ2 (SS_Active a')
        = if publish_duplicate publ2 then Ok (negb (mqtt_ignore_duplicate (sa_config a)))
          else if bool_decide (id2 = id) then Ok true else is_duplicate publ2 (SS_Active a).
Proof.
  intros Ha Hq Hid. pose proof (book_qos_wf publ a (or_intror (ex_intro _ id Hid)) Ha) as Hwf.
  pose proof Ha as (Hs & _). revert Hwf. unfold book_qos. cbn [active]; run. rewrite Hid. cbn [opt_unwrap]; run.
  assert (∃ a', (if publish_qos publ is QoS_AtMostOnce then Ok (SS_Active a)
      else '(found, off) ← search_id id (inp_qos12 a);
        if found : bool then Ok (SS_Active a)
        else ids ← vec_insert off id (inp_qos12 a); Ok (SS_Active (a <| inp_qos12 := ids |>)))
      = (Ok (SS_Active a') : Result SessionState) ∧ sa_config a' = sa_config a
      ∧ ∀ i, i ∈ inp_qos12 a' ↔ i = id ∨ i ∈ inp_qos12 a) as (a' & E & Hcfg & Hin).
  { destruct (publish_qos publ) eqn:Eq; [done|..];
    destruct (search_id_spec id _ Hs) as [(xs & ys & Ei & ->)|(xs & ys & Ei & _ & _ & ->)]; run;
      rewrite ?Ei, ?vec_insert_app; run; eexists; (split; [done|]); (split; [done|]); cbn; rewrite ?Ei; set_solver. }
  intros Hwf. exists a'. destruct (publish_qos publ) eqn:Eq; [done|..]; rewrite E in Hwf |- *;
    (split; [done|]); (split; [done|]); intros publ2 id2 Hq2 Hid2; destruct Hwf as (Hs' & _);
    rewrite !(is_duplicate_spec publ2 id2) by done; rewrite Hcfg;
    destruct (publish_duplicate publ2); try done; case_bool_decide as Hi; rewrite Hin in Hi;
    repeat case_bool_decide; naive_solver.
Qed.

(** Topic aliases: a message with an alias and a name makes the alias stand
    for the name, instead of what it stood for; from then on a message with the
    alias and an empty name has that name, and other aliases keep theirs. *)
Theorem topic_alias_resolves publ alias name st st' publ2 alias2 :
  wf_state st → Publish_topic_alias publ = Some alias → publish_topic_name publ ≠ [] →
  state_publish_topic_name publ st = Ok (name, st') →
  Publish_topic_alias publ2 = Some alias2 → publish_topic_name publ2 = [] →
  name = publish_topic_name publ
  ∧ fst <$> state_publish_topic_name publ2 st'
    = if bool_decide (alias2 = alias) then Ok name else fst <$> state_publish_topic_name publ2 st.
Proof.
  destruct st as [a| |]; [|done|done]. intros Ha Hal Hne E Hal2 Hne2.
  unfold state_publish_topic_name in E |- *. cbn [active] in *. revert E; run. rewrite Hal, Hal2, Hne2.
  cbn [length Nat.ltb Nat.leb].
  destruct (config_topic_alias_max (sa_config a)) as [max|] eqn:Emax; [|done].
  destruct (Z.ltb_spec max alias); [done|].
  destruct (publish_topic_name publ) as [|c n]; [done|]. cbn [length].
  intros E. simplify_eq. split; [done|]. cbn [active]; run. cbn [sa_config topic_aliases]. rewrite Emax.
  rewrite (bt_get_insert Z.compare). case_bool_decide as Hal3.
  - subst alias2. rewrite Z.compare_refl. destruct (Z.ltb_spec max alias); [lia|done].
  - destruct (Z.ltb_spec max alias2); [done|].
    destruct (Z.compare_spec alias2 alias); [done|..]; by destruct (bt_get _ _ _).
Qed.

(** ** Witnesses and examples *)

Definition ex_active : Active :=
  MkActive (Config_default 1) (MkKeepAlive None 0) ex_connect (MkTx (MkChannel [] 8 true) 0)
    (MkRx 8 (MkChannel [] 8 true)) [] [] [] [] [] [] 1 1 [].

Definition ex_publ (qos : QoS) (id : option Z) (name : rstring) : Publish :=
  MkPublish false qos false name id None (Some [1; 2]).

Definition ex_routed (qos : QoS) (seqno : Z) : Message :=
  Msg_Routed 0 [97] 5 seqno (ex_publ qos None [97; 47; 98]) true.

Lemma ex_active_wf : wf_active ex_active.
Proof. split_and!; constructor. Qed.

Lemma session_wf_witness :
  post (run_session_op (Op_out_qos [ex_routed QoS_AtLeastOnce 3; ex_routed QoS_AtLeastOnce 2]) (SS_Active ex_active))
    wf_state (λ e, Error_kind e = EK_ProtocolError).
Proof.
  apply (session_wf (Op_out_qos [ex_routed QoS_AtLeastOnce 3; ex_routed QoS_AtLeastOnce 2]) (SS_Active ex_active)).
  - apply ex_active_wf.
  - by repeat constructor.
Defined.

Lemma out_qos0_order_witness :
  ∃ q a', out_qos0 [ex_routed QoS_AtMostOnce 1] (SS_Active ex_active) = Ok (q, SS_Active a') ∧ values q = []
    ∧ owed0 a' = [Pkt_Publish (ex_publ QoS_AtMostOnce None [97; 47; 98])]
      ∧ (if q is Q_Ok _ then qos0_back_log a' = [] else True).
Proof.
  apply (out_qos0_order [ex_routed QoS_AtMostOnce 1] ex_active); by repeat constructor.
Defined.

Lemma out_qos_order_witness :
  let msgs := [ex_routed QoS_AtLeastOnce 1; ex_routed QoS_AtLeastOnce 2] in
  ∃ q a', out_qos msgs (SS_Active ex_active) = Ok (q, SS_Active a') ∧ values q = []
    ∧ ∃ sent, assigned 1 msgs = sent ++ back_log a'
      ∧ ch_items (tx (miot_tx a')) = pkts_of (snd <$> sent)
      ∧ (length sent ≤ Z.to_nat 1024)%nat
      ∧ (∀ e, e ∈ sent → bt_get Z.compare (entry_id e) (qos12_unacks a') = Some e.2)
      ∧ (∀ id, id ∉ ids (assigned 1 msgs) → bt_get Z.compare id (qos12_unacks a') = None).
Proof.
  apply (out_qos_order [ex_routed QoS_AtLeastOnce 1; ex_routed QoS_AtLeastOnce 2] ex_active).
  - by repeat constructor.
  - apply ex_active_wf.
  - by repeat constructor.
  - apply (bool_decide_unpack _). by vm_compute.
Defined.

(** A client that asked for at most one message at a time gets two. *)
Example receive_maximum_exceeded :
  let config := MkConfig [] 1 1 1883 5 5 5 10 1048576 1024 None SpecFloat.S754_nan 1 None 1 true None true in
  ∃ a', out_qos [ex_routed QoS_AtLeastOnce 1; ex_routed QoS_AtLeastOnce 2]
      (SS_Active (ex_active <| sa_config := config |>)) = Ok (Q_Ok [], SS_Active a')
    ∧ length (ch_items (tx (miot_tx a'))) = 2%nat.
Proof. eexists. split; [vm_compute; reflexivity|done]. Qed.

(** The packet identifier after 65535 is 0, which MQTT does not allow. *)
Example packet_id_zero :
  ids (assigned 65535 [ex_routed QoS_AtLeastOnce 1; ex_routed QoS_AtLeastOnce 2]) = [65535; 0].
Proof. done. Qed.

Lemma packet_id_stays_booked_witness :
  ∃ st st', book_qos (ex_publ QoS_AtLeastOnce (Some 7) [97]) (SS_Active ex_active) = Ok st
    ∧ foldM (λ st op, run_session_op op st) st [Op_out_acks_publish 7; Op_out_acks_flush] = Ok st'
    ∧ is_duplicate (ex_publ QoS_AtLeastOnce (Some 7) [98]) st' = Ok true.
Proof.
  eexists _, _. split; [vm_compute; reflexivity|]. split; [vm_compute; reflexivity|].
  eapply (packet_id_stays_booked 7 [Op_out_acks_publish 7; Op_out_acks_flush]
    (SS_Active (ex_active <| inp_qos12 := [7] |>))); [| |vm_compute; reflexivity|done..].
  - eexists. split; [reflexivity|]. split; [|split; [by left|constructor]].
    split_and!; by repeat constructor.
  - by repeat constructor.
Defined.

Lemma book_then_duplicate_witness :
  ∃ a', book_qos (ex_publ QoS_AtLeastOnce (Some 7) [97]) (SS_Active ex_active) = Ok (SS_Active a') ∧ wf_active a'
    ∧ ∀ publ2 id2, publish_qos publ2 ≠ QoS_AtMostOnce → publish_packet_id publ2 = Some id2 →
        is_duplicate publ2 (SS_Active a')
        = if publish_duplicate publ2 then Ok (negb true)
          else if bool_decide (id2 = 7) then Ok true else is_duplicate publ2 (SS_Active ex_active).
Proof.
  apply (book_then_duplicate (ex_publ QoS_AtLeastOnce (Some 7) [97]) 7 ex_active); [apply ex_active_wf|done|done].
Defined.

Definition ex_alias (alias : Z) (name : rstring) : Publish :=
  (ex_publ QoS_AtMostOnce None name)
    <| publish_properties := Some (PublishProperties_default <| pp_topic_alias := Some alias |>) |>.

Lemma topic_alias_resolves_witness :
  ∃ st', state_publish_topic_name (ex_alias 3 [97]) (SS_Active ex_active) = Ok ([97], st')
    ∧ fst <$> state_publish_topic_name (ex_alias 3 []) st' = Ok [97].
Proof.
  eexists. split; [vm_compute; reflexivity|].
  refine (proj2 (topic_alias_resolves (ex_alias 3 [97]) 3 [97] (SS_Active ex_active) _ (ex_alias 3 []) 3
    ex_active_wf eq_refl _ _ eq_refl eq_refl)); [done|by vm_compute].
Defined.
