(* ===== verification/Shard.v ===== *)
(** * Shards: state and routing (src/src/broker/shard.rs, src/src/broker/mod.rs)

    [Shard] with the state of its thread, and the functions that its sessions call
    to route what clients publish.  What a shard asks of other threads is data:
    the connections the miot thread holds, the connections handed to the flusher,
    the requests to the cluster. *)
From S2P Require Import Prelude Errors Utf8 Types V5Header V5PubAck V5Publish V5Subscribe V5Packet Queues Config SortedVec BTree Message Subscription TopicTrie Tries Session.
Local Open Scope Z_scope.

Record Timestamp := MkTimestamp { ts_shard_id : Z; last_routed : Z; last_acked : Z }.

Inductive cluster_req : Type :=
| SetRetainTopic (publish : Publish)
| ResetRetainTopic (topic_name : rstring).

Record ActiveLoop := MkActiveLoop {
  al_miot : list rstring;
  al_flusher : list (rstring * option Error);
  al_cluster : list cluster_req;
  sessions : btree rstring Session;
  al_inp_seqno : Z;
  shard_back_log : btree Z (list Message);
  index : btree Z Message;
  ack_timestamps : list Timestamp;
  shard_queues : btree Z MsgTx;
  topic_filters : Inner Subscription;
}.
#[export] Instance ActiveLoop_eta : Eta ActiveLoop :=
  λ l, MkActiveLoop (al_miot l) (al_flusher l) (al_cluster l) (sessions l) (al_inp_seqno l)
    (shard_back_log l) (index l) (ack_timestamps l) (shard_queues l) (topic_filters l).

(** [FinState]: what is left of a closed shard; the event counters are in Reports. *)
Record FinState := MkFinState {
  fin_miot : list rstring;
  fin_sessions : list rstring;
  fin_inp_seqno : Z;
  fin_shard_back_log : btree Z nat;
  fin_ack_timestamps : list Timestamp;
}.

(** [Inner]: handles, and the states of the thread. *)
Inductive ShardInner : Type :=
| SI_Init
| SI_Handle
| SI_Tx
| SI_MsgTx (msg_tx : MsgTx)
| SI_MainActive (l : ActiveLoop)
| SI_MainReplica (sessions : btree rstring Session)
| SI_Close (fin : FinState).

Record Shard := MkShard { sh_shard_id : Z; sh_config : Config; sh_inner : ShardInner }.
#[export] Instance Shard_eta : Eta Shard := λ s, MkShard (sh_shard_id s) (sh_config s) (sh_inner s).

(** [match &mut self.inner { Inner::MainActive(active_loop) => .., _ => unreachable!() }] *)
Definition active_loop (s : Shard) : Result ActiveLoop :=
  match sh_inner s with SI_MainActive l => Ok l | _ => Panic end.

Definition set_loop (l : ActiveLoop) (s : Shard) : Shard :=
  MkShard (sh_shard_id s) (sh_config s) (SI_MainActive l).

(** ** Routing a PUBLISH *)

Definition QoS_max (a b : QoS) : QoS := if QoS_into_u8 b <? QoS_into_u8 a then a else b.

(** One step of the loop of [match_subscribers]. *)
Definition add_subscriber (subscrs : btree rstring (Subscription * list Z)) (subscr : Subscription)
    : btree rstring (Subscription * list Z) :=
  match bt_get str_cmp (ss_client_id subscr) subscrs with
  | Some (oldval, ids) =>
      let oldval := MkSubscription (ss_topic_filter oldval) (ss_client_id oldval)
        (ss_shard_id oldval) (ss_subscription_id oldval)
        (QoS_max (ss_qos oldval) (ss_qos subscr))
        (ss_no_local oldval && ss_no_local subscr)
        (ss_retain_as_published oldval || ss_retain_as_published subscr)
        (ss_retain_forward_rule oldval) in
      let ids := match ss_subscription_id subscr with Some id => ids ++ [id] | None => ids end in
      bt_insert str_cmp (ss_client_id subscr) (oldval, ids) subscrs
  | None =>
      let ids := match ss_subscription_id subscr with Some id => [id] | None => [] end in
      bt_insert str_cmp (ss_client_id subscr) (subscr, ids) subscrs
  end.

Definition match_subscribers (topic_name : rstring) (s : Shard)
    : Result (btree rstring (Subscription * list Z) * Shard) :=
  l ← active_loop s;
  '(inner, subscrs) ← match_topic_name topic_name (topic_filters l);
  Ok (foldl add_subscriber [] subscrs, set_loop ((l : ActiveLoop) <| topic_filters := inner |>) s).

Definition incr_inp_seqno (s : Shard) : Result (Z * Shard) :=
  l ← active_loop s;
  let seqno := al_inp_seqno l in
  Ok (seqno, set_loop ((l : ActiveLoop) <| al_inp_seqno := Z.min (seqno + 1) (2 ^ 64 - 1) |>) s).

(** It expects a [Message::Routed]. *)
Definition book_index (qos : QoS) (msg : Message) (s : Shard) : Result (() * Shard) :=
  l ← active_loop s;
  match qos with
  | QoS_AtMostOnce => Ok (tt, s)
  | QoS_AtLeastOnce =>
      match msg with
      | Msg_Routed _ _ inp_seqno _ _ _ =>
          Ok (tt, set_loop ((l : ActiveLoop) <| index := bt_insert Z.compare inp_seqno msg (index l) |>) s)
      | _ => Panic
      end
  | QoS_ExactlyOnce => Panic
  end.

Definition search_shard (shard_id : Z) (ts : list Timestamp) : Result (bool * nat) :=
  binary_search_by (λ t, Ok (Z.compare (ts_shard_id t) shard_id)) ts.

(** [vec[off] = t] *)
Definition vec_set {A} (off : nat) (x : A) (l : list A) : Result (list A) :=
  if (off <? length l)%nat then Ok (<[off := x]> l) else Panic.

Definition book_routed_timestamps (shard_id inp_seqno : Z) (s : Shard) : Result (() * Shard) :=
  l ← active_loop s;
  '(found, off) ← search_shard shard_id (ack_timestamps l);
  ts ← (if found : bool then
          t ← opt_unwrap (ack_timestamps l !! off);
          vec_set off (MkTimestamp (ts_shard_id t) inp_seqno (last_acked t)) (ack_timestamps l)
        else vec_set off (MkTimestamp shard_id inp_seqno 0) (ack_timestamps l));
  Ok (tt, set_loop ((l : ActiveLoop) <| ack_timestamps := ts |>) s).

Definition book_acked_timestamps (shard_id acked : Z) (s : Shard) : Result (() * Shard) :=
  l ← active_loop s;
  '(found, off) ← search_shard shard_id (ack_timestamps l);
  if found : bool then
    t ← opt_unwrap (ack_timestamps l !! off);
    ts ← vec_set off (MkTimestamp (ts_shard_id t) (last_routed t) acked) (ack_timestamps l);
    Ok (tt, set_loop ((l : ActiveLoop) <| ack_timestamps := ts |>) s)
  else Panic.

Definition route_to_client (target_shard_id : Z) (msg : Message) (s : Shard) : Result (() * Shard) :=
  l ← active_loop s;
  match msg with
  | Msg_Routed _ _ inp_seqno _ _ _ =>
      book_routed_timestamps target_shard_id inp_seqno
        (set_loop ((l : ActiveLoop) <| shard_back_log :=
           append_index Z.compare target_shard_id msg (shard_back_log l) |>) s)
  | _ => Panic
  end.

(** [shard.as_cluster().set_retain_topic(..)] and [reset_retain_topic]: a post. *)
Definition post_cluster (req : cluster_req) (s : Shard) : Result (() * Shard) :=
  l ← active_loop s;
  Ok (tt, set_loop ((l : ActiveLoop) <| al_cluster := al_cluster l ++ [req] |>) s).

(** [shard.as_topic_filters().subscribe(..)] *)
Definition subscribe_filter (topic_filter : rstring) (subscription : Subscription) (s : Shard)
    : Result (() * Shard) :=
  l ← active_loop s;
  inner ← do_subscribe topic_filter subscription (topic_filters l);
  Ok (tt, set_loop ((l : ActiveLoop) <| topic_filters := inner |>) s).

(** ** The session's side *)

(** A session in the hands of its shard. *)
Abbreviation routing := (stateful (Shard * Session)).

Definition with_shard {A} (f : Shard → Result (A * Shard)) : routing A :=
  updates (λ '(sh, se), '(a, sh) ← f sh; Ok (a, (sh, se))).

Definition with_session {A} (f : SessionState → Result (A * SessionState)) : routing A :=
  updates (λ '(sh, se), '(a, se) ← on_state f se; Ok (a, (sh, se))).

(** A call that may fail, on the state of the session. *)
Definition try_session {A} (f : SessionState → Result (A * SessionState)) : routing A := λ '(sh, se),
  match f (state se) with
  | Ok (a, st) => Ok (inl a, (sh, MkSession (client_id se) (sess_shard_id se) (sess_config se) st))
  | Err e => Ok (inr e, (sh, se))
  | Panic => Panic
  | NoFuel => NoFuel
  end.

Definition asks {A} (f : Shard → Session → A) : routing A := λ '(sh, se), Ok (inl (f sh se), (sh, se)).

Definition book_retain (publish : Publish) : routing () :=
  retain_available ← asks (λ _ se, mqtt_retain_available (sess_config se));
  if publish_retain publish && negb retain_available
  then fallible (err EK_ProtocolError RC_RetainNotSupported)
  else if publish_retain publish then
    if match publish_payload publish with Some payload => (length payload =? 0)%nat | None => true end
    then with_shard (post_cluster (ResetRetainTopic (publish_topic_name publish)))
    else with_shard (post_cluster (SetRetainTopic publish))
  else mret tt.

(** One step of the routing loop of [rx_publish]. *)
Definition route_one (publish : Publish) (inp_seqno : Z) (ack_needed : bool)
    (_ : ()) (e : rstring * (Subscription * list Z)) : routing () :=
  let '(id, (subscr, ids)) := e in
  se ← asks (λ _ se, se);
  if ss_no_local subscr && bool_decide (id = client_id se) then mret tt
  else
    let retain := ss_retain_as_published subscr && publish_retain publish in
    qos ← fallible (route_qos subscr publish (mqtt_maximum_qos (sess_config se)));
    let publish := Publish_set_subscription_ids (Publish_set_fixed_header publish retain qos false) ids in
    with_shard (route_to_client (ss_shard_id subscr)
      (new_routed (sess_shard_id se) inp_seqno publish id ack_needed)).

Definition rx_publish (publish : Publish) : routing bool :=
  config ← asks (λ _ se, sess_config se);
  server_qos ← fallible (res_unwrap (QoS_try_from (mqtt_maximum_qos config)));
  if QoS_into_u8 server_qos <? QoS_into_u8 (publish_qos publish)
  then fallible (err EK_ProtocolError RC_QoSNotSupported)
  else
    dup ← try_session (λ st, dup ← is_duplicate publish st; Ok (dup, st));
    if dup : bool then mret false
    else
      _ ← book_retain publish;
      _ ← try_session (λ st, st ← book_qos publish st; Ok (tt, st));
      inp_seqno ← with_shard incr_inp_seqno;
      topic_name ← try_session (state_publish_topic_name publish);
      subscrs ← with_shard (match_subscribers topic_name);
      let has_subscrs := (0 <? length subscrs)%nat in
      ack_needed ← match publish_packet_id publish with
                   | Some packet_id =>
                       id ← asks (λ _ se, client_id se);
                       _ ← with_shard (book_index (publish_qos publish) (new_index id packet_id));
                       mret true
                   | None => mret false
                   end;
      _ ← for_each (route_one publish inp_seqno ack_needed) tt subscrs;
      mret has_subscrs.

(** [rx_subscribe] *)
Definition subscription_of (sub : Subscribe) (filter : SubscribeFilter) (sh : Shard) (se : Session)
    : Result Subscription :=
  let subscription_id := match sub_properties sub with
                         | Some props => subp_subscription_id props
                         | None => None
                         end in
  '(rfr, retain_as_published, no_local, qos) ← SubscriptionOpt_unwrap (sf_opt filter);
  Ok (MkSubscription (sf_topic_filter filter) (client_id se) (sh_shard_id sh) subscription_id qos
        no_local retain_as_published rfr).

Definition as_mut_subscriptions (f : btree rstring Subscription → btree rstring Subscription)
    (st : SessionState) : Result (() * SessionState) :=
  a ← active st;
  Ok (tt, SS_Active ((a : Active) <| subscriptions := f (subscriptions a) |>)).

Definition subscribe_one (sub : Subscribe) (return_codes : list SubAckReasonCode)
    (filter : SubscribeFilter) : routing (list SubAckReasonCode) :=
  subscription ← asks (subscription_of sub filter);
  subscription ← fallible subscription;
  _ ← with_shard (subscribe_filter (sf_topic_filter filter) subscription);
  _ ← try_session (as_mut_subscriptions (bt_insert str_cmp (sf_topic_filter filter) subscription));
  config ← asks (λ _ se, sess_config se);
  server_qos ← fallible (res_unwrap (QoS_try_from (mqtt_maximum_qos config)));
  let rc := match QoS_max server_qos (ss_qos subscription) with
            | QoS_AtMostOnce => SRC_QoS0
            | QoS_AtLeastOnce => SRC_QoS1
            | QoS_ExactlyOnce => SRC_QoS2
            end in
  mret (return_codes ++ [rc]).

Definition rx_subscribe (sub : Subscribe) : routing (list Message) :=
  return_codes ← for_each (subscribe_one sub) [] (sub_filters sub);
  mret [Msg_ClientAck (Pkt_SubAck (MkSubAck (sub_packet_id sub) None return_codes))].

(** One step of [handle_packets]; the packets that are not handled yet are
    [todo!()] in the source. *)
Definition handle_packet (out_acks : list Message) (pkt : Packet) : routing (list Message) :=
  match pkt with
  | Pkt_PingReq => mret (out_acks ++ [new_ping_resp])
  | Pkt_Publish publ =>
      has_subscrs ← rx_publish publ;
      match has_subscrs, publish_qos publ with
      | _, QoS_AtMostOnce => mret out_acks
      | false, _ =>
          packet_id ← fallible (opt_unwrap (publish_packet_id publ));
          mret (out_acks ++ [new_pub_ack (Pub_new_pub_ack packet_id)])
      | true, _ => mret out_acks
      end
  | Pkt_Subscribe sub =>
      acks ← rx_subscribe sub;
      mret (out_acks ++ acks)
  | Pkt_UnSubscribe _ | Pkt_PubAck _ | Pkt_PubRec _ | Pkt_PubRel _ | Pkt_PubComp _ | Pkt_Auth _ =>
      fallible Panic
  | Pkt_Disconnect _ => fallible (err EK_Disconnected RC_Success)
  | Pkt_Connect _ | Pkt_ConnAck _ | Pkt_SubAck _ | Pkt_UnsubAck _ | Pkt_PingResp =>
      fallible (err EK_ProtocolError RC_ProtocolError)
  end.

(** Acknowledged sequence numbers are not collected yet: there are none. *)
Definition handle_packets (pkts : list Packet) : routing (QueueStatus Packet * list Z) :=
  out_acks ← for_each handle_packet [] pkts;
  _ ← try_session (λ st, st ← out_acks_extend out_acks st; Ok (tt, st));
  mret (Q_Ok [], []).

(** [Session::route_packets]; [now] is the clock. *)
Definition recv_packets (st : SessionState) : Result (QueueStatus Packet * SessionState) :=
  a ← active st;
  '(status, r) ← try_recvs (session_rx a);
  Ok (status, SS_Active ((a : Active) <| session_rx := r |>)).

Definition keep_alive_live (now : Z) (st : SessionState) : Result (() * SessionState) :=
  a ← active st;
  Ok (tt, SS_Active ((a : Active) <| sa_keep_alive := live now (sa_keep_alive a) |>)).

Definition keep_alive_check (now : Z) (st : SessionState) : Result (Z * SessionState) :=
  a ← active st;
  left ← check_expired now (sa_keep_alive a);
  Ok (left, st).

Definition route_session (now : Z) : routing (QueueStatus Packet * list Z) :=
  down_status ← try_session recv_packets;
  let '(pkts, down_status) := take_values down_status in
  if (length pkts =? 0)%nat then
    _ ← try_session (keep_alive_check now);
    mret (down_status, [])
  else
    _ ← try_session (keep_alive_live now);
    '(status, out_seqnos) ← handle_packets pkts;
    mret (match down_status, status with
          | Q_Disconnected _, _ | _, Q_Disconnected _ => Q_Disconnected []
          | _, _ => Q_Ok []
          end, out_seqnos).
