(* ===== verification/ShardProps.v ===== *)
(** * Routing: theorems

    Who gets a PUBLISH and as what ([match_subscribers], [rx_publish]), and what
    the routing cannot do yet. *)
From stdpp Require Import sorting.
From S2P Require Import Prelude Errors Utf8 Types V5Header V5PubAck V5Publish V5Subscribe V5Packet Queues Config SortedVec BTree Message Subscription TopicTrie Tries Session SessionProps Shard.
Local Open Scope Z_scope.

(** ** Subscribers *)

Lemma QoS_max_spec a b : QoS_into_u8 (QoS_max a b) = Z.max (QoS_into_u8 a) (QoS_into_u8 b).
Proof. unfold QoS_max. by destruct a, b. Qed.

(** What several subscriptions of one client come to. *)
Definition merged (mine : list Subscription) (o : option (Subscription * list Z)) : Prop :=
  match o with
  | None => mine = []
  | Some (s, ids) =>
      ss_shard_id <$> head mine = Some (ss_shard_id s)
      ∧ ids = omap ss_subscription_id mine
      ∧ Forall (λ x, QoS_into_u8 (ss_qos x) ≤ QoS_into_u8 (ss_qos s)) mine
      ∧ Exists (λ x, ss_qos x = ss_qos s) mine
      ∧ (ss_no_local s = true ↔ Forall (λ x, ss_no_local x = true) mine)
      ∧ (ss_retain_as_published s = true ↔ Exists (λ x, ss_retain_as_published x = true) mine)
  end.

Definition of_client (id : rstring) (subs : list Subscription) : list Subscription :=
  filter (λ x, ss_client_id x = id) subs.

Lemma merged_snoc mine s ids x :
  merged mine (Some (s, ids)) →
  merged (mine ++ [x]) (Some (MkSubscription (ss_topic_filter s) (ss_client_id s) (ss_shard_id s)
      (ss_subscription_id s) (QoS_max (ss_qos s) (ss_qos x)) (ss_no_local s && ss_no_local x)
      (ss_retain_as_published s || ss_retain_as_published x) (ss_retain_forward_rule s),
    match ss_subscription_id x with Some id => ids ++ [id] | None => ids end)).
Proof.
  intros (Hh & -> & Hq & He & Hn & Hr). cbn [merged ss_shard_id ss_qos ss_no_local ss_retain_as_published].
  rewrite omap_app, Forall_app, Exists_app, Exists_app, andb_true_iff, orb_true_iff, Forall_app, Hn, Hr.
  rewrite QoS_max_spec, !Forall_singleton. split; [by destruct mine|]. split.
  { cbn. by destruct (ss_subscription_id x); rewrite ?app_nil_r. }
  split; [split; [eapply Forall_impl; [exact Hq|]; intros y Hy; cbn in *; lia|lia]|].
  split; [|split; [done|by rewrite Exists_cons, Exists_nil; naive_solver]].
  unfold QoS_max. destruct (Z.ltb_spec (QoS_into_u8 (ss_qos x)) (QoS_into_u8 (ss_qos s))); [by left|].
  right. by constructor.
Qed.

Lemma add_subscribers_spec subs :
  let m := foldl add_subscriber [] subs in
  bt_wf str_cmp m ∧ ∀ id, merged (of_client id subs) (bt_get str_cmp id m).
Proof.
  induction subs as [|x subs [Hwf IH]] using rev_ind; [split; [constructor|done]|].
  rewrite foldl_app. cbn [foldl]. set (m := foldl add_subscriber [] subs) in *.
  assert (∀ id, of_client id (subs ++ [x])
    = of_client id subs ++ if bool_decide (ss_client_id x = id) then [x] else []) as Hof.
  { intros id. unfold of_client. rewrite filter_app. f_equal. cbn. unfold filter; cbn. unfold decide_rel.
    case_bool_decide as Hd; destruct (decide (ss_client_id x = id)); try done. }
  unfold add_subscriber. pose proof (IH (ss_client_id x)) as Hx.
  split; [destruct (bt_get str_cmp (ss_client_id x) m) as [[s ids]|]; by apply (bt_insert_wf str_cmp)|].
  intros id. rewrite Hof.
  destruct (bt_get str_cmp (ss_client_id x) m) as [[s ids]|] eqn:Eg; rewrite (bt_get_insert str_cmp);
    (case_bool_decide as Hid;
      [subst id; rewrite (proj2 (str_cmp_eq _ _) eq_refl)
      |rewrite app_nil_r; specialize (IH id);
       destruct (str_cmp id (ss_client_id x)) eqn:E; [by apply str_cmp_eq in E|done|done]]).
  - by apply merged_snoc.
  - cbn in Hx. rewrite Hx. cbn. split; [done|]. split; [by destruct (ss_subscription_id x)|].
    rewrite !Forall_singleton, !Exists_cons, !Exists_nil. split_and!; [lia|naive_solver..].
Qed.

(** ** Routing *)

Definition sorted_ts : list Timestamp → Prop := sorted_by Z.compare ts_shard_id.

Definition knows (ts : list Timestamp) (shard_id : Z) : Prop := shard_id ∈ ts_shard_id <$> ts.

Lemma search_shard_spec id ts :
  sorted_ts ts →
  (∃ xs t ys, ts = xs ++ t :: ys ∧ ts_shard_id t = id ∧ search_shard id ts = Ok (true, length xs))
  ∨ (∃ xs ys, ts = xs ++ ys ∧ cut_at Z.compare ts_shard_id id xs ys ∧ ¬ knows ts id
      ∧ search_shard id ts = Ok (false, length xs)).
Proof.
  intros Hs. unfold search_shard.
  destruct (search_cases Z.compare ts_shard_id id ts (λ t, Ok (Z.compare (ts_shard_id t) id)) (λ _ _, eq_refl) Hs)
    as [(xs & c & ys & -> & Hc%Z.compare_eq_iff & _ & E)|(xs & ys & -> & Hcut & E)].
  - left. by exists xs, c, ys.
  - right. exists xs, ys. split_and!; [done|done| |done]. destruct Hcut as [Hxs Hys].
    unfold knows. rewrite fmap_app, elem_of_app, !list_elem_of_fmap.
    intros [(t & -> & Hin)|(t & -> & Hin)]; [eapply Forall_forall in Hxs; [|exact Hin]|eapply Forall_forall in Hys; [|exact Hin]];
      cbn in *; by rewrite Z.compare_refl in *.
Qed.

(** A timestamp once a message with the sequence number [inp] has gone to its shard. *)
Definition routed_at (id inp : Z) (t : Timestamp) : Timestamp :=
  if bool_decide (ts_shard_id t = id) then MkTimestamp id inp (last_acked t) else t.

Lemma sorted_ts_others xs t ys :
  sorted_ts (xs ++ t :: ys) → Forall (λ t', ts_shard_id t' ≠ ts_shard_id t) (xs ++ ys).
Proof.
  intros (_ & H2 & H3)%sorted_app. apply StronglySorted_inv in H2 as [_ H2].
  apply Forall_app. split; apply Forall_forall; intros t' Hin E.
  - specialize (H3 t' t Hin ltac:(by left)). cbn in H3. by rewrite E, Z.compare_refl in H3.
  - eapply Forall_forall in H2; [|exact Hin]. cbn in H2. by rewrite E, Z.compare_refl in H2.
Qed.

Lemma book_routed_known id inp sh l :
  sh_inner sh = SI_MainActive l → sorted_ts (ack_timestamps l) → knows (ack_timestamps l) id →
  book_routed_timestamps id inp sh
  = Ok (tt, set_loop ((l : ActiveLoop) <| ack_timestamps := routed_at id inp <$> ack_timestamps l |>) sh).
Proof.
  intros Hl Hs Hk. unfold book_routed_timestamps, active_loop. rewrite Hl; run.
  destruct (search_shard_spec id _ Hs) as [(xs & t & ys & E & Ht & ->)|(xs & ys & E & _ & Hn & _)]; [run|done].
  pose proof Hs as Hne. rewrite E in Hne. apply sorted_ts_others, Forall_app in Hne as [Hx Hy].
  rewrite E, list_lookup_middle by done. cbn [opt_unwrap]; run. unfold vec_set.
  rewrite length_app. cbn [length]. destruct (Nat.ltb_spec (length xs) (length xs + S (length ys))); [run|lia].
  rewrite insert_app_r_alt, Nat.sub_diag by lia. cbn [list_insert insert].
  do 3 f_equal. rewrite fmap_app, fmap_cons.
  assert (∀ zs, Forall (λ t', ts_shard_id t' ≠ ts_shard_id t) zs → routed_at id inp <$> zs = zs) as Hid.
  { intros zs. induction 1 as [|z zs Hz _ IH]; [done|]. rewrite fmap_cons, IH. unfold routed_at.
    by rewrite bool_decide_eq_false_2 by congruence. }
  rewrite (Hid xs), (Hid ys) by done. unfold routed_at. by rewrite bool_decide_eq_true_2, Ht.
Qed.

(** What one entry of the subscribers of a PUBLISH is sent: a client is not sent its
    own message when all its matching subscriptions say so. *)
Definition routed_entry (publish : Publish) (inp : Z) (ack : bool) (se : Session)
    (e : rstring * (Subscription * list Z)) : list (Z * Message) :=
  if ss_no_local e.2.1 && bool_decide (e.1 = client_id se) then []
  else
    match route_qos e.2.1 publish (mqtt_maximum_qos (sess_config se)) with
    | Ok qos =>
        let publish := Publish_set_subscription_ids
          (Publish_set_fixed_header publish (ss_retain_as_published e.2.1 && publish_retain publish) qos false)
          e.2.2 in
        [(ss_shard_id e.2.1, new_routed (sess_shard_id se) inp publish e.1 ack)]
    | _ => []
    end.

Definition to_shard (target : Z) (out : list (Z * Message)) : list Message :=
  omap (λ '(t, m), if decide (t = target) then Some m else None) out.

(** The loop [l] with the messages [out], numbered [inp], handed to the shards. *)
Definition handed (inp : Z) (out : list (Z * Message)) (l l' : ActiveLoop) : Prop :=
  (∀ target, default [] (bt_get Z.compare target (shard_back_log l'))
             = default [] (bt_get Z.compare target (shard_back_log l)) ++ to_shard target out)
  ∧ ack_timestamps l' = (λ t, if decide (ts_shard_id t ∈ out.*1)
                              then MkTimestamp (ts_shard_id t) inp (last_acked t) else t) <$> ack_timestamps l
  ∧ l' = l <| shard_back_log := shard_back_log l' |> <| ack_timestamps := ack_timestamps l' |>.

Lemma handed_nil inp l : handed inp [] l l.
Proof.
  split_and!; [intros; by rewrite app_nil_r| |by destruct l].
  rewrite <-(list_fmap_id (ack_timestamps l)) at 1. apply list_fmap_ext. intros i t _. cbn.
  destruct (decide (ts_shard_id t ∈ [])) as [Hin|]; [by apply not_elem_of_nil in Hin|done].
Qed.

Lemma handed_app inp out1 out2 l1 l2 l3 :
  handed inp out1 l1 l2 → handed inp out2 l2 l3 → handed inp (out1 ++ out2) l1 l3.
Proof.
  intros (Hb1 & Ht1 & E1) (Hb2 & Ht2 & E2). split_and!.
  - intros target. rewrite Hb2, Hb1, <-app_assoc. f_equal. unfold to_shard. by rewrite omap_app.
  - rewrite Ht2, Ht1, <-list_fmap_compose. apply list_fmap_ext. intros i t _. cbn.
    destruct (decide (ts_shard_id t ∈ out1.*1)) as [H1|H1]; cbn;
      destruct (decide (ts_shard_id t ∈ out2.*1)) as [H2|H2];
      destruct (decide (ts_shard_id t ∈ (out1 ++ out2).*1)) as [H3|H3]; try done;
      rewrite fmap_app, elem_of_app in H3; naive_solver.
  - rewrite E2, E1. by destruct l1.
Qed.

Lemma handed_timestamps inp out l l' :
  handed inp out l l' →
  (sorted_ts (ack_timestamps l) → sorted_ts (ack_timestamps l'))
  ∧ ∀ id, knows (ack_timestamps l) id → knows (ack_timestamps l') id.
Proof.
  intros (_ & Ht & _).
  assert (ts_shard_id <$> ack_timestamps l' = ts_shard_id <$> ack_timestamps l) as E.
  { rewrite Ht, <-list_fmap_compose. apply list_fmap_ext. intros i t _. cbn. by case_decide. }
  split; [|intros id; unfold knows; by rewrite E].
  by apply sorted_by_keys.
Qed.

Lemma route_to_client_known target msg inp sh l :
  (∃ src id publ ack, msg = new_routed src inp publ id ack) →
  sh_inner sh = SI_MainActive l → sorted_ts (ack_timestamps l) → knows (ack_timestamps l) target →
  ∃ l', route_to_client target msg sh = Ok (tt, set_loop l' sh) ∧ handed inp [(target, msg)] l l'.
Proof.
  intros (src & id & publ & ack & ->) Hl Hs Hk. unfold route_to_client, active_loop, new_routed. rewrite Hl; run.
  set (msg := Msg_Routed _ _ _ _ _ _).
  set (l1 := (l : ActiveLoop) <| shard_back_log := append_index Z.compare target msg (shard_back_log l) |>).
  rewrite (book_routed_known target inp (set_loop l1 sh) l1) by done. eexists. split; [done|]. split_and!; [| |by destruct l].
  - intros target'. cbn. rewrite append_index_get by apply _. f_equal.
    destruct (Z.compare_spec target' target); destruct (decide (target = target')); (done || lia).
  - cbn. apply list_fmap_ext. intros i t _. unfold routed_at. case_decide as H1; rewrite list_elem_of_singleton in H1;
      case_bool_decide; congruence.
Qed.

Definition valid_qos (qos : Z) : Prop := 0 ≤ qos ≤ 2.

Lemma QoS_try_from_ok qos : valid_qos qos → ∃ q, QoS_try_from qos = Ok q.
Proof.
  unfold valid_qos. intros H. assert (qos = 0 ∨ qos = 1 ∨ qos = 2) as [->|[->| ->]] by lia; by eexists.
Qed.

Lemma route_qos_ok s publish max : valid_qos max → ∃ q, route_qos s publish max = Ok q.
Proof.
  intros [q Eq]%QoS_try_from_ok. unfold route_qos. rewrite Eq. cbn [res_unwrap]; run. by eexists.
Qed.

Lemma route_all publish inp ack subscrs sh se l :
  sh_inner sh = SI_MainActive l → valid_qos (mqtt_maximum_qos (sess_config se)) →
  sorted_ts (ack_timestamps l) → Forall (λ e, knows (ack_timestamps l) (ss_shard_id e.2.1)) subscrs →
  ∃ l', for_each (route_one publish inp ack) tt subscrs (sh, se) = Ok (inl tt, (set_loop l' sh, se))
    ∧ handed inp (subscrs ≫= routed_entry publish inp ack se) l l'.
Proof.
  intros Hl Hq Hs Hk. revert sh l Hl Hs Hk. induction subscrs as [|e subscrs IH]; intros sh l Hl Hs Hk.
  { exists l. split; [|apply handed_nil]. destruct sh; cbn in *. by subst. }
  apply Forall_cons in Hk as [Hke Hk].
  assert (∃ l1, route_one publish inp ack tt e (sh, se) = Ok (inl tt, (set_loop l1 sh, se))
      ∧ handed inp (routed_entry publish inp ack se e) l l1) as (l1 & E1 & H1).
  { destruct e as [id [subscr ids]]. cbn [fst snd] in Hke. unfold route_one, routed_entry, asks, fallible. cbn [fst snd].
    unfold mbind, stateful_bind; run.
    destruct (ss_no_local subscr && _).
    { exists l. split; [|apply handed_nil]. destruct sh; cbn in *. by subst. }
    destruct (route_qos_ok subscr publish _ Hq) as [q Eq]. rewrite Eq; run.
    edestruct (route_to_client_known (ss_shard_id subscr)) as (l1 & E1 & H1); [by eexists _, _, _, _|exact Hl|done|done|].
    exists l1. split; [|exact H1]. unfold with_shard, updates. rewrite E1. by run. }
  destruct (handed_timestamps _ _ _ _ H1) as [Hs1 Hk1].
  destruct (IH (set_loop l1 sh) l1) as (l2 & E2 & H2); [done|by apply Hs1| |].
  { eapply Forall_impl; [exact Hk|]. intros e' He'. by apply Hk1. }
  exists l2. split; [|rewrite bind_cons; by eapply handed_app].
  cbn [for_each]. unfold mbind, stateful_bind. rewrite E1; run. exact E2.
Qed.

Lemma subscribers_elem subs e :
  e ∈ foldl add_subscriber [] subs → ∃ s, s ∈ subs ∧ ss_shard_id e.2.1 = ss_shard_id s.
Proof.
  intros He. destruct (add_subscribers_spec subs) as [Hwf Hm]. destruct e as [id [s ids]].
  apply (bt_elem_get str_cmp) in He; [|done]. specialize (Hm id). rewrite He in Hm.
  destruct Hm as (Hh & _). destruct (of_client id subs) as [|x xs] eqn:E; [done|].
  exists x. split; [|by injection Hh].
  assert (x ∈ of_client id subs) as Hx by (rewrite E; left). by apply list_elem_of_filter in Hx as [_ ?].
Qed.

Lemma subscribers_nonempty subs :
  (0 <? length (foldl add_subscriber [] subs))%nat = bool_decide (subs ≠ []).
Proof.
  destruct subs as [|s subs]; [done|]. rewrite bool_decide_eq_true_2 by done.
  destruct (add_subscribers_spec (s :: subs)) as [_ Hm]. specialize (Hm (ss_client_id s)).
  destruct (foldl _ _ _); [|done]. cbn in Hm. unfold of_client in Hm. cbn in Hm.
  unfold filter in Hm; cbn in Hm. by destruct (decide_rel _ _ _).
Qed.

Lemma is_duplicate_qos0 publ a : publish_qos publ = QoS_AtMostOnce → is_duplicate publ (SS_Active a) = Ok false.
Proof. unfold is_duplicate. cbn [active]; run. by intros ->. Qed.

Lemma book_qos_qos0 publ a : publish_qos publ = QoS_AtMostOnce → book_qos publ (SS_Active a) = Ok (SS_Active a).
Proof. unfold book_qos. cbn [active]; run. by intros ->. Qed.

Lemma topic_name_plain publ a :
  publish_topic_name publ ≠ [] → Publish_topic_alias publ = None →
  state_publish_topic_name publ (SS_Active a) = Ok (publish_topic_name publ, SS_Active a).
Proof.
  intros Hn Hal. unfold state_publish_topic_name. cbn [active]; run. rewrite Hal.
  by destruct (publish_topic_name publ).
Qed.

(** The session with the state that [publish_topic_name] leaves. *)
Definition with_state (st : SessionState) (se : Session) : Session :=
  MkSession (client_id se) (sess_shard_id se) (sess_config se) st.

Definition matched (inner : Inner Subscription) (l : ActiveLoop) : ActiveLoop :=
  (l : ActiveLoop) <| al_inp_seqno := Z.min (al_inp_seqno l + 1) (2 ^ 64 - 1) |> <| topic_filters := inner |>.

(** ** Theorems *)

(** C20. Each client that a message concerns appears once among its subscribers,
    whatever number of its subscriptions match: with the highest of their QoS, the
    identifiers of all of them in order, the shard of the first; a message is kept
    from its own publisher only if all of them say so, and keeps its retain flag if
    one of them says so. *)
Theorem match_subscribers_merged topic_name sh m sh' :
  match_subscribers topic_name sh = Ok (m, sh') →
  ∃ l inner subs, sh_inner sh = SI_MainActive l
    ∧ match_topic_name topic_name (topic_filters l) = Ok (inner, subs)
    ∧ sh' = set_loop ((l : ActiveLoop) <| topic_filters := inner |>) sh
    ∧ bt_wf str_cmp m ∧ ∀ id, merged (of_client id subs) (bt_get str_cmp id m).
Proof.
  unfold match_subscribers, active_loop. destruct (sh_inner sh) as [| | | |l| |]; try done; run.
  destruct (match_topic_name topic_name (topic_filters l)) as [[inner subs]| | |] eqn:E; try done; run.
  intros [= <- <-]. exists l, inner, subs. split_and!; [done..|apply add_subscribers_spec|apply add_subscribers_spec].
Qed.

(** A QoS 0 message that is published reaches its subscribers: every shard that
    the timestamps know gets, behind what it already waits for, the messages for
    its clients in the order of the clients, each with the QoS, flags and
    subscription identifiers of its merged subscription, and with the next
    sequence number; and the timestamps of those shards record it.  The
    publisher's own subscriptions count unless all of them have [no_local].  (The source never fills
    [ack_timestamps]: see [nothing_routed] in ShardRun.) *)
Theorem publish_routed publ name st' inner subs sh se l :
  sh_inner sh = SI_MainActive l → valid_qos (mqtt_maximum_qos (sess_config se)) →
  publish_qos publ = QoS_AtMostOnce → publish_packet_id publ = None → publish_retain publ = false →
  state_publish_topic_name publ (state se) = Ok (name, st') →
  match_topic_name name (topic_filters l) = Ok (inner, subs) →
  sorted_ts (ack_timestamps l) → Forall (λ s, knows (ack_timestamps l) (ss_shard_id s)) subs →
  ∃ l', rx_publish publ (sh, se) = Ok (inl (bool_decide (subs ≠ [])), (set_loop l' sh, with_state st' se))
    ∧ handed (al_inp_seqno l)
        (foldl add_subscriber [] subs ≫= routed_entry publ (al_inp_seqno l) false se) (matched inner l) l'.
Proof.
  intros Hl Hv Hq Hid Hr Hname Hm Hs Hk.
  destruct (state se) as [a| |] eqn:Est; [|done|done].
  destruct (route_all publ (al_inp_seqno l) false (foldl add_subscriber [] subs)
    (set_loop (matched inner l) sh) (with_state st' se) (matched inner l)) as (l' & E & H); [done..| |].
  { apply Forall_forall. intros e (s & Hin & ->)%subscribers_elem. eapply Forall_forall in Hk; [|exact Hin]. exact Hk. }
  exists l'. split; [|exact H]. unfold rx_publish.
  destruct (QoS_try_from_ok _ Hv) as [q Eq].
  eapply st_bind; [reflexivity|cbn beta]. eapply st_bind; [by unfold fallible; rewrite Eq|cbn beta].
  assert ((QoS_into_u8 q <? QoS_into_u8 (publish_qos publ)) = false) as -> by (rewrite Hq; by destruct q).
  eapply st_bind; [unfold try_session; rewrite Est, is_duplicate_qos0 by done; reflexivity|cbn beta iota].
  eapply st_bind; [unfold book_retain; eapply st_bind; [reflexivity|rewrite Hr; reflexivity]|cbn beta].
  eapply st_bind; [unfold try_session; cbn [state]; rewrite book_qos_qos0 by done; reflexivity|cbn beta].
  eapply st_bind; [unfold with_shard, updates, incr_inp_seqno, active_loop; rewrite Hl; reflexivity|cbn beta].
  eapply st_bind; [unfold try_session; cbn [state]; rewrite Hname; reflexivity|cbn beta].
  eapply st_bind; [unfold with_shard, updates, match_subscribers, active_loop; cbn [sh_inner set_loop]; run;
    cbn [topic_filters]; rewrite Hm; reflexivity|cbn beta zeta].
  rewrite Hid. eapply st_bind; [reflexivity|cbn beta].
  eapply st_bind; [exact E|]. cbn beta. by rewrite subscribers_nonempty.
Qed.

(** A message with a packet identifier that is not a duplicate cannot be
    published: [book_index] is given a [Message::Index] and expects a
    [Message::Routed]; for QoS 2 it is not written yet. *)
Theorem qos12_publish_panics publ id inner subs sh se l a :
  sh_inner sh = SI_MainActive l → state se = SS_Active a → sorted_ids (inp_qos12 a) →
  valid_qos (mqtt_maximum_qos (sess_config se)) →
  publish_qos publ ≠ QoS_AtMostOnce → QoS_into_u8 (publish_qos publ) ≤ mqtt_maximum_qos (sess_config se) →
  publish_packet_id publ = Some id → publish_retain publ = false →
  publish_topic_name publ ≠ [] → Publish_topic_alias publ = None →
  match_topic_name (publish_topic_name publ) (topic_filters l) = Ok (inner, subs) →
  is_duplicate publ (SS_Active a) = Ok false →
  rx_publish publ (sh, se) = Panic.
Proof.
  intros Hl Hst Hs Hv Hq Hmax Hid Hr Hname Hal Hm Hdup. unfold rx_publish.
  destruct (QoS_try_from_ok _ Hv) as [q Eq]. pose proof (QoS_try_from_post (mqtt_maximum_qos (sess_config se))) as Hp.
  rewrite Eq in Hp. cbn in Hp.
  eapply st_bind; [reflexivity|cbn beta]. eapply st_bind; [by unfold fallible; rewrite Eq|cbn beta].
  rewrite (proj2 (Z.ltb_ge _ _)) by lia.
  eapply st_bind; [unfold try_session; rewrite Hst, Hdup; reflexivity|cbn beta iota].
  eapply st_bind; [unfold book_retain; eapply st_bind; [reflexivity|rewrite Hr; reflexivity]|cbn beta].
  assert (∃ a', book_qos publ (SS_Active a) = Ok (SS_Active a')) as [a' Eb].
  { unfold book_qos. cbn [active]; run. rewrite Hid; cbn [opt_unwrap]; run.
    destruct (search_id_spec id _ Hs) as [(xs & ys & Ei & ->)|(xs & ys & Ei & _ & _ & ->)]; run;
      rewrite ?Ei, ?vec_insert_app; run; destruct (publish_qos publ); by eexists. }
  eapply st_bind; [unfold try_session; cbn [state]; rewrite Eb; reflexivity|cbn beta].
  eapply st_bind; [unfold with_shard, updates, incr_inp_seqno, active_loop; rewrite Hl; reflexivity|cbn beta].
  eapply st_bind; [unfold try_session; cbn [state]; rewrite topic_name_plain by done; reflexivity|].
  cbn beta.
  eapply st_bind; [unfold with_shard, updates, match_subscribers, active_loop; cbn [sh_inner set_loop]; run;
    cbn [topic_filters]; rewrite Hm; reflexivity|cbn beta zeta].
  rewrite Hid. unfold mbind at 1, stateful_bind. unfold mbind at 1, stateful_bind.
  unfold asks, with_shard, updates, book_index, active_loop; cbn. by destruct (publish_qos publ).
Qed.

(** Routing to a shard that the timestamps do not know: the index that the
    search returns is written instead of inserted at.  It panics when all known
    shards come before; otherwise the timestamp of the next shard is lost. *)
Theorem unknown_shard_routed id inp sh l :
  sh_inner sh = SI_MainActive l → sorted_ts (ack_timestamps l) → ¬ knows (ack_timestamps l) id →
  ∃ below above, ack_timestamps l = below ++ above
    ∧ Forall (λ t, ts_shard_id t < id) below ∧ Forall (λ t, id < ts_shard_id t) above
    ∧ book_routed_timestamps id inp sh
      = match above with
        | [] => Panic
        | _ :: above => Ok (tt, set_loop ((l : ActiveLoop) <| ack_timestamps := below ++ MkTimestamp id inp 0 :: above |>) sh)
        end.
Proof.
  intros Hl Hs Hk. unfold book_routed_timestamps, active_loop. rewrite Hl; run.
  destruct (search_shard_spec id _ Hs) as [(xs & t & ys & E & Ht & _)|(xs & ys & E & [Hx Hy] & _ & ->)].
  { destruct Hk. unfold knows. rewrite E, fmap_app, fmap_cons. set_solver. }
  exists xs, ys. split; [done|]. run. split; [|split].
  - eapply Forall_impl; [exact Hx|]. cbn. intros t Ht. by apply Z.compare_lt_iff.
  - eapply Forall_impl; [exact Hy|]. cbn. intros t Ht. rewrite <-Z.compare_lt_iff. try done. rewrite Z.compare_antisym. by rewrite Ht.
  - rewrite E. unfold vec_set. rewrite length_app. destruct ys as [|y ys]; cbn [length].
    + by rewrite Nat.add_0_r, Nat.ltb_irrefl.
    + destruct (Nat.ltb_spec (length xs) (length xs + S (length ys))); [run|lia].
      rewrite insert_app_r_alt, Nat.sub_diag by lia. done.
Qed.

(** ** Witnesses and examples *)

(** A shard that knows itself, with one subscription to [a/b] of the client [c]. *)
Definition ex_topics : Inner Subscription :=
  match do_subscribe [97; 47; 98] (MkSubscription [97; 47; 98] [99] 0 (Some 4) QoS_AtLeastOnce false true RFR_OnEverySubscribe)
    Inner_default with Ok inner => inner | _ => Inner_default end.
Definition ex_loop (ts : list Timestamp) : ActiveLoop := MkActiveLoop [] [] [] [] 1 [] [] ts [] ex_topics.
Definition ex_shard (ts : list Timestamp) : Shard := MkShard 0 (Config_default 1) (SI_MainActive (ex_loop ts)).
Definition ex_session : Session := MkSession [100] 0 (Config_default 1) (SS_Active ex_active).

Lemma match_subscribers_merged_witness :
  ∃ m sh', match_subscribers [97; 47; 98] (ex_shard []) = Ok (m, sh')
    ∧ bt_wf str_cmp m ∧ (∃ s, bt_get str_cmp [99] m = Some (s, [4])).
Proof.
  eexists _, _. split; [vm_compute; reflexivity|].
  edestruct (match_subscribers_merged [97; 47; 98] (ex_shard [])) as (l & inner & subs & _ & _ & _ & Hwf & _);
    [vm_compute; reflexivity|]. split; [exact Hwf|]. eexists. reflexivity.
Defined.

Definition ex_delivered : Message :=
  Msg_Routed 0 [99] 1 0
    ((ex_publ QoS_AtMostOnce None [97; 47; 98])
       <| publish_properties := Some (PublishProperties_default <| pp_subscribtion_identifier := [4] |>) |>) false.

Lemma publish_routed_witness :
  ∃ l', rx_publish (ex_publ QoS_AtMostOnce None [97; 47; 98]) (ex_shard [MkTimestamp 0 0 0], ex_session)
    = Ok (inl true, (set_loop l' (ex_shard []), ex_session))
    ∧ default [] (bt_get Z.compare 0 (shard_back_log l')) = [ex_delivered].
Proof.
  edestruct (publish_routed (ex_publ QoS_AtMostOnce None [97; 47; 98]) [97; 47; 98] (SS_Active ex_active))
    with (sh := ex_shard [MkTimestamp 0 0 0]) (se := ex_session) as (l' & E & Hb & _);
    [reflexivity|by split|reflexivity..|vm_compute; reflexivity|by repeat constructor|by repeat constructor|].
  exists l'. split; [exact E|]. rewrite Hb. vm_compute. reflexivity.
Defined.

Lemma qos12_publish_panics_witness :
  rx_publish (ex_publ QoS_AtLeastOnce (Some 7) [97; 47; 98]) (ex_shard [MkTimestamp 0 0 0], ex_session) = Panic.
Proof.
  eapply (qos12_publish_panics (ex_publ QoS_AtLeastOnce (Some 7) [97; 47; 98]) 7);
    [reflexivity|reflexivity|constructor|by split|done|done|reflexivity|reflexivity|done|reflexivity
    |vm_compute; reflexivity|reflexivity].
Defined.

Lemma unknown_shard_routed_witness :
  ∃ below above, [MkTimestamp 2 8 6] = below ++ above
    ∧ Forall (λ t, ts_shard_id t < 1) below ∧ Forall (λ t, 1 < ts_shard_id t) above
    ∧ book_routed_timestamps 1 9 (ex_shard [MkTimestamp 2 8 6])
      = match above with
        | [] => Panic
        | _ :: above => Ok (tt, ex_shard (below ++ MkTimestamp 1 9 0 :: above))
        end.
Proof.
  apply (unknown_shard_routed 1 9 (ex_shard [MkTimestamp 2 8 6]) (ex_loop [MkTimestamp 2 8 6]));
    [reflexivity|by repeat constructor|].
  unfold knows. apply (bool_decide_unpack _). by vm_compute.
Defined.

(** The first message that a new shard routes: it knows of no shard yet. *)
Example first_publish_panics :
  rx_publish (ex_publ QoS_AtMostOnce None [97; 47; 98]) (ex_shard [], ex_session) = Panic.
Proof. by vm_compute. Qed.
