(* ===== verification/ShardLoop.v ===== *)
(** * Shards: the turn of the loop (src/src/broker/shard.rs)

    What a shard does each time it is woken: packets of its sessions are routed,
    messages from other shards go to its sessions, acknowledgements go out; and the
    requests that add and flush connections. *)
From S2P Require Import Prelude Errors Utf8 Types V5Header V5PubAck V5ConnAck V5Connect V5Publish V5Packet Framing Queues Threads Config SortedVec BTree Socket Message Subscription TopicTrie Tries Session Shard.
Local Open Scope Z_scope.

Abbreviation Acks := (btree Z Z).

(** ** Connections that end *)

(** [Session::remove_topic_filters]: [as_subscriptions] is for active sessions. *)
Definition remove_topic_filters (se : Session) (inner : Inner Subscription) : Result (Inner Subscription) :=
  a ← active (state se);
  foldM (λ inner '(topic_filter, value), do_unsubscribe topic_filter value inner) inner (subscriptions a).

(** [handle_flush_connection]: of the socket its client is used. *)
Definition handle_flush_connection (id : rstring) (e : option Error) (sh : Shard) : Result Shard :=
  l ← active_loop sh;
  inner ← match bt_get str_cmp id (sessions l) with
          | Some se => remove_topic_filters se (topic_filters l)
          | None => Ok (topic_filters l)
          end;
  Ok (set_loop ((l : ActiveLoop) <| sessions := bt_remove str_cmp id (sessions l) |>
        <| topic_filters := inner |> <| al_flusher := al_flusher l ++ [(id, e)] |>) sh).

(** [miot.remove_connection(&client_id)], and the connection to the flusher if the
    miot thread had it. *)
Definition drop_connection (e : option Error) (sh : Shard) (id : rstring) : Result Shard :=
  l ← active_loop sh;
  if bool_decide (id ∈ al_miot l) then
    handle_flush_connection id e
      (set_loop ((l : ActiveLoop) <| al_miot := filter (λ i, i ≠ id) (al_miot l) |>) sh)
  else Ok sh.

Definition slow_client : option Error := Some (MkError EK_SlowClient (Some RC_UnspecifiedError) NoCause).

(** ** Packets of the sessions *)

(** [send_to_shards]: a queue takes what it can, the rest waits. *)
Definition send_to_shard (st : btree Z (list Message) * btree Z MsgTx) (e : Z * list Message)
    : Result (btree Z (list Message) * btree Z MsgTx) :=
  let '(back_log, queues) := st in
  let '(shard_id, msgs) := e in
  shard ← opt_unwrap (bt_get Z.compare shard_id queues);
  let '(status, shard) := MsgTx_try_sends msgs shard in
  let '(rest, _) := take_values status in
  Ok (bt_insert Z.compare shard_id rest back_log, bt_insert Z.compare shard_id shard queues).

Definition send_to_shards (sh : Shard) : Result Shard :=
  l ← active_loop sh;
  '(back_log, queues) ← foldM send_to_shard ([], shard_queues l) (shard_back_log l);
  Ok (set_loop ((l : ActiveLoop) <| shard_back_log := back_log |> <| shard_queues := queues |>) sh).

(** The loop of [route_packets], over the sessions in the order of their clients.
    [now] is the clock when the session of a client is handled. *)
Record routed := MkRouted {
  ro_sessions : btree rstring Session;
  ro_failed : list (rstring * Error);
  ro_acks : btree rstring (list Z);
}.

Fixpoint route_sessions (now : rstring → Z) (ss : btree rstring Session) (sh : Shard) (r : routed)
    : Result (routed * Shard) :=
  match ss with
  | [] => Ok (r, sh)
  | (id, se) :: ss =>
      '(res, (sh, se)) ← route_session (now id) (sh, se);
      '(failed, seqnos) ←
        match res with
        | inl (Q_Ok _, seqnos) | inl (Q_Block _, seqnos) => Ok ([], seqnos)
        | inl (Q_Disconnected _, seqnos) =>
            Ok ([(id, MkError EK_Disconnected None NoCause)], seqnos)
        | inr e =>
            if bool_decide (Error_kind e = EK_Disconnected) || bool_decide (Error_kind e = EK_ProtocolError)
            then Ok ([(id, e)], []) else Panic
        end;
      route_sessions now ss sh
        (MkRouted (ro_sessions r ++ [(id, se)]) (ro_failed r ++ failed)
           (bt_insert str_cmp id seqnos (ro_acks r)))
  end.

(** While the sessions are routed, [self.inner] has been replaced with [Init]. *)
Definition route_packets (now : rstring → Z) (sh : Shard) : Result (btree rstring (list Z) * Shard) :=
  l ← active_loop sh;
  '(r, sh) ← route_sessions now (sessions l) (MkShard (sh_shard_id sh) (sh_config sh) SI_Init)
               (MkRouted [] [] []);
  let sh := set_loop ((l : ActiveLoop) <| sessions := ro_sessions r |>) sh in
  sh ← foldM (λ sh '(id, e), drop_connection (Some e) sh id) sh (ro_failed r);
  sh ← send_to_shards sh;
  Ok (ro_acks r, sh).

(** ** Messages from other shards *)

(** [sessions.get_mut(id)], and what [f] does with the session. *)
Definition with_session_of (id : rstring) {A} (f : SessionState → Result (A * SessionState)) (l : ActiveLoop)
    : Result (option A * ActiveLoop) :=
  match bt_get str_cmp id (sessions l) with
  | Some se =>
      '(a, se) ← on_state f se;
      Ok (Some a, l <| sessions := bt_insert str_cmp id se (sessions l) |>)
  | None => Ok (None, l)
  end.

(** A session that has to be there: [None => unreachable!()]. *)
Definition must {A} (r : option A * ActiveLoop) : Result (A * ActiveLoop) :=
  let '(o, l) := r in a ← opt_unwrap o; Ok (a, l).

Record received := MkReceived {
  rc_acks : Acks;
  rc_qos0 : btree rstring (list Message);
  rc_qos12 : list Message;
}.

Definition out_message (st : received * Shard) (msg : Message) : Result (received * Shard) :=
  let '(rc, sh) := st in
  l ← active_loop sh;
  id ← as_client_id msg;
  res ← with_session_of id (incr_out_seqno msg) l;
  '(msg, l) ← must res;
  let sh := set_loop l sh in
  match msg with
  | Msg_LocalAck shard_id acked =>
      '(_, sh) ← book_acked_timestamps shard_id acked sh;
      Ok (rc, sh)
  | Msg_Routed src id inp _ publish ack_needed =>
      if bool_decide (publish_qos publish = QoS_AtMostOnce) then
        let acks := if ack_needed : bool then bt_insert Z.compare src inp (rc_acks rc) else rc_acks rc in
        Ok (MkReceived acks (append_index str_cmp id msg (rc_qos0 rc)) (rc_qos12 rc), sh)
      else Ok (MkReceived (rc_acks rc) (rc_qos0 rc) (rc_qos12 rc ++ [msg]), sh)
  | _ => Panic
  end.

(** One client's QoS 0 messages; clients that do not keep up are collected. *)
Definition out_qos0_one (st : list rstring * ActiveLoop) (e : rstring * list Message)
    : Result (list rstring * ActiveLoop) :=
  let '(disconnecteds, l) := st in
  let '(id, msgs) := e in
  '(status, l) ← with_session_of id (out_qos0 msgs) l;
  Ok (match status with Some (Q_Disconnected _) => disconnecteds ++ [id] | _ => disconnecteds end, l).

Definition shard_out_qos0 (qos0_msgs : btree rstring (list Message)) (sh : Shard) : Result Shard :=
  l ← active_loop sh;
  '(disconnecteds, l) ← foldM out_qos0_one ([], l) qos0_msgs;
  foldM (drop_connection slow_client) (set_loop l sh) disconnecteds.

Definition out_messages (msg_rx : MsgRx) (acks : Acks) (sh : Shard)
    : Result (QueueMsg * MsgRx * Acks * Shard) :=
  '(status, msg_rx) ← MsgRx_try_recvs msg_rx;
  let '(msgs, status) := take_values status in
  '(rc, sh) ← foldM out_message (MkReceived acks [] [], sh) msgs;
  sh ← shard_out_qos0 (rc_qos0 rc) sh;
  status ← set_values status (rc_qos12 rc);
  Ok (status, msg_rx, rc_acks rc, sh).

(** ** Commits *)

Definition shard_commit_acks (acks : btree rstring (list Z)) (sh : Shard) : Result Shard :=
  l ← active_loop sh;
  l ← foldM (λ l '(id, seqnos),
    res ← with_session_of id (λ st, st ← commit_acks seqnos st; Ok (tt, st)) l;
    '(_, l) ← must res; Ok l) l acks;
  Ok (set_loop l sh).

Definition group_message (st : Acks * btree rstring (list Message)) (msg : Message)
    : Result (Acks * btree rstring (list Message)) :=
  match msg with
  | Msg_Routed src id inp _ _ _ =>
      Ok (bt_insert Z.compare src inp st.1, append_index str_cmp id msg st.2)
  | _ => Panic
  end.

Definition out_qos_one (st : list rstring * ActiveLoop) (e : rstring * list Message)
    : Result (list rstring * ActiveLoop) :=
  let '(disconnecteds, l) := st in
  let '(id, msgs) := e in
  res ← with_session_of id (out_qos msgs) l;
  '(status, l) ← must res;
  Ok (match status with Q_Disconnected _ => disconnecteds ++ [id] | _ => disconnecteds end, l).

Definition commit_messages_active (msgs : list Message) (acks : Acks) (sh : Shard) : Result (Acks * Shard) :=
  '(acks, qos_msgs) ← foldM group_message (acks, []) msgs;
  l ← active_loop sh;
  '(disconnecteds, l) ← foldM out_qos_one ([], l) qos_msgs;
  sh ← foldM (drop_connection slow_client) (set_loop l sh) disconnecteds;
  Ok (acks, sh).

(** A replica asks for the state [MainActive] too. *)
Definition commit_messages_replica (msgs : list Message) (acks : Acks) (sh : Shard) : Result (Acks * Shard) :=
  '(_, qos_msgs) ← foldM group_message ([], []) msgs;
  l ← active_loop sh;
  '(_, l) ← foldM out_qos_one ([], l) qos_msgs;
  Ok (acks, set_loop l sh).

Definition commit_messages (msgs : list Message) (acks : Acks) (sh : Shard) : Result (Acks * Shard) :=
  match sh_inner sh with
  | SI_MainActive _ => commit_messages_active msgs acks sh
  | SI_MainReplica _ => commit_messages_replica msgs acks sh
  | _ => Panic
  end.

(** ** Acknowledgements *)

Definition return_local_acks (acks : Acks) (sh : Shard) : Result Shard :=
  l ← active_loop sh;
  let back_log := foldl (λ back_log '(target, inp_seqno),
    append_index Z.compare target (Msg_LocalAck (sh_shard_id sh) inp_seqno) back_log)
    (shard_back_log l) acks in
  send_to_shards (set_loop ((l : ActiveLoop) <| shard_back_log := back_log |>) sh).

(** [ack_timestamps.iter().map(|t| t.last_acked).min()] *)
Definition min_acked (ts : list Timestamp) : option Z :=
  match ts with
  | [] => None
  | t :: ts => Some (foldl (λ m t, Z.min m (last_acked t)) (last_acked t) ts)
  end.

(** [index.iter().take_while(|(s, _)| **s <= min)] *)
Fixpoint take_acked (min : Z) (index : btree Z Message) : list Z :=
  match index with
  | (s, _) :: index => if s <=? min then s :: take_acked min index else []
  | [] => []
  end.

Definition ack_one (l : ActiveLoop) (seqno : Z) : Result ActiveLoop :=
  msg ← opt_unwrap (bt_get Z.compare seqno (index l));
  let l := l <| index := bt_remove Z.compare seqno (index l) |> in
  match msg with
  | Msg_Index src_client_id packet_id =>
      res ← with_session_of src_client_id (λ st, st ← out_acks_publish packet_id st; Ok (tt, st)) l;
      '(_, l) ← must res;
      Ok l
  | _ => Panic
  end.

Definition shard_out_acks_publish (sh : Shard) : Result Shard :=
  l ← active_loop sh;
  match min_acked (ack_timestamps l) with
  | Some min =>
      l ← foldM ack_one l (take_acked min (index l));
      Ok (set_loop l sh)
  | None => Ok sh
  end.

Fixpoint flush_sessions (ss : btree rstring Session) (done_ : btree rstring Session) (disconnecteds : list rstring)
    : Result (btree rstring Session * list rstring) :=
  match ss with
  | [] => Ok (done_, disconnecteds)
  | (id, se) :: ss =>
      '(status, se) ← Session_out_acks_flush se;
      flush_sessions ss (done_ ++ [(id, se)])
        (match status with Q_Disconnected _ => disconnecteds ++ [id] | _ => disconnecteds end)
  end.

Definition shard_out_acks_flush (sh : Shard) : Result Shard :=
  l ← active_loop sh;
  '(ss, disconnecteds) ← flush_sessions (sessions l) [] [];
  foldM (drop_connection slow_client) (set_loop ((l : ActiveLoop) <| sessions := ss |>) sh) disconnecteds.

(** ** The turn of [active_loop]

    On the right when the queue of messages is disconnected, which ends the loop. *)
Definition active_turn (now : rstring → Z) (msg_rx : MsgRx) (sh : Shard) : Result ((MsgRx * Shard) + Shard) :=
  '(ack_out_seqnos, sh) ← route_packets now sh;
  '(status, msg_rx, qos_acks, sh) ← out_messages msg_rx [] sh;
  let '(qos_msgs, status) := take_values status in
  match status with
  | Q_Disconnected _ => Ok (inr sh)
  | _ =>
      sh ← shard_commit_acks ack_out_seqnos sh;
      '(qos_acks, sh) ← commit_messages qos_msgs qos_acks sh;
      sh ← shard_out_acks_publish sh;
      sh ← shard_out_acks_flush sh;
      sh ← return_local_acks qos_acks sh;
      Ok (inl (msg_rx, sh))
  end.

(** ** New sessions

    [handle_add_session]: [uuid] is the identifier that the uuid library generates
    for a client without one, [now] the clock.  A connection that has been reset ends the
    thread.  Without room for the CONNACK there is no session. A session of the same client
    is taken over. *)
Definition session_taken_over : option Error :=
  Some (MkError EK_SessionTakenOver (Some RC_SessionTakenOver) NoCause).

Definition take_over (id : rstring) (sh : Shard) : Result Shard :=
  l ← active_loop sh;
  match bt_get str_cmp id (sessions l) with
  | Some se =>
      inner ← remove_topic_filters se (topic_filters l);
      drop_connection session_taken_over
        (set_loop ((l : ActiveLoop) <| sessions := bt_remove str_cmp id (sessions l) |>
           <| topic_filters := inner |>) sh) id
  | None => Ok sh
  end.

Definition handle_add_session `{sys : System} (uuid : rstring) (now : Z) (sock : TcpStream) (pkt : Connect) (sh : Shard) : Result Shard :=
  _ ← opt_unwrap (peer_addr sock);
  let config := sh_config sh in
  let size := Z.to_nat (mqtt_pkt_batch_size config) in
  let id := ClientID_from_connect uuid (cpl_client_id (connect_payload pkt)) in
  let '(_, session_rx) := pkt_channel size in
  let '(miot_tx, _) := pkt_channel size in
  let session := Session_new id (sh_shard_id sh) miot_tx session_rx config pkt now in
  connack ← success_ack pkt session;
  '(_, session) ← on_state (λ st, st ← out_acks_extend [new_conn_ack connack] st; Ok (tt, st)) session;
  '(status, session) ← Session_out_acks_flush session;
  match status with
  | Q_Disconnected _ | Q_Block _ => Ok sh
  | Q_Ok _ =>
      sh ← take_over id sh;
      l ← active_loop sh;
      Ok (set_loop ((l : ActiveLoop) <| al_miot := filter (λ i, i ≠ id) (al_miot l) ++ [id] |>
            <| sessions := bt_insert str_cmp id session (sessions l) |>) sh)
  end.
