(* ===== verification/ShardLoopProps.v ===== *)
(** * The turn of a shard: theorems

    What a turn does to the sessions of the shard and what it passes on: order and
    completeness of the queues between shards, the numbers of the messages, the
    acknowledgements, and the turns that cannot end yet. *)
From stdpp Require Import sorting.
From S2P Require Import Prelude Errors Utf8 Types V5Header V5PubAck V5ConnAck V5Connect V5Publish V5Packet Queues Config SortedVec BTree Message Subscription TopicTrie Tries Session SessionProps Shard ShardProps ShardLoop.
Local Open Scope Z_scope.

(** ** Queues between shards *)

(** What the shard [t] is to get: what is in its queue, then what waits for it. *)
Definition owed_to (back_log : btree Z (list Message)) (queues : btree Z MsgTx) (t : Z) : list Message :=
  from_option (λ q, ch_items (tx q)) [] (bt_get Z.compare t queues) ++ default [] (bt_get Z.compare t back_log).

Lemma send_to_shards_spec todo back_log queues :
  bt_wf Z.compare todo →
  Forall (λ e, is_Some (bt_get Z.compare e.1 queues) ∧ bt_get Z.compare e.1 back_log = None) todo →
  ∃ back_log' queues', foldM send_to_shard (back_log, queues) todo = Ok (back_log', queues')
    ∧ ∀ t, owed_to back_log' queues' t = owed_to back_log queues t ++ default [] (bt_get Z.compare t todo).
Proof.
  revert back_log queues. induction todo as [|[id msgs] todo IH]; intros back_log queues Hwf Hall.
  { exists back_log, queues. split; [done|]. intros t. by rewrite app_nil_r. }
  apply bt_wf_cons in Hwf as [Hwf Habove]. apply Forall_cons in Hall as [[[q Hq] Hnone] Hall]. cbn [fst] in *.
  cbn [foldM send_to_shard]. rewrite Hq. cbn [opt_unwrap]; run.
  destruct (try_sends_spec msgs q) as (sent & rest & E & Hi & _ & Hv & _).
  unfold MsgTx_try_sends. destruct (try_sends msgs q) as [status q']. cbn [fst snd take_values] in *. rewrite Hv.
  edestruct (IH (bt_insert Z.compare id rest back_log) (bt_insert Z.compare id q' queues)) as (bl & qs & E2 & Ho); [done| |].
  { rewrite Forall_forall in Hall, Habove |- *. intros e He. specialize (Hall e He) as [[q2 Hq2] Hn].
    specialize (Habove e He). assert (id < e.1) by by apply Z.compare_lt_iff.
    rewrite !bt_get_Z. destruct (decide (e.1 = id)); [lia|]. split; [by eexists|done]. }
  exists bl, qs. split; [exact E2|]. intros t. rewrite Ho. unfold owed_to. rewrite !bt_get_Z. cbn [bt_get].
  destruct (Z.compare_spec t id) as [->|Hlt|Hgt].
  - rewrite !decide_True by done. rewrite Hq, Hnone. rewrite (bt_get_above Z.compare) by done. cbn. by rewrite Hi, E, !app_nil_r, <-!app_assoc.
  - by destruct (decide (t = id)); [lia|].
  - by destruct (decide (t = id)); [lia|].
Qed.

(** ** Messages to the sessions *)

Lemma with_session_of_some {A} id (f : SessionState → Result (A * SessionState)) l se (a : A) st :
  bt_get str_cmp id (sessions l) = Some se → f (state se) = Ok (a, st) →
  with_session_of id f l = Ok (Some a, (l : ActiveLoop) <| sessions := bt_insert str_cmp id (with_state st se) (sessions l) |>).
Proof. intros E Ef. unfold with_session_of. rewrite E. unfold on_state. rewrite Ef. by run. Qed.

(** The session of a client, when the shard has one and it is active. *)
Definition session_of (l : ActiveLoop) (id : rstring) : option Active :=
  match bt_get str_cmp id (sessions l) with
  | Some se => match state se with SS_Active a => Some a | _ => None end
  | None => None
  end.

Lemma session_of_some l id a :
  session_of l id = Some a → ∃ se, bt_get str_cmp id (sessions l) = Some se ∧ state se = SS_Active a.
Proof.
  unfold session_of. destruct (bt_get _ _ _) as [se|]; [|done]. destruct (state se) eqn:E; naive_solver.
Qed.

(** The loop with other sessions. *)
Definition with_sessions (ss : btree rstring Session) (l : ActiveLoop) : ActiveLoop :=
  (l : ActiveLoop) <| sessions := ss |>.

(** What [with_session_of] does to the sessions: one of them changes. *)
Lemma with_session_of_active {A} id (f : SessionState → Result (A * SessionState)) l a r a' :
  session_of l id = Some a → f (SS_Active a) = Ok (r, SS_Active a') →
  ∃ l', with_session_of id f l = Ok (Some r, l') ∧ l' = with_sessions (sessions l') l
    ∧ ∀ id', session_of l' id' = if decide (id' = id) then Some a' else session_of l id'.
Proof.
  intros (se & E & Es)%session_of_some Ef. rewrite <-Es in Ef. eexists. split; [by eapply with_session_of_some|].
  split; [by destruct l|]. intros id'. unfold session_of. cbn [sessions]. rewrite bt_get_str. by case_decide.
Qed.

Definition client_of (m : Message) : option rstring :=
  match m with Msg_Routed _ id _ _ _ _ => Some id | _ => None end.

(** The messages of each client get its next numbers, in order. *)
Fixpoint numbered (next : rstring → Z) (msgs : list Message) : list Message :=
  match msgs with
  | Msg_Routed src id inp _ publish ack :: msgs =>
      Msg_Routed src id inp (next id) publish ack
        :: numbered (λ i, if decide (i = id) then Z.min (next id + 1) (2 ^ 64 - 1) else next i) msgs
  | _ => []
  end.

Definition qos12_of (msgs : list Message) : list Message :=
  omap (λ m, match m with
             | Msg_Routed _ _ _ _ publish _ => if publish_qos publish is QoS_AtMostOnce then None else Some m
             | _ => None
             end) msgs.
Definition qos0_of (id : rstring) (msgs : list Message) : list Message :=
  omap (λ m, match m with
             | Msg_Routed _ id' _ _ publish _ =>
                 if decide (id' = id) then if publish_qos publish is QoS_AtMostOnce then Some m else None else None
             | _ => None
             end) msgs.

Definition next_of (l : ActiveLoop) (id : rstring) : Z := from_option out_seqno 0 (session_of l id).

Lemma numbered_ext next next' msgs :
  (∀ id, next id = next' id) → numbered next msgs = numbered next' msgs.
Proof.
  revert next next'. induction msgs as [|m msgs IH]; intros next next' H; [done|]. destruct m; try done.
  cbn. rewrite H. f_equal. apply IH. intros i. case_decide; [done|apply H].
Qed.

(** ** Acknowledgements to publishers *)

Definition acks_to (id : rstring) (es : btree Z Message) : list Message :=
  omap (λ e, match e.2 with
             | Msg_Index client packet_id =>
                 if decide (client = id) then Some (new_pub_ack (Pub_new_pub_ack packet_id)) else None
             | _ => None
             end) es.

Definition with_acks (acks : list Message) (a : Active) : Active := (a : Active) <| out_acks := out_acks a ++ acks |>.

Lemma with_acks_nil a : with_acks [] a = a.
Proof. unfold with_acks. rewrite app_nil_r. by destruct a. Qed.

Lemma with_acks_app acks1 acks2 a : with_acks acks2 (with_acks acks1 a) = with_acks (acks1 ++ acks2) a.
Proof. unfold with_acks. cbn. by rewrite <-app_assoc. Qed.

Definition index_ok (l : ActiveLoop) (e : Z * Message) : Prop :=
  match e.2 with Msg_Index client _ => is_Some (session_of l client) | _ => False end.

Lemma ack_loop min es l :
  index l = es → Forall (index_ok l) es →
  ∃ acked l', foldM ack_one l (take_acked min es) = Ok l' ∧ es = acked ++ index l'
    ∧ l' = with_sessions (sessions l') ((l : ActiveLoop) <| index := index l' |>)
    ∧ Forall (λ e, e.1 ≤ min) acked ∧ from_option (λ e, min < e.1) True (head (index l'))
    ∧ ∀ id, session_of l' id = with_acks (acks_to id acked) <$> session_of l id.
Proof.
  revert l. induction es as [|[s m] es IH]; intros l Hi Hok; cbn [take_acked].
  { exists [], l. rewrite Hi. split_and!; [done..|by destruct l; cbn in *; subst|done|done|].
    intros id. destruct (session_of l id); [cbn; by rewrite with_acks_nil|done]. }
  destruct (Z.leb_spec s min) as [Hle|Hgt].
  2:{ exists [], l. rewrite Hi. split_and!; [done..|by destruct l; cbn in *; subst|done|cbn; lia|].
      intros id. destruct (session_of l id); [cbn; by rewrite with_acks_nil|done]. }
  apply Forall_cons in Hok as [Hm Hok]. unfold index_ok in Hm. cbn [snd] in Hm.
  destruct m as [| |client packet_id| |]; try done. destruct Hm as [a Ha].
  set (l0 := (l : ActiveLoop) <| index := es |>).
  destruct (with_session_of_active client (λ st, st ← out_acks_publish packet_id st; Ok (tt, st)) l0 a tt
    (with_acks [new_pub_ack (Pub_new_pub_ack packet_id)] a)) as (l1 & E1 & Hl1 & Hs1); [done|done|].
  assert (ack_one l s = Ok l1) as E0.
  { unfold ack_one. rewrite Hi. cbn [bt_get bt_remove]. rewrite Z.compare_refl. cbn [opt_unwrap]; run.
    fold l0. rewrite E1; run. unfold must; cbn [opt_unwrap]; run. done. }
  cbn [foldM]. rewrite E0; run.
  destruct (IH l1) as (acked & l2 & E2 & Hes & Hl2 & Hle2 & Hhd & Hs2).
  - rewrite Hl1. done.
  - eapply Forall_impl; [exact Hok|]. intros [s' m'] Hm'. unfold index_ok in *. cbn [snd] in *.
    destruct m'; try done. rewrite Hs1. by case_decide.
  - exists ((s, Msg_Index client packet_id) :: acked), l2. split; [exact E2|]. split; [by rewrite Hes|].
    split; [rewrite Hl2 at 1; by rewrite Hl1|]. split; [by constructor|]. split; [done|].
    intros id. rewrite Hs2, Hs1. change (session_of l0 id) with (session_of l id).
    unfold acks_to; cbn [omap list_omap]. fold acks_to. cbn [snd]. case_decide as E.
    + subst id. rewrite decide_True by done. change (session_of l client = Some a) in Ha. rewrite Ha.
      cbn [fmap option_fmap option_map]. by rewrite with_acks_app.
    + by rewrite decide_False by done.
Qed.

(** ** Theorems *)

(** C16. Sending to the shards loses, duplicates and reorders nothing: for every
    shard, what is in its queue followed by what waits for it stays the same. *)
Theorem send_to_shards_order sh l :
  sh_inner sh = SI_MainActive l → bt_wf Z.compare (shard_back_log l) →
  Forall (λ e, is_Some (bt_get Z.compare e.1 (shard_queues l))) (shard_back_log l) →
  ∃ l', send_to_shards sh = Ok (set_loop l' sh)
    ∧ l' = l <| shard_back_log := shard_back_log l' |> <| shard_queues := shard_queues l' |>
    ∧ ∀ t, owed_to (shard_back_log l') (shard_queues l') t = owed_to (shard_back_log l) (shard_queues l) t.
Proof.
  intros Hl Hwf Hall. unfold send_to_shards, active_loop. rewrite Hl; run.
  destruct (send_to_shards_spec (shard_back_log l) [] (shard_queues l) Hwf) as (bl & qs & -> & Ho);
    [eapply Forall_impl; [exact Hall|]; by intros|]; run.
  eexists. split; [done|]. split; [done|]. intros t. cbn [shard_back_log shard_queues]. rewrite Ho. unfold owed_to. cbn. by rewrite app_nil_r.
Qed.

(** C26. The messages a shard receives for its clients: every message gets the next
    sequence number of its client; the messages with QoS 1 and 2 go on in the order
    of their arrival, those with QoS 0 are collected per client in that order. *)
Theorem out_messages_numbered msgs rc sh l :
  sh_inner sh = SI_MainActive l →
  Forall (λ m, ∃ id, client_of m = Some id ∧ is_Some (session_of l id)) msgs →
  ∃ rc' l', foldM out_message (rc, sh) msgs = Ok (rc', set_loop l' sh)
    ∧ l' = with_sessions (sessions l') l
    ∧ rc_qos12 rc' = rc_qos12 rc ++ qos12_of (numbered (next_of l) msgs)
    ∧ ∀ id, default [] (bt_get str_cmp id (rc_qos0 rc'))
            = default [] (bt_get str_cmp id (rc_qos0 rc)) ++ qos0_of id (numbered (next_of l) msgs).
Proof.
  intros Hl Hm. revert rc sh l Hl Hm. induction msgs as [|m msgs IH]; intros rc sh l Hl Hm.
  { exists rc, l. split; [destruct sh; cbn in *; by subst|]. split; [by destruct l|].
    split; [by rewrite app_nil_r|]. intros id. by rewrite app_nil_r. }
  apply Forall_cons in Hm as [(id & Hid & [a Ha]) Hm]. destruct m as [| | |src id' inp out publ ack|]; try done.
  injection Hid as ->.
  destruct (with_session_of_active id (incr_out_seqno (Msg_Routed src id inp out publ ack)) l a
    (Msg_Routed src id inp (out_seqno a) publ ack) (a <| out_seqno := Z.min (out_seqno a + 1) (2 ^ 64 - 1) |>))
    as (l1 & E1 & Hl1 & Hs1); [done|done|].
  set (m' := Msg_Routed src id inp (out_seqno a) publ ack) in *.
  assert (∃ rc1, out_message (rc, sh) (Msg_Routed src id inp out publ ack) = Ok (rc1, set_loop l1 sh)
    ∧ rc_qos12 rc1 = rc_qos12 rc ++ qos12_of [m']
    ∧ ∀ id', default [] (bt_get str_cmp id' (rc_qos0 rc1))
            = default [] (bt_get str_cmp id' (rc_qos0 rc)) ++ qos0_of id' [m']) as (rc1 & Eo & H12 & H0).
  { unfold out_message, active_loop. rewrite Hl; run. cbn [as_client_id]; run. rewrite E1; run.
    unfold must; cbn [opt_unwrap]; run. cbn [m']. unfold qos12_of, qos0_of; cbn [omap list_omap m'].
    case_bool_decide as Hq.
    - rewrite Hq. eexists. split; [done|]. cbn [rc_qos12 rc_qos0]. split; [by rewrite app_nil_r|].
      intros id'. rewrite append_index_get by apply _. f_equal.
      case_decide as E; [subst; by rewrite (proj2 (str_cmp_eq _ _) eq_refl)|].
      destruct (str_cmp id' id) eqn:E2; [by apply str_cmp_eq in E2|done|done].
    - eexists. split; [done|]. cbn [rc_qos12 rc_qos0]. split; [by destruct (publish_qos publ)|].
      intros id'. case_decide; [by destruct (publish_qos publ); rewrite ?app_nil_r|by rewrite app_nil_r]. }
  destruct (IH rc1 (set_loop l1 sh) l1) as (rc2 & l2 & E2 & Hl2 & H12' & H0'); [done| |].
  { eapply Forall_impl; [exact Hm|]. intros m (i & Hi & Hsome). exists i. split; [done|].
    rewrite Hs1. by case_decide. }
  exists rc2, l2. cbn [foldM]. rewrite Eo; run. split; [exact E2|].
  assert (numbered (next_of l) (Msg_Routed src id inp out publ ack :: msgs) = [m'] ++ numbered (next_of l1) msgs) as ->.
  { cbn. unfold next_of at 1. rewrite Ha. cbn. f_equal. apply numbered_ext. intros i. unfold next_of.
    rewrite Hs1. case_decide; [by rewrite Ha|done]. }
  split; [rewrite Hl2 at 1; rewrite Hl1 at 1; by destruct l2|].
  split; [rewrite H12', H12, <-app_assoc; f_equal; symmetry; apply omap_app|].
  intros i. rewrite H0', H0, <-app_assoc. f_equal. symmetry. apply omap_app.
Qed.

(** Publishers get their acknowledgements: the entries of the index up to the
    least sequence number that all shards have acknowledged leave it, and for each
    of them, in order, a PUBACK with its packet identifier joins what its client is
    to be sent.  (The source never fills [ack_timestamps]: see [nothing_routed] in ShardRun.) *)
Theorem acks_publish_in_order sh l min :
  sh_inner sh = SI_MainActive l → bt_wf Z.compare (index l) → Forall (index_ok l) (index l) →
  min_acked (ack_timestamps l) = Some min →
  ∃ acked l', shard_out_acks_publish sh = Ok (set_loop l' sh) ∧ index l = acked ++ index l'
    ∧ Forall (λ e, e.1 ≤ min) acked ∧ Forall (λ e, min < e.1) (index l')
    ∧ ∀ id, session_of l' id = with_acks (acks_to id acked) <$> session_of l id.
Proof.
  intros Hl Hwf Hok Hmin. destruct (ack_loop min (index l) l eq_refl Hok) as (acked & l' & E & Hes & _ & Hle & Hhd & Hs).
  exists acked, l'. unfold shard_out_acks_publish, active_loop. rewrite Hl; run. rewrite Hmin, E; run.
  split_and!; [done|done|done| |done]. rewrite Hes in Hwf. apply sorted_app in Hwf as (_ & Hwf & _).
  destruct (index l') as [|e es]; [done|]. apply StronglySorted_inv in Hwf as [_ He]. cbn [head from_option] in Hhd.
  constructor; [done|]. eapply Forall_impl; [exact He|]. intros e' He'.
  change (e.1 < e'.1) in He'. cbn beta. lia.
Qed.

(** ** Witnesses *)

Definition ex_routed_to (id : rstring) (qos : QoS) (inp : Z) : Message :=
  Msg_Routed 0 id inp 0 (ex_publ qos None [97]) true.

Definition ex_turn_loop : ActiveLoop :=
  MkActiveLoop [[100]] [] [] [([100], ex_session)] 1 [(1, [ex_routed_to [99] QoS_AtLeastOnce 5; ex_routed_to [98] QoS_AtMostOnce 6])]
    [(3, new_index [100] 7); (5, new_index [100] 8)] [MkTimestamp 0 6 5; MkTimestamp 1 6 4] [(1, MkTx (MkChannel [] 1 true) 0)]
    Inner_default.
Definition ex_turn_shard : Shard := MkShard 0 (Config_default 2) (SI_MainActive ex_turn_loop).

Lemma send_to_shards_order_witness :
  ∃ l', send_to_shards ex_turn_shard = Ok (set_loop l' ex_turn_shard)
    ∧ owed_to (shard_back_log l') (shard_queues l') 1
      = [ex_routed_to [99] QoS_AtLeastOnce 5; ex_routed_to [98] QoS_AtMostOnce 6].
Proof.
  destruct (send_to_shards_order ex_turn_shard ex_turn_loop) as (l' & E & _ & Ho);
    [reflexivity|by repeat constructor|by repeat constructor|].
  exists l'. split; [exact E|]. rewrite Ho. reflexivity.
Defined.

Lemma out_messages_numbered_witness :
  let msgs := [ex_routed_to [100] QoS_AtLeastOnce 5; ex_routed_to [100] QoS_AtMostOnce 6; ex_routed_to [100] QoS_AtLeastOnce 7] in
  ∃ rc' l', foldM out_message (MkReceived [] [] [], ex_turn_shard) msgs = Ok (rc', set_loop l' ex_turn_shard)
    ∧ to_out_seqno <$> rc_qos12 rc' = [Ok 1; Ok 3].
Proof.
  intros msgs. destruct (out_messages_numbered msgs (MkReceived [] [] []) ex_turn_shard ex_turn_loop)
    as (rc' & l' & E & _ & H12 & _); [reflexivity|by repeat (constructor; [eexists; split; [reflexivity|by eexists]|])|].
  exists rc', l'. split; [exact E|]. rewrite H12. reflexivity.
Defined.

Lemma acks_publish_in_order_witness :
  ∃ acked l', shard_out_acks_publish ex_turn_shard = Ok (set_loop l' ex_turn_shard)
    ∧ index ex_turn_loop = acked ++ index l'
    ∧ Forall (λ e, e.1 ≤ 4) acked ∧ Forall (λ e, 4 < e.1) (index l').
Proof.
  destruct (acks_publish_in_order ex_turn_shard ex_turn_loop 4) as (acked & l' & E & Hi & Hle & Hgt & _);
    [reflexivity|by repeat constructor|by repeat (constructor; [by eexists|])|reflexivity|].
  by exists acked, l'.
Defined.
