(* ===== verification/ShardTurns.v ===== *)
(** * Whole turns of a shard: theorems

    The turns that answer pings, and the turns that cannot end: with packets that
    are to be routed, and with clients that disconnect. *)
From stdpp Require Import sorting.
From S2P Require Import Prelude Errors Utf8 Types V5Header V5PubAck V5Session V5ConnAck V5Connect V5Publish V5Subscribe V5Packet Queues Config SortedVec BTree Message Subscription TopicTrie Tries Session SessionProps Shard ShardProps ShardLoop ShardLoopProps.
Local Open Scope Z_scope.

(** ** Sessions are routed without their shard

    While [route_packets] runs, the state of the shard is [Init]: a call that
    succeeds leaves the shard alone, and a call that needs its state panics. *)
Definition no_shard {A} (m : routing A) : Prop :=
  ∀ sh se r sh' se', sh_inner sh = SI_Init → m (sh, se) = Ok (r, (sh', se')) → sh' = sh.

Lemma no_shard_ret {A} (a : A) : no_shard (mret a).
Proof. by intros sh se r sh' se' _ [= <- <- <-]. Qed.

Lemma no_shard_bind {A B} (m : routing A) (f : A → routing B) :
  no_shard m → (∀ a, no_shard (f a)) → no_shard (m ≫= f).
Proof.
  intros Hm Hf sh se r sh' se' Hsh ([res [sh1 se1]] & E1 & E2)%bind_Ok_inv.
  apply Hm in E1 as ->; [|done]. destruct res as [a|e]; [by eapply Hf|by injection E2].
Qed.

Lemma no_shard_fallible {A} (x : Result A) : no_shard (fallible x).
Proof. intros sh se r sh' se' _. unfold fallible. by destruct x; intros [= <- <- <-]. Qed.

Lemma no_shard_asks {A} (f : Shard → Session → A) : no_shard (asks f).
Proof. by intros sh se r sh' se' _ [= <- <- <-]. Qed.

Lemma no_shard_try_session {A} (f : SessionState → Result (A * SessionState)) : no_shard (try_session f).
Proof. intros sh se r sh' se' _. unfold try_session. by destruct (f (state se)) as [[a st]| | |]; intros [= <- <- <-]. Qed.

Lemma no_shard_with_shard {A} (f : Shard → Result (A * Shard)) :
  (∀ sh, sh_inner sh = SI_Init → f sh = Panic) → no_shard (with_shard f).
Proof. intros Hf sh se r sh' se' Hsh. unfold with_shard, updates. by rewrite Hf. Qed.

Lemma no_shard_for_each {A B} (f : B → A → routing B) acc l :
  (∀ b a, no_shard (f b a)) → no_shard (for_each f acc l).
Proof.
  intros Hf. revert acc. induction l as [|x l IH]; intros acc; [apply no_shard_ret|].
  by apply no_shard_bind.
Qed.

Ltac no_shard_step :=
  first
  [ apply no_shard_ret | apply no_shard_fallible | apply no_shard_asks | apply no_shard_try_session
  | apply no_shard_with_shard; let sh := fresh in let H := fresh in intros sh H;
    unfold incr_inp_seqno, match_subscribers, book_index, route_to_client, post_cluster, subscribe_filter, active_loop;
    by rewrite H
  | apply no_shard_for_each; intros
  | apply no_shard_bind; [|intros] ].

(** Which calls need the shard is plain from their text. *)
Ltac no_shard := repeat first [no_shard_step | case_match].

Lemma no_shard_route now : no_shard (route_session now).
Proof.
  unfold route_session, handle_packets.
  assert (∀ e publ inp ack u, no_shard (route_one publ inp ack u e)) by (intros; unfold route_one; no_shard).
  assert (∀ publ, no_shard (book_retain publ)) by (intros; unfold book_retain; no_shard).
  assert (∀ publ, no_shard (rx_publish publ)) by (intros; unfold rx_publish; no_shard; done).
  assert (∀ sub, no_shard (rx_subscribe sub)) by (intros; unfold rx_subscribe, subscribe_one; no_shard).
  assert (∀ acks pkt, no_shard (handle_packet acks pkt)) by (intros ? []; cbn [handle_packet]; no_shard; done).
  no_shard; done.
Qed.

(** A packet that is routed: a QoS 0 message, or a subscription. *)
Definition for_routing (pkt : Packet) : Prop :=
  match pkt with
  | Pkt_Publish publ =>
      publish_qos publ = QoS_AtMostOnce ∧ publish_retain publ = false ∧ publish_topic_name publ ≠ []
      ∧ Publish_topic_alias publ = None
  | Pkt_Subscribe sub => sub_filters sub ≠ [] ∧ Forall (λ f, ∃ r, SubscriptionOpt_unwrap (sf_opt f) = Ok r) (sub_filters sub)
  | _ => False
  end.

Lemma with_shard_init {A} (f : Shard → Result (A * Shard)) sh se : f sh = Panic → with_shard f (sh, se) = Panic.
Proof. intros E. unfold with_shard, updates. by rewrite E. Qed.

Lemma handle_packet_init acks pkt sh se a :
  sh_inner sh = SI_Init → state se = SS_Active a → valid_qos (mqtt_maximum_qos (sess_config se)) →
  for_routing pkt → handle_packet acks pkt (sh, se) = Panic.
Proof.
  intros Hsh Hst Hv Hp. destruct pkt as [| |publ| | | | |sub| | | | | | |]; try done; cbn [handle_packet].
  - destruct Hp as (Hq & Hr & Hname & Hal). destruct (QoS_try_from_ok _ Hv) as [q Eq]. apply st_panics. unfold rx_publish.
    eapply st_bind; [reflexivity|cbn beta]. eapply st_bind; [by unfold fallible; rewrite Eq|cbn beta].
    assert ((QoS_into_u8 q <? QoS_into_u8 (publish_qos publ)) = false) as -> by (rewrite Hq; by destruct q).
    eapply st_bind; [unfold try_session; rewrite Hst, is_duplicate_qos0 by done; reflexivity|cbn beta iota].
    eapply st_bind; [unfold book_retain; eapply st_bind; [reflexivity|rewrite Hr; reflexivity]|cbn beta].
    eapply st_bind; [unfold try_session; cbn [state]; rewrite book_qos_qos0 by done; reflexivity|cbn beta].
    apply st_panics, with_shard_init. unfold incr_inp_seqno, active_loop. by rewrite Hsh.
  - destruct Hp as [Hne Hopt]. apply st_panics. unfold rx_subscribe. apply st_panics.
    destruct (sub_filters sub) as [|f fs]; [done|]. apply Forall_cons in Hopt as [[[[[rfr rap] nl] q] Ho] _].
    cbn [for_each]. apply st_panics. unfold subscribe_one. eapply st_bind; [reflexivity|cbn beta].
    eapply st_bind; [unfold subscription_of; rewrite Ho; reflexivity|cbn beta].
    apply st_panics, with_shard_init. unfold subscribe_filter, active_loop. by rewrite Hsh.
Qed.

Lemma recv_packets_spec a :
  ∃ q r, recv_packets (SS_Active a) = Ok (q, SS_Active ((a : Active) <| session_rx := r |>))
    ∧ ch_items (rx (session_rx a)) = values q ++ ch_items (rx r)
    ∧ (ch_items (rx (session_rx a)) ≠ [] → values q ≠ [])
    ∧ (ch_open (rx (session_rx a)) = true → match q with Q_Disconnected _ => False | _ => True end)
    ∧ same_queue (rx (session_rx a)) (rx r).
Proof.
  unfold recv_packets. cbn [active]; run. unfold try_recvs.
  destruct (try_recvs_loop_spec (S (length (ch_items (rx (session_rx a))))) [] (session_rx a)) as (q & got & r & E & Hv & Hi & _ & Hq);
    [lia|]. rewrite E; run. exists q, r. cbn [app] in Hv. rewrite Hv. split; [done|]. split; [done|].
  split; [|split; [|by eapply try_recvs_loop_same]]; rewrite ?Hi.
  - destruct q; [done|destruct Hq as [-> _]; by rewrite app_nil_r..].
  - intros Ho. destruct q; [done..|]. destruct Hq as [_ Hq]. congruence.
Qed.

Lemma route_session_init now sh se a pkt :
  sh_inner sh = SI_Init → state se = SS_Active a → valid_qos (mqtt_maximum_qos (sess_config se)) →
  head (ch_items (rx (session_rx a))) = Some pkt → for_routing pkt →
  route_session now (sh, se) = Panic.
Proof.
  intros Hsh Hst Hv Hhd Hp. unfold route_session.
  destruct (recv_packets_spec a) as (q & r & E & Hi & Hne & _).
  eapply st_bind; [unfold try_session; rewrite Hst, E; reflexivity|cbn beta]. cbn [take_values].
  destruct (values q) as [|pkt' pkts]; [exfalso; apply Hne; [intros E0; by rewrite E0 in Hhd|done]|].
  rewrite Hi in Hhd. injection Hhd as ->. cbn [length Nat.eqb].
  eapply st_bind; [reflexivity|cbn beta]. apply st_panics. unfold handle_packets. apply st_panics.
  cbn [for_each]. apply st_panics. by eapply handle_packet_init.
Qed.

Lemma route_sessions_init now ss sh r id se a pkt res :
  sh_inner sh = SI_Init → (id, se) ∈ ss →
  state se = SS_Active a → valid_qos (mqtt_maximum_qos (sess_config se)) →
  head (ch_items (rx (session_rx a))) = Some pkt → for_routing pkt →
  route_sessions now ss sh r ≠ Ok res.
Proof.
  intros Hsh Hin Hst Hv Hhd Hp. revert sh r Hsh. induction ss as [|[id' se'] ss IH]; intros sh r Hsh;
    [by apply not_elem_of_nil in Hin|]. cbn [route_sessions].
  intros ([x [sh1 se1]] & E & Hx)%bind_Ok_inv. apply elem_of_cons in Hin as [[= <- <-]|Hin].
  - by rewrite (route_session_init _ _ _ a pkt) in E.
  - apply bind_Ok_inv in Hx as ([failed seqnos] & _ & Hx). apply IH in Hx; [done|done|].
    by rewrite (no_shard_route _ _ _ _ _ _ Hsh E).
Qed.

(** ** Sessions that are gone *)

Lemma commits_need_sessions acks sh l sh' :
  sh_inner sh = SI_MainActive l → shard_commit_acks acks sh = Ok sh' →
  Forall (λ e, is_Some (bt_get str_cmp e.1 (sessions l))) acks.
Proof.
  intros Hl. unfold shard_commit_acks, active_loop. rewrite Hl; run.
  destruct (foldM _ l acks) as [l'| | |] eqn:E; try done. intros _. clear Hl sh sh'.
  revert l E. induction acks as [|[id seqnos] acks IH]; intros l; [intros _; constructor|].
  intros (l1 & (res & E & E1)%bind_Ok_inv & E2%IH)%bind_Ok_inv. unfold with_session_of in E.
  destruct (bt_get str_cmp id (sessions l)) as [se|] eqn:Eg; [|by injection E as <-].
  apply bind_Ok_inv in E as ([u se'] & _ & [= <-]). injection E1 as <-.
  constructor; [cbn [fst]; rewrite Eg; by eexists|]. eapply Forall_impl; [exact E2|].
  intros [id' ?]. cbn [sessions fst].
  rewrite bt_get_str. case_decide; [intros _; subst; rewrite Eg; by eexists|done].
Qed.

Definition has_key (id : rstring) (ss : btree rstring Session) : Prop := is_Some (bt_get str_cmp id ss).

(** The shard is active and has no session of the client. *)
Definition gone (id : rstring) (sh : Shard) : Prop :=
  ∃ l, sh_inner sh = SI_MainActive l ∧ bt_get str_cmp id (sessions l) = None.

Lemma with_session_of_none {A} id id' (f : SessionState → Result (A * SessionState)) l r l' :
  bt_get str_cmp id (sessions l) = None → with_session_of id' f l = Ok (r, l') →
  bt_get str_cmp id (sessions l') = None.
Proof.
  intros Hn. unfold with_session_of. destruct (bt_get str_cmp id' (sessions l)) as [se|] eqn:E; [|by intros [= _ <-]].
  intros ([u se'] & _ & [= _ <-])%bind_Ok_inv. cbn [sessions]. rewrite bt_get_str. case_decide; [|done].
  subst. congruence.
Qed.

Lemma flush_connection_keeps id id' e sh sh' :
  gone id sh → handle_flush_connection id' e sh = Ok sh' → gone id sh'.
Proof.
  intros (l & Hl & Hn). unfold handle_flush_connection, active_loop. rewrite Hl; run.
  intros (inner & _ & [= <-])%bind_Ok_inv. eexists. split; [done|]. by apply bt_remove_none.
Qed.

Lemma drop_keeps id e sh id' sh' : gone id sh → drop_connection e sh id' = Ok sh' → gone id sh'.
Proof.
  intros (l & Hl & Hn). unfold drop_connection, active_loop. rewrite Hl; run.
  case_bool_decide; [|intros [= <-]; by exists l].
  apply flush_connection_keeps. by eexists.
Qed.

Lemma booked_acked_inner id shard_id acked sh u sh' :
  gone id sh → book_acked_timestamps shard_id acked sh = Ok (u, sh') → gone id sh'.
Proof.
  intros (l & Hl & Hn). unfold book_acked_timestamps, active_loop. rewrite Hl; run.
  intros ([found off] & _ & E)%bind_Ok_inv. destruct found; [|done].
  apply bind_Ok_inv in E as (t & _ & (ts & _ & [= _ <-])%bind_Ok_inv). by eexists.
Qed.

Lemma out_message_keeps id rc sh m rc' sh' :
  gone id sh → out_message (rc, sh) m = Ok (rc', sh') → gone id sh'.
Proof.
  intros (l & Hl & Hn). unfold out_message, active_loop. rewrite Hl; run.
  intros (id' & _ & ([o l1] & E & ([m' l2] & E2 & E3)%bind_Ok_inv)%bind_Ok_inv)%bind_Ok_inv.
  unfold must in E2. apply bind_Ok_inv in E2 as (m2 & _ & [= -> <-]).
  assert (gone id (set_loop l1 sh)) as Hg by (eexists; split; [done|]; by eapply with_session_of_none).
  destruct m' as [| | |? ? ? ? publ ?|]; [done..| |].
  - case_bool_decide; by injection E3 as _ <-.
  - apply bind_Ok_inv in E3 as ([u sh1] & E4 & [= _ <-]). by eapply booked_acked_inner.
Qed.

Lemma out_messages_keeps id msg_rx acks sh q msg_rx' acks' sh' :
  gone id sh → out_messages msg_rx acks sh = Ok (q, msg_rx', acks', sh') → gone id sh'.
Proof.
  intros Hg ([q0 r0] & _ & E)%bind_Ok_inv. cbn [take_values] in E.
  apply bind_Ok_inv in E as ([rc sh1] & E1 & (sh2 & E2 & (q2 & _ & [= _ _ _ <-])%bind_Ok_inv)%bind_Ok_inv).
  assert (gone id sh1) as (l1 & Hl1 & Hn1).
  { eapply (foldM_keeps (λ '(_, sh), gone id sh)) in E1; [exact E1| |exact Hg].
    intros [rc1 s1] m [rc2 s2]. apply out_message_keeps. }
  unfold shard_out_qos0, active_loop in E2. rewrite Hl1 in E2. revert E2; run.
  intros ([slow l2] & E3 & E4)%bind_Ok_inv. eapply foldM_keeps in E4; [exact E4|intros; by eapply drop_keeps|].
  eexists. split; [done|].
  eapply (foldM_keeps (λ '(_, l), bt_get str_cmp id (sessions l) = None)) in E3; [exact E3| |exact Hn1].
  intros [ids s1] [id' msgs] [ids2 s2] Hs1. cbn [out_qos0_one]. intros ([o s3] & E & [= _ <-])%bind_Ok_inv.
  by eapply with_session_of_none.
Qed.

(** The client has a connection, or no session any more. *)
Definition connected_or_gone (id : rstring) (sh : Shard) : Prop :=
  ∃ l, sh_inner sh = SI_MainActive l ∧ bt_wf str_cmp (sessions l)
    ∧ (id ∈ al_miot l ∨ bt_get str_cmp id (sessions l) = None).

Lemma drop_step id e sh id' sh' :
  connected_or_gone id sh → drop_connection e sh id' = Ok sh' →
  connected_or_gone id sh' ∧ (id' = id → gone id sh').
Proof.
  intros (l & Hl & Hwf & Hor). unfold drop_connection, active_loop. rewrite Hl; run.
  case_bool_decide as Hin; [|intros [= <-]; split; [by exists l|intros ->; exists l; naive_solver]].
  unfold handle_flush_connection, active_loop. cbn [sh_inner set_loop]; run. cbn [sessions].
  intros (inner & _ & [= <-])%bind_Ok_inv. split; [eexists; split; [done|]; cbn [sessions al_miot]|].
  - split; [by apply (bt_remove_wf str_cmp)|]. destruct (decide (id' = id)) as [->|Hne].
    + right. by apply bt_get_removed.
    + destruct Hor as [Hm|Hn]; [left; apply list_elem_of_filter; naive_solver|right; by apply bt_remove_none].
  - intros ->. eexists. split; [done|]. by apply bt_get_removed.
Qed.

Lemma drops_all id failed sh sh' :
  connected_or_gone id sh → id ∈ failed.*1 →
  foldM (λ sh '(id, e), drop_connection (Some e) sh id) sh failed = Ok sh' → gone id sh'.
Proof.
  revert sh. induction failed as [|[id' e] failed IH]; intros sh Hc Hin; [by apply not_elem_of_nil in Hin|].
  intros (sh1 & E1 & E2)%bind_Ok_inv. destruct (drop_step _ _ _ _ _ Hc E1) as [Hc1 Hg].
  cbn in Hin. apply elem_of_cons in Hin as [Heq|Hin]; [|by eapply IH].
  eapply foldM_keeps in E2; [exact E2| |by apply Hg]. intros s [i x] s'. apply drop_keeps.
Qed.

(** The client says good-bye. *)
Definition disconnects (se : Session) : Prop :=
  ∃ a d, state se = SS_Active a ∧ head (ch_items (rx (session_rx a))) = Some (Pkt_Disconnect d).

Lemma route_session_disconnect now sh se :
  disconnects se → ∃ se', route_session now (sh, se) = Ok (inr (MkError EK_Disconnected (Some RC_Success) NoCause), (sh, se')).
Proof.
  intros (a & d & Hst & Hhd). destruct (recv_packets_spec a) as (q & r & E & Hi & Hne & _).
  eexists. unfold route_session.
  eapply st_bind; [unfold try_session; rewrite Hst, E; reflexivity|cbn beta]. cbn [take_values].
  destruct (values q) as [|pkt' pkts]; [exfalso; apply Hne; [intros E0; by rewrite E0 in Hhd|done]|].
  rewrite Hi in Hhd. injection Hhd as ->. cbn [length Nat.eqb].
  eapply st_bind; [reflexivity|cbn beta]. reflexivity.
Qed.

Lemma route_sessions_spec now ss sh r r' sh' :
  route_sessions now ss sh r = Ok (r', sh') →
  fst <$> ro_sessions r' = (fst <$> ro_sessions r) ++ (fst <$> ss)
  ∧ (∀ id, id ∈ fst <$> ss ∨ is_Some (bt_get str_cmp id (ro_acks r)) → is_Some (bt_get str_cmp id (ro_acks r')))
  ∧ (∀ id, (∃ se, (id, se) ∈ ss ∧ disconnects se) ∨ id ∈ (ro_failed r).*1 → id ∈ (ro_failed r').*1).
Proof.
  revert sh r. induction ss as [|[id se] ss IH]; intros sh r; cbn [route_sessions].
  { intros [= <- <-]. split; [by rewrite app_nil_r|]. split; intros id [Hx|Hx]; try done.
    - by apply not_elem_of_nil in Hx.
    - destruct Hx as (se & Hx & _). by apply not_elem_of_nil in Hx. }
  intros ([x [sh1 se1]] & E & ([failed seqnos] & Ef & E2)%bind_Ok_inv)%bind_Ok_inv.
  destruct (IH _ _ E2) as (Hk & Ha & Hf). cbn [ro_sessions ro_acks ro_failed] in *.
  split; [by rewrite Hk, fmap_app, <-app_assoc|]. split.
  - intros id' Hid. apply Ha. rewrite bt_get_str. case_decide as Hd; [right; by eexists|].
    destruct Hid as [Hid|Hid]; [|by right]. cbn in Hid. apply elem_of_cons in Hid as [?|?]; [done|by left].
  - intros id' Hid. apply Hf. rewrite fmap_app, elem_of_app.
    destruct Hid as [(se' & Hin & Hd)|Hid]; [|by right; left].
    apply elem_of_cons in Hin as [[= -> ->]|Hin]; [right; right|left; by exists se'].
    destruct (route_session_disconnect (now id) sh se Hd) as [se2 Er]. rewrite Er in E. injection E as <- <- <-.
    cbn in Ef. injection Ef as <- _. by left.
Qed.

Lemma route_packets_gone now sh l acks sh' id se :
  sh_inner sh = SI_MainActive l → bt_wf str_cmp (sessions l) → id ∈ al_miot l →
  (id, se) ∈ sessions l → disconnects se → route_packets now sh = Ok (acks, sh') →
  gone id sh' ∧ is_Some (bt_get str_cmp id acks).
Proof.
  intros Hl Hwf Hm Hin Hd. unfold route_packets, active_loop. rewrite Hl; run.
  intros ([r sh1] & E1 & (sh2 & E2 & (sh3 & E3 & [= <- <-])%bind_Ok_inv)%bind_Ok_inv)%bind_Ok_inv.
  destruct (route_sessions_spec _ _ _ _ _ _ E1) as (Hk & Ha & Hf). cbn in Hk.
  split; [|apply Ha; left; by apply (list_elem_of_fmap_2 fst) in Hin].
  apply (drops_all id) in E2 as (l2 & Hl2 & Hn); [| |apply Hf; left; by exists se].
  - unfold send_to_shards, active_loop in E3. rewrite Hl2 in E3. revert E3; run.
    intros ([bl qs] & _ & [= <-])%bind_Ok_inv. by eexists.
  - eexists. split; [done|]. split; [|by left]. cbn [sessions]. eapply sorted_by_keys; [exact Hk|done].
Qed.

(** ** A turn with pings *)

Definition pinging (now : Z) (a : Active) : Prop :=
  Forall (λ pkt, pkt = Pkt_PingReq) (ch_items (rx (session_rx a))) ∧ ch_open (rx (session_rx a)) = true
  ∧ (ch_items (rx (session_rx a)) = [] → is_Ok (check_expired now (sa_keep_alive a)))
  ∧ out_acks a = [] ∧ ch_open (tx (miot_tx a)) = true
  ∧ (length (ch_items (tx (miot_tx a))) + length (ch_items (rx (session_rx a))) ≤ ch_size (tx (miot_tx a)))%nat.

(** [n] pings have been taken from the queue, and their answers wait. *)
Definition pinged (a a' : Active) (n : nat) : Prop :=
  ch_items (rx (session_rx a)) = replicate n Pkt_PingReq ++ ch_items (rx (session_rx a'))
  ∧ (ch_items (rx (session_rx a)) ≠ [] → n ≠ 0%nat) ∧ same_queue (rx (session_rx a)) (rx (session_rx a'))
  ∧ miot_tx a' = miot_tx a ∧ inp_qos12 a' = inp_qos12 a
  ∧ out_acks a' = out_acks a ++ replicate n new_ping_resp.

Lemma handle_pings n acks s :
  for_each handle_packet acks (replicate n Pkt_PingReq) s = Ok (inl (acks ++ replicate n new_ping_resp), s).
Proof.
  revert acks. induction n as [|n IH]; intros acks; cbn [replicate for_each]; [by rewrite app_nil_r|].
  eapply st_bind; [reflexivity|cbn beta]. by rewrite IH, <-app_assoc.
Qed.

Lemma handle_packets_pings n sh se a :
  state se = SS_Active a →
  handle_packets (replicate n Pkt_PingReq) (sh, se)
  = Ok (inl (Q_Ok [], []), (sh, with_state (SS_Active (with_acks (replicate n new_ping_resp) a)) se)).
Proof.
  intros Hst. unfold handle_packets. eapply st_bind; [apply handle_pings|cbn beta].
  eapply st_bind; [unfold try_session; rewrite Hst; reflexivity|reflexivity].
Qed.

Lemma route_session_pings now sh se a :
  state se = SS_Active a → pinging now a →
  ∃ q a' n, route_session now (sh, se) = Ok (inl (q, []), (sh, with_state (SS_Active a') se))
    ∧ pinged a a' n ∧ (match q with Q_Disconnected _ => False | _ => True end).
Proof.
  intros Hst (Hp & Hopen & Halive & Hacks & _ & _). unfold route_session.
  destruct (recv_packets_spec a) as (q & r & E & Hi & Hne & Hq & Hsame). specialize (Hq Hopen).
  assert (values q = replicate (length (values q)) Pkt_PingReq) as Ev.
  { symmetry. apply replicate_as_elem_of. split; [done|]. intros p Hp2. rewrite Hi, Forall_app in Hp. destruct Hp as [Hp _].
    eapply Forall_forall in Hp; [|exact Hp2]. done. }
  destruct (length (values q)) as [|n] eqn:Elen; rewrite Ev in Hi, Hne; cbn [replicate app] in Hi.
  - destruct (ch_items (rx (session_rx a))) as [|? ?] eqn:Eitems; [|exfalso; by apply Hne].
    destruct (Halive eq_refl) as [left Hleft].
    eexists _, _, 0%nat. split.
    { eapply st_bind; [unfold try_session; rewrite Hst, E; reflexivity|cbn beta]. cbn [take_values]. rewrite Elen.
      cbn [Nat.eqb]. eapply st_bind; [|reflexivity].
      unfold try_session, keep_alive_check; cbn [state active]; run. cbn [sa_keep_alive]. rewrite Hleft; run. reflexivity. }
    split; [|by destruct q]. split_and!; cbn; rewrite ?app_nil_r; (done || by rewrite Eitems, Hi || idtac).
  - destruct q as [vals|vals|vals]; [..|done]; cbn [values] in *; (eexists _, _, (S n); split;
      [eapply st_bind; [unfold try_session; rewrite Hst, E; reflexivity|cbn beta]; cbn [take_values values];
       rewrite Elen; cbn [Nat.eqb]; (eapply st_bind; [reflexivity|cbn beta]);
       rewrite Ev; (eapply st_bind; [by apply handle_packets_pings|reflexivity])
      |split; [by split_and!|done]]).
Qed.

(** A session before and after its pings have been taken, and after their answers
    have been sent. *)
Definition ping_taken (e e' : rstring * Session) : Prop :=
  e'.1 = e.1 ∧ ∃ a a' n, state e.2 = SS_Active a ∧ state e'.2 = SS_Active a' ∧ pinged a a' n
    ∧ out_acks a = [] ∧ ch_open (tx (miot_tx a)) = true
    ∧ (length (ch_items (tx (miot_tx a))) + n ≤ ch_size (tx (miot_tx a)))%nat.

Definition ping_answered (e e' : rstring * Session) : Prop :=
  e'.1 = e.1 ∧ ∃ a a' n, state e.2 = SS_Active a ∧ state e'.2 = SS_Active a'
    ∧ ch_items (rx (session_rx a)) = replicate n Pkt_PingReq ++ ch_items (rx (session_rx a'))
    ∧ (ch_items (rx (session_rx a)) ≠ [] → n ≠ 0%nat)
    ∧ ch_items (tx (miot_tx a')) = ch_items (tx (miot_tx a)) ++ replicate n Pkt_PingResp
    ∧ same_queue (rx (session_rx a)) (rx (session_rx a')) ∧ same_queue (tx (miot_tx a)) (tx (miot_tx a')).

Definition ping_session (now : rstring → Z) (e : rstring * Session) : Prop :=
  ∃ a, state e.2 = SS_Active a ∧ pinging (now e.1) a.

Lemma route_sessions_pings now (K : rstring → Prop) ss sh r :
  Forall (ping_session now) ss → Forall (λ e, K e.1) ss → Forall (λ e, K e.1) (ro_acks r) →
  ∃ r' new, route_sessions now ss sh r = Ok (r', sh) ∧ ro_sessions r' = ro_sessions r ++ new
    ∧ Forall2 ping_taken ss new ∧ ro_failed r' = ro_failed r ∧ Forall (λ e, K e.1) (ro_acks r').
Proof.
  intros Hss. revert r. induction Hss as [|[id se] ss (a & Hst & Hp) _ IH]; intros r Hk Hacks.
  { exists r, []. by rewrite app_nil_r. }
  apply Forall_cons in Hk as [Hkid Hk]. cbn [fst snd] in *.
  destruct (route_session_pings (now id) sh se a Hst Hp) as (q & a' & n & E & Hpd & Hq).
  cbn [route_sessions]. rewrite E; run. set (se' := with_state (SS_Active a') se) in *.
  assert ((match q with
           | Q_Ok _ | Q_Block _ => Ok ([], [])
           | Q_Disconnected _ => Ok ([(id, MkError EK_Disconnected None NoCause)], [])
           end : Result (list (rstring * Error) * list Z)) = Ok ([], [])) as Eq by by destruct q.
  destruct (IH (MkRouted (ro_sessions r ++ [(id, se')]) (ro_failed r ++ []) (bt_insert str_cmp id [] (ro_acks r))) Hk)
    as (r' & new & E2 & Hs & Hf2 & Hfail & Hacks2).
  { by apply (bt_insert_keys str_cmp). }
  exists r', ((id, se') :: new). split_and!.
  - destruct q; done.
  - rewrite Hs. cbn. by rewrite <-app_assoc.
  - constructor; [|done]. split; [done|]. exists a, a', n. destruct Hp as (_ & _ & _ & Hacks0 & Hopen & Hroom).
    split_and!; try done. destruct Hpd as (Hi & _). rewrite Hi, length_app, length_replicate in Hroom. lia.
  - by rewrite Hfail, app_nil_r.
  - done.
Qed.

Lemma flush_sessions_pings ss0 ss acc disc :
  Forall2 ping_taken ss0 ss →
  ∃ new, flush_sessions ss acc disc = Ok (acc ++ new, disc) ∧ Forall2 ping_answered ss0 new.
Proof.
  intros H. revert acc. induction H as [|[id0 se0] [id se] ss0 ss Hp _ IH]; intros acc; cbn [flush_sessions].
  { exists []. by rewrite app_nil_r. }
  destruct Hp as [[= ->] (a & a' & n & Hst & Hst' & (Hi & Hn & Hsame & Htx & _ & Hacks) & Hnil & Hopen & Hroom)]. cbn [snd] in *.
  rewrite Hnil in Hacks. cbn [app] in Hacks.
  destruct (acks_flush_room a') as (a2 & E & Ea2 & Hitems & Hsame2).
  { rewrite Hacks. by apply Forall_replicate. }
  { by rewrite Htx. }
  { by rewrite Htx, Hacks, length_replicate. }
  unfold Session_out_acks_flush, on_state. rewrite Hst', E; run. cbn [QueueStatus_map values length Nat.eqb]; run.
  edestruct IH as (new & E2 & Hall). exists ((id0, with_state (SS_Active a2) se) :: new).
  split; [etrans; [exact E2|by rewrite <-app_assoc]|]. constructor; [|done]. split; [done|].
  exists a, a2, n. rewrite Htx in Hsame2.
  split_and!; [done|done|by rewrite Hi, Ea2|done| |by rewrite Ea2|done]. cbn [snd]. rewrite Hitems, Htx, Hacks. f_equal.
  clear. induction n as [|n IH]; [done|]. cbn [replicate]. by rewrite (pkts_of_cons _ Pkt_PingResp), IH.
Qed.

Lemma commit_acks_active acks sh l :
  sh_inner sh = SI_MainActive l → bt_wf str_cmp (sessions l) →
  Forall (λ e, is_Some (session_of l e.1)) acks → shard_commit_acks acks sh = Ok (set_loop l sh).
Proof.
  intros Hl Hwf Hall. unfold shard_commit_acks, active_loop. rewrite Hl; run.
  assert (∀ seqnos id, is_Some (session_of l id) →
    (res ← with_session_of id (λ st, st ← commit_acks seqnos st; Ok (tt, st)) l;
     '(_, l) ← must res; Ok l) = Ok l) as Hone.
  { intros seqnos id [a (se & Eg & Es)%session_of_some].
    rewrite (with_session_of_some id _ l se tt (state se)); [|done|by rewrite Es]. run. unfold must. cbn [opt_unwrap]; run.
    assert (with_state (state se) se = se) as -> by by destruct se. rewrite bt_insert_same by done. by destruct l. }
  clear Hl. induction Hall as [|[id seqnos] acks Hid _ IH]; [done|]. cbn [foldM]. rewrite Hone by done. run. apply IH.
Qed.

Lemma ping_taken_session ss0 ss id :
  Forall2 ping_taken ss0 ss → id ∈ ss0.*1 → ∃ se a, bt_get str_cmp id ss = Some se ∧ state se = SS_Active a.
Proof.
  induction 1 as [|[id0 se0] [id1 se1] ss0 ss ([= ->] & a & a' & n & _ & Hst & _) _ IH]; intros Hin;
    [by apply not_elem_of_nil in Hin|]. cbn [bt_get snd] in *.
  destruct (str_cmp id id0) eqn:E; [by exists se1, a'|..]; cbn in Hin; apply elem_of_cons in Hin as [->|Hin];
    (by rewrite (proj2 (str_cmp_eq _ _) eq_refl) in E) || by apply IH.
Qed.

Lemma ping_taken_keys ss0 ss : Forall2 ping_taken ss0 ss → fst <$> ss = fst <$> ss0.
Proof. induction 1 as [|e0 e ss0 ss [He _] _ IH]; [done|]. cbn. by rewrite He, IH. Qed.

Lemma send_to_shards_nil sh l : sh_inner sh = SI_MainActive l → shard_back_log l = [] → send_to_shards sh = Ok (set_loop l sh).
Proof. intros Hl Hb. unfold send_to_shards, active_loop. rewrite Hl; run. rewrite Hb. cbn. by destruct l; cbn in *; subst. Qed.

Lemma out_messages_nil msg_rx acks sh l :
  sh_inner sh = SI_MainActive l → ch_items (rx msg_rx) = [] → ch_open (rx msg_rx) = true →
  out_messages msg_rx acks sh = Ok (Q_Block [], msg_rx, acks, set_loop l sh).
Proof.
  intros Hl. destruct msg_rx as [b [its sz op]]. cbn [rx ch_items ch_open]. intros -> ->.
  unfold out_messages, shard_out_qos0, active_loop. cbn. rewrite Hl. by cbn.
Qed.

Lemma turn_pings now msg_rx sh l :
  sh_inner sh = SI_MainActive l → bt_wf str_cmp (sessions l) →
  shard_back_log l = [] → index l = [] →
  ch_items (rx msg_rx) = [] → ch_open (rx msg_rx) = true →
  Forall (ping_session now) (sessions l) →
  ∃ ss, active_turn now msg_rx sh = Ok (inl (msg_rx, set_loop (with_sessions ss l) sh))
    ∧ Forall2 ping_answered (sessions l) ss.
Proof.
  intros Hl Hwf Hb Hix Hits Hopen Hss. 
  destruct (route_sessions_pings now (λ id, id ∈ (sessions l).*1) (sessions l)
    (MkShard (sh_shard_id sh) (sh_config sh) SI_Init) (MkRouted [] [] []) Hss) as (r & ss1 & E1 & Hr & Ht & Hfail & Hacks);
    [by apply Forall_forall; intros e He; apply list_elem_of_fmap_2|constructor|]. cbn in Hr, Hfail.
  destruct (flush_sessions_pings _ _ [] [] Ht) as (ss2 & E2 & Ha).
  exists ss2. split; [|done]. set (l1 := with_sessions ss1 l).
  assert (route_packets now sh = Ok (ro_acks r, set_loop l1 sh)) as Er.
  { unfold route_packets, active_loop. rewrite Hl; run. rewrite E1; run. rewrite Hfail; cbn [foldM]; run.
    rewrite (send_to_shards_nil _ l1); [done| |done]. by rewrite Hr. }
  unfold active_turn. rewrite Er; run. rewrite (out_messages_nil _ _ _ l1) by done; run. cbn [take_values values with_values].
  rewrite (commit_acks_active _ _ l1); [run|done| |].
  2:{ eapply sorted_by_keys; [by apply ping_taken_keys|done]. }
  2:{ eapply Forall_impl; [exact Hacks|]. intros e He. destruct (ping_taken_session _ _ _ Ht He) as (se & a & Eg & Es).
      unfold session_of. cbn [sessions l1 with_sessions]. rewrite Eg, Es. by eexists. }
  change (set_loop l1 (set_loop l1 (set_loop l1 sh))) with (set_loop l1 sh).
  assert (commit_messages [] [] (set_loop l1 sh) = Ok ([], set_loop l1 sh)) as -> by done. run.
  assert (shard_out_acks_publish (set_loop l1 sh) = Ok (set_loop l1 sh)) as ->.
  { unfold shard_out_acks_publish, active_loop. cbn [sh_inner set_loop]; run.
    change (index l1) with (index l). rewrite Hix. by destruct (min_acked _). }
  run. assert (shard_out_acks_flush (set_loop l1 sh) = Ok (set_loop (with_sessions ss2 l) sh)) as ->.
  { unfold shard_out_acks_flush, active_loop. cbn [sh_inner set_loop]; run.
    change (sessions l1) with ss1. rewrite E2. done. }
  run. unfold return_local_acks, active_loop. cbn [sh_inner set_loop foldl]; run.
  rewrite (send_to_shards_nil _ (with_sessions ss2 l)) by done. done.
Qed.

(** ** Theorems *)

(** A shard answers pings: a turn without messages from other shards ends, and
    of every session, alive and with room in the queue to its socket, it takes
    PINGREQ packets, at least one if there are any, and puts as many PINGRESP
    packets behind what the socket is already owed.  Nothing else changes. *)
Theorem ping_turn now msg_rx sh l :
  sh_inner sh = SI_MainActive l → bt_wf str_cmp (sessions l) →
  shard_back_log l = [] → index l = [] →
  ch_items (rx msg_rx) = [] → ch_open (rx msg_rx) = true →
  Forall (ping_session now) (sessions l) →
  ∃ ss, active_turn now msg_rx sh = Ok (inl (msg_rx, set_loop (with_sessions ss l) sh))
    ∧ Forall2 ping_answered (sessions l) ss.
Proof. apply turn_pings. Qed.

(** C32. A turn does not end when the first packet of a session is a QoS 0 PUBLISH or
    a SUBSCRIBE: routing it asks for the state of the shard, which [route_packets]
    has replaced with [Init] while it routes the sessions. *)
Theorem routed_packet_ends_shard now sh l id se a pkt :
  sh_inner sh = SI_MainActive l → (id, se) ∈ sessions l →
  state se = SS_Active a → valid_qos (mqtt_maximum_qos (sess_config se)) →
  head (ch_items (rx (session_rx a))) = Some pkt → for_routing pkt →
  ∀ res msg_rx, active_turn now msg_rx sh ≠ Ok res.
Proof.
  intros Hl Hin Hst Hv Hhd Hp res msg_rx ([acks sh1] & E & _)%bind_Ok_inv.
  unfold route_packets, active_loop in E. rewrite Hl in E. revert E; run.
  intros ([r sh2] & E & _)%bind_Ok_inv. by eapply route_sessions_init in E.
Qed.

(** A turn does not end well when a client says good-bye: its session is
    dropped with its connection, but the acknowledged sequence numbers of all the
    sessions of the turn are committed afterwards, its own included, and that
    expects the session to be there. *)
Theorem disconnect_ends_shard now msg_rx sh l id se :
  sh_inner sh = SI_MainActive l → bt_wf str_cmp (sessions l) → id ∈ al_miot l →
  (id, se) ∈ sessions l → disconnects se →
  ∀ r, active_turn now msg_rx sh ≠ Ok (inl r).
Proof.
  intros Hl Hwf Hm Hin Hd r ([acks sh1] & E1 & ([[[q rx1] acks2] sh2] & E2 & E3)%bind_Ok_inv)%bind_Ok_inv.
  destruct (route_packets_gone _ _ _ _ _ _ _ Hl Hwf Hm Hin Hd E1) as [Hg [seqnos Ha]].
  apply (out_messages_keeps id) in E2 as (l2 & Hl2 & Hn); [|done]. cbn [take_values] in E3.
  assert (∀ sh3, shard_commit_acks acks sh2 ≠ Ok sh3) as Hc.
  { intros sh3 E. pose proof (commits_need_sessions _ _ _ _ Hl2 E) as Hall.
    apply (bt_get_elem str_cmp) in Ha as (id' & <-%str_cmp_eq & Hin2).
    eapply Forall_forall in Hall; [|exact Hin2]. cbn in Hall. rewrite Hn in Hall. by destruct Hall. }
  destruct q; cbn [with_values] in E3; [..|done]; apply bind_Ok_inv in E3 as (sh3 & E & _); by eapply Hc.
Qed.

(** ** Witnesses *)

Definition ex_client (pkts : list Packet) : rstring * Session :=
  ([100], with_state (SS_Active (ex_active <| session_rx := MkRx 8 (MkChannel pkts 8 true) |>)) ex_session).

Definition ex_clients (pkts : list Packet) : ActiveLoop :=
  MkActiveLoop [[100]] [] [] [ex_client pkts] 1 [] [] [] [] Inner_default.
Definition ex_clients_shard (pkts : list Packet) : Shard :=
  MkShard 0 (Config_default 2) (SI_MainActive (ex_clients pkts)).
Definition ex_msg_rx : MsgRx := MkRx 8 (MkChannel [] 8 true).

Lemma ping_turn_witness :
  ∃ ss, active_turn (λ _, 0) ex_msg_rx (ex_clients_shard [Pkt_PingReq; Pkt_PingReq])
      = Ok (inl (ex_msg_rx, set_loop (with_sessions ss (ex_clients [])) (ex_clients_shard [])))
    ∧ Forall2 ping_answered [ex_client [Pkt_PingReq; Pkt_PingReq]] ss.
Proof.
  apply (ping_turn (λ _, 0) ex_msg_rx (ex_clients_shard [Pkt_PingReq; Pkt_PingReq]) (ex_clients [Pkt_PingReq; Pkt_PingReq]));
    try reflexivity; [by repeat constructor|].
  constructor; [|constructor]. eexists. split; [reflexivity|].
  split_and!; [by repeat constructor|reflexivity|done|reflexivity|reflexivity|cbn; lia].
Defined.

Lemma routed_packet_ends_shard_witness :
  ¬ ∃ res, active_turn (λ _, 0) ex_msg_rx (ex_clients_shard [Pkt_Publish (ex_publ QoS_AtMostOnce None [97])]) = Ok res.
Proof.
  intros [res E]. revert E. eapply (routed_packet_ends_shard (λ _, 0)
      (ex_clients_shard [Pkt_Publish (ex_publ QoS_AtMostOnce None [97])])
      (ex_clients [Pkt_Publish (ex_publ QoS_AtMostOnce None [97])])); [reflexivity|by left|reflexivity|by split|reflexivity|].
  by split_and!.
Defined.

Lemma disconnect_ends_shard_witness :
  ¬ ∃ r, active_turn (λ _, 0) ex_msg_rx (ex_clients_shard [Pkt_Disconnect (MkDisconnect DRC_NormalDisconnect None)])
    = Ok (inl r).
Proof.
  intros [r E]. revert E. eapply (disconnect_ends_shard (λ _, 0) ex_msg_rx
      (ex_clients_shard [Pkt_Disconnect (MkDisconnect DRC_NormalDisconnect None)])
      (ex_clients [Pkt_Disconnect (MkDisconnect DRC_NormalDisconnect None)])); [reflexivity|by repeat constructor|by left|by left|].
  by eexists _, _.
Defined.
