(* ===== verification/Line.v ===== *)
(** * A shard and its miot thread together

    The two threads share queues: what the miot thread reads of a connection is what
    the session of its client receives, and what the session sends is what the thread
    writes.  Each model has its own end of a queue; here a step of one thread is
    followed by a look of the other at the queues, and an answer to a ping is followed
    from the bytes of the client to the bytes it gets. *)
From S2P Require Import Prelude Errors Utf8 Types V5Header V5Session V5Connect V5Packet Framing Queues Threads Config SortedVec BTree Message Subscription Socket Miot MiotProps Session SessionProps Shard ShardProps ShardLoop ShardLoopProps ShardTurns.
Local Open Scope Z_scope.

Record Line := MkLine { ln_miot : Miot; ln_world : world; ln_shard : Shard; ln_msg_rx : MsgRx }.

(** The queues between a socket and its session, as the other end has left them. *)
Definition session_sees (so : Socket) (a : Active) : Active :=
  a <| session_rx := MkRx (batch_size (session_rx a)) (tx (session_tx (so_rd so))) |>
    <| miot_tx := MkTx (rx (miot_rx (so_wt so))) (tx_count (miot_tx a)) |>.

Definition socket_sees (a : Active) (so : Socket) : Socket :=
  MkSocket (so_client_id so) (so_conn so) (so_token so)
    ((so_rd so) <| session_tx := MkTx (rx (session_rx a)) (tx_count (session_tx (so_rd so))) |>)
    ((so_wt so) <| miot_rx := MkRx (batch_size (miot_rx (so_wt so))) (tx (miot_tx a)) |>).

(** The sockets of the miot thread, and those it has handed to the shard, which the shard
    has not taken yet. *)
Definition sockets (l : MiotLoop) : list (rstring * Socket) :=
  conns l ++ ((λ p, (so_client_id p.1, p.1)) <$> ch_items (mi_shard l)).

Definition sessions_see (l : MiotLoop) (ss : btree rstring Session) : btree rstring Session :=
  (λ e, (e.1, match state e.2, bt_get str_cmp e.1 (sockets l) with
              | SS_Active a, Some so => with_state (SS_Active (session_sees so a)) e.2
              | _, _ => e.2
              end)) <$> ss.

Definition see_session (ss : btree rstring Session) (id : rstring) (so : Socket) : Socket :=
  match bt_get str_cmp id ss with
  | Some se => match state se with SS_Active a => socket_sees a so | _ => so end
  | None => so
  end.

Definition sockets_see (ss : btree rstring Session) (l : MiotLoop) : MiotLoop :=
  MkMiotLoop (next_token l) ((λ e, (e.1, see_session ss e.1 e.2)) <$> conns l)
    (MkChannel ((λ p, (see_session ss (so_client_id p.1) p.1, p.2)) <$> ch_items (mi_shard l))
       (ch_size (mi_shard l)) (ch_open (mi_shard l))).

Definition shard_sees (m : Miot) (sh : Shard) : Shard :=
  match mi_inner m, sh_inner sh with
  | MI_Main l, SI_MainActive al => set_loop (with_sessions (sessions_see l (sessions al)) al) sh
  | _, _ => sh
  end.

Definition miot_sees (sh : Shard) (m : Miot) : Miot :=
  match mi_inner m, sh_inner sh with
  | MI_Main l, SI_MainActive al => set_run_loop (sockets_see (sessions al) l) m
  | _, _ => m
  end.

(** What [handle_add_session] asks its miot thread: the other ends of the queues of the
    session [a], and the limit of its client. *)
Definition add_connection_args (id : rstring) (conn : TcpStream) (a : Active) : AddConnectionArgs :=
  MkAddConnectionArgs id conn (MkTx (rx (session_rx a)) 0) (MkRx (batch_size (session_rx a)) (tx (miot_tx a)))
    (Connect_max_packet_size (sa_connect a) (1024 * 1024)).

(** Steps of the two threads, while clients ping: a pass of the miot thread over its
    connections in one direction, a turn of the shard in which every session is alive
    and has room for its answers, and time. *)
Inductive line_step `{sys : System} : Line → Line → Prop :=
| Step_read m w sh rx m' w' :
    socket_to_session m w = Ok (m', w') → line_step (MkLine m w sh rx) (MkLine m' w' (shard_sees m' sh) rx)
| Step_write m w sh rx m' w' :
    session_to_socket m w = Ok (m', w') → line_step (MkLine m w sh rx) (MkLine m' w' (shard_sees m' sh) rx)
| Step_turn m w sh rx now al rx' sh' :
    sh_inner sh = SI_MainActive al → Forall (ping_session now) (sessions al) →
    active_turn now rx sh = Ok (inl (rx', sh')) → line_step (MkLine m w sh rx) (MkLine (miot_sees sh' m) w sh' rx')
| Step_time m w sh rx w' : line_step (MkLine m w sh rx) (MkLine m w' sh rx).

(** ** Lemmas *)

Lemma bt_get_app_l {V} id (m m' : btree rstring V) v :
  bt_get str_cmp id m = Some v → bt_get str_cmp id (m ++ m') = Some v.
Proof. induction m as [|[k x] m IH]; cbn; [done|]. by destruct (str_cmp id k). Qed.

Lemma bt_get_fmap {V W} (f : rstring → V → W) id (m : btree rstring V) :
  bt_get str_cmp id ((λ e, (e.1, f e.1 e.2)) <$> m) = f id <$> bt_get str_cmp id m.
Proof.
  induction m as [|[k v] m IH]; cbn; [done|]. pose proof (str_cmp_eq id k) as Ek.
  destruct (str_cmp id k); [by rewrite (proj1 Ek eq_refl)|exact IH..].
Qed.

Lemma fmap_keys_wf {V} (f : rstring → V → V) (m : btree rstring V) :
  bt_wf str_cmp m → bt_wf str_cmp ((λ e, (e.1, f e.1 e.2)) <$> m).
Proof. intros Hm. eapply sorted_by_keys; [|exact Hm]. by rewrite <-list_fmap_compose. Qed.

(** A connection that is kept has been there before. *)
Lemma kept_get ts id so' :
  bt_wf str_cmp (sv_old <$> ts) → bt_get str_cmp id (omap sv_kept ts) = Some so' →
  ∃ t, t ∈ ts ∧ sv_fail t = None ∧ sv_after t = so' ∧ bt_get str_cmp id (sv_old <$> ts) = Some (sv_before t).
Proof.
  intros Hwf (k & Ek & Hin)%bt_get_elem. pose proof (proj1 (str_cmp_eq id k) Ek) as <-.
  apply list_elem_of_omap in Hin as (t & Ht & Hk). unfold sv_kept in Hk. destruct (sv_fail t) eqn:Ef; [done|].
  injection Hk as Eid Eso. exists t. split_and!; try done.
  apply (bt_elem_get str_cmp); [done|]. apply list_elem_of_fmap. exists t. by rewrite <-Eid.
Qed.

(** *** Pings *)

Definition ping_bytes : bytes := [192; 0].
Definition pong_bytes : bytes := [208; 0].

Lemma Packet_decode_ping s : Packet_decode (192 :: 0 :: s) = Ok (Pkt_PingReq, 2%nat).
Proof. reflexivity. Qed.

Lemma decodes_ping pkt data n rest :
  decodes pkt data → data ++ rest = mjoin (replicate n ping_bytes) →
  ∃ n', n = S n' ∧ pkt = Pkt_PingReq ∧ data = ping_bytes ∧ rest = mjoin (replicate n' ping_bytes).
Proof.
  intros [Hd _] E. destruct n as [|n].
  { cbn in E. destruct data; [|done]. by vm_compute in Hd. }
  cbn in E. destruct data as [|b [|b' data]]; [by vm_compute in Hd| |].
  - cbn in E. injection E as -> _. by vm_compute in Hd.
  - cbn in E. injection E as -> -> E. rewrite Packet_decode_ping in Hd. injection Hd as <- Hl.
    destruct data; [|done]. by exists n.
Qed.

Lemma pings_read pkts datas rest n :
  Forall2 decodes pkts datas → concat datas ++ rest = mjoin (replicate n ping_bytes) →
  ∃ j, (j ≤ n)%nat ∧ pkts = replicate j Pkt_PingReq ∧ rest = mjoin (replicate (n - j) ping_bytes).
Proof.
  intros H. revert n. induction H as [|pkt data pkts datas Hd _ IH]; intros n E.
  { exists 0%nat. rewrite Nat.sub_0_r. split; [lia|]. by split. }
  cbn [concat] in E. rewrite <-app_assoc in E. destruct (decodes_ping _ _ _ _ Hd E) as (n' & -> & -> & -> & E2).
  destruct (IH n' E2) as (j & Hj & -> & ->). exists (S j). split; [lia|]. by split.
Qed.

(** *** What a client is owed *)

(** Of [N] pings [u] wait for the session, [n] are still to be read and [k] have been
    answered behind [D], what was owed to the client before. *)
Definition account (max : Z) (D : bytes) (N : nat) (so : Socket) : Prop :=
  ∃ u n k, upstream (so_rd so) = replicate u Pkt_PingReq
    ∧ socket_stream so = mjoin (replicate n ping_bytes)
    ∧ (∀ w, wf_wt max (wt_env_of so w))
    ∧ (∀ w, outgoing max (wt_env_of so w) = D ++ mjoin (replicate k pong_bytes))
    ∧ (u + n + k = N)%nat.

Lemma account_read max D N so so' :
  account max D N so → socket_read so so' → wf_socket so' → account max D N so'.
Proof.
  intros (u & n & k & Hu & Hn & Hw & Hk & HN) (_ & _ & Ewt & Etcp & Hdone) Hwf.
  destruct (Hdone (MkWorld (MkClock (λ _, 0) 0) false)) as (pkts & datas & rest & Eu & Hd & Ei & Hor).
  cbn in Eu. change (incoming _) with (socket_stream so) in Ei at 1. rewrite Hn in Ei.
  destruct (pings_read pkts datas rest n Hd (eq_sym Ei)) as (j & Hj & -> & Er).
  destruct Hor as [[_ Hrest]|Hnone].
  2:{ destruct Hwf as (Hrd & _). destruct (Hrd (MkWorld (MkClock (λ _, 0) 0) false)) as [[_ Hr] _]. cbn in Hnone, Hr. by rewrite Hnone in Hr. }
  exists (u + j)%nat, (n - j)%nat, k. split; [by rewrite Eu, Hu, replicate_add|].
  split; [by rewrite <-Er, Hrest|]. unfold wt_env_of in *. rewrite Ewt, Etcp. split; [done|]. split; [done|lia].
Qed.

Lemma account_written max D N so so' :
  account max D N so → socket_written true so so' → account max D N so'.
Proof.
  intros (u & n & k & Hu & Hn & Hw & Hk & HN) (_ & _ & Erd & Etcp & Ho).
  exists u, n, k. unfold socket_stream in *. rewrite Erd, Etcp. split; [done|]. split; [done|].
  split; [intros w; by destruct (Ho w max (Hw w))|]. split; [|done]. intros w. destruct (Ho w max (Hw w)) as [_ ->]. apply Hk.
Qed.

Lemma blob_pong max : 2 ≤ max → blob max Pkt_PingResp = pong_bytes.
Proof.
  intros Hmax. transitivity (if max <? len pong_bytes then [] else pong_bytes); [reflexivity|].
  change (len pong_bytes) with 2. by destruct (Z.ltb_spec max 2); [lia|].
Qed.

Definition linked (so : Socket) (a : Active) : Prop :=
  tx (session_tx (so_rd so)) = rx (session_rx a) ∧ rx (miot_rx (so_wt so)) = tx (miot_tx a).

(** The session has taken pings and answered them. *)
Lemma account_turn max D N so a a' n :
  2 ≤ max → account max D N so → linked so a →
  ch_items (rx (session_rx a)) = replicate n Pkt_PingReq ++ ch_items (rx (session_rx a')) →
  ch_items (tx (miot_tx a')) = ch_items (tx (miot_tx a)) ++ replicate n Pkt_PingResp →
  account max D N (socket_sees a' so).
Proof.
  intros Hmax (u & m & k & Hu & Hm & Hw & Hk & HN) [L1 L2] E1 E2.
  unfold upstream in Hu. rewrite L1, E1, <-app_assoc in Hu.
  assert (n ≤ u)%nat as Hnu by (apply (f_equal length) in Hu; rewrite length_app, !length_replicate in Hu; lia).
  replace u with (n + (u - n))%nat in Hu by lia. rewrite replicate_add in Hu. apply app_inv_head in Hu.
  exists (u - n)%nat, m, (k + n)%nat. split; [exact Hu|]. split; [exact Hm|]. split; [exact Hw|]. split; [|lia].
  intros w. specialize (Hk w).
  change (outgoing max (wt_env_of (socket_sees a' so) w))
    with (out (wt_env_of so w) ++ blobs max (wt_packets (so_wt so) ++ ch_items (tx (miot_tx a')))).
  change (outgoing max (wt_env_of so w))
    with (out (wt_env_of so w) ++ blobs max (wt_packets (so_wt so) ++ ch_items (rx (miot_rx (so_wt so))))) in Hk.
  rewrite L2 in Hk. rewrite E2, (app_assoc (wt_packets _)), blobs_app, app_assoc, Hk.
  rewrite <-app_assoc, replicate_add, join_app. do 2 f_equal. clear -Hmax.
  induction n as [|n IH]; [done|]. cbn [replicate]. unfold blobs in *. cbn [mbind list_bind]. rewrite IH. cbn [mjoin list_join].
  by rewrite (blob_pong _ Hmax).
Qed.

(** *** The invariant *)

Record line_wf (L : Line) (ml : MiotLoop) (al : ActiveLoop) : Prop := {
  lw_miot : mi_inner (ln_miot L) = MI_Main ml;
  lw_loop : wf_loop ml;
  lw_shard : sh_inner (ln_shard L) = SI_MainActive al;
  lw_sessions : bt_wf str_cmp (sessions al);
  lw_quiet : shard_back_log al = [] ∧ index al = []
    ∧ ch_items (rx (ln_msg_rx L)) = [] ∧ ch_open (rx (ln_msg_rx L)) = true;
  lw_linked id so a : bt_get str_cmp id (conns ml) = Some so → session_of al id = Some a → linked so a;
}.

(** What holds of the connection of a client, while there is one. *)
Definition connected (P : Socket → Prop) (id : rstring) (ml : MiotLoop) : Prop :=
  ∀ so, bt_get str_cmp id (conns ml) = Some so → P so.

(** The shard looks at the queues. *)
Lemma shard_sees_wf L ml al m' w' ml' :
  line_wf L ml al → mi_inner m' = MI_Main ml' → wf_loop ml' →
  line_wf (MkLine m' w' (shard_sees m' (ln_shard L)) (ln_msg_rx L)) ml' (with_sessions (sessions_see ml' (sessions al)) al).
Proof.
  intros [_ _ Hs Hw Hq _] Hm Hl. split; cbn [ln_miot ln_shard ln_msg_rx]; try done.
  - unfold shard_sees. by rewrite Hm, Hs.
  - by apply (fmap_keys_wf (λ id se, match state se, bt_get str_cmp id (sockets ml') with
              | SS_Active a, Some so => with_state (SS_Active (session_sees so a)) se | _, _ => se end)).
  - intros id so a Hso. unfold session_of. cbn [sessions with_sessions]. unfold sessions_see.
    rewrite (bt_get_fmap (λ id se, match state se, bt_get str_cmp id (sockets ml') with
              | SS_Active a, Some so => with_state (SS_Active (session_sees so a)) se | _, _ => se end)).
    unfold sockets. rewrite (bt_get_app_l _ _ _ _ Hso). destruct (bt_get str_cmp id (sessions al)) as [se|]; cbn; [|done].
    destruct (state se) eqn:E; cbn; rewrite ?E; try done. by intros [= <-].
Qed.

(** A pass of the miot thread after which the connections that are kept are well formed. *)
Lemma pass_wf (R : Socket → Socket → option (option Error) → Prop) (P : Socket → Prop) L ml al m' w' ml' ts id :
  line_wf L ml al → mi_inner m' = MI_Main ml' → wf_loop ml' →
  conns ml = sv_old <$> ts → conns ml' = omap sv_kept ts → Forall (served_as R) ts →
  (∀ so so', wf_socket so' → R so so' None → P so → P so') →
  connected P id ml →
  ∃ al', line_wf (MkLine m' w' (shard_sees m' (ln_shard L)) (ln_msg_rx L)) ml' al' ∧ connected P id ml'.
Proof.
  intros HL Hm Hl Eo Ek Hts HR HP. eexists. split; [by apply shard_sees_wf with ml|]. intros so' Hso'.
  pose proof (bt_get_elem str_cmp _ _ _ Hso') as (k & _ & Hin). pose proof (wf_sockets _ Hl) as Hall. rewrite Forall_forall in Hall.
  specialize (Hall _ Hin). rewrite Ek in Hso'. apply kept_get in Hso' as (t & Ht & Hf & <- & Hold).
  2:{ rewrite <-Eo. apply wf_conns, HL. }
  rewrite Forall_forall in Hts. specialize (Hts t Ht). unfold served_as in Hts. rewrite Hf in Hts.
  eapply HR; [exact Hall|exact Hts|]. apply HP. by rewrite Eo.
Qed.

(** *** A turn of the shard *)

Lemma answered_get ss0 ss id se' :
  Forall2 ping_answered ss0 ss → bt_get str_cmp id ss = Some se' →
  ∃ se, bt_get str_cmp id ss0 = Some se ∧ ping_answered (id, se) (id, se').
Proof.
  induction 1 as [|[k0 se0] [k se1] ss0 ss He _ IH]; [done|]. destruct He as [Hk He]. cbn in Hk. subst k. cbn [bt_get].
  destruct (str_cmp id k0) eqn:E; [|exact IH..]. intros [= <-]. exists se0. split; [done|]. by split.
Qed.

Lemma answered_keys ss0 ss : Forall2 ping_answered ss0 ss → fst <$> ss = fst <$> ss0.
Proof. induction 1 as [|e0 e ss0 ss [He _] _ IH]; [done|]. cbn. by rewrite He, IH. Qed.

(** What a socket sees of a session that has answered pings. *)
Lemma see_answered ss0 ss id so :
  Forall2 ping_answered ss0 ss →
  see_session ss id so = so
  ∨ ∃ se se' a a' n, bt_get str_cmp id ss0 = Some se ∧ state se = SS_Active a
      ∧ bt_get str_cmp id ss = Some se' ∧ state se' = SS_Active a' ∧ see_session ss id so = socket_sees a' so
      ∧ ch_items (rx (session_rx a)) = replicate n Pkt_PingReq ++ ch_items (rx (session_rx a'))
      ∧ ch_items (tx (miot_tx a')) = ch_items (tx (miot_tx a)) ++ replicate n Pkt_PingResp
      ∧ same_queue (rx (session_rx a)) (rx (session_rx a')).
Proof.
  intros Hss. unfold see_session. destruct (bt_get str_cmp id ss) as [se'|] eqn:Eg; [|by left].
  destruct (answered_get _ _ _ _ Hss Eg) as (se & Eg0 & _ & a & a' & n & Ea & Ea' & Hi & _ & Ho & Hsame & _). cbn [snd] in *.
  right. exists se, se', a, a', n. rewrite Ea'. by split_and!.
Qed.

Lemma socket_sees_wf so a a' n :
  wf_socket so → linked so a →
  ch_items (rx (session_rx a)) = replicate n Pkt_PingReq ++ ch_items (rx (session_rx a')) →
  ch_items (tx (miot_tx a')) = ch_items (tx (miot_tx a)) ++ replicate n Pkt_PingResp →
  same_queue (rx (session_rx a)) (rx (session_rx a')) →
  wf_socket (socket_sees a' so).
Proof.
  intros (Hrd & Hfit & Hwt & Hps & Hch) [L1 L2] E1 E2 [Hsz _]. split; [exact Hrd|]. split; [|split; [exact Hwt|split; [exact Hps|]]].
  - unfold fits in *. cbn. rewrite L1, E1, length_app in Hfit. rewrite Hsz. lia.
  - cbn. rewrite L2 in Hch. rewrite E2. apply Forall_app. split; [exact Hch|]. by apply Forall_replicate.
Qed.

Lemma sockets_see_wf L ml al ss :
  line_wf L ml al → Forall2 ping_answered (sessions al) ss → wf_loop (sockets_see ss ml).
Proof.
  intros [_ Hl _ _ _ Hlink] Hss. pose proof Hl as [H1 H2 H3 H4 H5 H6].
  assert (∀ id so, so_token (see_session ss id so) = so_token so) as Htok
    by (intros; unfold see_session; destruct (bt_get _ _ _) as [se|]; [by destruct (state se)|done]).
  assert (token_of <$> conns (sockets_see ss ml) = token_of <$> conns ml) as Et.
  { cbn [conns sockets_see]. rewrite <-list_fmap_compose. apply list_fmap_ext. intros _ [id so] _. apply Htok. }
  split; [by apply fmap_keys_wf| |by rewrite Et| |done|done].
  - cbn [conns sockets_see]. apply Forall_fmap, Forall_forall. intros [id so] Hin. cbn [compose fst snd].
    pose proof (proj1 (Forall_forall _ _) H2 _ Hin) as Hwf. cbn in Hwf.
    destruct (see_answered _ _ id so Hss) as [->|(se & se' & a & a' & n & Eg & Ea & _ & _ & -> & E1 & E2 & Hsame)]; [done|].
    eapply socket_sees_wf; try done. apply (Hlink id); [by apply (bt_elem_get str_cmp)|]. unfold session_of. by rewrite Eg, Ea.
  - cbn [conns sockets_see]. apply Forall_fmap. eapply Forall_impl; [exact H4|]. intros [id so]. unfold token_of. cbn.
    by rewrite Htok.
Qed.

Lemma turn_wf max D N L ml al id now rx' sh' w :
  2 ≤ max → line_wf L ml al → Forall (ping_session now) (sessions al) →
  active_turn now (ln_msg_rx L) (ln_shard L) = Ok (inl (rx', sh')) →
  connected (account max D N) id ml →
  ∃ ml' al', line_wf (MkLine (miot_sees sh' (ln_miot L)) w sh' rx') ml' al' ∧ connected (account max D N) id ml'.
Proof.
  intros Hmax HL Hp E HA. pose proof HL as [Hm Hl Hs Hw (Hb & Hix & Hi & Ho) Hlink].
  destruct (turn_pings now (ln_msg_rx L) (ln_shard L) al Hs Hw Hb Hix Hi Ho Hp) as (ss & E' & Hss).
  rewrite E' in E. injection E as <- <-. exists (sockets_see ss ml), (with_sessions ss al). split.
  - split; cbn [ln_miot ln_shard ln_msg_rx]; try done.
    + unfold miot_sees. by rewrite Hm.
    + by apply (sockets_see_wf L ml al).
    + eapply sorted_by_keys; [by apply answered_keys|done].
    + intros i so a. cbn [conns sockets_see]. rewrite (bt_get_fmap (see_session ss)).
      unfold session_of. cbn [sessions with_sessions].
      destruct (bt_get str_cmp i (conns ml)) as [so0|]; [|done]. cbn [fmap option_fmap option_map]. unfold see_session.
      destruct (bt_get str_cmp i ss) as [se|]; [|done]. destruct (state se); [|done..]. by intros [= <-] [= <-].
  - intros so. cbn [conns sockets_see]. rewrite (bt_get_fmap (see_session ss)).
    destruct (bt_get str_cmp id (conns ml)) as [so0|] eqn:Eg; [|done]. intros [= <-].
    destruct (see_answered _ _ id so0 Hss) as [->|(se & se' & a & a' & n & Es & Ea & _ & _ & -> & E1 & E2 & _)]; [by apply HA|].
    eapply account_turn; [done|by apply HA| |exact E1|exact E2]. apply (Hlink id); [done|]. unfold session_of. by rewrite Es, Ea.
Qed.

Lemma line_step_wf `{sys : System} `{!Responsive sys} max D N L L' ml al id :
  2 ≤ max → line_step L L' → line_wf L ml al → connected (account max D N) id ml →
  ∃ ml' al', line_wf L' ml' al' ∧ connected (account max D N) id ml'.
Proof.
  intros Hmax Hst HL HA. destruct Hst as [m w sh rx m' w' E|m w sh rx m' w' E|m w sh rx now al0 rx' sh' Hs Hp E|m w sh rx w'].
  - pose proof (reads_spec m ml w (lw_miot _ _ _ HL) (lw_loop _ _ _ HL)) as Hr. rewrite E in Hr.
    destruct Hr as (ml' & -> & Hl & ts & Eo & Ek & _ & Hts & _). exists ml'.
    apply (pass_wf (heard read_result) _ (MkLine m w sh rx) ml al (set_run_loop ml' m) _ ml' ts); try done.
    intros so so' Hwf [[Hr _] _] Hacc. by eapply account_read.
  - pose proof (writes_spec m ml w (lw_miot _ _ _ HL) (lw_loop _ _ _ HL)) as Hr. rewrite E in Hr.
    destruct Hr as (ml' & -> & Hl & ts & Eo & Ek & _ & Hts & _). exists ml'.
    apply (pass_wf (heard write_result) _ (MkLine m w sh rx) ml al (set_run_loop ml' m) _ ml' ts); try done.
    intros so so' Hwf [[Hr _] _] Hacc. by eapply account_written.
  - pose proof (lw_shard _ _ _ HL) as Hs'. cbn in Hs'. rewrite Hs in Hs'. injection Hs' as ->.
    by apply (turn_wf _ _ _ (MkLine m w sh rx) ml al id now rx' sh').
  - exists ml, al. split; [|done]. by destruct HL.
Qed.

Lemma steps_account `{sys : System} `{!Responsive sys} max D N L L' ml al id :
  2 ≤ max → rtc line_step L L' → line_wf L ml al → connected (account max D N) id ml →
  ∃ ml' al', line_wf L' ml' al'
    ∧ ∀ so', bt_get str_cmp id (conns ml') = Some so' →
      wr_sent (tcp_wr (so_conn so')) `prefix_of` D ++ mjoin (replicate N pong_bytes)
      ∧ ∃ waiting unread answered, (waiting + unread + answered = N)%nat
        ∧ upstream (so_rd so') = replicate waiting Pkt_PingReq
        ∧ socket_stream so' = mjoin (replicate unread ping_bytes)
        ∧ ∀ w, outgoing max (wt_env_of so' w) = D ++ mjoin (replicate answered pong_bytes).
Proof.
  intros Hmax Hsteps HL HA. assert (∃ ml' al', line_wf L' ml' al' ∧ connected (account max D N) id ml') as (ml' & al' & HL' & HA').
  { revert ml al HL HA. induction Hsteps as [L|L L1 L' Hst _ IH]; intros ml al HL HA; [by exists ml, al|].
    destruct (line_step_wf _ _ _ _ _ _ _ _ Hmax Hst HL HA) as (ml1 & al1 & HL1 & HA1). by eapply IH. }
  exists ml', al'. split; [done|]. intros so' Hso'. destruct (HA' _ Hso') as (u & n & k & Eu & En & Hw & Ho & HN).
  split; [|by exists u, n, k].
  assert (N = k + (u + n))%nat as -> by lia. rewrite replicate_add, join_app, app_assoc.
  specialize (Ho (MkWorld (MkClock (λ _, 0) 0) false)). rewrite <-Ho. unfold outgoing, out. rewrite <-!app_assoc. by eexists.
Qed.

(** *** A new client *)

(** The miot thread, with no connections yet, takes the connection of a new session. *)
Lemma new_line `{sys : System} `{!Responsive sys} i config ch w sh rx al id conn a ack n N :
  let args := add_connection_args id conn a in
  let D := wr_sent (tcp_wr conn) ++ blob (ac_max_packet_size args) ack in
  sh_inner sh = SI_MainActive al → bt_wf str_cmp (sessions al) →
  shard_back_log al = [] → index al = [] → ch_items (Queues.rx rx) = [] → ch_open (Queues.rx rx) = true →
  session_of al id = Some a → session_rx a = MkRx n (MkChannel [] n true) →
  ch_items (tx (miot_tx a)) = [ack] → wf_Packet ack → ch_open ch = true →
  rd_bytes (tcp_rd conn) = mjoin (replicate N ping_bytes) → peer_addr conn ≠ None →
  ∃ m ml, handle_add_connection args (Miot_spawn i config ch) = Ok (MiotOk, m)
    ∧ line_wf (MkLine m w sh rx) ml al ∧ connected (account (ac_max_packet_size args) D N) id ml.
Proof.
  intros args D Hs Hw Hb Hix Hi Ho Hid Hrx Htx Hack Hch Hrd Hpeer.
  set (l0 := MkMiotLoop FIRST_TOKEN [] ch). set (so := new_socket config args FIRST_TOKEN).
  set (ml := MkMiotLoop (S FIRST_TOKEN) (bt_insert str_cmp id so []) ch).
  assert (handle_add_connection args (Miot_spawn i config ch) = Ok (MiotOk, set_run_loop ml (Miot_spawn i config ch))) as E
    by (rewrite (add_connection_spec (Miot_spawn i config ch) l0 args eq_refl); cbn zeta; by rewrite decide_False).
  assert (is_bytes (rd_bytes (tcp_rd conn))) as Hbytes.
  { rewrite Hrd. clear. induction N as [|N IH]; [constructor|]. by repeat constructor. }
  assert (wf_socket so) as Hso.
  { apply new_socket_wf. split; [exact Hbytes|]. split; [cbn; rewrite Hrx; cbn; lia|]. cbn. rewrite Htx. by apply Forall_singleton. }
  assert (∀ so', bt_get str_cmp id (conns ml) = Some so' → so' = so) as Hget.
  { intros so'. cbn [conns ml]. rewrite bt_get_str, decide_True by done. by intros [= <-]. }
  exists (set_run_loop ml (Miot_spawn i config ch)), ml. split; [exact E|]. split.
  - split; cbn [ln_miot ln_shard ln_msg_rx]; try done.
    + apply (wf_add l0); [|exact Hso|done]. split; cbn; try constructor; done.
    + intros id' so' a'. cbn [conns ml]. rewrite bt_get_str. destruct (decide (id' = id)) as [->|]; [|done].
      intros [= <-]. rewrite Hid. intros [= <-]. by split.
  - intros so' ->%Hget. exists 0%nat, N, 0%nat. split; [cbn; by rewrite Hrx|]. split; [exact Hrd|].
    split; [intros w'; exists [], (wr_sent (tcp_wr conn)); by cbn|]. split; [|lia]. intros w'.
    transitivity ((wr_sent (tcp_wr conn) ++ to_send (MQTTWrite_new [] (ac_max_packet_size args)))
      ++ blobs (ac_max_packet_size args) ([] ++ ch_items (tx (miot_tx a)))); [reflexivity|].
    assert (to_send (MQTTWrite_new [] (ac_max_packet_size args)) = []) as -> by (cbn; by case_match). rewrite Htx, app_nil_r. unfold D, blobs. cbn [app mbind list_bind replicate mjoin list_join]. by rewrite !app_nil_r.
Qed.

(** ** Theorems *)

(** C6. A client that pings.  Between the threads no ping and no answer is lost, repeated
    or overtaken, however the passes of the miot thread and the turns of the shard
    alternate: of [N] PINGREQ in the stream of a client as many have been answered as
    are no longer on their way, and what the client has got is a part from the front of
    what it was owed before, [D], and [N] PINGRESP.  This holds as long as the thread
    keeps the connection; the other clients ping as they like. *)
Theorem pings_answered `{sys : System} `{!Responsive sys} max D N L L' ml al id so :
  2 ≤ max → line_wf L ml al → bt_get str_cmp id (conns ml) = Some so →
  upstream (so_rd so) = [] → socket_stream so = mjoin (replicate N ping_bytes) →
  (∀ w, wf_wt max (wt_env_of so w)) → (∀ w, outgoing max (wt_env_of so w) = D) →
  rtc line_step L L' →
  ∃ ml' al', line_wf L' ml' al'
    ∧ ∀ so', bt_get str_cmp id (conns ml') = Some so' →
      wr_sent (tcp_wr (so_conn so')) `prefix_of` D ++ mjoin (replicate N pong_bytes)
      ∧ ∃ waiting unread answered, (waiting + unread + answered = N)%nat
        ∧ upstream (so_rd so') = replicate waiting Pkt_PingReq
        ∧ socket_stream so' = mjoin (replicate unread ping_bytes)
        ∧ ∀ w, outgoing max (wt_env_of so' w) = D ++ mjoin (replicate answered pong_bytes).
Proof.
  intros Hmax HL Hso Hu Hn Hw Ho Hsteps. apply (steps_account max D N L L' ml al id); try done.
  intros so0 E. rewrite Hso in E. injection E as <-. exists 0%nat, N, 0%nat.
  split; [done|]. split; [done|]. split; [done|]. split; [|lia]. intros w. rewrite Ho. symmetry. apply app_nil_r.
Qed.

(** ** Witnesses

    One client with two pings on its way; a pass in each direction around a turn. *)

Definition ex_pinger : Socket :=
  MkSocket [100] (MkTcpStream [Rd_Data [192; 0; 192; 0]; Rd_WouldBlock] (MkWriter [Wr_Accept 9; Wr_Accept 9] [])) 2
    (MkSource (MQTTRead_new 100) None (MkTx (MkChannel [] 8 true) 0) [])
    (MkSink (MW_Fin [] 100) None (MkRx 8 (MkChannel [] 8 true)) []).

Definition ex_pinger_loop : MiotLoop := MkMiotLoop 3 [([100], ex_pinger)] (MkChannel [] 0 true).

Definition ex_line : Line :=
  MkLine (MkMiot 0 (Config_default 2) (MI_Main ex_pinger_loop)) ex_world (ex_clients_shard []) ex_msg_rx.

Definition ex_round (L : Line) : Result Line :=
  '(m, w) ← socket_to_session (sys := ex_os) (ln_miot L) (ln_world L);
  r ← active_turn (λ _, 0) (ln_msg_rx L) (shard_sees m (ln_shard L));
  match r with
  | inl (rx, sh) =>
      '(m, w) ← session_to_socket (sys := ex_os) (miot_sees sh m) w;
      Ok (MkLine m w (shard_sees m sh) rx)
  | inr _ => Panic
  end.

(** After a round the client has got both answers. *)
Example ex_round_answers :
  match ex_round ex_line with
  | Ok (MkLine m _ _ _) =>
      match mi_inner m with
      | MI_Main l => (λ e, wr_sent (tcp_wr (so_conn e.2))) <$> conns l = [[208; 0; 208; 0]]
      | _ => False
      end
  | _ => False
  end.
Proof. lazy. reflexivity. Qed.

Lemma ex_line_wf : line_wf ex_line ex_pinger_loop (ex_clients []).
Proof.
  split; try done; [|by repeat constructor|].
  - split; cbn [conns ex_pinger_loop next_token mi_shard]; [by repeat constructor| |apply NoDup_singleton| |unfold FIRST_TOKEN; lia|done].
    + apply Forall_singleton. split; [intros w; split; [split; [constructor|done]|by repeat constructor]|].
      split; [unfold fits; cbn; lia|]. split; [|by split]. exists 100. intros w. exists [], []. by cbn.
    + repeat constructor; cbn; lia.
  - intros id so a. cbn [ex_pinger_loop conns bt_get]. pose proof (str_cmp_eq id [100]) as Eid.
    destruct (str_cmp id [100]); [|done..]. intros [= <-]. rewrite (proj1 Eid eq_refl). intros [= <-]. by split.
Qed.

Lemma pings_answered_witness :
  ∃ L', rtc (line_step (sys := ex_os)) ex_line L' ∧ ∃ ml' al', line_wf L' ml' al'
    ∧ ∀ so', bt_get str_cmp [100] (conns ml') = Some so' →
        wr_sent (tcp_wr (so_conn so')) `prefix_of` mjoin (replicate 2 pong_bytes).
Proof.
  eassert (rtc (line_step (sys := ex_os)) ex_line _) as Hs.
  { eapply rtc_l; [eapply Step_read; lazy; reflexivity|].
    eapply rtc_l; [|apply rtc_refl].
    eapply (Step_turn _ _ _ _ (λ _, 0)); [lazy; reflexivity| |lazy; reflexivity].
    apply Forall_singleton. eexists. split; [reflexivity|]. split_and!; [by repeat constructor|done|done|done|done|cbn; lia]. }
  eexists. split; [exact Hs|].
  destruct (pings_answered (sys := ex_os) 100 [] 2 _ _ _ _ [100] ex_pinger ltac:(lia) ex_line_wf eq_refl eq_refl eq_refl
    (λ w, ex_intro _ [] (ex_intro _ [] (conj eq_refl (conj eq_refl eq_refl)))) (λ w, eq_refl) Hs) as (ml' & al' & Hw & Ha).
  exists ml', al'. split; [exact Hw|]. intros so' E. by destruct (Ha so' E) as [? _].
Defined.
