(* ===== verification/ShardControl.v ===== *)
(** * Shards: requests to the thread (src/src/broker/shard.rs, thread.rs)

    The control channel of a shard, the requests that come on it, and the loops of
    an active and of a replica shard around their turns. *)
From S2P Require Import Prelude Errors Utf8 Types V5Header V5PubAck V5ConnAck V5Connect V5Publish V5Packet Framing Queues Threads Config SortedVec BTree Socket Message Subscription TopicTrie Tries Session SessionProps Shard ShardProps ShardLoop ShardLoopProps.
Local Open Scope Z_scope.

(** [Request].  [AddSession] comes with the identifier that the uuid library would
    generate for its client; of the socket in [FlushConnection] the client is used. *)
Inductive Request : Type :=
| SetMiot
| SetShardQueues (queues : btree Z MsgTx)
| AddSession (uuid : rstring) (sock : TcpStream) (pkt : Connect)
| FlushConnection (id : rstring) (e : option Error)
| SendMessages (msgs : list Message)
| CloseShard.

(** A request, and whether the sender waits for a response. *)
Abbreviation QueueReq := (QueueStatus (Request * bool)).

Section control.
Context `{sys : System}.

Definition handle_set_shard_queues (queues : btree Z MsgTx) (sh : Shard) : Result Shard :=
  l ← active_loop sh;
  Ok (set_loop ((l : ActiveLoop) <| shard_queues := queues |>) sh).

Definition set_inner (inner : ShardInner) (sh : Shard) : Shard :=
  MkShard (sh_shard_id sh) (sh_config sh) inner.

Definition handle_close_active (sh : Shard) : Result Shard :=
  l ← active_loop sh;
  Ok (set_inner (SI_Close (MkFinState (al_miot l) (sessions l).*1 (al_inp_seqno l) [] (ack_timestamps l))) sh).

Definition handle_close_replica (sh : Shard) : Result Shard :=
  match sh_inner sh with
  | SI_MainReplica ss => Ok (set_inner (SI_Close (MkFinState [] ss.*1 0 [] [])) sh)
  | _ => Panic
  end.

Definition handle_close (sh : Shard) : Result Shard :=
  match sh_inner sh with
  | SI_MainActive _ => handle_close_active sh
  | SI_MainReplica _ => handle_close_replica sh
  | _ => Panic
  end.

(** One step of the loop of [drain_control_chan]; the flag tells that the shard has
    been closed. *)
Definition handle_request (now : Z) (st : bool * Shard) (req : Request * bool) : Result (bool * Shard) :=
  let '(closed, sh) := st in
  match req with
  | (SetShardQueues queues, true) => sh ← handle_set_shard_queues queues sh; Ok (closed, sh)
  | (AddSession uuid sock pkt, true) => sh ← handle_add_session uuid now sock pkt sh; Ok (closed, sh)
  | (FlushConnection id e, false) => sh ← handle_flush_connection id e sh; Ok (closed, sh)
  | (CloseShard, true) => sh ← handle_close sh; Ok (true, sh)
  | _ => Panic
  end.

Definition drain_control_chan (now : Z) (rx : channel (Request * bool)) (sh : Shard)
    : Result (QueueReq * bool * channel (Request * bool) * Shard) :=
  drain_control (handle_request now) rx sh.

(** [mio_events]: whether the loop is to end. *)
Definition mio_events (now : Z) (rx : channel (Request * bool)) (sh : Shard)
    : Result (bool * channel (Request * bool) * Shard) :=
  drain_all (handle_request now) rx sh.

(** What follows the loop. *)
Definition loop_exit (sh : Shard) : Result Shard :=
  match sh_inner sh with
  | SI_MainActive _ | SI_MainReplica _ => handle_close sh
  | SI_Close _ => Ok sh
  | _ => Panic
  end.

(** One time round the loop of [active_loop]: it goes on with the channels and the
    shard, or the thread ends and leaves the shard. *)
Definition active_round (now : Z) (nows : rstring → Z) (rx : channel (Request * bool)) (msg_rx : MsgRx) (sh : Shard)
    : Result ((channel (Request * bool) * MsgRx * Shard) + Shard) :=
  '(exit, rx, sh) ← mio_events now rx sh;
  if exit : bool then sh ← loop_exit sh; Ok (inr sh)
  else
    r ← active_turn nows msg_rx sh;
    match r with
    | inl (msg_rx, sh) => Ok (inl (rx, msg_rx, sh))
    | inr sh => sh ← loop_exit sh; Ok (inr sh)
    end.

Definition replica_round (now : Z) (rx : channel (Request * bool)) (sh : Shard)
    : Result ((channel (Request * bool) * Shard) + Shard) :=
  '(exit, rx, sh) ← mio_events now rx sh;
  if exit : bool then sh ← loop_exit sh; Ok (inr sh)
  else
    sh ← shard_commit_acks [] sh;
    '(_, sh) ← commit_messages [] [] sh;
    Ok (inl (rx, sh)).
End control.

(** ** Lemmas *)

Lemma add_session_spec `{sys : System} uuid now sock pkt sh l :
  let id := ClientID_from_connect uuid (cpl_client_id (connect_payload pkt)) in
  sh_inner sh = SI_MainActive l → 1 ≤ mqtt_pkt_batch_size (sh_config sh) →
  valid_qos (mqtt_maximum_qos (sh_config sh)) → bt_get str_cmp id (sessions l) = None →
  peer_addr sock ≠ None →
  ∃ l' a props, handle_add_session uuid now sock pkt sh = Ok (set_loop l' sh)
    ∧ (∀ id', session_of l' id' = if decide (id' = id) then Some a else session_of l id')
    ∧ al_miot l' = filter (λ i, i ≠ id) (al_miot l) ++ [id] ∧ topic_filters l' = topic_filters l
    ∧ ch_items (tx (miot_tx a)) = [Pkt_ConnAck (ConnAck_new_success (Some props))]
    ∧ out_acks a = [] ∧ subscriptions a = [] ∧ back_log a = [] ∧ wf_active a
    ∧ cap_receive_maximum props = Some (mqtt_receive_maximum (sh_config sh))
    ∧ (∃ q, cap_maximum_qos props = Some q ∧ QoS_into_u8 q = mqtt_maximum_qos (sh_config sh))
    ∧ cap_server_keep_alive props = keep_alive (sa_keep_alive a)
    ∧ cap_assigned_client_identifier props
      = (if decide (cpl_client_id (connect_payload pkt) = []) then Some uuid else None)
    ∧ (∃ n, session_rx a = MkRx n (MkChannel [] n true) ∧ ch_open (tx (miot_tx a)) = true) ∧ sa_connect a = pkt
    ∧ (bt_wf str_cmp (sessions l) → bt_wf str_cmp (sessions l'))
    ∧ shard_back_log l' = shard_back_log l ∧ index l' = index l
    ∧ (sound_limits (sh_config sh) → wf_Connect pkt → wf_string uuid → wf_ConnAckProperties props).
Proof.
  intros id Hl Hsize Hq Hnone Hpeer. destruct (QoS_try_from_ok _ Hq) as [q Eq].
  pose proof (QoS_try_from_post (mqtt_maximum_qos (sh_config sh))) as Hqp. rewrite Eq in Hqp. cbn in Hqp.
  unfold handle_add_session. destruct (peer_addr sock); [|done]. cbn [opt_unwrap]; run. fold id. cbn [pkt_channel]. set (size := Z.to_nat _).
  set (se := Session_new _ _ _ _ _ _ _).
  destruct (success_ack_spec pkt se _ q eq_refl Eq) as (props & -> & Hrm & Hmq & Hka & Hci & Hwfp); run.
  set (ack := ConnAck_new_success (Some props)) in *.
  unfold on_state at 1, out_acks_extend. cbn [active state se Session_new]; run. cbn [app].
  match goal with |- context [Session_out_acks_flush (MkSession _ _ _ (SS_Active ?x))] => set (a0 := x) end.
  destruct (acks_flush_room a0) as (a & E & Ea & Htx & Hsame); [by repeat constructor|done|cbn; lia|].
  unfold Session_out_acks_flush, on_state. cbn [state]. rewrite E; run. cbn [QueueStatus_map values length Nat.eqb]; run.
  unfold take_over, active_loop. rewrite Hl; run. rewrite Hnone; run. rewrite Hl; run.
  eexists _, a, props. split; [reflexivity|]. rewrite Ea. split_and!; try done.
  - intros id'. unfold session_of. cbn [sessions]. rewrite bt_get_str. destruct (decide (id' = id)); reflexivity.
  - by repeat constructor.
  - by exists q.
  - rewrite Hci. case_decide as Hd; [|done]. cbn. unfold id. by rewrite Hd.
  - exists size. split; [done|]. by destruct Hsame as [_ Hop]; rewrite <-Ea, Hop.
  - intros Hwf. by apply (bt_insert_wf str_cmp).
  - intros Hlim Hc Hu. apply Hwfp; try done.
    + change (wf_string id). unfold id, ClientID_from_connect.
      destruct (str_len (cpl_client_id (connect_payload pkt))); [exact Hu|]. by destruct Hc as (_ & _ & _ & _ & (? & _) & _).
    + apply KeepAlive_new_u16.
Qed.

(** ** Theorems *)

(** C28. The control loop of a shard handles its requests one by one in order, in
    however many batches they come, and ends: it stops when there are none left, or
    after the batch with a request to close; the loop of the thread goes on exactly
    if there was none and the senders are still there. *)
Theorem requests_in_order `{sys : System} now rx sh :
  ∃ reqs rest, ch_items rx = reqs ++ ch_items rest
    ∧ mio_events now rx sh
      = ('(closed, sh) ← foldM (handle_request now) (false, sh) reqs; Ok (closed || negb (ch_open rx), rest, sh))
    ∧ (∀ sh', foldM (handle_request now) (false, sh) reqs = Ok (false, sh') → ch_items rest = []).
Proof. apply drain_all_spec. Qed.

(** C17. A new client: its session joins the shard with an empty state but for the
    CONNACK, which is in the queue to its socket.  The CONNACK announces success,
    the limits of the broker, the keep-alive that the session will enforce and, to
    a client that came without one, the identifier it was given.  If its connection has been
    reset by then, the thread of the shard panics. *)
Theorem add_session_connack `{sys : System} uuid now sock pkt sh l :
  let id := ClientID_from_connect uuid (cpl_client_id (connect_payload pkt)) in
  sh_inner sh = SI_MainActive l → 1 ≤ mqtt_pkt_batch_size (sh_config sh) →
  valid_qos (mqtt_maximum_qos (sh_config sh)) → bt_get str_cmp id (sessions l) = None →
  if decide (peer_addr sock = None) then handle_add_session uuid now sock pkt sh = Panic else
  ∃ l' a props, handle_add_session uuid now sock pkt sh = Ok (set_loop l' sh)
    ∧ (∀ id', session_of l' id' = if decide (id' = id) then Some a else session_of l id')
    ∧ al_miot l' = filter (λ i, i ≠ id) (al_miot l) ++ [id] ∧ topic_filters l' = topic_filters l
    ∧ ch_items (tx (miot_tx a)) = [Pkt_ConnAck (ConnAck_new_success (Some props))]
    ∧ out_acks a = [] ∧ subscriptions a = [] ∧ back_log a = [] ∧ wf_active a
    ∧ cap_receive_maximum props = Some (mqtt_receive_maximum (sh_config sh))
    ∧ (∃ q, cap_maximum_qos props = Some q ∧ QoS_into_u8 q = mqtt_maximum_qos (sh_config sh))
    ∧ cap_server_keep_alive props = keep_alive (sa_keep_alive a)
    ∧ cap_assigned_client_identifier props
      = if decide (cpl_client_id (connect_payload pkt) = []) then Some uuid else None.
Proof.
  intros id Hl Hs Hq Hn. destruct (decide _) as [Hp|Hp]; [unfold handle_add_session; by rewrite Hp|].
  destruct (add_session_spec uuid now sock pkt sh l Hl Hs Hq Hn Hp) as (l' & a & props & Hall).
  exists l', a, props. by destruct_and! Hall; split_and!.
Qed.

(** ** Witnesses and examples *)

Definition ex_new_shard : Shard := ex_shard [].

Definition ex_new_conn : TcpStream := MkTcpStream [] (MkWriter [] []).

Lemma add_session_connack_witness :
  ∃ l' a props, handle_add_session (sys := ex_os) [1; 2] 0 ex_new_conn ex_connect ex_new_shard = Ok (set_loop l' ex_new_shard)
    ∧ ch_items (tx (miot_tx a)) = [Pkt_ConnAck (ConnAck_new_success (Some props))]
    ∧ session_of l' (ClientID_from_connect [1; 2] (cpl_client_id (connect_payload ex_connect))) = Some a.
Proof.
  edestruct (add_session_connack (sys := ex_os) [1; 2] 0 ex_new_conn ex_connect ex_new_shard (ex_loop [])) as (l' & a & props & E & Hs & _ & _ & Hi & _);
    [reflexivity|done|by split|reflexivity|].
  exists l', a, props. split; [exact E|]. split; [exact Hi|]. rewrite Hs. reflexivity.
Defined.

(** A request that comes in the batch of a request to close is met by a shard
    without its state. *)
Example close_then_flush_panics :
  mio_events (sys := ex_os) 0 (MkChannel [(CloseShard, true); (FlushConnection [100] None, false)] 8 true) ex_new_shard = Panic.
Proof. reflexivity. Qed.

(** A replica ends at its first turn: [commit_acks] asks for an active shard. *)
Example replica_round_panics `{sys : System} ss :
  replica_round 0 (MkChannel [] 8 true) (MkShard 0 (Config_default 1) (SI_MainReplica ss)) = Panic.
Proof. reflexivity. Qed.
