(* ===== verification/ShardSpawn.v ===== *)
(** * Starting shards and talking to them (src/src/broker/shard.rs)

    The threads of an active and of a replica shard as they start, the handles that
    the cluster holds on them, and the calls that go through these handles. *)
From S2P Require Import Prelude Errors Utf8 V5Connect Queues Threads Config BTree Socket Message Subscription TopicTrie Tries Session Shard ShardLoop ShardControl.
Local Open Scope Z_scope.

(** [Handle]: the control channel of the thread and its queue of messages, which a
    replica does not have. *)
Record ShardHandle := MkShardHandle { sh_tx : channel (Request * bool); sh_msg_tx : option MsgTx }.

Definition Shard_from_config (config : Config) (shard_id : Z) : Shard := MkShard shard_id config SI_Init.

(** The run loop of a shard that starts. *)
Definition ActiveLoop_new (topic_filters : Inner Subscription) : ActiveLoop :=
  MkActiveLoop [] [] [] [] 1 [] [] [] [] topic_filters.

(** [spawn_active]: the shard of the thread, its handle, and the receiving end of its
    queue, which the thread gets with its miot thread before [spawn_active] returns.
    The queue has room for a batch from each shard; the product is one of [u32]. *)
Definition spawn_active (topic_filters : Inner Subscription) (s : Shard) : Result (Shard * ShardHandle * MsgRx) :=
  let config := sh_config s in
  let size := mqtt_pkt_batch_size config * num_shards config in
  if size <? 2 ^ 32 then
    let '(msg_tx, msg_rx) := msg_channel (Z.to_nat size) in
    Ok (MkShard (sh_shard_id s) config (SI_MainActive (ActiveLoop_new topic_filters)),
        MkShardHandle (MkChannel [] 0 true) (Some msg_tx), msg_rx)
  else Panic.

Definition spawn_replica (s : Shard) : Shard * ShardHandle :=
  (MkShard (sh_shard_id s) (sh_config s) (SI_MainReplica []), MkShardHandle (MkChannel [] 0 true) None).

(** [to_msg_tx] *)
Definition to_msg_tx (sh : ShardHandle) : Result MsgTx := opt_unwrap (sh_msg_tx sh).

(** A request that is waited for: [IPCFail] when the thread is gone. *)
Definition shard_request (req : Request) (sh : ShardHandle) : Result ShardHandle :=
  tx ← post_request true (req, true) (sh_tx sh);
  Ok (MkShardHandle tx (sh_msg_tx sh)).

Definition add_session (uuid : rstring) (sock : TcpStream) (pkt : Connect) (sh : ShardHandle) : Result ShardHandle :=
  shard_request (AddSession uuid sock pkt) sh.

(** [Shard::set_shard_queues]: an error is a panic, by [allow_panic!]. *)
Definition shard_set_shard_queues (queues : btree Z MsgTx) (sh : ShardHandle) : Result ShardHandle :=
  res_unwrap (shard_request (SetShardQueues queues) sh).

(** [close_wait]: [unreachable!()] unless the shard answers; the thread has ended
    then. *)
Definition shard_close_wait (sh : ShardHandle) : Result ShardHandle :=
  sh ← res_unwrap (shard_request CloseShard sh);
  Ok (MkShardHandle (MkChannel (ch_items (sh_tx sh)) (ch_size (sh_tx sh)) false) (sh_msg_tx sh)).

(** [main_loop]: which loop the thread is in. *)
Definition shard_round `{sys : System} (now : Z) (nows : rstring → Z) (rx : channel (Request * bool)) (msg_rx : MsgRx) (sh : Shard)
    : Result ((channel (Request * bool) * MsgRx * Shard) + Shard) :=
  match sh_inner sh with
  | SI_MainActive _ => active_round now nows rx msg_rx sh
  | SI_MainReplica _ =>
      r ← replica_round now rx sh;
      match r with
      | inl (rx, sh) => Ok (inl (rx, msg_rx, sh))
      | inr sh => Ok (inr sh)
      end
  | _ => Panic
  end.

(** ** Lemmas *)

Lemma shard_request_open req sh :
  ch_open (sh_tx sh) = true →
  shard_request req sh
  = Ok (MkShardHandle (MkChannel (ch_items (sh_tx sh) ++ [(req, true)]) (ch_size (sh_tx sh)) true) (sh_msg_tx sh)).
Proof. intros Ho. unfold shard_request, post_request. by rewrite Ho; run. Qed.
