(* ===== verification/ShardRun.v ===== *)
(** * Shards: what a run of the thread never does

    From its start on, whatever its clients send and whatever it is asked, a shard that
    gets no message from another shard routes none: the queues of the others stay as it
    was given them, nothing is indexed, no timestamp is booked, and no client is sent a
    PUBLISH. *)
From S2P Require Import Prelude Errors Utf8 Types V5Header V5PubAck V5ConnAck V5Connect V5Publish V5Subscribe V5Packet Framing Queues Threads Config SortedVec BTree Socket Message Subscription TopicTrie Tries Session SessionProps Shard ShardProps ShardLoop ShardLoopProps ShardTurns ShardControl ShardSpawn.
Local Open Scope Z_scope.

(** ** Sessions that only acknowledge *)

Definition no_publish (p : Packet) : Prop := match p with Pkt_Publish _ => False | _ => True end.
Definition acks (m : Message) : Prop := match m with Msg_ClientAck p => no_publish p | _ => False end.

(** What waits to be sent, and what is in the queue to the client, is no PUBLISH. *)
Definition silent (st : SessionState) : Prop :=
  match st with
  | SS_Active a => Forall acks (out_acks a) ∧ Forall no_publish (ch_items (tx (miot_tx a)))
  | _ => True
  end.

(** A call of a session whose shard has been replaced with [Init]: the session stays
    silent, and a result has the property [Q]. *)
Definition quietly {A} (m : routing A) (Q : A → Prop) : Prop := ∀ sh se r sh' se',
  sh_inner sh = SI_Init → silent (state se) → m (sh, se) = Ok (r, (sh', se')) →
  sh' = sh ∧ silent (state se') ∧ match r with inl a => Q a | inr _ => True end.

Lemma quietly_ret {A} (a : A) (Q : A → Prop) : Q a → quietly (mret a) Q.
Proof. by intros Ha sh se r sh' se' _ Hs [= <- <- <-]. Qed.

Lemma quietly_bind {A B} (m : routing A) (f : A → routing B) Q R :
  quietly m Q → (∀ a, Q a → quietly (f a) R) → quietly (m ≫= f) R.
Proof.
  intros Hm Hf sh se r sh' se' Hsh Hs ([res [sh1 se1]] & E1 & E2)%bind_Ok_inv.
  destruct (Hm _ _ _ _ _ Hsh Hs E1) as (-> & Hs1 & HQ). destruct res as [a|e]; [by eapply Hf|by injection E2 as <- <- <-].
Qed.

Lemma quietly_fallible {A} (x : Result A) : quietly (fallible x) (λ _, True).
Proof. intros sh se r sh' se' _ Hs. unfold fallible. by destruct x; intros [= <- <- <-]. Qed.

Lemma quietly_asks {A} (f : Shard → Session → A) : quietly (asks f) (λ _, True).
Proof. by intros sh se r sh' se' _ Hs [= <- <- <-]. Qed.

Lemma quietly_try {A} (f : SessionState → Result (A * SessionState)) :
  (∀ st a st', silent st → f st = Ok (a, st') → silent st') → quietly (try_session f) (λ _, True).
Proof.
  intros Hf sh se r sh' se' _ Hs. unfold try_session. destruct (f (state se)) as [[a st]| | |] eqn:E; intros [= <- <- <-]; [|done].
  split; [done|]. split; [|done]. by eapply Hf.
Qed.

Lemma quietly_shard {A} (f : Shard → Result (A * Shard)) Q :
  (∀ sh, sh_inner sh = SI_Init → f sh = Panic) → quietly (with_shard f) Q.
Proof. intros Hf sh se r sh' se' Hsh _. unfold with_shard, updates. by rewrite Hf. Qed.

Lemma quietly_each {A B} (f : B → A → routing B) acc l (Q : B → Prop) :
  Q acc → (∀ b a, Q b → quietly (f b a) Q) → quietly (for_each f acc l) Q.
Proof.
  intros Hacc Hf. revert acc Hacc. induction l as [|x l IH]; intros acc Hacc; [by apply quietly_ret|].
  eapply quietly_bind; [by apply Hf|]. intros b Hb. by apply IH.
Qed.

(** *** The calls of a session *)

Lemma recv_silent st q st' : silent st → recv_packets st = Ok (q, st') → silent st'.
Proof.
  destruct st; [|done..]. unfold recv_packets. cbn [active]; run. intros Hs ([status r] & _ & E)%bind_Ok_inv.
  simplify_eq. exact Hs.
 Qed.

Lemma live_silent now st u st' : silent st → keep_alive_live now st = Ok (u, st') → silent st'.
Proof. destruct st; [|done..]. intros Hs E. cbn in E. by simplify_eq. Qed.

Lemma check_silent now st n st' : silent st → keep_alive_check now st = Ok (n, st') → silent st'.
Proof.
  destruct st; [|done..]. unfold keep_alive_check. cbn [active]; run. intros Hs (left & _ & E)%bind_Ok_inv.
  by simplify_eq.
 Qed.

Lemma duplicate_silent publ st b st' : silent st → ('dup ← is_duplicate publ st; Ok (dup, st)) = Ok (b, st') → silent st'.
Proof. intros Hs (dup & _ & E)%bind_Ok_inv. by simplify_eq. Qed.

Lemma book_qos_silent publ st u st' : silent st → (st ← book_qos publ st; Ok (tt, st)) = Ok (u, st') → silent st'.
Proof.
  intros Hs (st1 & E & E1)%bind_Ok_inv. simplify_eq. destruct st as [a| |]; [|done..]. unfold book_qos in E.
  cbn [active mbind outcome_bind] in E. destruct (publish_qos publ); [by simplify_eq|..];
    apply bind_Ok_inv in E as (id & _ & E); apply bind_Ok_inv in E as ([found off] & _ & E);
    (destruct found; [by simplify_eq|]); apply bind_Ok_inv in E as (ids & _ & E); by simplify_eq.
Qed.

Lemma topic_silent publ st t st' : silent st → state_publish_topic_name publ st = Ok (t, st') → silent st'.
Proof.
  intros Hs. destruct st as [a| |]; [|done..]. unfold state_publish_topic_name. cbn [active]; run.
  repeat case_match; try done; by intros [= _ <-].
Qed.

Lemma subscriptions_silent f st u st' : silent st → as_mut_subscriptions f st = Ok (u, st') → silent st'.
Proof. destruct st; [|done..]. intros Hs E. cbn in E. by simplify_eq. Qed.

Lemma extend_silent msgs st u st' :
  Forall acks msgs → silent st → (st ← out_acks_extend msgs st; Ok (tt, st)) = Ok (u, st') → silent st'.
Proof.
  intros Hm. destruct st; [|done..]. intros [H1 H2] E. cbn in E. simplify_eq. split; [|exact H2]. cbn. apply Forall_app. by split.
Qed.

Lemma flush_silent st q st' : silent st → out_acks_flush st = Ok (q, st') → silent st'.
Proof.
  destruct st as [a| |]; [|done..]. intros [H1 H2]. unfold out_acks_flush. cbn [active]; run.
  intros (ids & _ & ([status mtx] & E & E2)%bind_Ok_inv)%bind_Ok_inv. cbn [take_values] in E2. injection E2 as _ <-.
  unfold flush_to_miot in E. apply bind_Ok_inv in E as (pkts & Ep & E).
  destruct (try_sends_spec pkts (miot_tx a)) as (sent & rest & -> & Hi & _ & Hv & _).
  destruct (try_sends (sent ++ rest) (miot_tx a)) as [s0 mtx0]. cbn [fst snd take_values] in *. subst rest.
  assert (Forall no_publish (sent ++ values s0)) as Hall.
  { apply mapM_carries in Ep. clear -Ep H1. induction Ep as [|m p ms ps Hc _ IH]; [constructor|]. apply Forall_cons in H1 as [Hm H1].
    constructor; [|by apply IH]. unfold carries in Hc. destruct m; try done. by injection Hc as <-. }
  apply bind_Ok_inv in E as (st1 & Est & [= <- <-]). split; cbn.
  - unfold QueueStatus_map in Est. case_match; [|done]. injection Est as <-. destruct s0; by apply Forall_drop.
  - rewrite Hi. apply Forall_app. split; [exact H2|]. by apply Forall_app in Hall as [? _].
Qed.

(** *** Routing a packet *)

Lemma quietly_then {A B} (m : routing A) (f : A → routing B) R :
  quietly m (λ _, True) → (∀ a, quietly (f a) R) → quietly (m ≫= f) R.
Proof. intros Hm Hf. eapply quietly_bind; [exact Hm|]. intros a _. apply Hf. Qed.

Ltac quietly_step :=
  first
  [ apply quietly_ret; exact I | apply quietly_fallible | apply quietly_asks
  | apply quietly_try; first [apply recv_silent | apply live_silent | apply check_silent | apply duplicate_silent
      | apply book_qos_silent | apply topic_silent | apply subscriptions_silent]
  | apply quietly_shard; let sh := fresh in let H := fresh in intros sh H;
    unfold incr_inp_seqno, match_subscribers, book_index, route_to_client, post_cluster, subscribe_filter, active_loop;
    by rewrite H
  | apply quietly_each; [exact I|intros]
  | apply quietly_then; [|intros] ].
Ltac quietly := repeat first [quietly_step | case_match].

Lemma rx_publish_quietly publ : quietly (rx_publish publ) (λ _, True).
Proof.
  assert (∀ e inp ack u, quietly (route_one publ inp ack u e) (λ _, True)) by (intros; unfold route_one; quietly).
  assert (quietly (book_retain publ) (λ _, True)) by (unfold book_retain; quietly).
  unfold rx_publish. quietly; done.
Qed.

Lemma rx_subscribe_quietly sub : quietly (rx_subscribe sub) (Forall acks).
Proof.
  assert (∀ b f, quietly (subscribe_one sub b f) (λ _, True)) by (intros; unfold subscribe_one; quietly).
  unfold rx_subscribe. apply quietly_then; [by apply quietly_each|]. intros codes. apply quietly_ret. by repeat constructor.
Qed.

Lemma handle_packet_quietly out pkt : Forall acks out → quietly (handle_packet out pkt) (Forall acks).
Proof.
  intros Hout. assert (∀ m, acks m → Forall acks (out ++ [m])) as Happ by (intros m Hm; apply Forall_app; split; [done|by constructor]).
  assert (∀ x : Result (list Message), (∀ v, x ≠ Ok v) → quietly (fallible x) (Forall acks)) as Hno.
  { intros x Hx sh se r sh' se' _ Hs. unfold fallible. destruct x; intros [= <- <- <-]; [by destruct (Hx a)|done]. }
  destruct pkt as [| |publ| | | | |sub| | | | | | |]; cbn [handle_packet]; try by apply Hno.
  - eapply quietly_then; [apply rx_publish_quietly|]. intros has. destruct has, (publish_qos publ);
      try by apply quietly_ret. all: apply quietly_then; [apply quietly_fallible|]; intros id; apply quietly_ret; by apply Happ.
  - eapply quietly_bind; [apply rx_subscribe_quietly|]. intros ms Hms. apply quietly_ret. by apply Forall_app.
  - apply quietly_ret. by apply Happ.
Qed.

Lemma route_session_quietly now : quietly (route_session now) (λ _, True).
Proof.
  unfold route_session. eapply quietly_then; [quietly|]. intros q. cbn [take_values]. case_match; [quietly|].
  apply quietly_then; [quietly|]. intros _. apply quietly_then; [|intros [? ?]; quietly].
  unfold handle_packets. eapply quietly_bind; [apply (quietly_each _ _ _ (Forall acks)); [constructor|]; intros out pkt Hout; by apply handle_packet_quietly|].
  intros out Hout. apply quietly_then; [|intros; quietly]. apply quietly_try. intros st u st'. by apply extend_silent.
Qed.

Definition all_silent (ss : btree rstring Session) : Prop := Forall (λ e, silent (state e.2)) ss.

Lemma route_sessions_silent now ss sh r r' sh' :
  sh_inner sh = SI_Init → all_silent ss → all_silent (ro_sessions r) →
  route_sessions now ss sh r = Ok (r', sh') → all_silent (ro_sessions r').
Proof.
  intros Hsh Hss. revert sh r Hsh. induction Hss as [|[id se] ss Hs _ IH]; intros sh r Hsh Hr; cbn [route_sessions]; [by intros [= <- _]|].
  intros ([res [sh1 se1]] & E & E2)%bind_Ok_inv. destruct (route_session_quietly _ _ _ _ _ _ Hsh Hs E) as (-> & Hs1 & _).
  apply bind_Ok_inv in E2 as ([failed seqnos] & _ & E2). eapply IH; [exact Hsh| |exact E2]. cbn. apply Forall_app. split; [done|by constructor].
Qed.

(** ** A shard that routes nothing *)

(** [qs]: the queues of the other shards. *)
Record still (qs : btree Z MsgTx) (l : ActiveLoop) : Prop := {
  st_index : index l = [];
  st_timestamps : ack_timestamps l = [];
  st_back_log : shard_back_log l = [];
  st_seqno : al_inp_seqno l = 1;
  st_queues : shard_queues l = qs;
  st_sessions : all_silent (sessions l);
}.

Definition still_shard (qs : btree Z MsgTx) (sh : Shard) : Prop := ∃ l, sh_inner sh = SI_MainActive l ∧ still qs l.

Lemma flush_connection_still qs id e sh sh' :
  still_shard qs sh → handle_flush_connection id e sh = Ok sh' → still_shard qs sh'.
Proof.
  intros (l & Hl & [H1 H2 H3 H4 H5 H6]). unfold handle_flush_connection, active_loop. rewrite Hl; run.
  intros (inner & _ & [= <-])%bind_Ok_inv. eexists. split; [reflexivity|]. split; try done. by apply bt_remove_entries.
Qed.

Lemma drop_connection_still qs e sh id sh' : still_shard qs sh → drop_connection e sh id = Ok sh' → still_shard qs sh'.
Proof.
  intros (l & Hl & Hs). unfold drop_connection, active_loop. rewrite Hl; run.
  case_bool_decide; [|intros [= <-]; by exists l]. apply flush_connection_still. eexists. split; [reflexivity|]. by destruct Hs; split.
Qed.

Lemma send_to_shards_still qs sh sh' : still_shard qs sh → send_to_shards sh = Ok sh' → still_shard qs sh'.
Proof.
  intros (l & Hl & [H1 H2 H3 H4 H5 H6]). unfold send_to_shards, active_loop. rewrite Hl; run. rewrite H3. cbn [foldM]; run.
  intros [= <-]. eexists. split; [reflexivity|]. by split.
Qed.

Lemma route_packets_still now qs sh acks sh' :
  still_shard qs sh → route_packets now sh = Ok (acks, sh') → still_shard qs sh'.
Proof.
  intros (l & Hl & Hs). unfold route_packets, active_loop. rewrite Hl; run.
  intros ([r sh1] & E & E2)%bind_Ok_inv. apply bind_Ok_inv in E2 as (sh2 & E2 & (sh3 & E3 & [= _ <-])%bind_Ok_inv).
  apply route_sessions_silent in E; [|done|apply Hs|constructor]. eapply send_to_shards_still; [|exact E3].
  eapply (foldM_keeps (still_shard qs)) in E2; [exact E2| |].
  - intros s [id e] s'. apply drop_connection_still.
  - destruct Hs as [H1 H2 H3 H4 H5 _]. eexists. split; [reflexivity|]. by split.
Qed.

Lemma with_session_of_still {A} qs id (f : SessionState → Result (A * SessionState)) l r l' :
  (∀ st a st', silent st → f st = Ok (a, st') → silent st') →
  still qs l → with_session_of id f l = Ok (r, l') → still qs l'.
Proof.
  intros Hf [H1 H2 H3 H4 H5 H6]. unfold with_session_of. destruct (bt_get str_cmp id (sessions l)) as [se|] eqn:Eg;
    [|intros [= _ <-]; by split].
  intros ([a se'] & E & [= _ <-])%bind_Ok_inv. split; try done. apply (bt_insert_entries str_cmp); [|exact H6].
  apply (bt_get_elem str_cmp) in Eg as (k & _ & Hin). unfold on_state in E. apply bind_Ok_inv in E as ([a' st] & E & [= _ <-]).
  cbn. eapply Hf; [|exact E]. by eapply Forall_forall in H6; [|exact Hin].
Qed.

Lemma commit_acks_still qs seqnos sh sh' : still_shard qs sh → shard_commit_acks seqnos sh = Ok sh' → still_shard qs sh'.
Proof.
  intros (l & Hl & Hs). unfold shard_commit_acks, active_loop. rewrite Hl; run.
  intros (l' & E & [= <-])%bind_Ok_inv. exists l'. split; [done|]. revert E. apply (foldM_keeps (still qs)); [|exact Hs].
  intros l1 [id ns] l2 Hs1 ([o l3] & E & E2)%bind_Ok_inv.
  assert (still qs l3) as Hs3.
  { eapply with_session_of_still; [|exact Hs1|exact E]. intros st u st' Hst (st1 & E1 & [= _ <-])%bind_Ok_inv.
    destruct st; cbn in E1; try done; by injection E1 as <-. }
  unfold must in E2. apply bind_Ok_inv in E2 as ([? l4] & (a & _ & [= _ <-])%bind_Ok_inv & [= <-]). done.
Qed.

Lemma flush_sessions_silent ss done_ slow ss' slow' :
  all_silent ss → all_silent done_ → flush_sessions ss done_ slow = Ok (ss', slow') → all_silent ss'.
Proof.
  intros Hss. revert done_ slow. induction Hss as [|[id se] ss Hs _ IH]; intros done_ slow Hd; cbn [flush_sessions]; [by intros [= <- _]|].
  intros ([q se'] & E & E2)%bind_Ok_inv. eapply IH; [|exact E2]. apply Forall_app. split; [done|]. constructor; [|done].
  unfold Session_out_acks_flush, on_state in E. apply bind_Ok_inv in E as ([q1 se1] & E & (q2 & _ & [= _ <-])%bind_Ok_inv).
  apply bind_Ok_inv in E as ([q3 st] & E & [= _ <-]). cbn. by eapply flush_silent.
Qed.

Lemma acks_flush_still qs sh sh' : still_shard qs sh → shard_out_acks_flush sh = Ok sh' → still_shard qs sh'.
Proof.
  intros (l & Hl & Hs). unfold shard_out_acks_flush, active_loop. rewrite Hl; run.
  intros ([ss slow] & E & E2)%bind_Ok_inv. eapply (foldM_keeps (still_shard qs)) in E2; [exact E2|intros s id s'; by apply drop_connection_still|].
  apply flush_sessions_silent in E; [|apply Hs|constructor]. destruct Hs as [H1 H2 H3 H4 H5 _].
  eexists. split; [reflexivity|]. by split.
Qed.

(** A turn with no message from another shard *)
Lemma active_turn_still nows qs msg_rx sh msg_rx' sh' :
  still_shard qs sh → ch_items (rx msg_rx) = [] → ch_open (rx msg_rx) = true →
  active_turn nows msg_rx sh = Ok (inl (msg_rx', sh')) →
  still_shard qs sh' ∧ msg_rx' = msg_rx.
Proof.
  intros Hs Hi Ho. unfold active_turn. intros ([acks1 sh1] & E1 & E)%bind_Ok_inv. apply (route_packets_still _ qs) in E1; [|done].
  destruct E1 as (l1 & Hl1 & Hs1). rewrite (out_messages_nil _ _ _ l1) in E by done. revert E; run. cbn [take_values values with_values].
  intros (sh2 & E2 & E)%bind_Ok_inv. apply (commit_acks_still qs) in E2; [|by exists l1].
  destruct E2 as (l2 & Hl2 & Hs2). assert (commit_messages [] [] sh2 = Ok ([], sh2)) as Ec.
  { unfold commit_messages. rewrite Hl2. unfold commit_messages_active. cbn [foldM]; run. unfold active_loop. rewrite Hl2; run.
    cbn [foldM]; run. destruct sh2; cbn in *; by subst. }
  rewrite Ec in E. revert E; run. assert (shard_out_acks_publish sh2 = Ok sh2) as Ep.
  { unfold shard_out_acks_publish, active_loop. rewrite Hl2; run. by rewrite (st_timestamps _ _ Hs2). }
  rewrite Ep; run. intros (sh3 & E3 & (sh4 & E4 & [= <- <-])%bind_Ok_inv)%bind_Ok_inv. split; [|done].
  assert (still_shard qs sh3) as (l3 & Hl3 & Hs3) by (eapply acks_flush_still; [|exact E3]; by exists l2).
  unfold return_local_acks, active_loop in E4. rewrite Hl3 in E4. revert E4; run. cbn [foldl].
  apply send_to_shards_still. eexists. split; [reflexivity|]. by destruct Hs3; split.
Qed.

(** ** The requests of the cluster *)

Lemma on_state_silent {A} (f : SessionState → Result (A * SessionState)) se a se' :
  (∀ st a st', silent st → f st = Ok (a, st') → silent st') →
  silent (state se) → on_state f se = Ok (a, se') → silent (state se').
Proof. intros Hf Hs. unfold on_state. intros ([a' st] & E & [= _ <-])%bind_Ok_inv. by eapply Hf. Qed.

Lemma session_flush_silent se q se' : silent (state se) → Session_out_acks_flush se = Ok (q, se') → silent (state se').
Proof.
  intros Hs. unfold Session_out_acks_flush. intros ([q1 se1] & E & (q2 & _ & [= _ <-])%bind_Ok_inv)%bind_Ok_inv.
  eapply on_state_silent; [|exact Hs|exact E]. apply flush_silent.
Qed.

Lemma take_over_still qs id sh sh' : still_shard qs sh → take_over id sh = Ok sh' → still_shard qs sh'.
Proof.
  intros (l & Hl & Hs). unfold take_over, active_loop. rewrite Hl; run. case_match; [|intros [= <-]; by exists l].
  intros (inner & _ & E)%bind_Ok_inv. eapply drop_connection_still; [|exact E]. eexists. split; [reflexivity|].
  destruct Hs; split; try done. by apply bt_remove_entries.
Qed.

Lemma add_session_still `{sys : System} qs uuid now sock pkt sh sh' :
  still_shard qs sh → handle_add_session uuid now sock pkt sh = Ok sh' → still_shard qs sh'.
Proof.
  intros Hs. unfold handle_add_session. destruct (opt_unwrap (peer_addr sock)); try done. cbn [pkt_channel]; run.
  intros (ack & _ & ([[] se1] & E1 & ([status se2] & E2 & E)%bind_Ok_inv)%bind_Ok_inv)%bind_Ok_inv.
  assert (silent (state se2)) as Hse.
  { eapply session_flush_silent; [|exact E2]. refine (on_state_silent _ _ _ _ _ _ E1); [|by split].
    intros st u st'. apply extend_silent. by repeat constructor. }
  destruct status; [|by injection E as <-..]. apply bind_Ok_inv in E as (sh1 & E & E3).
  apply (take_over_still qs) in E as (l & Hl & [H1 H2 H3 H4 H5 H6]); [|done].
  unfold active_loop in E3. rewrite Hl in E3. injection E3 as <-. eexists. split; [reflexivity|]. split; try done.
  by apply (bt_insert_entries str_cmp).
Qed.

(** A shard that has not been closed is one that routes nothing. *)
Definition still_open (st : bool * Shard) : Prop := st.1 = false → ∃ qs, still_shard qs st.2.

Lemma request_still `{sys : System} now st req st' : still_open st → handle_request now st req = Ok st' → still_open st'.
Proof.
  destruct st as [[] sh], req as [req reply]; intros Hs E.
  { intros Hc. exfalso. revert E. cbn. repeat case_match; try done; intros (sh1 & _ & [= <-])%bind_Ok_inv; done. }
  destruct (Hs eq_refl) as [qs Hqs]. cbn in Hqs. revert E. cbn.
  repeat case_match; try done; intros (sh1 & E & [= <-])%bind_Ok_inv; intros Hc; try done; cbn.
  - destruct Hqs as (l & Hl & Hs1). unfold handle_set_shard_queues, active_loop in E. rewrite Hl in E. injection E as <-.
    eexists _, _. split; [reflexivity|]. destruct Hs1; split; try done.
  - exists qs. by eapply add_session_still.
  - exists qs. by eapply flush_connection_still.
Qed.

(** ** A run of the thread *)

(** Where the thread is between two rounds of its loop: the control channel, the queue of
    messages from the other shards, and the shard. *)
Record Running := MkRunning { rn_control : channel (Request * bool); rn_msgs : MsgRx; rn_shard : Shard }.

(** A session after the miot thread has been at its socket: any packets may have come from
    the client, and some of those that were to be written have been taken. *)
Definition socket_served (a a' : Active) : Prop :=
  ∃ (in_ch out_ch : channel Packet) (taken : list Packet), ch_items (tx (miot_tx a)) = taken ++ ch_items out_ch
    ∧ a' = a <| session_rx := MkRx (batch_size (session_rx a)) in_ch |> <| miot_tx := MkTx out_ch (tx_count (miot_tx a)) |>.

(** What happens to the thread: the cluster, the flusher or the listener change its control
    channel in any way, the miot thread serves a socket, or it goes once round its loop.  No
    other shard sends to it. *)
Inductive run_step `{sys : System} : Running → Running → Prop :=
| Run_control ctl' ctl msg_rx sh : run_step (MkRunning ctl msg_rx sh) (MkRunning ctl' msg_rx sh)
| Run_socket ctl msg_rx sh l id se a a' :
    sh_inner sh = SI_MainActive l → (id, se) ∈ sessions l → state se = SS_Active a → socket_served a a' →
    run_step (MkRunning ctl msg_rx sh)
      (MkRunning ctl msg_rx (set_loop (with_sessions (bt_insert str_cmp id (with_state (SS_Active a') se) (sessions l)) l) sh))
| Run_round now nows ctl msg_rx sh ctl' msg_rx' sh' :
    active_round now nows ctl msg_rx sh = Ok (inl (ctl', msg_rx', sh')) →
    run_step (MkRunning ctl msg_rx sh) (MkRunning ctl' msg_rx' sh').

Definition quiet_run (msg_rx : MsgRx) (r : Running) : Prop := rn_msgs r = msg_rx ∧ ∃ qs, still_shard qs (rn_shard r).

Lemma run_step_quiet `{sys : System} msg_rx r r' :
  ch_items (rx msg_rx) = [] → ch_open (rx msg_rx) = true → quiet_run msg_rx r → run_step r r' → quiet_run msg_rx r'.
Proof.
  intros Hi Ho [Em [qs Hs]] Hr. destruct Hr as [|ctl ? sh l id se a a' Hl Hin Ha (i & o & taken & Eo & ->)|now nows ctl ? sh ctl' msg_rx' sh' E];
    cbn [rn_msgs rn_shard] in *; [by split; [|exists qs]|..]; subst.
  - split; [done|]. exists qs. destruct Hs as (l0 & Hl0 & [H1 H2 H3 H4 H5 H6]). rewrite Hl in Hl0; simplify_eq.
    eexists. split; [reflexivity|]. split; try done. cbn. apply (bt_insert_entries str_cmp); [|done].
    pose proof (proj1 (Forall_forall _ _) H6 _ Hin) as Hse. cbn [snd] in Hse. rewrite Ha in Hse. destruct Hse as [Hse1 Hse2].
    split; [done|]. rewrite Eo in Hse2. by apply Forall_app in Hse2 as [_ ?].
  - unfold active_round in E. apply bind_Ok_inv in E as ([[exit rx1] sh1] & E1 & E2).
    destruct (drain_all_spec (handle_request now) ctl sh) as (reqs & rest & _ & Em & _). unfold mio_events in E1.  rewrite Em in E1.
    apply bind_Ok_inv in E1 as ([closed sh2] & Ef & [= <- <- <-]).
    destruct closed; [by apply bind_Ok_inv in E2 as (? & _ & ?)|].
    apply (foldM_keeps still_open) in Ef; [|intros st req st'; apply request_still|by intros _; exists qs].
    destruct (Ef eq_refl) as [qs' Hs']. destruct (negb (ch_open ctl)); [by apply bind_Ok_inv in E2 as (? & _ & ?)|].
    apply bind_Ok_inv in E2 as ([[msg_rx2 sh3]|] & Et & E2); [|by apply bind_Ok_inv in E2 as (? & _ & ?)].
    injection E2 as <- <- <-. apply (active_turn_still _ qs') in Et as [Hs3 ->]; [|done..]. split; [done|by exists qs'].
Qed.

(** ** Theorems *)

(** C31. The broker routes no message.  Whatever the clients of a shard send and the cluster
    asks, in any order and for as long as it runs, if no other shard has sent it a message
    then it sends none to another shard, has not counted, indexed or timestamped a message
    of its clients, and has no PUBLISH on its way to a client; and that holds of its next turn
    as well.  (The state that routing needs is not there while a turn routes: a turn with a
    PUBLISH or a SUBSCRIBE does not end.) *)
Theorem nothing_routed `{sys : System} topic_filters s sh h msg_rx ctl r :
  spawn_active topic_filters s = Ok (sh, h, msg_rx) →
  rtc run_step (MkRunning ctl msg_rx sh) r →
  ∃ l, sh_inner (rn_shard r) = SI_MainActive l ∧ rn_msgs r = msg_rx
    ∧ shard_back_log l = [] ∧ index l = [] ∧ ack_timestamps l = [] ∧ al_inp_seqno l = 1
    ∧ (∀ id se a, (id, se) ∈ sessions l → state se = SS_Active a → Forall no_publish (ch_items (tx (miot_tx a))))
    ∧ ∀ nows msg_rx' sh', active_turn nows msg_rx (rn_shard r) = Ok (inl (msg_rx', sh')) →
        msg_rx' = msg_rx ∧ ∃ l', sh_inner sh' = SI_MainActive l' ∧ shard_queues l' = shard_queues l.
Proof.
  intros E Hrun. unfold spawn_active in E. destruct (_ <? _); [|done]. cbn [msg_channel] in E. injection E as <- _ <-.
  set (msg_rx := MkRx _ _) in *. assert (quiet_run msg_rx r) as [Em (qs & l & Hl & Hs)].
  { revert Hrun. apply rtc_ind_r; [|intros; by eapply run_step_quiet].
    split; [done|]. exists []. eexists. split; [reflexivity|]. split; try done. constructor. }
  pose proof Hs as [H1 H2 H3 H4 H5 H6]. exists l. split_and!; try done.
  - intros id se a Hin Ha. pose proof (proj1 (Forall_forall _ _) H6 _ Hin) as Hse. cbn [snd] in Hse. rewrite Ha in Hse. apply Hse.
  - intros nows msg_rx' sh' Et. apply (active_turn_still _ qs) in Et as [(l' & Hl' & Hs') ->]; [|by exists l|done..].
    split; [done|]. exists l'. split; [done|]. rewrite (st_queues _ _ Hs'). by symmetry.
Qed.

(** ** Witness: a client connects, takes its CONNACK and sends a PINGREQ, which is answered. *)

Definition ex_round (r : Running) : Running :=
  match active_round (sys := ex_os) 0 (λ _, 0) (rn_control r) (rn_msgs r) (rn_shard r) with
  | Ok (inl (ctl, msg_rx, sh)) => MkRunning ctl msg_rx sh
  | _ => r
  end.

Definition ex_serve (pkts : list Packet) (r : Running) : Running :=
  match sh_inner (rn_shard r) with
  | SI_MainActive l =>
      match sessions l with
      | (id, se) :: _ =>
          match state se with
          | SS_Active a =>
              let a := a <| session_rx := MkRx (batch_size (session_rx a)) (MkChannel pkts 8 true) |>
                         <| miot_tx := MkTx (MkChannel ([] : list Packet) 8 true) (tx_count (miot_tx a)) |> in
              MkRunning (rn_control r) (rn_msgs r)
                (set_loop (with_sessions (bt_insert str_cmp id (with_state (SS_Active a) se) (sessions l)) l) (rn_shard r))
          | _ => r
          end
      | [] => r
      end
  | _ => r
  end.

Lemma ex_round_step r :
  match active_round (sys := ex_os) 0 (λ _, 0) (rn_control r) (rn_msgs r) (rn_shard r) with Ok (inl _) => True | _ => False end →
  run_step (sys := ex_os) r (ex_round r).
Proof.
  destruct r as [ctl msg_rx sh]. unfold ex_round. cbn [rn_control rn_msgs rn_shard].
  destruct (active_round _ _ _ _ _) as [[[[ctl' msg_rx'] sh']|]| | |] eqn:E; try done. intros _. by eapply Run_round.
Qed.

Lemma ex_serve_step pkts r : rtc (run_step (sys := ex_os)) r (ex_serve pkts r).
Proof.
  unfold ex_serve. destruct (sh_inner _) as [| | | |l| |] eqn:El; try done. destruct (sessions l) as [|[id se] ss] eqn:Es; [done|].
  destruct (state se) as [a| |] eqn:Ea; try done. apply rtc_once. destruct r as [ctl msg_rx sh]. cbn [rn_shard rn_control rn_msgs] in *. rewrite <-Es.
  eapply Run_socket; [exact El|rewrite Es; by left|exact Ea|]. eexists _, _, _. split; [|reflexivity]. by rewrite app_nil_r.
Qed.

Definition ex_started : Running :=
  MkRunning (MkChannel [(AddSession [1; 2] ex_new_conn ex_connect, true)] 8 true) (MkRx (Z.to_nat 2048) (MkChannel [] (Z.to_nat 2048) true))
    (MkShard 0 (Config_default 2) (SI_MainActive (ActiveLoop_new Inner_default))).

Definition ex_running : Running := ex_round (ex_serve [Pkt_PingReq] (ex_round ex_started)).

Lemma nothing_routed_witness :
  ∃ l id se a, sh_inner (rn_shard ex_running) = SI_MainActive l ∧ sessions l = [(id, se)] ∧ state se = SS_Active a
    ∧ ch_items (tx (miot_tx a)) = [Pkt_PingResp] ∧ index l = [] ∧ al_inp_seqno l = 1 ∧ Forall no_publish (ch_items (tx (miot_tx a))).
Proof.
  destruct (nothing_routed (sys := ex_os) Inner_default (MkShard 0 (Config_default 2) SI_Init)
    (rn_shard ex_started) (MkShardHandle (MkChannel [] 0 true) (Some (MkTx (MkChannel [] (Z.to_nat 2048) true) 0)))
    (rn_msgs ex_started) (rn_control ex_started) ex_running) as (l & Hl & _ & _ & Hi & _ & Hn & Hp & _).
  - reflexivity.
  - eapply rtc_l; [apply (ex_round_step ex_started); lazy; exact I|].
    etrans; [apply (ex_serve_step [Pkt_PingReq])|]. apply rtc_once, ex_round_step. lazy. exact I.
  - revert Hp Hi Hn. lazy in Hl. injection Hl as <-. intros Hp Hi Hn. eexists _, _, _, _. split; [lazy; reflexivity|].
    split; [reflexivity|]. split; [reflexivity|]. split; [reflexivity|]. split; [exact Hi|]. split; [exact Hn|].
    eapply Hp; [by left|reflexivity].
Defined.
