(* ===== verification/Ticker.v ===== *)
(** * The ticker (src/src/broker/ticker.rs)

    The thread that wakes the cluster and the shards every ten milliseconds. *)
From S2P Require Import Prelude Errors Queues Threads.
Local Open Scope Z_scope.

Inductive TickerRequest : Set := CloseTicker.

(** [waker.wake()] of a thread; that it fails is for the log. *)
Inductive wake_up : Set := WakeCluster | WakeShard (shard_id : Z).

(** [RunLoop]: the shards that the thread has handles on, and, latest last, whom it has
    woken.  The counter is a [usize]; it has a step in ten milliseconds. *)
Record TickerLoop := MkTickerLoop {
  tk_shards : list Z;
  tk_born : Z;
  ticker_count : Z;
  tk_woken : list wake_up;
}.

Record TickerFin := MkTickerFin { tf_born : Z; tf_ticker_count : Z; tf_dead : Z }.

Inductive TickerInner : Type :=
| TKI_Init
| TKI_Handle
| TKI_Main (l : TickerLoop)
| TKI_Close (fin : TickerFin).

(** The thread that [spawn] starts. *)
Definition Ticker_spawn (shards : list Z) (born : Z) : TickerInner := TKI_Main (MkTickerLoop shards born 0 []).

(** The loop over [try_recv]: whether the thread is to end. *)
Definition ticker_requests (rx : channel (TickerRequest * bool)) : Result bool :=
  match try_recv rx with
  | (Received (CloseTicker, true), _) => Ok true
  | (Received (CloseTicker, false), _) => Panic
  | (Empty, _) => Ok false
  | (RecvDisconnected, _) => Ok true
  end.

(** What the thread does every ten milliseconds. *)
Definition tick (t : TickerInner) : Result TickerInner :=
  match t with
  | TKI_Main l =>
      Ok (TKI_Main (MkTickerLoop (tk_shards l) (tk_born l) (ticker_count l + 1)
            (tk_woken l ++ WakeCluster :: (WakeShard <$> tk_shards l))))
  | _ => Panic
  end.

(** [main_loop], with what the channel holds after each sleep; whom it has woken comes
    with the result. *)
Fixpoint ticker_loop (turns : list (channel (TickerRequest * bool))) (dead : Z) (t : TickerInner)
    : Result (TickerInner * list wake_up) :=
  match turns with
  | [] => NoFuel
  | rx :: turns =>
      exit ← ticker_requests rx;
      if exit : bool then
        match t with
        | TKI_Main l => Ok (TKI_Close (MkTickerFin (tk_born l) (ticker_count l) dead), tk_woken l)
        | _ => Panic
        end
      else
        t ← tick t;
        ticker_loop turns dead t
  end.

(** ** Theorems *)

(** A channel on which nothing has come. *)
Definition quiet (rx : channel (TickerRequest * bool)) : Prop := ch_items rx = [] ∧ ch_open rx = true.

Lemma quiet_goes_on rx : quiet rx → ticker_requests rx = Ok false.
Proof. intros [Hi Ho]. unfold ticker_requests, try_recv. by rewrite Hi, Ho. Qed.

Lemma ticker_loop_quiet turns rest dead l :
  Forall quiet turns →
  ticker_loop (turns ++ rest) dead (TKI_Main l)
  = ticker_loop rest dead (TKI_Main (MkTickerLoop (tk_shards l) (tk_born l) (ticker_count l + Z.of_nat (length turns))
      (tk_woken l ++ mjoin (replicate (length turns) (WakeCluster :: (WakeShard <$> tk_shards l)))))).
Proof.
  intros Ht. revert l. induction Ht as [|rx turns Hrx _ IH]; intros l.
  - destruct l. cbn. by rewrite app_nil_r, Z.add_0_r.
  - cbn [app ticker_loop]. rewrite (quiet_goes_on _ Hrx); run. cbn [tick]; run. rewrite IH. cbn [tk_shards tk_born ticker_count tk_woken].
    do 3 f_equal; cbn [length replicate]; [lia|]. cbn [mjoin list_join]. by rewrite app_assoc.
Qed.

(** The ticker wakes the cluster and then every shard once per turn, and does nothing
    else, until it is closed or nobody holds it any more; then it ends, with the number
    of its turns. *)
Theorem ticker_wakes turns rx rest shards born dead :
  Forall quiet turns → ticker_requests rx = Ok true →
  ticker_loop (turns ++ rx :: rest) dead (Ticker_spawn shards born)
  = Ok (TKI_Close (MkTickerFin born (Z.of_nat (length turns)) dead),
        mjoin (replicate (length turns) (WakeCluster :: (WakeShard <$> shards)))).
Proof.
  intros Ht Hrx. unfold Ticker_spawn. rewrite (ticker_loop_quiet _ _ _ _ Ht). cbn [ticker_loop]. rewrite Hrx; by run.
Qed.

Lemma ticker_wakes_witness :
  ticker_loop [MkChannel [] 0 true; MkChannel [] 0 true; MkChannel [(CloseTicker, true)] 0 true] 7 (Ticker_spawn [0; 1] 3)
  = Ok (TKI_Close (MkTickerFin 3 2 7), [WakeCluster; WakeShard 0; WakeShard 1; WakeCluster; WakeShard 0; WakeShard 1]).
Proof.
  apply (ticker_wakes [MkChannel [] 0 true; MkChannel [] 0 true] (MkChannel [(CloseTicker, true)] 0 true) []); [|done].
  by repeat constructor.
Defined.
