(* ===== verification/Listener.v ===== *)
(** * The listener (src/src/broker/listener.rs)

    The thread that accepts connections and starts a handshake for each.  Polls,
    events and requests are counted in Reports. *)
From S2P Require Import Prelude Errors Utf8 Framing Queues Threads Config Socket Miot MiotProps.
Local Open Scope Z_scope.

Inductive ListenerRequest : Set := CloseListener.

(** What [accept()] of the listening socket answers: a connection with its address,
    [WouldBlock], or another error. *)
Inductive accept_answer : Type :=
| Acc_Conn (sock : TcpStream) (addr : rstring)
| Acc_WouldBlock
| Acc_Error.

(** The thread of a handshake as it starts. *)
Record Handshake := MkHandshake { hs_sock : TcpStream; hs_raddr : rstring; hs_config : Config }.

(** [RunLoop]: what the listening socket will answer, and the handshakes that have been
    started, latest last. *)
Record ListenerLoop := MkListenerLoop {
  li_listener : list accept_answer;
  n_accepted : Z;
  li_handshakes : list Handshake;
}.

(** [FinState]: the number of connections. *)
Inductive ListenerInner : Type :=
| LI_Init
| LI_Handle
| LI_Main (l : ListenerLoop)
| LI_Close (n_accepted : Z).

Record Listener := MkListener { li_config : Config; li_inner : ListenerInner }.

Definition set_listener (l : ListenerLoop) (s : Listener) : Listener := MkListener (li_config s) (LI_Main l).

(** The thread that [spawn] starts, when the address can be bound. *)
Definition Listener_spawn (config : Config) (listener : list accept_answer) : Listener :=
  MkListener config (LI_Main (MkListenerLoop listener 0 [])).

Definition handle_close_listener (s : Listener) : Result Listener :=
  match li_inner s with
  | LI_Main l => Ok (MkListener (li_config s) (LI_Close (n_accepted l)))
  | LI_Close _ => Ok s
  | _ => Panic
  end.

(** One step of the loop of [drain_control_chan]. *)
Definition handle_listener_request (st : bool * Listener) (req : ListenerRequest * bool) : Result (bool * Listener) :=
  match req with
  | (CloseListener, true) => s ← handle_close_listener st.2; Ok (true, s)
  | (CloseListener, false) => Panic
  end.

Section listener.
Context `{sys : System}.

(** A socket that answers no more has nothing to accept. *)
Definition accept_conn (s : Listener) : Result (QueueStatus () * Listener) :=
  match li_inner s with
  | LI_Main l =>
      match li_listener l with
      | Acc_Conn sock addr :: rest =>
          raddr ← opt_unwrap (peer_addr sock);
          if bool_decide (raddr = addr) then
            let hs := MkHandshake sock raddr (li_config s) in
            Ok (Q_Ok [], set_listener (MkListenerLoop rest (n_accepted l + 1) (li_handshakes l ++ [hs])) s)
          else Panic
      | Acc_WouldBlock :: rest => Ok (Q_Block [], set_listener (MkListenerLoop rest (n_accepted l) (li_handshakes l)) s)
      | Acc_Error :: rest => Ok (Q_Disconnected [], set_listener (MkListenerLoop rest (n_accepted l) (li_handshakes l)) s)
      | [] => Ok (Q_Block [], s)
      end
  | _ => Panic
  end.

(** The loop over [accept_conn]: whether the thread is to end. *)
Fixpoint accept_loop (fuel : nat) (s : Listener) : Result (bool * Listener) :=
  match fuel with
  | O => NoFuel
  | S fuel =>
      '(status, s) ← accept_conn s;
      match status with
      | Q_Ok _ => accept_loop fuel s
      | Q_Block _ => Ok (false, s)
      | Q_Disconnected _ => Ok (true, s)
      end
  end.

Definition accept_all (s : Listener) : Result (bool * Listener) :=
  match li_inner s with
  | LI_Main l => accept_loop (S (length (li_listener l))) s
  | _ => Panic
  end.

(** The tokens that the poll of the thread can report. *)
Inductive listener_token : Set := LT_WAKE | LT_LISTENER | LT_unknown.

(** [mio_events] *)
Fixpoint listener_events (events : list listener_token) (rx : channel (ListenerRequest * bool)) (s : Listener)
    : Result (bool * channel (ListenerRequest * bool) * Listener) :=
  match events with
  | [] => Ok (false, rx, s)
  | LT_WAKE :: events =>
      '(exit, rx, s) ← drain_all handle_listener_request rx s;
      if exit : bool then Ok (true, rx, s) else listener_events events rx s
  | LT_LISTENER :: events =>
      '(exit, s) ← accept_all s;
      if exit : bool then Ok (true, rx, s) else listener_events events rx s
  | LT_unknown :: _ => Panic
  end.

(** One time round [main_loop]: the thread goes on, or ends. *)
Definition listener_round (events : list listener_token) (rx : channel (ListenerRequest * bool)) (s : Listener)
    : Result ((channel (ListenerRequest * bool) * Listener) + Listener) :=
  '(exit, rx, s) ← listener_events events rx s;
  if exit : bool then
    match li_inner s with
    | LI_Main _ | LI_Close _ => s ← handle_close_listener s; Ok (inr s)
    | _ => Panic
    end
  else Ok (inl (rx, s)).

(** ** Theorems *)

(** A connection whose peer is still there. *)
Definition answers (c : accept_answer) : Prop :=
  match c with Acc_Conn sock addr => peer_addr sock = Some addr | _ => False end.

(** The handshake of a connection. *)
Definition handshake_of (config : Config) (c : accept_answer) : list Handshake :=
  match c with Acc_Conn sock addr => [MkHandshake sock addr config] | _ => [] end.

Lemma accept_loop_conns conns rest config n hss fuel :
  Forall answers conns → (length conns ≤ fuel)%nat →
  accept_loop fuel (MkListener config (LI_Main (MkListenerLoop (conns ++ rest) n hss)))
  = accept_loop (fuel - length conns)
      (MkListener config (LI_Main (MkListenerLoop rest (n + Z.of_nat (length conns))
         (hss ++ (conns ≫= handshake_of config))))).
Proof using Type.
  intros Hc. revert n hss fuel. induction Hc as [|c conns Hc _ IH]; intros n hss fuel Hf.
  - cbn. by rewrite app_nil_r, Z.add_0_r, Nat.sub_0_r.
  - destruct fuel as [|fuel]; [cbn in Hf; lia|]. destruct c as [sock addr| |]; try done. cbn [answers] in Hc.
    cbn [length] in Hf. cbn [app accept_loop]. unfold accept_conn at 1. cbn [li_inner li_listener]. rewrite Hc. cbn [opt_unwrap]; run.
    rewrite bool_decide_true by done. run. unfold set_listener. cbn [li_config n_accepted li_handshakes].
    rewrite IH by lia. cbn [length Nat.sub]. do 4 f_equal; [lia|].
    cbn [mbind list_bind handshake_of app]. by rewrite <-app_assoc.
Qed.

(** C29. The listener starts a handshake, in order, for each connection that waits, and
    goes on when there is none left.  An error of accept ends it for good, and it panics
    on a connection whose peer has gone already. *)
Theorem listener_accepts conns stop rest config n hss rx :
  Forall answers conns →
  let s listener n hss := MkListener config (LI_Main (MkListenerLoop listener n hss)) in
  let n' := n + Z.of_nat (length conns) in
  let hss' := hss ++ (conns ≫= handshake_of config) in
  listener_round [LT_LISTENER] rx (s (conns ++ stop :: rest) n hss)
  = match stop with
    | Acc_WouldBlock => Ok (inl (rx, s rest n' hss'))
    | Acc_Error => Ok (inr (MkListener config (LI_Close n')))
    | Acc_Conn sock addr =>
        if bool_decide (peer_addr sock = Some addr)
        then listener_round [LT_LISTENER] rx (s rest (n' + 1) (hss' ++ [MkHandshake sock addr config]))
        else Panic
    end.
Proof using Type.
  intros Hc s n' hss'. unfold s. clear s. cbn beta. unfold listener_round, listener_events, accept_all. cbn [li_inner li_listener].
  rewrite (accept_loop_conns _ _ _ _ _ _ Hc) by (rewrite length_app; lia). fold n' hss'.
  rewrite length_app. cbn [length]. replace (S (length conns + S (length rest)) - length conns)%nat with (S (S (length rest))) by lia.
  remember (S (length rest)) as m. cbn [accept_loop]. unfold accept_conn at 1. cbn [li_inner li_listener]. destruct stop as [sock addr| |]; [|by run|by run].
  destruct (peer_addr sock) as [raddr|]; cbn [opt_unwrap]; run; [|by rewrite bool_decide_false].
  case_bool_decide as Hr; [|rewrite bool_decide_false; [done|by intros [= ->]]]. subst raddr. run.
  rewrite bool_decide_true by done. by subst m.
Qed.
End listener.

(** ** Witnesses and examples *)

Definition ex_accepted : TcpStream := MkTcpStream [] (MkWriter [] []).

(** Two connections, and then an error. *)
Lemma listener_accepts_witness :
  listener_round (sys := ex_os) [LT_LISTENER] (MkChannel [] 0 true)
    (Listener_spawn (Config_default 1) [Acc_Conn ex_accepted []; Acc_Conn ex_accepted []; Acc_Error])
  = Ok (inr (MkListener (Config_default 1) (LI_Close 2))).
Proof.
  apply (listener_accepts (sys := ex_os) [Acc_Conn ex_accepted []; Acc_Conn ex_accepted []] Acc_Error [] (Config_default 1) 0 []
    (MkChannel [] 0 true)). by repeat constructor.
Defined.

(** Closing twice in a batch is harmless here. *)
Example listener_closes :
  listener_round (sys := ex_os) [LT_WAKE] (MkChannel [(CloseListener, true); (CloseListener, true)] 0 true)
    (Listener_spawn (Config_default 1) [])
  = Ok (inr (MkListener (Config_default 1) (LI_Close 0))).
Proof. by lazy. Qed.
