(* ===== verification/Cluster.v ===== *)
(** * The cluster thread (src/src/broker/cluster.rs)

    The thread that owns the shards of a node: it maps new connections to shards and
    keeps the retained messages with their expiry.  The event counters and the trie of
    subscriptions, which it only hands to the shards, are left out. *)
From S2P Require Import Prelude Errors Utf8 Util Types V5Header V5Property V5Connect V5Publish V5Packet Queues Threads Config Rebalance SortedVec BTree Message Subscription TopicTrie Tries Timer Socket Miot Session Shard ShardControl ShardSpawn.
Local Open Scope Z_scope.

(** ** State *)

(** What the thread holds of another thread: nothing yet, its handle, or what it has
    left when it ended. *)
Inductive thread_handle : Set := TH_Init | TH_Handle | TH_Closed.

(** [close_wait] of the listener, the ticker and the flusher. *)
Definition close_wait (h : thread_handle) : Result thread_handle :=
  match h with TH_Handle => Ok TH_Closed | _ => Panic end.

Record SingleNodeState := MkSingleNode { sn_config : Config; sn_node : Rebalance.Node; sn_topology : list Topology }.

(** [RunLoop] and [FinState] *)
Record ClusterLoop := MkClusterLoop {
  cr_state : SingleNodeState;
  cr_listener : thread_handle;
  cr_flusher : thread_handle;
  cr_ticker : thread_handle;
  active_shards : btree Z ShardHandle;
  cr_rebalancer : Rebalancer;
  retained_messages : Inner Publish;
}.
#[export] Instance ClusterLoop_eta : Eta ClusterLoop :=
  λ l, MkClusterLoop (cr_state l) (cr_listener l) (cr_flusher l) (cr_ticker l) (active_shards l)
    (cr_rebalancer l) (retained_messages l).

(** [Retain], behind an [Arc]: its place in the list of all that have been made. *)
Record Retain := MkRetain { rt_topic_name : rstring; rt_deleted : bool }.

Record Rt := MkRt {
  rt_retains : list Retain;
  retain_timer : Timer nat;
  retain_topics : btree rstring nat;
}.

(** The expiry of retained messages as [main_loop] starts with it. *)
Definition Rt_default (now : Z) : Rt := MkRt [] (Timer_default now) [].

Record ClusterFin := MkClusterFin {
  cf_state : SingleNodeState;
  cf_listener : thread_handle;
  cf_ticker : thread_handle;
  cf_flusher : thread_handle;
  cf_active_shards : list ShardHandle;
  cf_retained_messages : Inner Publish;
  cf_rt : Rt;
}.

Inductive ClusterInner : Type :=
| CI_Init
| CI_Handle
| CI_Tx
| CI_Main (l : ClusterLoop)
| CI_Close (fin : ClusterFin).

Record Cluster := MkCluster { cl_config : Config; cl_inner : ClusterInner }.

Definition run_cluster (c : Cluster) : Result ClusterLoop :=
  match cl_inner c with CI_Main l => Ok l | _ => Panic end.

Definition set_cluster (l : ClusterLoop) (c : Cluster) : Cluster := MkCluster (cl_config c) (CI_Main l).

(** ** Starting a cluster *)

Definition Cluster_from_config (config : Config) : Result Cluster :=
  if num_shards config =? 0 then err_desc EK_InvalidInput
  else if negb (is_power_of_2 (num_shards config)) then err_desc EK_InvalidInput
  else Ok (MkCluster config CI_Init).

(** The handles of the shards, and their threads with what each receives messages
    from.  One trie of subscriptions is behind the handles that all threads get; here
    each starts with it as it is. *)
Definition spawn_active_shards (config : Config) (topic_filters : Inner Subscription)
    : Result (btree Z ShardHandle * list (Shard * MsgRx)) :=
  foldM (λ '(shards, threads) shard_id,
    '(thread, shard, msg_rx) ← spawn_active topic_filters (Shard_from_config config shard_id);
    Ok (bt_insert Z.compare shard_id shard shards, threads ++ [(thread, msg_rx)]))
    ([], []) (seqZ 0 (num_shards config)).

(** Each shard is asked to take the queues of all. *)
Definition set_shard_queues (shards : btree Z ShardHandle) : Result (btree Z ShardHandle) :=
  queues ← mapM_out (λ e, q ← to_msg_tx e.2; Ok (e.1, q)) shards;
  mapM_out (λ e, sh ← shard_set_shard_queues queues e.2; Ok (e.1, sh)) shards.

(** ** Requests *)

(** [Request], with the two that [session.rs] posts as in Shard.  [AddConnection]
    comes with the identifier that the uuid library would generate for the client. *)
Inductive ClusterRequest : Type :=
| SetThreads (listener ticker : thread_handle) (shards : btree Z ShardHandle)
| RetainTopic (req : cluster_req)
| AddClient (uuid : rstring) (sock : TcpStream) (pkt : Connect)
| CloseCluster.

(** [spawn]: the thread as it starts, the threads of the shards, and the request that
    [spawn] sends when the other threads have been started. *)
Definition Cluster_spawn (parse : rstring → option Z) (cpus : Z) (nodes : list ConfigNode) (c : Cluster)
    : Result (Cluster * list (Shard * MsgRx) * (ClusterRequest * bool)) :=
  let config := cl_config c in
  let rebalancer := MkRebalancer config SingleNode in
  state ← match nodes with
          | [cn] =>
              node ← Node_try_from parse cpus cn;
              topology ← rebalance rebalancer [node] [];
              Ok (MkSingleNode config node topology)
          | _ => Panic
          end;
  let thread := MkCluster config
    (CI_Main (MkClusterLoop state TH_Init TH_Handle TH_Init [] rebalancer Inner_default)) in
  '(shards, threads) ← spawn_active_shards config Inner_default;
  shards ← set_shard_queues shards;
  Ok (thread, threads, (SetThreads TH_Handle TH_Handle shards, true)).

Definition handle_set (listener ticker : thread_handle) (shards : btree Z ShardHandle) (c : Cluster) : Result Cluster :=
  l ← run_cluster c;
  Ok (set_cluster (MkClusterLoop (cr_state l) listener (cr_flusher l) ticker shards (cr_rebalancer l)
        (retained_messages l)) c).

Definition set_retained (inner : Inner Publish) (l : ClusterLoop) : ClusterLoop :=
  MkClusterLoop (cr_state l) (cr_listener l) (cr_flusher l) (cr_ticker l) (active_shards l) (cr_rebalancer l) inner.

(** [TimeoutValue for Arc<Retain>] *)
Definition is_deleted (retains : list Retain) (i : nat) : bool := from_option rt_deleted false (retains !! i).
Definition delete_retain (i : nat) (retains : list Retain) : list Retain :=
  alter (λ r, MkRetain (rt_topic_name r) true) i retains.

(** [match .. { Some(old_retain) => old_retain.delete(), None => () }] *)
Definition delete_old (old : option nat) (retains : list Retain) : list Retain :=
  match old with Some old_retain => delete_retain old_retain retains | None => retains end.

Definition message_expiry (publish : Publish) : option Z :=
  match publish_properties publish with Some p => pp_message_expiry_interval p | None => None end.

Definition handle_set_retain_topic (now : Z) (publish : Publish) (c : Cluster) (rt : Rt) : Result (Cluster * Rt) :=
  l ← run_cluster c;
  let topic := publish_topic_name publish in
  let retain := length (rt_retains rt) in
  let retains := delete_old (bt_get str_cmp topic (retain_topics rt)) (rt_retains rt ++ [MkRetain topic false]) in
  inner ← do_set topic publish (retained_messages l);
  timer ← match message_expiry publish with
          | Some secs => add_timeout now secs retain (retain_timer rt)
          | None => Ok (retain_timer rt)
          end;
  Ok (set_cluster (set_retained inner l) c, MkRt retains timer (bt_insert str_cmp topic retain (retain_topics rt))).

Definition handle_reset_retain_topic (topic : rstring) (c : Cluster) (rt : Rt) : Result (Cluster * Rt) :=
  l ← run_cluster c;
  let retains := delete_old (bt_get str_cmp topic (retain_topics rt)) (rt_retains rt) in
  inner ← do_remove topic (retained_messages l);
  Ok (set_cluster (set_retained inner l) c, MkRt retains (retain_timer rt) (bt_remove str_cmp topic (retain_topics rt))).

(** One step of the loop of [retain_expires]. *)
Definition retain_expire (st : Inner Publish * Rt) (i : nat) : Result (Inner Publish * Rt) :=
  let '(inner, rt) := st in
  item ← opt_unwrap (rt_retains rt !! i);
  if rt_deleted item then Panic
  else
    inner ← do_remove (rt_topic_name item) inner;
    match bt_get str_cmp (rt_topic_name item) (retain_topics rt) with
    | Some _ => Ok (inner, MkRt (rt_retains rt) (retain_timer rt) (bt_remove str_cmp (rt_topic_name item) (retain_topics rt)))
    | None => Panic
    end.

Definition retain_expires (now : Z) (c : Cluster) (rt : Rt) : Result (Cluster * Rt) :=
  l ← run_cluster c;
  '(timer, items) ← expired (is_deleted (rt_retains rt)) now None (retain_timer rt);
  '(inner, rt) ← foldM retain_expire (retained_messages l, MkRt (rt_retains rt) timer (retain_topics rt)) items;
  Ok (set_cluster (set_retained inner l) c, rt).

Section cluster.
Context `{sys : System} (cityhash : bytes → Z).

(** [handle_add_connection]; a shard that the node does not have is [todo!()], and an
    error of the shard is for the log. *)
Definition handle_add_client (uuid : rstring) (sock : TcpStream) (connect : Connect) (c : Cluster) : Result Cluster :=
  l ← run_cluster c;
  _ ← opt_unwrap (peer_addr sock);
  let client_id := cpl_client_id (connect_payload connect) in
  shard_id ← session_partition cityhash (as_bytes client_id) (num_shards (cl_config c));
  match bt_get Z.compare shard_id (active_shards l) with
  | Some shard =>
      shard ← match add_session uuid sock connect shard with
              | Err _ => Ok shard
              | r => r
              end;
      let shards := bt_insert Z.compare shard_id shard (active_shards l) in
      Ok (set_cluster (MkClusterLoop (cr_state l) (cr_listener l) (cr_flusher l) (cr_ticker l) shards
            (cr_rebalancer l) (retained_messages l)) c)
  | None => Panic
  end.

(** [handle_close] *)
Definition handle_close_cluster (c : Cluster) (rt : Rt) : Result (Cluster * Rt) :=
  match cl_inner c with
  | CI_Main l =>
      listener ← close_wait (cr_listener l);
      ticker ← close_wait (cr_ticker l);
      shards ← mapM_out (λ e, shard_close_wait e.2) (active_shards l);
      flusher ← close_wait (cr_flusher l);
      Ok (MkCluster (cl_config c)
            (CI_Close (MkClusterFin (cr_state l) listener ticker flusher shards (retained_messages l) rt)),
          MkRt (rt_retains rt) (Timer_default (tm_instant (retain_timer rt))) [])
  | CI_Close _ => Ok (c, rt)
  | _ => Panic
  end.

(** One step of the loop of [drain_control_chan], with the clock. *)
Definition handle_cluster_request (st : bool * (Cluster * Rt * clock)) (req : ClusterRequest * bool)
    : Result (bool * (Cluster * Rt * clock)) :=
  let '(closed, (c, rt, ck)) := st in
  match req with
  | (SetThreads listener ticker shards, true) =>
      c ← handle_set listener ticker shards c; Ok (closed, (c, rt, ck))
  | (RetainTopic (SetRetainTopic publish), false) =>
      let '(now, ck) := now ck in
      '(c, rt) ← handle_set_retain_topic now publish c rt; Ok (closed, (c, rt, ck))
  | (RetainTopic (ResetRetainTopic topic), false) =>
      '(c, rt) ← handle_reset_retain_topic topic c rt; Ok (closed, (c, rt, ck))
  | (AddClient uuid sock connect, true) =>
      c ← handle_add_client uuid sock connect c; Ok (closed, (c, rt, ck))
  | (CloseCluster, true) =>
      '(c, rt) ← handle_close_cluster c rt; Ok (true, (c, rt, ck))
  | _ => Panic
  end.

(** The tokens that the poll of the thread can report. *)
Inductive poll_token : Set := TOKEN_WAKE | TOKEN_CONSENSUS | TOKEN_unknown.

(** [mio_events] *)
Fixpoint cluster_events (events : list poll_token) (rx : channel (ClusterRequest * bool)) (st : Cluster * Rt * clock)
    : Result (bool * channel (ClusterRequest * bool) * (Cluster * Rt * clock)) :=
  match events with
  | [] => Ok (false, rx, st)
  | TOKEN_WAKE :: events =>
      '(exit, rx, st) ← drain_all handle_cluster_request rx st;
      if exit : bool then Ok (true, rx, st) else cluster_events events rx st
  | _ => Panic
  end.

(** One time round [main_loop]: the thread goes on, or ends. *)
Definition cluster_round (events : list poll_token) (rx : channel (ClusterRequest * bool)) (st : Cluster * Rt * clock)
    : Result ((channel (ClusterRequest * bool) * (Cluster * Rt * clock)) + Cluster) :=
  '(exit, rx, (c, rt, ck)) ← cluster_events events rx st;
  if exit : bool then
    match cl_inner c with
    | CI_Main _ | CI_Close _ => '(c, _) ← handle_close_cluster c rt; Ok (inr c)
    | _ => Panic
    end
  else
    let '(now, ck) := now ck in
    '(c, rt) ← retain_expires now c rt;
    Ok (inl (rx, (c, rt, ck))).
End cluster.
