(* ===== verification/ClusterProps.v ===== *)
(** * The cluster thread: theorems

    The retained messages and their expiry, and the way of a new client to its shard. *)
From S2P Require Import Prelude Errors Utf8 Util Text Types V5Header V5Property V5Connect V5Publish V5Packet Framing Queues Threads Config Rebalance SortedVec BTree Message TopicTrie Tries Timer Socket Miot MiotProps Session Shard ShardControl ShardSpawn Cluster.
Local Open Scope Z_scope.

(** ** Retained messages *)

(** The invariant of the retained messages [inner] and of [rt]: the index has exactly
    the topics with a message, and the timer has what is not deleted of the index, once. *)
Record wf_rt (inner : Inner Publish) (rt : Rt) : Prop := {
  wr_trie : wf_retained inner;
  wr_topics : bt_wf str_cmp (retain_topics rt);
  wr_retained t :
    match bt_get str_cmp t (retain_topics rt) with
    | Some i => rt_retains rt !! i = Some (MkRetain t false) ∧ ∃ p, retained inner t = [p]
    | None => retained inner t = []
    end;
  wr_timer : wf_timer (retain_timer rt);
  wr_once : NoDup (entries (retain_timer rt)).*2;
  wr_entries : Forall (λ i, ∃ r, rt_retains rt !! i = Some r
    ∧ (rt_deleted r = false → bt_get str_cmp (rt_topic_name r) (retain_topics rt) = Some i)) (entries (retain_timer rt)).*2;
}.

Lemma bt_get_remove_str {V} k k' (m : btree rstring V) :
  bt_wf str_cmp m → bt_get str_cmp k' (bt_remove str_cmp k m) = if decide (k' = k) then None else bt_get str_cmp k' m.
Proof.
  intros Hm. rewrite (bt_get_remove str_cmp) by done. pose proof (str_cmp_eq k' k) as E.
  case_decide as Hk.
  - by rewrite (proj2 E Hk).
  - destruct (str_cmp k' k); [by destruct (Hk (proj1 E eq_refl))|done..].
Qed.

Lemma delete_old_lookup old retains i :
  delete_old old retains !! i
  = (λ r, if decide (old = Some i) then MkRetain (rt_topic_name r) true else r) <$> retains !! i.
Proof.
  destruct old as [j|]; cbn [delete_old]; unfold delete_retain; [rewrite list_lookup_alter; case_decide; subst|];
    destruct (retains !! i) as [r|]; cbn [fmap option_fmap option_map]; try done;
    case_decide; congruence.
Qed.

Lemma insert_entry_values {T} d (v : T) l : (insert_entry d v l).*2 ≡ₚ v :: l.*2.
Proof.
  induction l as [|e l IH]; cbn [insert_entry]; [done|]. case_match; [done|]. cbn [fmap list_fmap].
  rewrite IH. apply Permutation_swap.
Qed.

Lemma wr_bound inner rt : wf_rt inner rt → Forall (λ i, i < length (rt_retains rt))%nat (entries (retain_timer rt)).*2.
Proof.
  intros Hw. eapply Forall_impl; [exact (wr_entries _ _ Hw)|]. intros i (r & Hr & _). by eapply lookup_lt_Some.
Qed.

(** Deleting what the index has for a topic. *)
Lemma delete_old_entries inner rt topic (topics : btree rstring nat) i r :
  wf_rt inner rt →
  (∀ t, t ≠ topic → bt_get str_cmp t topics = bt_get str_cmp t (retain_topics rt)) →
  rt_retains rt !! i = Some r → i ∈ (entries (retain_timer rt)).*2 →
  let r' := if decide (bt_get str_cmp topic (retain_topics rt) = Some i) then MkRetain (rt_topic_name r) true else r in
  rt_deleted r' = false → bt_get str_cmp (rt_topic_name r') topics = Some i.
Proof.
  intros Hw Ht Hr Hi. cbn zeta. case_decide as Ho; [done|]. intros Hd.
  pose proof (wr_entries _ _ Hw) as He. rewrite Forall_forall in He. destruct (He i Hi) as (r0 & Hr0 & Hb).
  simplify_eq. specialize (Hb Hd). rewrite Ht; [done|]. intros E. by rewrite E in Hb.
Qed.

Lemma set_retain_wf now publish c rt l :
  cl_inner c = CI_Main l → wf_rt (retained_messages l) rt →
  (∀ secs, message_expiry publish = Some secs → is_u32 secs) →
  ∃ inner' rt', handle_set_retain_topic now publish c rt = Ok (set_cluster (set_retained inner' l) c, rt')
    ∧ wf_rt inner' rt'
    ∧ ∀ t, retained inner' t = if decide (t = publish_topic_name publish) then [publish] else retained (retained_messages l) t.
Proof.
  intros Hl Hw Hsecs. unfold handle_set_retain_topic, run_cluster. rewrite Hl; run.
  set (topic := publish_topic_name publish). set (old := bt_get str_cmp topic (retain_topics rt)).
  destruct (do_set_spec topic publish _ (wr_trie _ _ Hw)) as (inner' & -> & Hwf' & Hr'); run.
  set (n := length (rt_retains rt)).
  assert (∃ timer, match message_expiry publish with
            | Some secs => add_timeout now secs n (retain_timer rt)
            | None => Ok (retain_timer rt)
            end = (Ok timer : Result (Timer nat))
          ∧ wf_timer timer ∧ ((entries timer).*2 = (entries (retain_timer rt)).*2
                              ∨ (entries timer).*2 ≡ₚ n :: (entries (retain_timer rt)).*2)) as (timer & -> & Htw & Hte).
  { destruct (message_expiry publish) as [secs|]; [|eexists; split; [done|]; split; [apply Hw|by left]].
    destruct (add_timeout_spec now secs n (retain_timer rt)) as (timer & E & Htw & _ & Ee);
      [apply Hw|by apply Hsecs|destruct (Hsecs secs eq_refl); lia|].
    exists timer. split; [done|]. split; [done|]. right. rewrite Ee. apply insert_entry_values. }
  run. eexists _, _. split; [done|]. split; [|exact Hr'].
  assert (∀ i r, rt_retains rt !! i = Some r → (rt_retains rt ++ [MkRetain topic false]) !! i = Some r) as Hgrow
    by (intros i r; apply lookup_app_l_Some).
  split; cbn [rt_retains retain_timer retain_topics].
  - done.
  - apply bt_insert_wf, Hw; apply _.
  - intros t. rewrite bt_get_str, Hr'. pose proof (wr_retained _ _ Hw t) as Ht. case_decide as Et.
    + subst t. split; [|by eexists]. rewrite delete_old_lookup. fold old in Ht.
      rewrite lookup_app_r, Nat.sub_diag by done. cbn. rewrite decide_False; [done|]. intros E. rewrite E in Ht.
      destruct Ht as [Ht%lookup_lt_Some _]. unfold n in *. lia.
    + destruct (bt_get str_cmp t (retain_topics rt)) as [i|]; [|done]. destruct Ht as [Ht Hp]. split; [|done].
      rewrite delete_old_lookup, (Hgrow _ _ Ht). cbn. rewrite decide_False; [done|]. intros E.
      pose proof (wr_retained _ _ Hw topic) as Hold. fold old in Hold. rewrite E in Hold. destruct Hold as [Hold _]. congruence.
  - done.
  - destruct Hte as [->| ->]; [apply Hw|]. constructor; [|apply Hw].
    intros Hin. pose proof (wr_bound _ _ Hw) as Hb. rewrite Forall_forall in Hb. specialize (Hb n Hin). unfold n in Hb. lia.
  - assert (Forall (λ i, ∃ r, delete_old old (rt_retains rt ++ [MkRetain topic false]) !! i = Some r
      ∧ (rt_deleted r = false → bt_get str_cmp (rt_topic_name r) (bt_insert str_cmp topic n (retain_topics rt)) = Some i))
      (entries (retain_timer rt)).*2) as Hold.
    { apply Forall_forall. intros i Hi. pose proof (wr_entries _ _ Hw) as He. rewrite Forall_forall in He.
      destruct (He i Hi) as (r & Hr & _). eexists. split; [rewrite delete_old_lookup, (Hgrow _ _ Hr); done|].
      eapply delete_old_entries; [done| |done|done]. intros t Ht. rewrite bt_get_str. by rewrite decide_False. }
    destruct Hte as [->| ->]; [exact Hold|]. constructor; [|exact Hold].
    exists (MkRetain topic false). split.
    + rewrite delete_old_lookup, lookup_app_r, Nat.sub_diag by done. cbn. rewrite decide_False; [done|]. intros E.
      pose proof (wr_retained _ _ Hw topic) as Ht. fold old in Ht. rewrite E in Ht.
      destruct Ht as [Ht%lookup_lt_Some _]. unfold n in *. lia.
    + intros _. cbn [rt_topic_name]. rewrite bt_get_str. by rewrite decide_True.
Qed.

(** A topic that can be reset: it has a message, or it is not a level of a topic that
    has one. *)
Definition resettable (inner : Inner Publish) (topic : rstring) : Prop :=
  retained inner topic ≠ [] ∨ node_at (iter_topic_path topic) (root inner) = None.

(** Removing a topic from the trie and from the index, and deleting what the index had. *)
Lemma remove_topic_wf inner rt topic retains :
  wf_rt inner rt → resettable inner topic →
  (∀ i, retains !! i = rt_retains rt !! i ∨ bt_get str_cmp topic (retain_topics rt) = Some i) →
  Forall (λ i, ∃ r, retains !! i = Some r
      ∧ (rt_deleted r = false → bt_get str_cmp (rt_topic_name r) (bt_remove str_cmp topic (retain_topics rt)) = Some i))
    (entries (retain_timer rt)).*2 →
  ∃ inner', do_remove topic inner = Ok inner'
    ∧ wf_rt inner' (MkRt retains (retain_timer rt) (bt_remove str_cmp topic (retain_topics rt)))
    ∧ ∀ t, retained inner' t = if decide (t = topic) then [] else retained inner t.
Proof.
  intros Hw Hok Hretains Hentries.
  assert (∃ inner', do_remove topic inner = Ok inner' ∧ wf_retained inner'
    ∧ ∀ t, retained inner' t = if decide (t = topic) then [] else retained inner t) as (inner' & E & Hwf' & Hr').
  { pose proof (do_remove_spec topic inner (wr_trie _ _ Hw)) as Hs. pose proof (wr_retained _ _ Hw topic) as Ht.
    destruct (bt_get str_cmp topic (retain_topics rt)) as [i|].
    - destruct Ht as [_ [p Hp]]. destruct (retained_node _ _ _ Hp) as [n Hn]. rewrite Hn, Hp in Hs. exact Hs.
    - destruct Hok as [Hok|Hok]; [done|]. rewrite Hok in Hs. destruct Hs as (inner' & E & Hwf' & Hr').
      exists inner'. split; [done|]. split; [done|]. intros t. rewrite Hr'. case_decide; [by subst|done]. }
  exists inner'. split; [exact E|]. split; [|exact Hr'].
  split; cbn [rt_retains retain_timer retain_topics].
  - done.
  - by apply bt_remove_wf, Hw.
  - intros t. rewrite bt_get_remove_str, Hr' by apply Hw. case_decide as Et; [done|].
    pose proof (wr_retained _ _ Hw t) as Ht. destruct (bt_get str_cmp t (retain_topics rt)) as [i|]; [|done].
    destruct Ht as [Ht Hp]. split; [|done]. destruct (Hretains i) as [->|Ho]; [done|].
    pose proof (wr_retained _ _ Hw topic) as Hold. rewrite Ho in Hold. destruct Hold as [Hold _]. congruence.
  - apply Hw.
  - apply Hw.
  - exact Hentries.
Qed.

Lemma reset_retain_wf topic c rt l :
  cl_inner c = CI_Main l → wf_rt (retained_messages l) rt → resettable (retained_messages l) topic →
  ∃ inner' rt', handle_reset_retain_topic topic c rt = Ok (set_cluster (set_retained inner' l) c, rt')
    ∧ wf_rt inner' rt'
    ∧ ∀ t, retained inner' t = if decide (t = topic) then [] else retained (retained_messages l) t.
Proof.
  intros Hl Hw Hok. unfold handle_reset_retain_topic, run_cluster. rewrite Hl; run.
  destruct (remove_topic_wf _ rt topic (delete_old (bt_get str_cmp topic (retain_topics rt)) (rt_retains rt)) Hw Hok)
    as (inner' & -> & Hw' & Hr'); [..|run; by eexists _, _].
  - intros i. rewrite delete_old_lookup. destruct (rt_retains rt !! i); [|by left].
    cbn [fmap option_fmap option_map]. case_decide; [by right|by left].
  - apply Forall_forall. intros i Hi. pose proof (wr_entries _ _ Hw) as He. rewrite Forall_forall in He.
    destruct (He i Hi) as (r & Hr & _). eexists. split; [by rewrite delete_old_lookup, Hr|].
    eapply delete_old_entries; [done| |done|done]. intros t Ht.
    rewrite bt_get_remove_str by apply Hw. by rewrite decide_False.
Qed.

Lemma filter_sublist {A} (f : A → bool) (l : list A) : List.filter f l `sublist_of` l.
Proof. induction l as [|x l IH]; cbn; [done|]. destruct (f x); by constructor. Qed.

(** The topics of the items that have expired. *)
Definition topics_of (retains : list Retain) (items : list nat) : list rstring :=
  omap (λ i, rt_topic_name <$> retains !! i) items.

Lemma topics_of_cons retains i items r :
  retains !! i = Some r → topics_of retains (i :: items) = rt_topic_name r :: topics_of retains items.
Proof. intros Hr. unfold topics_of. cbn. by rewrite Hr. Qed.

Lemma retain_expire_loop inner rt items :
  wf_rt inner rt → NoDup (items ++ (entries (retain_timer rt)).*2) →
  Forall (λ i, ∃ r, rt_retains rt !! i = Some r ∧ rt_deleted r = false
    ∧ bt_get str_cmp (rt_topic_name r) (retain_topics rt) = Some i) items →
  ∃ inner' rt', foldM retain_expire (inner, rt) items = Ok (inner', rt') ∧ wf_rt inner' rt'
    ∧ ∀ t, retained inner' t = if decide (t ∈ topics_of (rt_retains rt) items) then [] else retained inner t.
Proof.
  revert inner rt. induction items as [|i items IH]; intros inner rt Hw Hd Hitems.
  { exists inner, rt. split; [done|]. split; [done|]. intros t. by rewrite decide_False by apply not_elem_of_nil. }
  apply Forall_cons in Hitems as [(r & Hr & Hdel & Hb) Hitems].
  cbn [app] in Hd. apply NoDup_cons in Hd as [Hi Hd]. rewrite elem_of_app in Hi.
  cbn [foldM retain_expire]. rewrite Hr. cbn [opt_unwrap]; run. rewrite Hdel.
  assert (resettable inner (rt_topic_name r)) as Hok.
  { left. pose proof (wr_retained _ _ Hw (rt_topic_name r)) as Ht. rewrite Hb in Ht. by destruct Ht as [_ [p ->]]. }
  destruct (remove_topic_wf inner rt (rt_topic_name r) (rt_retains rt) Hw Hok) as (inner1 & -> & Hw1 & Hr1).
  { by left. }
  { apply Forall_forall. intros j Hj. pose proof (wr_entries _ _ Hw) as He. rewrite Forall_forall in He.
    destruct (He j Hj) as (rj & Hrj & Hbj). exists rj. split; [done|]. intros Hdj. specialize (Hbj Hdj).
    rewrite bt_get_remove_str by apply Hw. rewrite decide_False; [done|]. intros Et. rewrite Et in Hbj.
    apply Hi. right. congruence. }
  run. rewrite Hb; run.
  destruct (IH inner1 _ Hw1 Hd) as (inner' & rt' & -> & Hw' & Hr').
  { rewrite Forall_forall in Hitems |- *. intros j Hj. destruct (Hitems j Hj) as (rj & Hrj & Hdj & Hbj).
    exists rj. split; [done|]. split; [done|]. cbn [retain_topics]. rewrite bt_get_remove_str by apply Hw.
    rewrite decide_False; [done|]. intros Et. rewrite Et in Hbj. apply Hi. left. congruence. }
  exists inner', rt'. split; [done|]. split; [done|]. intros t.
  rewrite Hr', Hr1, (topics_of_cons _ _ _ _ Hr). cbn [rt_retains].
  destruct (decide (t ∈ topics_of (rt_retains rt) items)) as [Hin|Hin].
  - by rewrite decide_True by (by right).
  - case_decide; [by rewrite decide_True by (subst; by left)|]. rewrite decide_False; [done|].
    intros [?|?]%elem_of_cons; done.
Qed.

(** The invariant of the thread while it runs: the retained messages, and the shards,
    none before [SetThreads] and then every one of them. *)
Definition all_shards (config : Config) (shards : btree Z ShardHandle) : Prop :=
  (∀ i, 0 ≤ i < num_shards config → is_Some (bt_get Z.compare i shards))
  ∧ Forall (λ e, ch_open (sh_tx e.2) = true) shards.

Record wf_cluster (c : Cluster) (rt : Rt) (l : ClusterLoop) : Prop := {
  wc_main : cl_inner c = CI_Main l;
  wc_retained : wf_rt (retained_messages l) rt;
  wc_config : is_u32 (num_shards (cl_config c)) ∧ is_power_of_2 (num_shards (cl_config c)) = true;
  wc_shards : active_shards l = [] ∨ all_shards (cl_config c) (active_shards l);
}.

Lemma retain_expires_wf now c rt l :
  wf_cluster c rt l →
  ∃ inner' rt' (topics : list rstring), retain_expires now c rt = Ok (set_cluster (set_retained inner' l) c, rt')
    ∧ wf_cluster (set_cluster (set_retained inner' l) c) rt' (set_retained inner' l)
    ∧ (∀ t, retained inner' t = if decide (t ∈ topics) then [] else retained (retained_messages l) t)
    ∧ (∀ d i r, (d, i) ∈ entries (retain_timer rt) → rt_retains rt !! i = Some r → rt_deleted r = false →
         d ≤ elapsed_micros now (retain_timer rt) → rt_topic_name r ∈ topics)
    ∧ (∀ t, t ∈ topics → ∃ i, bt_get str_cmp t (retain_topics rt) = Some i ∧ i ∈ (entries (retain_timer rt)).*2).
Proof.
  intros [Hl Hw Hc Hs]. unfold retain_expires, run_cluster. rewrite Hl; run.
  destruct (expired_spec (is_deleted (rt_retains rt)) now (retain_timer rt) (wr_timer _ _ Hw))
    as (timer & out & rest & -> & Htw & _ & Ee & Er & Hdue & _ & _). run.
  set (items := List.filter _ _).
  assert (items `sublist_of` out.*2) as Hsub by apply filter_sublist.
  assert (out.*2 ++ rest.*2 = (entries (retain_timer rt)).*2) as Ev by (by rewrite Ee, fmap_app).
  pose proof (wr_once _ _ Hw) as Hd. rewrite <-Ev in Hd.
  assert (wf_rt (retained_messages l) (MkRt (rt_retains rt) timer (retain_topics rt))) as Hw1.
  { destruct Hw as [H1 H2 H3 H4 H5 H6]. split; cbn [rt_retains retain_timer retain_topics]; try done.
    - rewrite Er. by apply NoDup_app in Hd as (_ & _ & ?).
    - rewrite Er. rewrite <-Ev in H6. by apply Forall_app in H6 as [_ ?]. }
  assert (∀ i, i ∈ items → ∃ r, rt_retains rt !! i = Some r ∧ rt_deleted r = false
      ∧ bt_get str_cmp (rt_topic_name r) (retain_topics rt) = Some i) as Hitems.
  { intros i Hi. unfold items in Hi. apply list_elem_of_In, List.filter_In in Hi as [Hi Hnd].
    apply list_elem_of_In in Hi. pose proof (wr_entries _ _ Hw) as He. rewrite Forall_forall in He.
    destruct (He i) as (r & Hr & Hb); [rewrite <-Ev; apply elem_of_app; by left|].
    unfold is_deleted in Hnd. rewrite Hr in Hnd. cbn in Hnd. apply negb_true_iff in Hnd. exists r. by auto. }
  destruct (retain_expire_loop (retained_messages l) (MkRt (rt_retains rt) timer (retain_topics rt)) items Hw1)
    as (inner' & rt' & -> & Hw' & Hr').
  { cbn [retain_timer]. rewrite Er. eapply sublist_NoDup; [exact Hd|]. by apply sublist_app. }
  { by apply Forall_forall. }
  run. exists inner', rt', (topics_of (rt_retains rt) items). split; [done|]. split; [by split|]. split; [exact Hr'|].
  split.
  - intros d i r Hin Hr Hdel Hle. apply list_elem_of_omap. exists i. split; [|by rewrite Hr].
    apply list_elem_of_In, List.filter_In. split.
    + apply list_elem_of_In. apply (Hdue (d, i)) in Hin; [|exact Hle]. by apply (list_elem_of_fmap_2 snd) in Hin.
    + unfold is_deleted. rewrite Hr. cbn. by rewrite Hdel.
  - intros t Ht. apply list_elem_of_omap in Ht as (i & Hi & Ht). destruct (Hitems i Hi) as (r & Hr & _ & Hb).
    rewrite Hr in Ht. cbn in Ht. simplify_eq. exists i. split; [done|]. rewrite <-Ev. apply elem_of_app. left.
    apply list_elem_of_In in Hi. unfold items in Hi. apply List.filter_In in Hi as [Hi _]. by apply list_elem_of_In.
Qed.

(** ** Connections *)

Lemma add_client_spec `{sys : System} cityhash uuid sock connect c rt l :
  wf_cluster c rt l → active_shards l ≠ [] → peer_addr sock ≠ None →
  ∃ shard_id sh l', let n := num_shards (cl_config c) in
    session_partition cityhash (as_bytes (cpl_client_id (connect_payload connect))) n = Ok shard_id
    ∧ handle_add_client cityhash uuid sock connect c = Ok (set_cluster l' c)
    ∧ wf_cluster (set_cluster l' c) rt l' ∧ retained_messages l' = retained_messages l
    ∧ bt_get Z.compare shard_id (active_shards l) = Some sh
    ∧ ∀ i, bt_get Z.compare i (active_shards l')
           = if decide (i = shard_id)
             then Some (MkShardHandle (MkChannel (ch_items (sh_tx sh) ++ [(AddSession uuid sock connect, true)]) (ch_size (sh_tx sh)) true)
                          (sh_msg_tx sh))
             else bt_get Z.compare i (active_shards l).
Proof.
  intros [Hl Hw [Hu Hp] Hs] Hne Hpeer. destruct Hs as [Hs|[Hall Hopen]]; [done|].
  set (id := as_bytes (cpl_client_id (connect_payload connect))).
  pose proof (session_partition_mod cityhash id (num_shards (cl_config c)) Hu Hp) as Ep.
  set (shard_id := fold_hash (cityhash id) `mod` num_shards (cl_config c)) in *.
  destruct (Hall shard_id) as [sh Hsh].
  { apply Z.mod_pos_bound. destruct (is_power_of_2_inv _ Hu Hp) as (k & Hk & ->). apply Z.pow_pos_nonneg; lia. }
  assert (ch_open (sh_tx sh) = true) as Ho.
  { destruct (bt_get_elem Z.compare shard_id sh (active_shards l) Hsh) as (k & _ & Hin).
    rewrite Forall_forall in Hopen. exact (Hopen _ Hin). }
  unfold handle_add_client, run_cluster. rewrite Hl; run.
  destruct (peer_addr sock) eqn:Er; [|done]. cbn [opt_unwrap]; run.
  fold id. rewrite Ep; run. rewrite Hsh.
  unfold add_session. rewrite (shard_request_open _ sh Ho); run.
  eexists shard_id, sh, _. split; [done|]. split; [done|]. cbn [active_shards retained_messages].
  split; [|split; [done|split; [done|]]].
  - split; cbn [cl_inner set_cluster cl_config active_shards retained_messages]; [done..|]. right. split.
    + intros i Hi. rewrite bt_get_Z. case_decide; [by eexists|]. by apply Hall.
    + by apply bt_insert_entries; [apply _|..].
  - intros i. by rewrite bt_get_Z.
Qed.

(** ** Requests *)

(** What a request needs of the thread: a topic to reset is not only a level of
    others, and connections come after the shards, with a peer that is known. *)
Definition admissible `{sys : System} (c : Cluster) (l : ClusterLoop) (req : ClusterRequest * bool) : Prop :=
  match req with
  | (SetThreads _ _ shards, true) => all_shards (cl_config c) shards
  | (RetainTopic (SetRetainTopic publish), false) => ∀ secs, message_expiry publish = Some secs → is_u32 secs
  | (RetainTopic (ResetRetainTopic topic), false) => resettable (retained_messages l) topic
  | (AddClient _ sock _, true) => active_shards l ≠ [] ∧ peer_addr sock ≠ None
  | _ => False
  end.

(** What a request does to the retained messages, as a map from topics. *)
Definition retained_spec (req : ClusterRequest) (m : rstring → list Publish) : rstring → list Publish :=
  match req with
  | RetainTopic (SetRetainTopic publish) => λ t, if decide (t = publish_topic_name publish) then [publish] else m t
  | RetainTopic (ResetRetainTopic topic) => λ t, if decide (t = topic) then [] else m t
  | _ => m
  end.

(** ** Starting *)

Lemma retained_default (t : rstring) : retained (Inner_default (V := Publish)) t = [].
Proof. pose proof (iter_topic_path_ne t). unfold retained. by destruct (iter_topic_path t). Qed.

Lemma wf_rt_default now : wf_rt Inner_default (Rt_default now).
Proof.
  split; cbn; [apply wf_retained_default|apply Sorted.SSorted_nil| |done|constructor|constructor].
  intros t. apply retained_default.
Qed.

Lemma seqZ_sorted {V} (v : V) m n : bt_wf Z.compare ((λ i, (i, v)) <$> seqZ m n).
Proof.
  unfold seqZ. rewrite <-list_fmap_compose. generalize 0%nat as k. induction (Z.to_nat n) as [|j IH]; intros k; [constructor|].
  cbn [seq fmap list_fmap compose]. apply bt_wf_cons. split; [apply (IH (S k))|]. apply Forall_fmap, Forall_forall.
  intros x Hx%elem_of_seq. cbn. apply Z.compare_lt_iff. lia.
Qed.

(** What every shard starts as. *)
Definition new_handle (config : Config) : ShardHandle :=
  MkShardHandle (MkChannel [] 0 true)
    (Some (msg_channel (Z.to_nat (mqtt_pkt_batch_size config * num_shards config))).1).

Definition new_thread (config : Config) (i : Z) : Shard * MsgRx :=
  (MkShard i config (SI_MainActive (ActiveLoop_new Inner_default)),
   (msg_channel (Z.to_nat (mqtt_pkt_batch_size config * num_shards config))).2).

Lemma spawn_active_eq config i :
  mqtt_pkt_batch_size config * num_shards config < 2 ^ 32 →
  spawn_active Inner_default (Shard_from_config config i)
  = Ok ((new_thread config i).1, new_handle config, (new_thread config i).2).
Proof. intros Hsize. unfold spawn_active. cbn. by destruct (Z.ltb_spec (mqtt_pkt_batch_size config * num_shards config) (2 ^ 32)); [|lia]. Qed.

Lemma spawn_active_shards_loop config l m ts :
  mqtt_pkt_batch_size config * num_shards config < 2 ^ 32 →
  foldM (λ '(shards, threads) shard_id,
    '(thread, shard, msg_rx) ← spawn_active Inner_default (Shard_from_config config shard_id);
    Ok (bt_insert Z.compare shard_id shard shards, threads ++ [(thread, msg_rx)])) (m, ts) l
  = (Ok (foldl (λ m i, bt_insert Z.compare i (new_handle config) m) m l, ts ++ (new_thread config <$> l))
     : Result (btree Z ShardHandle * list (Shard * MsgRx))).
Proof.
  intros Hsize. revert m ts. induction l as [|i l IH]; intros m ts; [cbn; by rewrite app_nil_r|].
  cbn [foldM fmap list_fmap foldl]. rewrite (spawn_active_eq _ _ Hsize); run. rewrite IH. by rewrite <-app_assoc.
Qed.

Lemma spawn_active_shards_eq config :
  mqtt_pkt_batch_size config * num_shards config < 2 ^ 32 →
  spawn_active_shards config Inner_default
  = Ok ((λ i, (i, new_handle config)) <$> seqZ 0 (num_shards config), new_thread config <$> seqZ 0 (num_shards config)).
Proof.
  intros Hsize. unfold spawn_active_shards. rewrite (spawn_active_shards_loop _ _ _ _ Hsize). cbn [app].
  pose proof (bt_inserts_cut Z.compare [] ((λ i, (i, new_handle config)) <$> seqZ 0 (num_shards config)) []) as Hcut.
  cbn [app] in Hcut. rewrite !app_nil_r in Hcut. rewrite <-Hcut by apply seqZ_sorted.
  clear Hcut. do 2 f_equal. generalize (@nil (Z * ShardHandle)) as m.
  induction (seqZ 0 (num_shards config)) as [|i l IH]; intros m; [done|apply IH].
Qed.

Lemma bt_get_seqZ {V} (v : V) n i : 0 ≤ i < n → bt_get Z.compare i ((λ i, (i, v)) <$> seqZ 0 n) = Some v.
Proof.
  intros Hi. apply (bt_elem_get Z.compare); [apply seqZ_sorted|]. apply list_elem_of_fmap. exists i. split; [done|].
  apply elem_of_seqZ. lia.
Qed.

(** ** Theorems *)

(** C11. A request to the cluster thread keeps its invariant and does to the retained
    messages what it does to a map from topics: the index, the timer with its entries
    for deleted messages, and the trie stay in step.  Of a connection to add, the peer has to
    be known. *)
Theorem cluster_request_refines `{sys : System} cityhash c rt l ck closed req :
  wf_cluster c rt l → admissible c l req →
  ∃ c' rt' l' ck', handle_cluster_request cityhash (closed, (c, rt, ck)) req = Ok (closed, (c', rt', ck'))
    ∧ wf_cluster c' rt' l'
    ∧ ∀ t, retained (retained_messages l') t = retained_spec req.1 (retained (retained_messages l)) t.
Proof.
  intros Hw Ha. pose proof Hw as [Hl Hr Hc Hs].
  destruct req as [[listener ticker shards|[publish|topic]|uuid sock connect|] []]; try done;
    cbn [admissible fst retained_spec] in *; cbn [handle_cluster_request].
  - unfold handle_set, run_cluster. rewrite Hl; run. eexists _, rt, _, ck. split; [done|].
    split; [split; [reflexivity|exact Hr|exact Hc|by right]|done].
  - cbn [now]. destruct (set_retain_wf (ck_time ck (ck_reads ck)) publish c rt l Hl Hr Ha) as (inner' & rt' & -> & Hw' & Hr'). run.
    eexists _, _, (set_retained inner' l), _. split; [done|]. split; [by split|exact Hr'].
  - destruct (reset_retain_wf topic c rt l Hl Hr Ha) as (inner' & rt' & -> & Hw' & Hr'). run.
    eexists _, _, (set_retained inner' l), _. split; [done|]. split; [by split|exact Hr'].
  - destruct (add_client_spec cityhash uuid sock connect c rt l Hw (proj1 Ha) (proj2 Ha)) as (i & sh & l' & _ & -> & Hw' & Hr' & _). run.
    eexists _, _, l', _. split; [done|]. split; [exact Hw'|]. by rewrite Hr'.
Qed.

(** C23. Expiry keeps the invariant and does not panic: it removes the messages of some
    topics, all of them topics with a timeout, and every one that is due is among them. *)
Theorem retained_expire now c rt l :
  wf_cluster c rt l →
  ∃ inner' rt' (topics : list rstring), retain_expires now c rt = Ok (set_cluster (set_retained inner' l) c, rt')
    ∧ wf_cluster (set_cluster (set_retained inner' l) c) rt' (set_retained inner' l)
    ∧ (∀ t, retained inner' t = if decide (t ∈ topics) then [] else retained (retained_messages l) t)
    ∧ (∀ d i r, (d, i) ∈ entries (retain_timer rt) → rt_retains rt !! i = Some r → rt_deleted r = false →
         d ≤ elapsed_micros now (retain_timer rt) → rt_topic_name r ∈ topics)
    ∧ (∀ t, t ∈ topics → ∃ i, bt_get str_cmp t (retain_topics rt) = Some i ∧ i ∈ (entries (retain_timer rt)).*2).
Proof. apply retain_expires_wf. Qed.

(** C24. A client that connects, and whose peer is known, gets to its shard, the one that the hash of its identifier
    names: behind the requests that the shard has already; the other shards, and the
    retained messages, stay as they are. *)
Theorem client_reaches_shard `{sys : System} cityhash uuid sock connect c rt l :
  wf_cluster c rt l → active_shards l ≠ [] → peer_addr sock ≠ None →
  ∃ shard_id sh l', let n := num_shards (cl_config c) in
    session_partition cityhash (as_bytes (cpl_client_id (connect_payload connect))) n = Ok shard_id
    ∧ handle_add_client cityhash uuid sock connect c = Ok (set_cluster l' c)
    ∧ wf_cluster (set_cluster l' c) rt l' ∧ retained_messages l' = retained_messages l
    ∧ bt_get Z.compare shard_id (active_shards l) = Some sh
    ∧ ∀ i, bt_get Z.compare i (active_shards l')
           = if decide (i = shard_id)
             then Some (MkShardHandle (MkChannel (ch_items (sh_tx sh) ++ [(AddSession uuid sock connect, true)]) (ch_size (sh_tx sh)) true)
                          (sh_msg_tx sh))
             else bt_get Z.compare i (active_shards l).
Proof. apply add_client_spec. Qed.

Lemma seqZ_keys {A} (x : A) l : ((λ i : Z, (i, x)) <$> l).*1 = l.
Proof. rewrite <-list_fmap_compose. apply list_fmap_id. Qed.

(** The queues of all shards, and the handle of a shard that has been told them. *)
Definition all_queues (config : Config) : btree Z MsgTx :=
  (λ i, (i, (msg_channel (Z.to_nat (mqtt_pkt_batch_size config * num_shards config))).1)) <$> seqZ 0 (num_shards config).

Definition told_handle (config : Config) : ShardHandle :=
  MkShardHandle (MkChannel [(SetShardQueues (all_queues config), true)] 0 true) (sh_msg_tx (new_handle config)).

Lemma set_shard_queues_eq config :
  set_shard_queues ((λ i, (i, new_handle config)) <$> seqZ 0 (num_shards config))
  = Ok ((λ i, (i, told_handle config)) <$> seqZ 0 (num_shards config)).
Proof.
  unfold set_shard_queues. rewrite !mapM_out_fmap.
  unfold shard_set_shard_queues. cbn [snd fst to_msg_tx new_handle sh_msg_tx opt_unwrap]; run. rewrite mapM_out_ret; run.
  rewrite mapM_out_fmap. cbn [snd fst]. rewrite shard_request_open by done. cbn [res_unwrap]; run. apply mapM_out_ret.
Qed.

Lemma cluster_starts_spec config c parse cpus cn uuid now :
  Cluster_from_config config = Ok c → is_u32 (num_shards config) →
  mqtt_pkt_batch_size config * num_shards config < 2 ^ 32 → cpus < 2 ^ 16 → parse (cn_uuid cn) = Some uuid →
  ∃ thread l, let shards := (λ i, (i, told_handle config)) <$> seqZ 0 (num_shards config) in
    Cluster_spawn parse cpus [cn] c
      = Ok (thread, new_thread config <$> seqZ 0 (num_shards config), (SetThreads TH_Handle TH_Handle shards, true))
    ∧ wf_cluster thread (Rt_default now) l ∧ cl_config thread = config ∧ active_shards l = [] ∧ all_shards config shards.
Proof.
  unfold Cluster_from_config. intros Hc Hu Hsize Hcpus Hparse.
  destruct (num_shards config =? 0); [done|]. destruct (is_power_of_2 (num_shards config)) eqn:Hp; [|done].
  cbn [negb] in Hc. injection Hc as <-. unfold Cluster_spawn. cbn [cl_config].
  unfold Node_try_from. destruct (Z.ltb_spec cpus (2 ^ 16)); [|lia]. run. rewrite Hparse; run.
  unfold rebalance, Algorithm_rebalance. cbn [rb_algo rb_config head opt_unwrap]; run.
  rewrite (spawn_active_shards_eq _ Hsize); run. rewrite set_shard_queues_eq; run.
  eexists _, _. split; [done|]. split; [split; [reflexivity|apply wf_rt_default|done|by left]|].
  split; [done|]. split; [done|]. split.
  - intros i Hi. exists (told_handle config). by apply (bt_get_seqZ (told_handle config)).
  - by apply Forall_fmap, Forall_forall.
Qed.

(** A cluster whose configuration is accepted, with one node, starts: its thread is
    well formed and gets a request with all shards, each of which knows the queues of
    all; each shard has a thread, without sessions. *)
Theorem cluster_starts config c parse cpus cn uuid now :
  Cluster_from_config config = Ok c → is_u32 (num_shards config) →
  mqtt_pkt_batch_size config * num_shards config < 2 ^ 32 → cpus < 2 ^ 16 → parse (cn_uuid cn) = Some uuid →
  ∃ thread l threads shards,
    Cluster_spawn parse cpus [cn] c = Ok (thread, threads, (SetThreads TH_Handle TH_Handle shards, true))
    ∧ wf_cluster thread (Rt_default now) l ∧ active_shards l = []
    ∧ all_shards config shards ∧ shards.*1 = seqZ 0 (num_shards config)
    ∧ Forall (λ e, ∃ queues, ch_items (sh_tx e.2) = [(SetShardQueues queues, true)]
                             ∧ queues.*1 = seqZ 0 (num_shards config)) shards
    ∧ Forall2 (λ i t, sh_shard_id t.1 = i ∧ ∃ al, sh_inner t.1 = SI_MainActive al ∧ sessions al = [])
        (seqZ 0 (num_shards config)) threads.
Proof.
  intros Hc Hu Hsize Hcpus Hparse.
  destruct (cluster_starts_spec config c parse cpus cn uuid now Hc Hu Hsize Hcpus Hparse) as (thread & l & E & Hw & _ & Hl & Ha).
  eexists thread, l, _, _. split; [exact E|]. split; [done|]. split; [done|]. split; [done|].
  split; [apply seqZ_keys|]. split.
  - apply Forall_fmap, Forall_forall. intros i _. eexists. split; [done|]. apply seqZ_keys.
  - apply Forall2_fmap_r, Forall_Forall2_diag, Forall_forall. intros i _. split; [done|]. by eexists.
Qed.

(** C30. The thread panics for a client before it has its shards, and for one whose
    connection has been reset, and whenever a topic is reset that has no message and is a
    level of one that has. *)
Theorem cluster_panics `{sys : System} cityhash c rt l :
  cl_inner c = CI_Main l →
  (∀ uuid sock connect, active_shards l = [] ∨ peer_addr sock = None → handle_add_client cityhash uuid sock connect c = Panic)
  ∧ (wf_rt (retained_messages l) rt → ∀ topic, ¬ resettable (retained_messages l) topic →
     handle_reset_retain_topic topic c rt = Panic).
Proof.
  intros Hl. unfold handle_add_client, handle_reset_retain_topic, run_cluster. rewrite Hl. split.
  - intros uuid sock connect Hor. run. destruct (peer_addr sock); [|done]. cbn [opt_unwrap]; run.
    destruct Hor as [Hs|]; [|done]. unfold session_partition. case_match; [done|]. run. by rewrite Hs.
  - intros Hw topic Hno. run. pose proof (do_remove_spec topic (retained_messages l) (wr_trie _ _ Hw)) as Hs.
    unfold resettable in Hno. destruct (node_at _ _); [|by destruct Hno; right].
    destruct (retained (retained_messages l) topic); [by rewrite Hs|]. by destruct Hno; left.
Qed.

(** C34. Closing the cluster ends the listener, the ticker, every shard and the flusher,
    and keeps the retained messages; a request behind it panics. *)
Theorem cluster_closes `{sys : System} cityhash c rt l ck closed :
  wf_cluster c rt l → active_shards l ≠ [] →
  cr_listener l = TH_Handle → cr_ticker l = TH_Handle → cr_flusher l = TH_Handle →
  ∃ c' rt' fin, handle_cluster_request cityhash (closed, (c, rt, ck)) (CloseCluster, true) = Ok (true, (c', rt', ck))
    ∧ cl_inner c' = CI_Close fin ∧ cf_retained_messages fin = retained_messages l ∧ cf_rt fin = rt
    ∧ cf_listener fin = TH_Closed ∧ cf_ticker fin = TH_Closed ∧ cf_flusher fin = TH_Closed
    ∧ Forall2 (λ e sh, ch_items (sh_tx sh) = ch_items (sh_tx e.2) ++ [(CloseShard, true)] ∧ ch_open (sh_tx sh) = false)
        (active_shards l) (cf_active_shards fin)
    ∧ ∀ req, req.1 ≠ CloseCluster → handle_cluster_request cityhash (true, (c', rt', ck)) req = Panic.
Proof.
  intros [Hl _ _ Hs] Hne HL HT HF. destruct Hs as [Hs|[_ Hopen]]; [done|].
  cbn [handle_cluster_request]. unfold handle_close_cluster. rewrite Hl, HL, HT, HF. cbn [close_wait]; run.
  assert (∃ shards, mapM_out (λ e, shard_close_wait e.2) (active_shards l) = (Ok shards : Result (list ShardHandle))
    ∧ Forall2 (λ e sh, ch_items (sh_tx sh) = ch_items (sh_tx e.2) ++ [(CloseShard, true)] ∧ ch_open (sh_tx sh) = false)
        (active_shards l) shards) as (shards & -> & H2).
  { clear -Hopen. induction Hopen as [|e es He _ (shards & IH & H2)]; [by eexists|].
    cbn [mapM_out]. unfold shard_close_wait in IH |- *. cbn beta. rewrite (shard_request_open _ _ He).
    cbn [res_unwrap]; run. rewrite IH; run. eexists. split; [done|]. by constructor. }
  run. eexists _, _, _. split; [done|]. cbn [cl_inner]. split; [done|]. cbn. do 5 (split; [done|]). split; [exact H2|].
  intros [[| [] | |] []] Hreq; try done; by destruct Hreq.
Qed.

(** ** Witnesses

    A node with two shards, and a message for [a/b] that expires after a second. *)

Definition ex_shard_handle : ShardHandle :=
  MkShardHandle (MkChannel [] 0 true) (Some (MkTx (MkChannel [] 4 true) 0)).

Definition ex_expiring : Publish :=
  MkPublish true QoS_AtMostOnce false [97; 47; 98] None
    (Some (PublishProperties_default <| pp_message_expiry_interval := Some 1 |>)) (Some [1]).

Definition ex_retained_inner : Inner Publish :=
  match do_set [97; 47; 98] ex_expiring Inner_default with Ok inner => inner | _ => Inner_default end.

Definition ex_rt : Rt :=
  MkRt [MkRetain [97; 47; 98] false] (MkTimer 0 (Ti_Head (Ti_Timeout 1000000 0%nat Ti_Sentinel))) [([97; 47; 98], 0%nat)].

Definition ex_cluster_loop : ClusterLoop :=
  MkClusterLoop (MkSingleNode (Config_default 2) (ex_node 5) []) TH_Handle TH_Handle TH_Handle
    [(0, ex_shard_handle); (1, ex_shard_handle)] (MkRebalancer (Config_default 2) SingleNode) ex_retained_inner.

Definition ex_cluster : Cluster := MkCluster (Config_default 2) (CI_Main ex_cluster_loop).

Definition ex_tcp : TcpStream := MkTcpStream [] (MkWriter [] []).

Lemma ex_rt_wf : wf_rt ex_retained_inner ex_rt ∧ retained ex_retained_inner [97; 47; 98] = [ex_expiring].
Proof.
  destruct (do_set_spec [97; 47; 98] ex_expiring Inner_default wf_retained_default) as (inner & E & Hwf & Hr).
  assert (ex_retained_inner = inner) as -> by (unfold ex_retained_inner; by rewrite E).
  split; [|rewrite Hr; by rewrite decide_True]. split; [exact Hwf|..].
  - repeat constructor.
  - intros t. rewrite Hr. cbn [retain_topics ex_rt bt_get]. pose proof (str_cmp_eq t [97; 47; 98]) as Et.
    destruct (str_cmp t _).
    + pose proof (proj1 Et eq_refl) as ->. split; [done|]. rewrite decide_True by done. by eexists.
    + rewrite decide_False; [apply retained_default|]. by intros ?%(proj2 Et).
    + rewrite decide_False; [apply retained_default|]. by intros ?%(proj2 Et).
  - repeat constructor; cbn; lia.
  - apply NoDup_singleton.
  - apply Forall_singleton. eexists. split; [done|]. intros _. by lazy.
Qed.

Lemma ex_cluster_wf : wf_cluster ex_cluster ex_rt ex_cluster_loop.
Proof.
  split; [done|apply ex_rt_wf|by split|]. right. split.
  - intros i Hi. cbn in Hi. assert (i = 0 ∨ i = 1) as [->| ->] by lia; by eexists.
  - by repeat constructor.
Qed.

Lemma cluster_request_refines_witness :
  ∃ c' rt' l' ck',
    handle_cluster_request (sys := ex_os) (λ _, 6) (false, (ex_cluster, ex_rt, MkClock (λ i, Z.of_nat i) 0))
      (RetainTopic (SetRetainTopic ex_expiring), false) = Ok (false, (c', rt', ck'))
    ∧ wf_cluster c' rt' l'
    ∧ ∀ t, retained (retained_messages l') t
           = if decide (t = [97; 47; 98]) then [ex_expiring] else retained ex_retained_inner t.
Proof.
  apply (cluster_request_refines (sys := ex_os) (λ _, 6) ex_cluster ex_rt ex_cluster_loop _ false
    (RetainTopic (SetRetainTopic ex_expiring), false)); [exact ex_cluster_wf|].
  intros secs [= <-]. done.
Defined.

Lemma retained_expire_witness :
  ∃ inner' rt', retain_expires 1000000000 ex_cluster ex_rt
      = Ok (set_cluster (set_retained inner' ex_cluster_loop) ex_cluster, rt')
    ∧ retained inner' [97; 47; 98] = [].
Proof.
  destruct (retained_expire 1000000000 ex_cluster ex_rt ex_cluster_loop ex_cluster_wf)
    as (inner' & rt' & topics & E & _ & Hr & Hdue & _).
  exists inner', rt'. split; [exact E|]. rewrite Hr. apply decide_True.
  apply (Hdue 1000000 0%nat (MkRetain [97; 47; 98] false)); [by left|done|done|]. by lazy.
Defined.

Lemma client_reaches_shard_witness :
  ∃ shard_id l', session_partition (λ _, 6) [97] 2 = Ok shard_id
    ∧ handle_add_client (sys := ex_os) (λ _, 6) [117] ex_tcp ex_connect ex_cluster = Ok (set_cluster l' ex_cluster)
    ∧ bt_get Z.compare shard_id (active_shards l')
      = Some (MkShardHandle (MkChannel [(AddSession [117] ex_tcp ex_connect, true)] 0 true) (Some (MkTx (MkChannel [] 4 true) 0))).
Proof.
  destruct (client_reaches_shard (sys := ex_os) (λ _, 6) [117] ex_tcp ex_connect ex_cluster ex_rt ex_cluster_loop
    ex_cluster_wf) as (i & sh & l' & Ei & El & _ & _ & Hsh & Hg); [done|done|].
  exists i, l'. split; [exact Ei|]. split; [exact El|]. rewrite Hg, decide_True by done.
  change (session_partition (λ _, 6) [97] 2 = Ok i) in Ei. lazy in Ei. injection Ei as <-.
  lazy in Hsh. injection Hsh as <-. done.
Defined.

Lemma cluster_starts_witness :
  ∃ thread l threads shards,
    Cluster_spawn (λ _, Some 5) 4 [MkConfigNode [] (SA_V4 [0; 0; 0; 0] 1883) [] (Some 1)] (MkCluster (Config_default 2) CI_Init)
      = Ok (thread, threads, (SetThreads TH_Handle TH_Handle shards, true))
    ∧ wf_cluster thread (Rt_default 0) l ∧ shards.*1 = [0; 1] ∧ length threads = 2%nat.
Proof.
  destruct (cluster_starts (Config_default 2) (MkCluster (Config_default 2) CI_Init) (λ _, Some 5) 4
    (MkConfigNode [] (SA_V4 [0; 0; 0; 0] 1883) [] (Some 1)) 5 0) as (thread & l & threads & shards & E & Hw & _ & _ & Hs & _ & Ht);
    [done|done|done|done|done|].
  exists thread, l, threads, shards. split_and!; [exact E|exact Hw|exact Hs|by rewrite <-(Forall2_length _ _ _ Ht)].
Defined.

Lemma cluster_panics_witness :
  handle_reset_retain_topic [97] ex_cluster ex_rt = Panic.
Proof.
  apply (proj2 (cluster_panics (sys := ex_os) (λ _, 6) ex_cluster ex_rt ex_cluster_loop eq_refl)).
  - apply ex_rt_wf.
  - intros [H|H]; [by apply H|]. lazy in H. done.
Defined.

Lemma cluster_closes_witness :
  ∃ c' rt' fin ck,
    handle_cluster_request (sys := ex_os) (λ _, 6) (false, (ex_cluster, ex_rt, ck)) (CloseCluster, true)
      = Ok (true, (c', rt', ck))
    ∧ cl_inner c' = CI_Close fin ∧ cf_listener fin = TH_Closed.
Proof.
  destruct (cluster_closes (sys := ex_os) (λ _, 6) ex_cluster ex_rt ex_cluster_loop (MkClock (λ i, Z.of_nat i) 0) false
    ex_cluster_wf) as (c' & rt' & fin & E & Hi & _ & _ & HL & _); try done.
  by exists c', rt', fin, (MkClock (λ i, Z.of_nat i) 0).
Defined.
