(* ===== verification/Broker.v ===== *)
(** * The broker as a whole

    The cluster thread with the threads of its shards, and the way of a client from its
    first byte to its session: handshake.rs, cluster.rs and shard.rs together. *)
From S2P Require Import Prelude Errors Utf8 Util Text Types V5Header V5Property V5ConnAck V5Connect V5Packet Framing Queues Threads Config Rebalance SortedVec BTree Message Subscription TopicTrie Tries Timer Socket ShardTurns Line Client ClientProps Handshake Miot MiotProps Session SessionProps Shard ShardProps ShardLoop ShardLoopProps ShardControl ShardSpawn Cluster ClusterProps.
Local Open Scope Z_scope.

(** The state of the cluster thread, with its clock, and those of the threads of its
    shards by their number; the channels between them are in the handles. *)
Record Broker := MkBroker { br_cluster : Cluster; br_rt : Rt; br_threads : list (Shard * MsgRx) }.

Section broker.
Context `{sys : System} (cityhash : bytes → Z).

Definition broker_request (req : ClusterRequest * bool) (b : Broker) (ck : clock) : Result (Broker * clock) :=
  '(_, (c, rt, ck)) ← handle_cluster_request cityhash (false, (br_cluster b, br_rt b, ck)) req;
  Ok (MkBroker c rt (br_threads b), ck).

(** [Cluster::spawn] of a configuration with these nodes, up to the answer of the
    thread. *)
Definition broker_start (parse : rstring → option Z) (cpus : Z) (nodes : list ConfigNode) (config : Config) (ck : clock)
    : Result (Broker * clock) :=
  c ← Cluster_from_config config;
  '(c, threads, req) ← Cluster_spawn parse cpus nodes c;
  let '(t, ck) := now ck in
  broker_request req (MkBroker c (Rt_default t) threads) ck.

(** A new connection: its handshake, and what the handshake asks of the cluster. *)
Definition broker_connect (uuid : rstring) (sock : TcpStream) (b : Broker) (ck : clock)
    : Result (handshake_result * Broker * clock) :=
  '(r, sock, ck) ← handshake (cl_config (br_cluster b)) sock ck;
  match r with
  | HandOver pkt => '(b, ck) ← broker_request (AddClient uuid sock pkt, true) b ck; Ok (r, b, ck)
  | Refused _ => Ok (r, b, ck)
  end.

(** The thread of a shard drains its requests: whether it is to end. *)
Definition broker_shard (t : Z) (shard_id : Z) (b : Broker) : Result (bool * Broker) :=
  l ← run_cluster (br_cluster b);
  sh ← opt_unwrap (bt_get Z.compare shard_id (active_shards l));
  '(thread, msg_rx) ← opt_unwrap (br_threads b !! Z.to_nat shard_id);
  '(exit, rx, thread) ← mio_events t (sh_tx sh) thread;
  let shards := bt_insert Z.compare shard_id (MkShardHandle rx (sh_msg_tx sh)) (active_shards l) in
  let l := MkClusterLoop (cr_state l) (cr_listener l) (cr_flusher l) (cr_ticker l) shards (cr_rebalancer l)
             (retained_messages l) in
  Ok (exit, MkBroker (set_cluster l (br_cluster b)) (br_rt b) (<[Z.to_nat shard_id := (thread, msg_rx)]> (br_threads b))).
End broker.

(** ** Lemmas *)

(** A broker that has started: the cluster has all shards, which have been told the
    queues of all and have nothing else to do. *)
Definition started (config : Config) (b : Broker) : Prop :=
  ∃ l, wf_cluster (br_cluster b) (br_rt b) l ∧ cl_config (br_cluster b) = config
    ∧ active_shards l = (λ i, (i, told_handle config)) <$> seqZ 0 (num_shards config)
    ∧ br_threads b = new_thread config <$> seqZ 0 (num_shards config).

(** A configuration with which a broker starts and serves. *)
Record sound_config (config : Config) : Prop := {
  sc_shards : is_u32 (num_shards config) ∧ is_power_of_2 (num_shards config) = true;
  sc_queues : mqtt_pkt_batch_size config * num_shards config < 2 ^ 32;
  sc_batch : 1 ≤ mqtt_pkt_batch_size config;
  sc_qos : valid_qos (mqtt_maximum_qos config);
}.

Lemma broker_start_spec `{sys : System} cityhash parse cpus cn uuid config ck :
  sound_config config → cpus < 2 ^ 16 → parse (cn_uuid cn) = Some uuid →
  ∃ b ck', broker_start cityhash parse cpus [cn] config ck = Ok (b, ck') ∧ started config b.
Proof.
  intros [[Hu Hp] Hq _ _] Hcpus Hparse.
  assert (Cluster_from_config config = Ok (MkCluster config CI_Init)) as Hc.
  { unfold Cluster_from_config. rewrite Hp. destruct (Z.eqb_spec (num_shards config) 0) as [E|]; [|done].
    destruct (is_power_of_2_inv _ Hu Hp) as (k & Hk & Ek). assert (0 < 2 ^ k) by (apply Z.pow_pos_nonneg; lia). lia. }
  unfold broker_start. rewrite Hc; run.
  destruct (cluster_starts_spec config _ parse cpus cn uuid (ck_time ck (ck_reads ck)) Hc Hu Hq Hcpus Hparse)
    as (c & l & E & Hw & Hcfg & Hl & Ha). rewrite E; run. cbn [now]. unfold broker_request. cbn [br_cluster br_rt br_threads].
  cbn [handle_cluster_request]. unfold handle_set, run_cluster. rewrite (wc_main _ _ _ Hw); run.
  eexists _, _. split; [done|]. eexists. destruct Hw as [Hm Hr Hcf _].
  split; [split; [reflexivity|exact Hr|exact Hcf|right; subst config; exact Ha]|done].
Qed.

Lemma mio_events_all `{sys : System} t rx th th' :
  ch_open rx = true → foldM (handle_request t) (false, th) (ch_items rx) = Ok (false, th') →
  ∃ rx', mio_events t rx th = Ok (false, rx', th') ∧ ch_items rx' = [].
Proof.
  intros Ho Hf. destruct (drain_all_spec (handle_request t) rx th) as (reqs & rest & Hi & E & Hr).
  rewrite Hi, foldM_app in Hf. apply bind_Ok_inv in Hf as ([closed th1] & Hf1 & Hf2).
  assert (closed = false) as ->.
  { destruct closed; [|done]. exfalso. clear -Hf2. revert th1 Hf2. induction (ch_items rest) as [|r rs IH]; intros th1; [done|].
    cbn [foldM]. intros H. apply bind_Ok_inv in H as ([c th2] & Hr & H). destruct c; [by apply IH in H|].
    clear -Hr. destruct r as [[] []]; cbn in Hr; try done; by apply bind_Ok_inv in Hr as (? & _ & [=]). }
  specialize (Hr _ Hf1). rewrite Hr in Hf2. cbn in Hf2. simplify_eq. exists rest. split; [|done].
  unfold mio_events. rewrite E, Hf1; run. by rewrite Ho.
Qed.

(** A connection handed over to a broker that has just started waits for its shard. *)
Lemma broker_add_client `{sys : System} cityhash uuid sock pkt config b ck :
  started config b → sound_config config → peer_addr sock ≠ None →
  ∃ shard_id b' l', broker_request cityhash (AddClient uuid sock pkt, true) b ck = Ok (b', ck)
    ∧ session_partition cityhash (as_bytes (cpl_client_id (connect_payload pkt))) (num_shards config) = Ok shard_id
    ∧ 0 ≤ shard_id < num_shards config
    ∧ cl_inner (br_cluster b') = CI_Main l' ∧ br_threads b' = br_threads b
    ∧ bt_get Z.compare shard_id (active_shards l')
      = Some (MkShardHandle (MkChannel (ch_items (sh_tx (told_handle config)) ++ [(AddSession uuid sock pkt, true)]) 0 true)
                (sh_msg_tx (told_handle config))).
Proof.
  intros (l & Hw & Hcfg & Hs & Ht) Hc Hpeer. pose proof (sc_shards _ Hc) as [Hu Hp].
  assert (0 < num_shards config) as Hpos.
  { destruct (is_power_of_2_inv _ Hu Hp) as (k & Hk & ->). apply Z.pow_pos_nonneg; lia. }
  destruct (add_client_spec cityhash uuid sock pkt _ _ l Hw) as (i & sh & l' & Ei & El & Hw' & _ & Hsh & Hg).
  { rewrite Hs. unfold seqZ. by destruct (Z.to_nat (num_shards config)) eqn:E; [lia|]. }
  { done. }
  rewrite Hcfg in Ei. rewrite (session_partition_mod _ _ _ Hu Hp) in Ei. simplify_eq.
  set (n := num_shards (cl_config (br_cluster b))) in *. set (i := _ `mod` n) in *.
  assert (0 ≤ i < n) as Hi by (by apply Z.mod_pos_bound).
  rewrite Hs, bt_get_seqZ in Hsh by done. simplify_eq.
  eexists i, _, l'. unfold broker_request. cbn [handle_cluster_request]. rewrite El; run.
  split; [done|]. split; [by apply session_partition_mod|]. split; [done|]. split; [done|]. split; [done|].
  by rewrite Hg, decide_True.
Qed.

Lemma new_thread_lookup config i :
  0 ≤ i < num_shards config →
  (new_thread config <$> seqZ 0 (num_shards config)) !! Z.to_nat i = Some (new_thread config i).
Proof. intros Hi. apply list_lookup_fmap_Some_2, lookup_seqZ. lia. Qed.

(** A session that is new: nothing has come from its client, and a CONNACK waits for it. *)
Record new_session (config : Config) (uuid : rstring) (pkt : Connect) (a : Active) (ack : ConnAck) : Prop := {
  ns_rx : ∃ n, session_rx a = MkRx n (MkChannel [] n true);
  ns_tx : ch_items (tx (miot_tx a)) = [Pkt_ConnAck ack];
  ns_connect : sa_connect a = pkt;
  ns_active : wf_active a;
  ns_ack : ∃ props, ack = ConnAck_new_success (Some props) ∧ cap_receive_maximum props = Some (mqtt_receive_maximum config);
  ns_wf : sound_limits config → wf_Connect pkt → wf_string uuid → wf_Packet (Pkt_ConnAck ack);
}.

(** The state of a shard with this client only, and nothing to do *)
Record first_client (id : rstring) (a : Active) (l : ActiveLoop) : Prop := {
  fc_sessions id' : session_of l id' = if decide (id' = id) then Some a else None;
  fc_miot : al_miot l = [id];
  fc_wf : bt_wf str_cmp (sessions l);
  fc_quiet : shard_back_log l = [] ∧ index l = [];
}.

(** The thread of a shard that has just started takes the queues and its first client. *)
Lemma new_shard_adds_client `{sys : System} t i uuid sock pkt config :
  sound_config config → peer_addr sock ≠ None →
  let id := ClientID_from_connect uuid (cpl_client_id (connect_payload pkt)) in
  let rx := MkChannel [(SetShardQueues (all_queues config), true); (AddSession uuid sock pkt, true)] 0 true in
  ∃ rx' l a ack,
    mio_events t rx (new_thread config i).1 = Ok (false, rx', set_loop l (new_thread config i).1)
    ∧ first_client id a l ∧ new_session config uuid pkt a ack.
Proof.
  intros Hc Hpeer id rx. set (th := (new_thread config i).1).
  set (l0 := MkActiveLoop [] [] [] [] 1 [] [] [] (all_queues config) Inner_default).
  destruct (add_session_spec uuid t sock pkt (set_loop l0 th) l0)
    as (l & a & props & Es & Hses & Hmio & _ & Hack & _ & _ & _ & Hwfa & Hrm & _ & _ & _ & (n & Hrx & _) & Hcon & Hbt & Hbl & Hix & Hwf);
    [done|apply Hc|apply Hc|done|done|].
  destruct (mio_events_all t rx th (set_loop l (set_loop l0 th))) as (rx' & E & _); [done|..].
  { assert (handle_request t (false, th) (SetShardQueues (all_queues config), true) = Ok (false, set_loop l0 th)) as E1
      by reflexivity.
    assert (handle_request t (false, set_loop l0 th) (AddSession uuid sock pkt, true) = Ok (false, set_loop l (set_loop l0 th))) as E2
      by (cbn [handle_request]; rewrite Es; by run).
    cbn [rx ch_items foldM]. rewrite E1; run. rewrite E2. by run. }
  exists rx', l, a, (ConnAck_new_success (Some props)). split; [exact E|].
  split; [split; [exact Hses|exact Hmio|apply Hbt; constructor|split; [exact Hbl|exact Hix]]|].
  split; [by exists n|done|done|done|by exists props|]. intros Hl Hcp Hu. split; [by left|]. constructor. by apply Hwf.
Qed.

(** The connection is not reset: its peer is known, whatever has been read of it. *)
Definition peer_stays `{sys : System} (sock : TcpStream) : Prop :=
  ∀ sock', tcp_wr sock' = tcp_wr sock → peer_addr sock' ≠ None.

(** From the start of a broker to the session of its first client *)
Lemma broker_serves `{sys : System} cityhash parse cpus cn node uuid config ck c clean bs sock rest :
  let pkt := to_connect c clean in
  let id := ClientID_from_connect uuid (cpl_client_id (connect_payload pkt)) in
  sound_config config → cpus < 2 ^ 16 → parse (cn_uuid cn) = Some node →
  wf_Client c → encoded Packet_ (Pkt_Connect pkt) = Ok bs → len bs ≤ mqtt_max_packet_size config →
  rd_bytes (tcp_rd sock) = bs ++ rest → ok_reader (tcp_rd sock) → is_bytes (rd_bytes (tcp_rd sock)) → peer_stays sock →
  ∃ b ck1, broker_start cityhash parse cpus [cn] config ck = Ok (b, ck1)
    ∧ ∀ ck2,
      (∀ i, (i ≤ rd_size (tcp_rd sock))%nat →
         ck_time ck2 (S (ck_reads ck2) + i) < ck_time ck2 (ck_reads ck2) + from_secs (sock_mqtt_connect_timeout config)) →
      ∃ sock' b' ck' shard_id, handshake config sock ck2 = Ok (HandOver pkt, sock', ck')
        ∧ tcp_wr sock' = tcp_wr sock ∧ rd_bytes (tcp_rd sock') = rest
        ∧ broker_connect cityhash uuid sock b ck2 = Ok (HandOver pkt, b', ck')
        ∧ session_partition cityhash (as_bytes (cpl_client_id (connect_payload pkt))) (num_shards config) = Ok shard_id
        ∧ ∀ t, ∃ b'' l a ack, broker_shard t shard_id b' = Ok (false, b'')
          ∧ br_threads b'' !! Z.to_nat shard_id
            = Some (set_loop l (new_thread config shard_id).1, (new_thread config shard_id).2)
          ∧ first_client id a l ∧ new_session config uuid pkt a ack.
Proof.
  intros pkt id Hc Hcpus Hparse Hwf E Hmax Hs Hok Hb Hpeer.
  destruct (broker_start_spec cityhash parse cpus cn node config ck Hc Hcpus Hparse) as (b & ck1 & Eb & Hst).
  exists b, ck1. split; [exact Eb|]. intros ck2 Hck. destruct Hst as (l0 & Hst). assert (started config b) as Hst' by (by exists l0).
  destruct Hst as (_ & Hcfg & _ & Ht).
  destruct (handshake_complete c clean bs config sock rest ck2 Hwf E Hs Hok Hb Hmax (Hpeer _ eq_refl) Hck) as (sock' & ck' & Eh & Hwr & Hrd).
  destruct (broker_add_client cityhash uuid sock' pkt config b ck' Hst' Hc (Hpeer _ Hwr)) as (i & b' & l' & Ea & Ei & Hi & Hm & Ht' & Hg).
  exists sock', b', ck', i. split; [exact Eh|]. split; [exact Hwr|]. split; [exact Hrd|].
  split; [unfold broker_connect; rewrite Hcfg, Eh; run; fold pkt; rewrite Ea; by run|]. split; [exact Ei|].
  intros t. unfold broker_shard, run_cluster. rewrite Hm; run. rewrite Hg. cbn [opt_unwrap]; run.
  rewrite Ht', Ht, new_thread_lookup by done. cbn [opt_unwrap new_thread]; run. cbn [sh_tx].
  destruct (new_shard_adds_client t i uuid sock' pkt config Hc (Hpeer _ Hwr)) as (rx & l & a & ack & E1 & Hfc & Hns).
  cbn [app told_handle sh_tx ch_items new_thread fst] in E1 |- *. rewrite E1; run.
  eexists _, l, a, ack. split; [done|]. cbn [br_threads].
  split; [apply list_lookup_insert_eq; rewrite length_fmap, length_seqZ; lia|]. by split.
Qed.

(** ** Theorems *)

(** C2. A client is served.  A broker with a sound configuration starts; when a client
    then connects, and does not reset its connection, and its CONNECT comes in time, in whatever pieces, the handshake
    hands it to the cluster, the cluster to the shard that the hash of the identifier
    names, and when the thread of that shard drains its requests the client has a
    session there, a place in the miot thread, and a CONNACK in its queue. *)
Theorem client_served `{sys : System} cityhash parse cpus cn node uuid config ck c clean bs sock rest :
  let pkt := to_connect c clean in
  let id := ClientID_from_connect uuid (cpl_client_id (connect_payload pkt)) in
  sound_config config → cpus < 2 ^ 16 → parse (cn_uuid cn) = Some node →
  wf_Client c → encoded Packet_ (Pkt_Connect pkt) = Ok bs → len bs ≤ mqtt_max_packet_size config →
  rd_bytes (tcp_rd sock) = bs ++ rest → ok_reader (tcp_rd sock) → is_bytes (rd_bytes (tcp_rd sock)) → peer_stays sock →
  ∃ b ck1, broker_start cityhash parse cpus [cn] config ck = Ok (b, ck1)
    ∧ ∀ ck2,
      (∀ i, (i ≤ rd_size (tcp_rd sock))%nat →
         ck_time ck2 (S (ck_reads ck2) + i) < ck_time ck2 (ck_reads ck2) + from_secs (sock_mqtt_connect_timeout config)) →
      ∃ b' ck' shard_id, broker_connect cityhash uuid sock b ck2 = Ok (HandOver pkt, b', ck')
        ∧ session_partition cityhash (as_bytes (cpl_client_id (connect_payload pkt))) (num_shards config) = Ok shard_id
        ∧ ∀ t, ∃ b'' thread msg_rx l a props, broker_shard t shard_id b' = Ok (false, b'')
          ∧ br_threads b'' !! Z.to_nat shard_id = Some (thread, msg_rx) ∧ sh_inner thread = SI_MainActive l
          ∧ (∀ id', session_of l id' = if decide (id' = id) then Some a else None)
          ∧ al_miot l = [id] ∧ wf_active a
          ∧ ch_items (tx (miot_tx a)) = [Pkt_ConnAck (ConnAck_new_success (Some props))]
          ∧ cap_receive_maximum props = Some (mqtt_receive_maximum config).
Proof.
  intros pkt id Hc Hcpus Hparse Hwf E Hmax Hs Hok Hb Hpeer.
  destruct (broker_serves cityhash parse cpus cn node uuid config ck c clean bs sock rest) as (b & ck1 & Eb & H); try done.
  exists b, ck1. split; [exact Eb|]. intros ck2 Hck. destruct (H ck2 Hck) as (sock' & b' & ck' & i & _ & _ & _ & Ec & Ei & Hsh).
  exists b', ck', i. split; [exact Ec|]. split; [exact Ei|]. intros t.
  destruct (Hsh t) as (b'' & l & a & ack & Et & Hth & [Hses Hmio _ _] & [_ Htx _ Ha (props & -> & Hrm) _]).
  exists b'', (set_loop l (new_thread config i).1), (new_thread config i).2, l, a, props. split; [exact Et|]. split; [exact Hth|]. by split_and!.
Qed.

(** C1. From the bytes a client writes to the bytes it gets.  A client whose stream is a
    CONNECT and [N] PINGREQ, in whatever pieces, and who does not reset the connection, is handed to its shard as in
    [client_served]; the miot thread of the shard takes what the handshake has left of its
    connection; and from then on, however the two threads alternate, what the client has
    got is a part from the front of the CONNACK of its session and [N] PINGRESP, as long
    as its connection is there: no ping and no answer is lost, repeated or overtaken. *)
Theorem client_pings `{sys : System} `{!Responsive sys} cityhash parse cpus cn node uuid config ck c clean bs sock N :
  let pkt := to_connect c clean in
  let id := ClientID_from_connect uuid (cpl_client_id (connect_payload pkt)) in
  let max := Connect_max_packet_size pkt (1024 * 1024) in
  sound_config config → sound_limits config → wf_string uuid → cpus < 2 ^ 16 → parse (cn_uuid cn) = Some node →
  wf_Client c → encoded Packet_ (Pkt_Connect pkt) = Ok bs → len bs ≤ mqtt_max_packet_size config → 2 ≤ max →
  rd_bytes (tcp_rd sock) = bs ++ mjoin (replicate N ping_bytes) → ok_reader (tcp_rd sock) → is_bytes (rd_bytes (tcp_rd sock)) → peer_stays sock →
  ∃ b ck1, broker_start cityhash parse cpus [cn] config ck = Ok (b, ck1)
    ∧ ∀ ck2,
      (∀ i, (i ≤ rd_size (tcp_rd sock))%nat →
         ck_time ck2 (S (ck_reads ck2) + i) < ck_time ck2 (ck_reads ck2) + from_secs (sock_mqtt_connect_timeout config)) →
      ∃ sock' b' ck' i, handshake config sock ck2 = Ok (HandOver pkt, sock', ck')
        ∧ broker_connect cityhash uuid sock b ck2 = Ok (HandOver pkt, b', ck')
        ∧ ∀ t, ∃ b'' thread msg_rx l a ack, broker_shard t i b' = Ok (false, b'')
          ∧ br_threads b'' !! Z.to_nat i = Some (thread, msg_rx)
          ∧ sh_inner thread = SI_MainActive l ∧ session_of l id = Some a ∧ ch_items (tx (miot_tx a)) = [Pkt_ConnAck ack]
          ∧ ∀ w ch, ch_open ch = true →
            ∃ m, handle_add_connection (add_connection_args id sock' a) (Miot_spawn i config ch) = Ok (MiotOk, m)
              ∧ ∀ L, rtc line_step (MkLine m w thread msg_rx) L →
                ∃ ml, mi_inner (ln_miot L) = MI_Main ml
                  ∧ ∀ so, bt_get str_cmp id (conns ml) = Some so →
                    wr_sent (tcp_wr (so_conn so)) `prefix_of`
                      wr_sent (tcp_wr sock) ++ blob max (Pkt_ConnAck ack) ++ mjoin (replicate N pong_bytes)
                    ∧ ∃ waiting unread answered, (waiting + unread + answered = N)%nat
                      ∧ upstream (so_rd so) = replicate waiting Pkt_PingReq
                      ∧ socket_stream so = mjoin (replicate unread ping_bytes)
                      ∧ ∀ w, outgoing max (wt_env_of so w)
                          = wr_sent (tcp_wr sock) ++ blob max (Pkt_ConnAck ack) ++ mjoin (replicate answered pong_bytes).
Proof.
  intros pkt id max Hc Hlim Hu Hcpus Hparse Hwf E Hmax Hmax2 Hs Hok Hb Hpeer.
  destruct (broker_serves cityhash parse cpus cn node uuid config ck c clean bs sock (mjoin (replicate N ping_bytes)))
    as (b & ck1 & Eb & H); try done.
  exists b, ck1. split; [exact Eb|]. intros ck2 Hck. destruct (H ck2 Hck) as (sock' & b' & ck' & i & Eh & Hwr & Hrd & Ec & _ & Hsh).
  exists sock', b', ck', i. split; [exact Eh|]. split; [exact Ec|]. intros t.
  destruct (Hsh t) as (b'' & l & a & ack & Et & Hth & [Hses Hmio Hbt [Hbl Hix]] & [(n & Hrx) Htx Hcon Ha _ Hack]).
  exists b'', (set_loop l (new_thread config i).1), (new_thread config i).2, l, a, ack. split; [exact Et|]. split; [exact Hth|]. split; [done|].
  split; [by rewrite Hses, decide_True|]. split; [exact Htx|]. intros w ch Hch.
  set (args := add_connection_args id sock' a). assert (ac_max_packet_size args = max) as Eargs by (cbn; by rewrite Hcon).
  destruct (new_line i config ch w (set_loop l (new_thread config i).1) (new_thread config i).2 l id sock' a (Pkt_ConnAck ack) n N)
    as (m & ml0 & Em & HL & HA); try done; [by rewrite Hses, decide_True|apply Hack; [done|by apply to_connect_wf|done]|by apply Hpeer|].
  exists m. split; [exact Em|]. intros L HLs. fold args in HA. rewrite Eargs, Hwr in HA.
  destruct (steps_account max _ N _ L ml0 l id Hmax2 HLs HL HA) as (ml & al & HL' & Hso).
  exists ml. split; [apply HL'|]. intros so Eso. destruct (Hso so Eso) as (Hpre & wt & un & an & HN & Hup & Hst & Hout).
  split; [by rewrite app_assoc|]. exists wt, un, an. split_and!; try done. intros w'. by rewrite Hout, app_assoc.
Qed.

(** ** Witnesses

    The client of Handshake, whose CONNECT comes in pieces, and a node with two shards. *)

Lemma ex_sound_config : sound_config (Config_default 2).
Proof. split; by repeat split. Qed.

Lemma client_served_witness :
  ∃ b ck1, broker_start (sys := ex_os) (λ _, 6) (λ _, Some 5) 4 [MkConfigNode [] (SA_V4 [0; 0; 0; 0] 1883) [] (Some 1)]
      (Config_default 2) (MkClock (λ i, Z.of_nat i) 0) = Ok (b, ck1)
    ∧ ∃ b' ck' shard_id, broker_connect (sys := ex_os) (λ _, 6) [117] ex_stream b (MkClock (λ i, Z.of_nat i) 0)
        = Ok (HandOver (to_connect ex_client true), b', ck')
      ∧ ∃ b'', broker_shard (sys := ex_os) 0 shard_id b' = Ok (false, b'').
Proof.
  destruct (client_served (sys := ex_os) (λ _, 6) (λ _, Some 5) 4 (MkConfigNode [] (SA_V4 [0; 0; 0; 0] 1883) [] (Some 1)) 5 [117]
    (Config_default 2) (MkClock (λ i, Z.of_nat i) 0) ex_client true ex_connect_bytes ex_stream [192; 0])
    as (b & ck1 & Eb & Hc);
    [exact ex_sound_config|done|done|apply ex_client_wf|exact ex_connect_encoded|done|reflexivity|by repeat constructor..|].
  exists b, ck1. split; [exact Eb|]. destruct (Hc (MkClock (λ i, Z.of_nat i) 0)) as (b' & ck' & i & Ec & _ & Hs).
  { intros i Hi. change (rd_size (tcp_rd ex_stream)) with 39%nat in Hi.
    replace (ck_time _ _ + from_secs (sock_mqtt_connect_timeout (Config_default 2))) with 5000000000 by (lazy; done).
    cbn [ck_time ck_reads]. lia. }
  exists b', ck', i. split; [exact Ec|]. destruct (Hs 0) as (b'' & th & rx & l & a & props & Es & _). by exists b''.
Defined.

Lemma ex_sound_limits : sound_limits (Config_default 2).
Proof. split; repeat constructor; done. Qed.

(** The same client, with one ping behind its CONNECT *)
Lemma client_pings_witness :
  ∃ b ck1, broker_start (sys := ex_os) (λ _, 6) (λ _, Some 5) 4 [MkConfigNode [] (SA_V4 [0; 0; 0; 0] 1883) [] (Some 1)]
      (Config_default 2) (MkClock (λ i, Z.of_nat i) 0) = Ok (b, ck1)
    ∧ ∃ sock' b' ck' i, broker_connect (sys := ex_os) (λ _, 6) [117] ex_stream b (MkClock (λ i, Z.of_nat i) 0)
        = Ok (HandOver (to_connect ex_client true), b', ck')
      ∧ ∃ b'' a m, broker_shard (sys := ex_os) 0 i b' = Ok (false, b'')
        ∧ handle_add_connection (sys := ex_os) (add_connection_args (ClientID_from_connect [117] (cpl_client_id (cl_connect_payload ex_client)))
            sock' a) (Miot_spawn i (Config_default 2) (MkChannel [] 0 true)) = Ok (MiotOk, m).
Proof.
  destruct (client_pings (sys := ex_os) (λ _, 6) (λ _, Some 5) 4 (MkConfigNode [] (SA_V4 [0; 0; 0; 0] 1883) [] (Some 1)) 5 [117]
    (Config_default 2) (MkClock (λ i, Z.of_nat i) 0) ex_client true ex_connect_bytes ex_stream 1)
    as (b & ck1 & Eb & Hc);
    [exact ex_sound_config|exact ex_sound_limits|apply Forall_singleton; unfold is_char; lia|done|done|apply ex_client_wf|exact ex_connect_encoded|done|done
    |reflexivity|by repeat constructor..|].
  exists b, ck1. split; [exact Eb|]. destruct (Hc (MkClock (λ i, Z.of_nat i) 0)) as (sock' & b' & ck' & i & _ & Ec & Hs).
  { intros i Hi. change (rd_size (tcp_rd ex_stream)) with 39%nat in Hi.
    replace (ck_time _ _ + from_secs (sock_mqtt_connect_timeout (Config_default 2))) with 5000000000 by (lazy; done).
    cbn [ck_time ck_reads]. lia. }
  exists sock', b', ck', i. split; [exact Ec|]. destruct (Hs 0) as (b'' & th & rx & l & a & ack & Es & _ & _ & _ & _ & Hm).
  destruct (Hm ex_world (MkChannel [] 0 true) eq_refl) as (m & Em & _). by exists b'', a, m.
Defined.
