(* ===== verification/Handles.v ===== *)
(** * Handles of threads (src/src/broker/)

    The calls that one thread makes on the handle of another: [Tx::request] and
    [Tx::request_with] (thread.rs), and what miot.rs, cluster.rs, flush.rs, listener.rs
    and ticker.rs build on them.  The handle of a shard is in ShardSpawn.

    [answer] is what the thread sends back for a request, [None] when it ends before it
    does; [wakes] says whether the waker of the thread works. *)
From S2P Require Import Prelude Errors Utf8 V5Publish Framing Queues Threads SortedVec BTree Config Socket Miot MiotProps Flush Shard Ticker Listener Cluster.
Local Open Scope Z_scope.

(** ** Requests *)

Section request.
Context {Q R : Type} (wakes : bool) (answer : Q → option R).

(** [Tx::request]: the answer, and the channel with the request in it. *)
Definition Tx_request (request : Q) (ch : channel (Q * bool)) : Result (R * channel (Q * bool)) :=
  ch ← post_request wakes (request, true) ch;
  match answer request with
  | Some resp => Ok (resp, ch)
  | None => err_try EK_IPCFail
  end.

(** [Tx::request_with]: the answer goes elsewhere. *)
Definition Tx_request_with (request : Q) (ch : channel (Q * bool)) : Result (channel (Q * bool)) :=
  post_request wakes (request, true) ch.
End request.

(** [thrd.request(Request::Close).ok(); thrd.close_wait()]: whatever becomes of the
    request, the call waits for the thread to end. *)
Definition request_and_join {T} (joined : option T) (t : Thread) : Result T :=
  '(thread_val, t) ← Thread_close_wait joined t;
  _ ← drop_Thread t;
  Ok thread_val.

(** ** The miot thread *)

Section miot.
Context (wakes : bool) (answer : MiotRequest → option (Result MiotResponse)).

(** [allow_panic!(self, waker.wake())]; the waker is in the handle only. *)
Definition Miot_wake (m : Miot) : Result () :=
  match mi_inner m with MI_Handle => if wakes then Ok () else Panic | _ => Panic end.

Definition Miot_add_connection (args : AddConnectionArgs) (m : Miot) (ch : channel (MiotRequest * bool))
    : Result (channel (MiotRequest * bool)) :=
  match mi_inner m with
  | MI_Handle =>
      '(resp, ch) ← Tx_request wakes answer (AddConnection args) ch;
      resp ← resp;
      match resp with MiotOk => Ok ch | Removed _ => Panic end
  | _ => Panic
  end.

Definition Miot_remove_connection (id : rstring) (m : Miot) (ch : channel (MiotRequest * bool))
    : Result (option Socket * channel (MiotRequest * bool)) :=
  match mi_inner m with
  | MI_Handle =>
      '(resp, ch) ← Tx_request wakes answer (RemoveConnection id) ch;
      resp ← resp;
      match resp with Removed socket => Ok (Some socket, ch) | MiotOk => Ok (None, ch) end
  | _ => Panic
  end.

(** [close_wait]: [joined] is what the thread leaves, [None] when it panicked. *)
Definition Miot_close_wait (joined : option Miot) (t : Thread) (m : Miot) (ch : channel (MiotRequest * bool)) : Result Miot :=
  match mi_inner m with
  | MI_Handle =>
      match Tx_request wakes answer CloseMiot ch with
      | Ok (Ok MiotOk, _) => request_and_join joined t
      | _ => Panic
      end
  | _ => Panic
  end.
End miot.

(** ** The cluster *)

(** A handle for another thread *)
Definition Cluster_to_tx (c : Cluster) : Result Cluster :=
  match cl_inner c with CI_Handle | CI_Tx => Ok (MkCluster (cl_config c) CI_Tx) | _ => Panic end.

Section cluster.
Context (wakes : bool) (answer : ClusterRequest → option (Result ())).

Definition Cluster_wake (c : Cluster) : Result () :=
  match cl_inner c with CI_Tx => if wakes then Ok () else err_try EK_IOError | _ => Panic end.

Definition Cluster_add_connection (uuid : rstring) (sock : TcpStream) (pkt : V5Connect.Connect) (c : Cluster)
    (ch : channel (ClusterRequest * bool)) : Result (channel (ClusterRequest * bool)) :=
  match cl_inner c with
  | CI_Tx =>
      '(resp, ch) ← Tx_request wakes answer (AddClient uuid sock pkt) ch;
      _ ← resp;
      Ok ch
  | _ => Panic
  end.

Definition Cluster_set_retain_topic (publish : Publish) (c : Cluster) (ch : channel (ClusterRequest * bool))
    : Result (channel (ClusterRequest * bool)) :=
  match cl_inner c with
  | CI_Tx => post_request wakes (RetainTopic (SetRetainTopic publish), false) ch
  | _ => Panic
  end.

Definition Cluster_reset_retain_topic (topic_name : rstring) (c : Cluster) (ch : channel (ClusterRequest * bool))
    : Result (channel (ClusterRequest * bool)) :=
  match cl_inner c with
  | CI_Tx => post_request wakes (RetainTopic (ResetRetainTopic topic_name), false) ch
  | _ => Panic
  end.

Definition Cluster_close_wait (joined : option Cluster) (t : Thread) (c : Cluster) : Result Cluster :=
  match cl_inner c with CI_Handle => request_and_join joined t | _ => Panic end.
End cluster.

(** ** The flusher, the listener and the ticker *)

Definition Flusher_to_tx (f : FlushInner) : Result FlushInner :=
  match f with FI_Handle | FI_Tx => Ok FI_Tx | _ => Panic end.

(** The answer has no connection in it. *)
Definition Flusher_flush_connection (wakes : bool) (answer : FlushRequest → option (Result ()))
    (socket : Socket) (err : option Error) (f : FlushInner) (ch : channel (FlushRequest * bool))
    : Result (channel (FlushRequest * bool)) :=
  match f with
  | FI_Handle | FI_Tx =>
      '(resp, ch) ← Tx_request wakes answer (FlushConnection socket err) ch;
      _ ← resp;
      Ok ch
  | _ => Panic
  end.

Definition Flusher_close_wait (joined : option FlushInner) (t : Thread) (f : FlushInner) : Result FlushInner :=
  match f with FI_Handle => request_and_join joined t | _ => Panic end.
Definition Listener_close_wait (joined : option Listener) (t : Thread) (s : Listener) : Result Listener :=
  match li_inner s with LI_Handle => request_and_join joined t | _ => Panic end.
Definition Ticker_close_wait (joined : option TickerInner) (t : Thread) (k : TickerInner) : Result TickerInner :=
  match k with TKI_Handle => request_and_join joined t | _ => Panic end.

(** ** Theorems *)

(** A request to a thread that is there is in its channel, and its answer comes back;
    when the thread ends before it answers, or has ended, the call fails. *)
Lemma Tx_request_spec {Q R} wakes (answer : Q → option R) req ch :
  Tx_request wakes answer req ch
  = if ch_open ch then
      if wakes then
        match answer req with
        | Some resp => Ok (resp, MkChannel (ch_items ch ++ [(req, true)]) (ch_size ch) (ch_open ch))
        | None => err_try EK_IPCFail
        end
      else err_try EK_IOError
    else err_try EK_IPCFail.
Proof. unfold Tx_request, post_request. destruct (ch_open ch); [|done]. destruct wakes; [|done]. run. by destruct (answer req). Qed.

(** Closing waits for the thread whatever it answers: the call ends with what the thread
    leaves, or in its panic. *)
Lemma request_and_join_spec {T} (joined : option T) t :
  th_handle t = true →
  request_and_join joined t = match joined with Some v => Ok v | None => Panic end.
Proof. intros Ht. unfold request_and_join, Thread_close_wait. rewrite Ht. by destruct joined. Qed.

Section answers.
Context `{sys : System}.

(** What a miot thread in state [m] answers *)
Definition miot_answer (m : Miot) (req : MiotRequest) : option (Result MiotResponse) :=
  let sent r := match r with Ok (resp, _) => Some (Ok resp) | _ => None end in
  match req with
  | AddConnection args => sent (handle_add_connection args m)
  | RemoveConnection id => sent (handle_remove_connection id m)
  | CloseMiot => sent (handle_close_miot m)
  end.

(** [request] on a channel that is open *)
Definition with_request {Q} (req : Q) (ch : channel (Q * bool)) : channel (Q * bool) :=
  MkChannel (ch_items ch ++ [(req, true)]) (ch_size ch) (ch_open ch).

(** The calls on the handle of a miot thread against its handlers: an answer never runs
    into [unreachable!], a connection that is taken back is the one the thread had under
    the identifier, and closing gives what the thread leaves. *)
Lemma miot_calls_answered m h ch :
  mi_inner h = MI_Handle → ch_open ch = true →
  (∀ args r m', handle_add_connection args m = Ok (r, m') →
    Miot_add_connection true (miot_answer m) args h ch = Ok (with_request (AddConnection args) ch))
  ∧ (∀ id r m' l, run_loop m = Ok l → handle_remove_connection id m = Ok (r, m') →
      Miot_remove_connection true (miot_answer m) id h ch
      = Ok (bt_get str_cmp id (conns l), with_request (RemoveConnection id) ch))
  ∧ (∀ t r m', th_handle t = true → handle_close_miot m = Ok (r, m') →
      Miot_close_wait true (miot_answer m) (Some m') t h ch = Ok m').
Proof.
  intros Hh Ho. unfold with_request. rewrite Ho. split_and!.
  - intros args r m' E. unfold Miot_add_connection. rewrite Hh, Tx_request_spec, Ho. cbn [miot_answer]. rewrite E; run.
    unfold handle_add_connection in E. revert E. destruct (opt_unwrap _); try done. run.
    destruct (run_loop m) as [l| | |]; try done. run. destruct (register _ _); [|done]. by intros [= <- _].
  - intros id r m' l El E. unfold Miot_remove_connection. rewrite Hh, Tx_request_spec, Ho. cbn [miot_answer]. rewrite E; run.
    revert E. unfold handle_remove_connection. rewrite El; run.
    destruct (bt_get str_cmp id (conns l)) as [socket|]; [|by intros [= <- _]].
    destruct (set_conns _ _); try done. run. destruct (opt_unwrap _); try done. run.
    destruct (deregister _); [|done]. by intros [= <- _].
  - intros t r m' Ht E. unfold Miot_close_wait. rewrite Hh, Tx_request_spec, Ho. cbn [miot_answer]. rewrite E.
    revert E. unfold handle_close_miot. destruct (run_loop m) as [l| | |]; try done. run.
    destruct (mapM_out _ _) as [addrs| | |]; try done. run. intros [= <- _]. by rewrite request_and_join_spec.
Qed.

(** C39. What a shard lends to its miot thread it gets back: a connection that is added and
    then removed under its identifier is the one it was, and the other connections of
    the thread are as they were. *)
Theorem lend_and_take_back m l args m1 h ch ch' :
  wf_loop l → run_loop m = Ok l → mi_inner h = MI_Handle → ch_open ch = true → ch_open ch' = true →
  handle_add_connection args m = Ok (MiotOk, m1) → deregister (ac_conn args) = true →
  ∃ socket m2, Miot_remove_connection true (miot_answer m1) (ac_client_id args) h ch'
      = Ok (Some socket, with_request (RemoveConnection (ac_client_id args)) ch')
    ∧ Miot_add_connection true (miot_answer m) args h ch = Ok (with_request (AddConnection args) ch)
    ∧ so_client_id socket = ac_client_id args ∧ so_conn socket = ac_conn args
    ∧ handle_remove_connection (ac_client_id args) m1 = Ok (Removed socket, m2)
    ∧ ∃ l2, run_loop m2 = Ok l2
        ∧ ∀ id, bt_get str_cmp id (conns l2) = if decide (id = ac_client_id args) then None else bt_get str_cmp id (conns l).
Proof.
  intros Hwf El Hh Ho Ho' Eadd Hdereg.
  destruct (miot_calls_answered m h ch Hh Ho) as (Hadd & _ & _).
  destruct (miot_calls_answered m1 h ch' Hh Ho') as (_ & Hrem & _).
  pose proof (Hadd _ _ _ Eadd) as E1. revert Eadd. unfold handle_add_connection.
  destruct (peer_addr (ac_conn args)) as [raddr|] eqn:Ep; cbn [opt_unwrap]; run; [|done]. rewrite El; run.
  destruct (register _ _); [|done]. set (socket := new_socket _ _ _). intros [= <-].
  set (l1 := MkMiotLoop _ _ _). set (m1 := set_run_loop l1 m) in *.
  assert (run_loop m1 = Ok l1) as El1 by done.
  assert (bt_get str_cmp (ac_client_id args) (conns l1) = Some socket) as Eg.
  { unfold l1; cbn [conns]. rewrite bt_get_str. by rewrite decide_True. }
  assert (handle_remove_connection (ac_client_id args) m1
      = Ok (Removed socket, set_run_loop (MkMiotLoop (next_token l1) (bt_remove str_cmp (ac_client_id args) (conns l1)) (mi_shard l1)) m1)) as Er.
  { unfold handle_remove_connection. rewrite El1; run. rewrite Eg. unfold set_conns. rewrite El1; run.
    change (so_conn socket) with (ac_conn args). rewrite Ep; run. cbn [opt_unwrap]; run. by rewrite Hdereg. }
  pose proof (Hrem _ _ _ _ El1 Er) as E2. rewrite Eg in E2.
  exists socket. eexists. split; [exact E2|]. split; [done|]. split; [done|]. split; [done|].
  split; [exact Er|]. eexists. split; [done|]. intros id. cbn [conns].
  rewrite (bt_get_remove str_cmp) by (apply (bt_insert_wf str_cmp), (wf_conns _ Hwf)). unfold l1; cbn [conns]. rewrite bt_get_str.
  destruct (decide (id = ac_client_id args)) as [->|Hne]; [by rewrite (proj2 (str_cmp_eq _ _) eq_refl)|].
  by destruct (str_cmp id (ac_client_id args)) eqn:E; [apply str_cmp_eq in E|..].
Qed.
End answers.

(** ** Witness: the shard of a thread with two clients lends it a third. *)

Definition ex_args : AddConnectionArgs :=
  MkAddConnectionArgs [99] (MkTcpStream [Rd_WouldBlock] (MkWriter [] []))
    (MkTx (MkChannel [] 2 true) 0) (MkRx 2 (MkChannel [] 2 true)) 100.
Definition ex_miot_handle : Miot := MkMiot 0 (Config_default 1) MI_Handle.

Lemma lend_and_take_back_witness :
  ∃ m1 socket, handle_add_connection (sys := ex_os) ex_args ex_miot = Ok (MiotOk, m1)
    ∧ Miot_remove_connection true (miot_answer (sys := ex_os) m1) [99] ex_miot_handle (MkChannel [] 0 true)
      = Ok (Some socket, MkChannel [(RemoveConnection [99], true)] 0 true)
    ∧ so_conn socket = ac_conn ex_args.
Proof.
  assert (∃ m1, handle_add_connection (sys := ex_os) ex_args ex_miot = Ok (MiotOk, m1)) as [m1 E] by (eexists; reflexivity).
  destruct (lend_and_take_back (sys := ex_os) ex_miot ex_miot_loop ex_args m1 ex_miot_handle (MkChannel [] 0 true) (MkChannel [] 0 true)
    ex_miot_loop_wf eq_refl eq_refl eq_refl eq_refl E eq_refl) as (socket & m2 & Er & _ & _ & Hc & _).
  exists m1, socket. exact (conj E (conj Er Hc)).
Defined.
