(* ===== verification/Reports.v ===== *)
(** * What the threads report (src/src/broker/, v5/publish.rs)

    The names, states and statistics that the threads write to the log and return from
    [to_config_json] and [to_stats_json] (trait [ToJson], src/src/lib.rs), and the
    counters behind them.  The states are those of the files of the threads; the counters
    are kept here: [stage] has the states in which a thread counts. *)
From S2P Require Import Prelude Errors Utf8 Text Format Types V5Publish Framing Queues Config Message Socket Spinlock Session Miot Flush Shard Ticker Listener Cluster.
Local Open Scope Z_scope.

(** The keys of a report and the numbers to go with them, as arguments of [format]. *)
Fixpoint report_args (ms : list (string * Z)) : list fmt_arg :=
  match ms with [] => [] | (k, v) :: ms => A_Str (chars k) :: A_Int v :: report_args ms end.

(** ** Names of threads

    [prefix]: the kind of the thread, the name in the configuration, and the state. *)

Definition Listener_prefix (s : Listener) : rstring :=
  let state := match li_inner s with
               | LI_Init => "init" | LI_Handle => "hndl" | LI_Main _ => "main" | LI_Close _ => "close"
               end in
  format "<l:{}:{}>" [A_Str (cf_name (li_config s)); A_Str (chars state)].

Definition Miot_prefix (m : Miot) : rstring :=
  let state := match mi_inner m with
               | MI_Init => "init" | MI_Handle => "hndl" | MI_Main _ => "main" | MI_Close _ => "close"
               end in
  format "<m:{}:{}>" [A_Str (cf_name (mi_config m)); A_Str (chars state)].

Definition Flusher_prefix (config : Config) (f : FlushInner) : rstring :=
  let state := match f with
               | FI_Init => "init" | FI_Handle => "hndl" | FI_Tx => "tx" | FI_Main _ => "main" | FI_Close _ => "close"
               end in
  format "<f:{}:{}>" [A_Str (cf_name config); A_Str (chars state)].

Definition Ticker_prefix (config : Config) (t : TickerInner) : rstring :=
  let state := match t with
               | TKI_Init => "init" | TKI_Handle => "hndl" | TKI_Main _ => "main" | TKI_Close _ => "close"
               end in
  format "<t:{}:{}>" [A_Str (cf_name config); A_Str (chars state)].

Definition Cluster_prefix (c : Cluster) : rstring :=
  let state := match cl_inner c with
               | CI_Init => "init" | CI_Handle => "hndl" | CI_Tx => "tx" | CI_Main _ => "main" | CI_Close _ => "close"
               end in
  format "<c:{}:{}>" [A_Str (cf_name (cl_config c)); A_Str (chars state)].

Definition Shard_prefix (s : Shard) : rstring :=
  let state := match sh_inner s with
               | SI_Init => "init" | SI_Handle => "hndl" | SI_Tx => "tx" | SI_MsgTx _ => "msgtx"
               | SI_MainActive _ => "active" | SI_MainReplica _ => "replica" | SI_Close _ => "close"
               end in
  format "<s:{}:{}:{}>" [A_Str (cf_name (sh_config s)); A_Int (sh_shard_id s); A_Str (chars state)].

(** [Debug] of the states, for the messages of panics *)
Definition Listener_Inner_debug (i : ListenerInner) : rstring :=
  chars match i with
        | LI_Init => "Listener::Inner::Init" | LI_Handle => "Listener::Inner::Handle"
        | LI_Main _ => "Listener::Inner::Main" | LI_Close _ => "Listener::Inner::Close"
        end.

Definition Miot_Inner_debug (i : MiotInner) : rstring :=
  chars match i with
        | MI_Init => "Miot::Inner::Init" | MI_Handle => "Miot::Inner::Handle"
        | MI_Main _ => "Miot::Inner::Main" | MI_Close _ => "Miot::Inner::Close"
        end.

Definition Cluster_Inner_debug (i : ClusterInner) : rstring :=
  chars match i with
        | CI_Init => "Cluster::Inner::Init" | CI_Handle => "Cluster::Inner::Handle"
        | CI_Tx => "Cluster::Inner::Handle" | CI_Main _ => "Cluster::Inner::Main"
        | CI_Close _ => "Cluster::Inner::Close"
        end.

Definition Shard_Inner_debug (i : ShardInner) : rstring :=
  chars match i with
        | SI_Init => "Shard::Inner::Init" | SI_Handle => "Shard::Inner::Handle"
        | SI_Tx => "Shard::Inner::Handle" | SI_MsgTx _ => "Shard::Inner::Handle"
        | SI_MainActive _ => "Shard::Inner::MainActive" | SI_MainReplica _ => "Shard::Inner::MainReplica"
        | SI_Close _ => "Shard::Inner::Close"
        end.

Definition MQTTRead_debug (r : MQTTRead) : rstring :=
  chars match r with
        | MR_Init _ _ => "MQTTRead::Init" | MR_Header _ _ _ => "MQTTRead::Init" | MR_Remain _ _ _ _ => "MQTTRead::Remain"
        | MR_Fin _ _ _ _ => "MQTTRead::Fin" | MR_None => "MQTTRead::None"
        end.

Definition MQTTWrite_debug (w : MQTTWrite) : rstring :=
  chars match w with
        | MW_Init _ _ => "MQTTWrite::Init" | MW_Remain _ _ _ => "MQTTWrite::Remain"
        | MW_Fin _ _ => "MQTTWrite::Fin" | MW_None => "MQTTWrite::None"
        end.

Definition Message_debug (msg : Message) : rstring :=
  chars match msg with
        | Msg_ClientAck _ => "Message::ClientAck" | Msg_Packet _ _ _ => "Message::Packet"
        | Msg_Index _ _ => "Message::Index" | Msg_Routed _ _ _ _ _ _ => "Message::Routed"
        | Msg_LocalAck _ _ => "Message::LocalAck"
        end.

Definition SessionState_debug (st : SessionState) : rstring :=
  chars match st with
        | SS_Active _ => "SessionState::Active" | SS_Reconnect _ _ _ _ _ => "SessionState::Reconnect"
        | SS_Replica _ _ _ => "SessionState::Replica"
        end.

(** [Display] of a PUBLISH *)
Definition Publish_fmt (p : Publish) : rstring :=
  let packet_id := match publish_packet_id p with Some x => int_to_string x | None => chars "-" end in
  format "PUBLISH<{},packet_id:{}>" [A_Str (publish_topic_name p); A_Str packet_id].

(** The address the listener binds *)
Definition server_address (config : Config) : rstring := format "0.0.0.0:{}" [A_Int (cf_port config)].

(** ** Configurations *)

Definition Cluster_to_config_json (config : Config) : rstring :=
  format "{{ {:?}: {}, {:?}: {} }}" (report_args [("max_nodes", max_nodes config); ("num_shards", num_shards config)]).

Definition Flusher_to_config_json (config : Config) : rstring :=
  format "{{ {:?}: {}, {:?}: {} }}" (report_args
    [("sock_mqtt_flush_timeout", sock_mqtt_flush_timeout config); ("mqtt_max_packet_size", mqtt_max_packet_size config)]).

Definition Handshake_to_config_json (config : Config) : rstring :=
  format "{{ {:?}: {}, {:?}: {} }}" (report_args
    [("sock_mqtt_connect_timeout", sock_mqtt_connect_timeout config); ("mqtt_max_packet_size", mqtt_max_packet_size config)]).

Definition Listener_to_config_json (config : Config) : rstring :=
  format "{{ {:?}: {} }}" (report_args [("port", cf_port config)]).

Definition Miot_to_config_json (config : Config) : rstring :=
  format "{{ {:?}: {} }}" (report_args [("mqtt_max_packet_size", mqtt_max_packet_size config)]).

Definition Shard_to_config_json (config : Config) : rstring :=
  format "{{ {:?}: {}, {:?}: {} }}" (report_args
    [("num_shards", num_shards config); ("mqtt_pkt_batch_size", mqtt_pkt_batch_size config)]).

Definition Ticker_to_config_json : rstring := chars "".

(** ** Counters

    The states in which a thread counts: its loop, and after it has closed; the others
    have no statistics. *)
Inductive stage (S : Type) : Type :=
| St_Main (stats : S)
| St_Close (stats : S)
| St_Other.
Arguments St_Main {S} _.
Arguments St_Close {S} _.
Arguments St_Other {S}.

(** [a + b] of a [usize] *)
Definition usize_add (a b : Z) : Result Z := if a + b <? 2 ^ 64 then Ok (a + b) else Panic.

(** A counter that is for the loop, and one that goes on after a close. *)
Definition in_main {S} (f : S → Result S) (st : stage S) : Result (stage S) :=
  match st with St_Main s => s ← f s; Ok (St_Main s) | _ => Panic end.
Definition in_main_or_close {S} (f : S → Result S) (st : stage S) : Result (stage S) :=
  match st with
  | St_Main s => s ← f s; Ok (St_Main s)
  | St_Close s => s ← f s; Ok (St_Close s)
  | St_Other => Panic
  end.

(** [handle_close] takes the statistics along. *)
Definition close_stage {S} (st : stage S) : stage S :=
  match st with St_Main s | St_Close s => St_Close s | St_Other => St_Other end.

(** *** The listener *)
Record ListenerStats := MkListenerStats { ls_polls : Z; ls_events : Z; ls_requests : Z; ls_accepted : Z }.
#[export] Instance ListenerStats_eta : Eta ListenerStats :=
  λ s, MkListenerStats (ls_polls s) (ls_events s) (ls_requests s) (ls_accepted s).
Definition ListenerStats_default : ListenerStats := MkListenerStats 0 0 0 0.

Definition Listener_incr_n_polls : stage ListenerStats → Result (stage ListenerStats) :=
  in_main (λ s, n ← usize_add (ls_polls s) 1; Ok (s <| ls_polls := n |>)).
Definition Listener_incr_n_events (n : Z) : stage ListenerStats → Result (stage ListenerStats) :=
  in_main_or_close (λ s, n ← usize_add (ls_events s) n; Ok (s <| ls_events := n |>)).
Definition Listener_incr_n_requests (n : Z) : stage ListenerStats → Result (stage ListenerStats) :=
  in_main_or_close (λ s, n ← usize_add (ls_requests s) n; Ok (s <| ls_requests := n |>)).
(** The counter of [accept_conn] *)
Definition Listener_incr_n_accepted : stage ListenerStats → Result (stage ListenerStats) :=
  in_main (λ s, n ← usize_add (ls_accepted s) 1; Ok (s <| ls_accepted := n |>)).

Definition Listener_to_json (s : ListenerStats) : rstring :=
  format "{{ {:?}: {}, {:?}: {}, {:?}: {}, {:?}: {} }}" (report_args
    [("n_polls", ls_polls s); ("n_events", ls_events s); ("n_requests", ls_requests s); ("n_accepted", ls_accepted s)]).
Definition Listener_to_stats_json (st : stage ListenerStats) : Result rstring :=
  match st with St_Close s => Ok (Listener_to_json s) | _ => Panic end.

(** *** The miot thread *)
Record MiotStats := MkMiotStats {
  ms_polls : Z; ms_events : Z; ms_requests : Z; ms_add_conns : Z; ms_rem_conns : Z; ms_wpkts : Z; ms_wbytes : Z;
}.
#[export] Instance MiotStats_eta : Eta MiotStats :=
  λ s, MkMiotStats (ms_polls s) (ms_events s) (ms_requests s) (ms_add_conns s) (ms_rem_conns s) (ms_wpkts s) (ms_wbytes s).
Definition MiotStats_default : MiotStats := MkMiotStats 0 0 0 0 0 0 0.

Definition Miot_incr_n_polls : stage MiotStats → Result (stage MiotStats) :=
  in_main (λ s, n ← usize_add (ms_polls s) 1; Ok (s <| ms_polls := n |>)).
Definition Miot_incr_n_events (n : Z) : stage MiotStats → Result (stage MiotStats) :=
  in_main_or_close (λ s, n ← usize_add (ms_events s) n; Ok (s <| ms_events := n |>)).
Definition Miot_incr_n_requests (n : Z) : stage MiotStats → Result (stage MiotStats) :=
  in_main_or_close (λ s, n ← usize_add (ms_requests s) n; Ok (s <| ms_requests := n |>)).
Definition Miot_incr_n_add_conns : stage MiotStats → Result (stage MiotStats) :=
  in_main (λ s, n ← usize_add (ms_add_conns s) 1; Ok (s <| ms_add_conns := n |>)).
Definition Miot_incr_n_rem_conns : stage MiotStats → Result (stage MiotStats) :=
  in_main (λ s, n ← usize_add (ms_rem_conns s) 1; Ok (s <| ms_rem_conns := n |>)).
Definition Miot_incr_wstats (w : SockStats) : stage MiotStats → Result (stage MiotStats) :=
  in_main (λ s, n ← usize_add (ms_wpkts s) (items w);
                b ← usize_add (ms_wbytes s) (stat_bytes w);
                Ok (s <| ms_wpkts := n |> <| ms_wbytes := b |>)).

(** Its report goes with what is left of the thread, [MiotFin]. *)
Definition Miot_to_json (fin : MiotFin) (s : MiotStats) : rstring :=
  format "{{ {:?}: {}, {:?}: {}, {:?}: {}, {:?}: {}, {:?}: {}, {:?}: {},{:?}: {}, {:?}: {}}}" (report_args
    [("next_token", Z.of_nat (fin_next_token fin)); ("n_conns", Z.of_nat (length (client_ids fin)));
     ("n_polls", ms_polls s); ("n_events", ms_events s); ("n_add_conns", ms_add_conns s); ("n_rem_conns", ms_rem_conns s);
     ("n_wpkts", ms_wpkts s); ("n_wbytes", ms_wbytes s)]).
Definition Miot_to_stats_json (m : Miot) (s : MiotStats) : Result rstring :=
  match mi_inner m with MI_Close fin => Ok (Miot_to_json fin s) | _ => Panic end.

(** *** The flusher *)
Record FlusherStats := MkFlusherStats { fs_flush_conns : Z; fs_pkts : Z; fs_bytes : Z }.
#[export] Instance FlusherStats_eta : Eta FlusherStats := λ s, MkFlusherStats (fs_flush_conns s) (fs_pkts s) (fs_bytes s).
Definition FlusherStats_default : FlusherStats := MkFlusherStats 0 0 0.

Definition Flusher_incr_n_flush_conns : stage FlusherStats → Result (stage FlusherStats) :=
  in_main (λ s, n ← usize_add (fs_flush_conns s) 1; Ok (s <| fs_flush_conns := n |>)).
Definition Flusher_incr_stats (w : SockStats) : stage FlusherStats → Result (stage FlusherStats) :=
  in_main (λ s, n ← usize_add (fs_pkts s) (items w);
                b ← usize_add (fs_bytes s) (stat_bytes w);
                Ok (s <| fs_pkts := n |> <| fs_bytes := b |>)).

Definition Flusher_to_json (s : FlusherStats) : rstring :=
  format "{{ {:?}: {}, {:?}: {}, {:?}: {} }}" (report_args
    [("n_flush_conns", fs_flush_conns s); ("n_pkts", fs_pkts s); ("n_bytes", fs_bytes s)]).
Definition Flusher_to_stats_json : rstring := chars "{{}}".
Definition Handshake_to_stats_json : rstring := chars "{{}}".

(** *** Shards *)
Record ShardStats := MkShardStats { ss_events : Z; ss_requests : Z }.
#[export] Instance ShardStats_eta : Eta ShardStats := λ s, MkShardStats (ss_events s) (ss_requests s).
Definition ShardStats_default : ShardStats := MkShardStats 0 0.

Definition Shard_incr_n_events (n : Z) : stage ShardStats → Result (stage ShardStats) :=
  in_main_or_close (λ s, n ← usize_add (ss_events s) n; Ok (s <| ss_events := n |>)).
Definition Shard_incr_n_requests (n : Z) : stage ShardStats → Result (stage ShardStats) :=
  in_main_or_close (λ s, n ← usize_add (ss_requests s) n; Ok (s <| ss_requests := n |>)).

Definition Shard_to_json (fin : FinState) (s : ShardStats) : rstring :=
  format "{{ {:?}: {}, {:?}: {}, {:?}: {}, {:?}: {} }}" (report_args
    [("n_sessions", Z.of_nat (length (fin_sessions fin))); ("inp_seqno", fin_inp_seqno fin);
     ("n_events", ss_events s); ("n_requests", ss_requests s)]).
Definition Shard_to_stats_json : rstring := chars "{{}}".

(** *** The cluster *)
Record ClusterStats := MkClusterStats { cs_events : Z; cs_requests : Z }.
#[export] Instance ClusterStats_eta : Eta ClusterStats := λ s, MkClusterStats (cs_events s) (cs_requests s).
Definition ClusterStats_default : ClusterStats := MkClusterStats 0 0.

Definition Cluster_incr_n_events (n : Z) : stage ClusterStats → Result (stage ClusterStats) :=
  in_main_or_close (λ s, n ← usize_add (cs_events s) n; Ok (s <| cs_events := n |>)).
Definition Cluster_incr_n_requests (n : Z) : stage ClusterStats → Result (stage ClusterStats) :=
  in_main (λ s, n ← usize_add (cs_requests s) n; Ok (s <| cs_requests := n |>)).

Definition Cluster_to_json (s : ClusterStats) : rstring :=
  format "{{ {:?}: {}, {:?}: {} }}" (report_args [("n_events", cs_events s); ("n_requests", cs_requests s)]).
Definition Cluster_to_stats_json (c : Cluster) : rstring :=
  match cl_inner c with
  | CI_Main l => format "{{ {:?}: {} }}" (report_args [("active_shards", Z.of_nat (length (active_shards l)))])
  | _ => chars "{{}}"
  end.

(** *** The ticker, sockets and the spinlock *)

(** [Duration] in nanoseconds: [a - b] panics below zero, [as_secs] truncates. *)
Definition secs_between (a b : Z) : Result Z := if a <? b then Panic else Ok ((a - b) / 1000000000).

(** [epoch] is what has passed since 1970, on two calls; the instants are in
    nanoseconds of the clock that says [now], on two calls. *)
Definition Ticker_to_json (epoch epoch' now now' : Z) (fin : TickerFin) : Result rstring :=
  born ← secs_between epoch (now - tf_born fin);
  dead ← secs_between epoch' (now' - tf_dead fin);
  Ok (format "{{ {:?}: {}, {:?}: {}, {:?}: {} }}" (report_args
    [("born", born); ("ticket_count", tf_ticker_count fin); ("dead", dead)])).
Definition Ticker_to_stats_json (epoch epoch' now now' : Z) (t : TickerInner) : Result rstring :=
  match t with TKI_Close fin => Ticker_to_json epoch epoch' now now' fin | _ => Panic end.

Definition SockStats_to_json (s : SockStats) : rstring :=
  format "{{ {:?}: {}, {:?}: {} }}" (report_args [("items", items s); ("bytes", stat_bytes s)]).

(** [Stats] of the spinlock, and its [Display] *)
Record SpinStats := MkSpinStats { sp_latchlock : Z; sp_read_locks : Z; sp_write_locks : Z; sp_conflicts : Z }.
Definition SpinStats_fmt (s : SpinStats) : rstring :=
  format "{{ latchlock = {:X}, read_locks = {}, write_locks = {}, conflicts = {} }}"
    [A_Int (sp_latchlock s); A_Int (sp_read_locks s); A_Int (sp_write_locks s); A_Int (sp_conflicts s)].

(** ** The reports are JSON

    A report promises a text and the members it stands for. *)
Definition is_usize (n : Z) : Prop := 0 ≤ n < 2 ^ 64.
Class Report (A : Type) := {
  report_text : A → rstring;
  report_members : A → list (rstring * Z);
  report_reads a : Forall (λ m, is_usize m.2) (report_members a) → json_object (report_text a) = Some (report_members a);
}.

(** Members from keys that the source has as literals *)
Definition members (ms : list (string * Z)) : list (rstring * Z) := (λ m, (chars m.1, m.2)) <$> ms.

#[local] Instance plain_key_dec k : Decision (plain_key k).
Proof. unfold plain_key. apply _. Defined.

Lemma members_readable ms :
  Forall plain_key (chars <$> ms.*1) → Forall (λ m, is_usize m.2) (members ms) → Forall readable (members ms).
Proof.
  induction ms as [|[k v] ms IH]; [done|]. intros [Hk Hks]%Forall_cons [Hv Hvs]%Forall_cons. constructor; [done|by apply IH].
Qed.

(** The text of a report is a template with the members put in: what is left to show is
    that each key is followed by its number and a separator. *)
#[local] Arguments int_to_string : simpl never.
Ltac report_layout :=
  lazymatch goal with
  | |- object_text [(?k, ?v)] _ => first [apply (object_last k v (chars " }")) | apply (object_last k v (chars "}"))]; set_solver
  | |- object_text ((?k, ?v) :: _) _ =>
      first [eapply (object_more k v (chars ", ")) | eapply (object_more k v (chars ","))]; [set_solver|report_layout]
  end.
Ltac report_json :=
  intros; match goal with |- json_object ?t = Some ?ms => apply (json_object_text ms (drop 2 t)) end;
  [cbv [members fmap list_fmap fst snd]; report_layout
  |apply members_readable; [apply (bool_decide_unpack _); lazy; exact I|done]].

#[export, refine] Instance ListenerStats_report : Report ListenerStats := {|
  report_text := Listener_to_json;
  report_members s := members
    [("n_polls", ls_polls s); ("n_events", ls_events s); ("n_requests", ls_requests s); ("n_accepted", ls_accepted s)];
|}.
Proof. report_json. Defined.

(** The requests of a miot thread are counted, but are not in its report. *)
#[export, refine] Instance MiotStats_report : Report (MiotFin * MiotStats) := {|
  report_text r := Miot_to_json r.1 r.2;
  report_members r := members
    [("next_token", Z.of_nat (fin_next_token r.1)); ("n_conns", Z.of_nat (length (client_ids r.1)));
     ("n_polls", ms_polls r.2); ("n_events", ms_events r.2); ("n_add_conns", ms_add_conns r.2);
     ("n_rem_conns", ms_rem_conns r.2); ("n_wpkts", ms_wpkts r.2); ("n_wbytes", ms_wbytes r.2)];
|}.
Proof. report_json. Defined.

#[export, refine] Instance FlusherStats_report : Report FlusherStats := {|
  report_text := Flusher_to_json;
  report_members s := members [("n_flush_conns", fs_flush_conns s); ("n_pkts", fs_pkts s); ("n_bytes", fs_bytes s)];
|}.
Proof. report_json. Defined.

#[export, refine] Instance ShardStats_report : Report (FinState * ShardStats) := {|
  report_text r := Shard_to_json r.1 r.2;
  report_members r := members
    [("n_sessions", Z.of_nat (length (fin_sessions r.1))); ("inp_seqno", fin_inp_seqno r.1);
     ("n_events", ss_events r.2); ("n_requests", ss_requests r.2)];
|}.
Proof. report_json. Defined.

#[export, refine] Instance ClusterStats_report : Report ClusterStats := {|
  report_text := Cluster_to_json;
  report_members s := members [("n_events", cs_events s); ("n_requests", cs_requests s)];
|}.
Proof. report_json. Defined.

#[export, refine] Instance SockStats_report : Report SockStats := {|
  report_text := SockStats_to_json;
  report_members s := members [("items", items s); ("bytes", stat_bytes s)];
|}.
Proof. report_json. Defined.

(** *** Configurations

    Each kind of thread reports the values it goes by; the ticker reports nothing. *)
Inductive config_report : Set := CR_Cluster | CR_Flusher | CR_Handshake | CR_Listener | CR_Miot | CR_Shard.

#[export, refine] Instance Config_report : Report (config_report * Config) := {|
  report_text r :=
    match r.1 with
    | CR_Cluster => Cluster_to_config_json | CR_Flusher => Flusher_to_config_json
    | CR_Handshake => Handshake_to_config_json | CR_Listener => Listener_to_config_json
    | CR_Miot => Miot_to_config_json | CR_Shard => Shard_to_config_json
    end r.2;
  report_members '(kind, c) := members
    match kind with
    | CR_Cluster => [("max_nodes", max_nodes c); ("num_shards", num_shards c)]
    | CR_Flusher => [("sock_mqtt_flush_timeout", sock_mqtt_flush_timeout c); ("mqtt_max_packet_size", mqtt_max_packet_size c)]
    | CR_Handshake =>
        [("sock_mqtt_connect_timeout", sock_mqtt_connect_timeout c); ("mqtt_max_packet_size", mqtt_max_packet_size c)]
    | CR_Listener => [("port", cf_port c)]
    | CR_Miot => [("mqtt_max_packet_size", mqtt_max_packet_size c)]
    | CR_Shard => [("num_shards", num_shards c); ("mqtt_pkt_batch_size", mqtt_pkt_batch_size c)]
    end;
|}.
Proof. intros [[] c] Hms; revert Hms; report_json. Defined.

(** ** The counters add up

    [bump call] is the effect of a call that counts, [adds call] what it adds to each
    counter.  A call in the loop adds that, or panics when a counter overflows. *)
Class Counters (Call St : Type) := {
  bump : stage St → Call → Result (stage St);
  counts : St → list Z;
  adds : Call → list Z;
  bump_main s call :
    Forall is_usize (counts s) → Forall (Z.le 0) (adds call) →
    let sum := zip_with Z.add (counts s) (adds call) in
    (Forall is_usize sum ∧ ∃ s', bump (St_Main s) call = Ok (St_Main s') ∧ counts s' = sum)
    ∨ (¬ Forall is_usize sum ∧ bump (St_Main s) call = Panic);
}.

(** What the counters come to *)
Definition tally `{Counters Call St} (start : list Z) (calls : list Call) : list Z :=
  foldl (λ t call, zip_with Z.add t (adds call)) start calls.

Lemma sum_usize xs ys :
  Forall (Z.le 0) xs → Forall (Z.le 0) ys → (length xs ≤ length ys)%nat →
  Forall is_usize (zip_with Z.add xs ys) → Forall is_usize xs.
Proof.
  intros Hx. revert ys. induction Hx as [|x xs H0 Hx IH]; intros [|y ys] Hy Hl Hs; cbn in *; try lia; [done|done|].
  apply Forall_cons in Hy as [Hy Hys]. apply Forall_cons in Hs as [Hs Hss]. constructor; [unfold is_usize in *; lia|].
  apply (IH ys); [done|lia|done].
Qed.

Lemma sum_nonneg xs ys : Forall (Z.le 0) xs → Forall (Z.le 0) ys → Forall (Z.le 0) (zip_with Z.add xs ys).
Proof.
  intros Hx. revert ys. induction Hx as [|x xs H0 Hx IH]; intros [|y ys] Hy; cbn; try done.
  apply Forall_cons in Hy as [Hy Hys]. constructor; [lia|by apply IH].
Qed.

(** A call that adds to [k] counters, none of it negative *)
Definition call_ok `{Counters Call St} (k : nat) (call : Call) : Prop := length (adds call) = k ∧ Forall (Z.le 0) (adds call).

Lemma tally_shape `{Counters Call St} k start calls :
  Forall (call_ok k) calls → length start = k → Forall (Z.le 0) start →
  length (tally start calls) = k ∧ Forall (Z.le 0) (tally start calls).
Proof.
  intros Hc Hl Hs. revert start Hl Hs. induction Hc as [|call calls [Hk Hp] Hc IH]; intros start Hl Hs; [done|].
  cbn. apply IH; [rewrite length_zip_with; lia|by apply sum_nonneg].
Qed.

Lemma counters_add_up `{Counters Call St} k s calls :
  Forall is_usize (counts s) → length (counts s) = k → Forall (call_ok k) calls →
  (Forall is_usize (tally (counts s) calls)
    ∧ ∃ s', foldM bump (St_Main s) calls = Ok (St_Main s') ∧ counts s' = tally (counts s) calls)
  ∨ (¬ Forall is_usize (tally (counts s) calls) ∧ foldM bump (St_Main s) calls = Panic).
Proof.
  intros Hs Hl. assert (Forall (Z.le 0) (counts s)) as H0 by (eapply Forall_impl; [exact Hs|intros ? []; done]).
  induction calls as [|call calls IH] using rev_ind; intros Hc; [left; split; [done|by exists s]|].
  apply Forall_app in Hc as [Hc [[Hk Hp] _]%Forall_cons].
  destruct (tally_shape k (counts s) calls Hc Hl H0) as [Htl Ht0].
  rewrite foldM_app. unfold tally. rewrite foldl_app. fold (tally (counts s) calls). cbn [foldl foldM].
  destruct (IH Hc) as [(Ht & s' & -> & Es)|[Ht ->]]; cbn [mbind outcome_bind].
  - rewrite <-Es in Ht |- *. destruct (bump_main s' call Ht Hp) as [(Hsum & s2 & -> & E2)|[Hsum ->]]; [left|by right].
    split; [done|by exists s2].
  - right. split; [|done]. intros Hsum. apply Ht, (sum_usize _ (adds call)); [done|done|lia|done].
Qed.

(** [usize_add] in one of the counters *)
Ltac bump_cases :=
  intros s call Hs Hc; cbv zeta; destruct call; cbn in Hs, Hc |- *; unfold usize_add;
  repeat match goal with |- context [?a <? 2 ^ 64] => destruct (Z.ltb_spec a (2 ^ 64)) end; cbn;
  decompose_Forall_hyps; unfold is_usize in *;
  first [left; split; [repeat constructor; lia|eexists; split; [done|cbn; repeat f_equal; lia]]
        |right; split; [intros ?; decompose_Forall_hyps; lia|done]].

Inductive listener_call : Set := LC_Poll | LC_Events (n : Z) | LC_Requests (n : Z) | LC_Accepted.
#[export, refine] Instance Listener_counters : Counters listener_call ListenerStats := {|
  bump st call :=
    match call with
    | LC_Poll => Listener_incr_n_polls st | LC_Events n => Listener_incr_n_events n st
    | LC_Requests n => Listener_incr_n_requests n st | LC_Accepted => Listener_incr_n_accepted st
    end;
  counts s := [ls_polls s; ls_events s; ls_requests s; ls_accepted s];
  adds call :=
    match call with
    | LC_Poll => [1; 0; 0; 0] | LC_Events n => [0; n; 0; 0] | LC_Requests n => [0; 0; n; 0] | LC_Accepted => [0; 0; 0; 1]
    end;
|}.
Proof. bump_cases. Defined.

Inductive miot_call : Set :=
| MC_Poll | MC_Events (n : Z) | MC_Requests (n : Z) | MC_Add | MC_Remove | MC_Written (w : SockStats).
#[export, refine] Instance Miot_counters : Counters miot_call MiotStats := {|
  bump st call :=
    match call with
    | MC_Poll => Miot_incr_n_polls st | MC_Events n => Miot_incr_n_events n st | MC_Requests n => Miot_incr_n_requests n st
    | MC_Add => Miot_incr_n_add_conns st | MC_Remove => Miot_incr_n_rem_conns st | MC_Written w => Miot_incr_wstats w st
    end;
  counts s := [ms_polls s; ms_events s; ms_requests s; ms_add_conns s; ms_rem_conns s; ms_wpkts s; ms_wbytes s];
  adds call :=
    match call with
    | MC_Poll => [1; 0; 0; 0; 0; 0; 0] | MC_Events n => [0; n; 0; 0; 0; 0; 0] | MC_Requests n => [0; 0; n; 0; 0; 0; 0]
    | MC_Add => [0; 0; 0; 1; 0; 0; 0] | MC_Remove => [0; 0; 0; 0; 1; 0; 0]
    | MC_Written w => [0; 0; 0; 0; 0; items w; stat_bytes w]
    end;
|}.
Proof. bump_cases. Defined.

Inductive flusher_call : Set := FC_Conn | FC_Written (w : SockStats).
#[export, refine] Instance Flusher_counters : Counters flusher_call FlusherStats := {|
  bump st call := match call with FC_Conn => Flusher_incr_n_flush_conns st | FC_Written w => Flusher_incr_stats w st end;
  counts s := [fs_flush_conns s; fs_pkts s; fs_bytes s];
  adds call := match call with FC_Conn => [1; 0; 0] | FC_Written w => [0; items w; stat_bytes w] end;
|}.
Proof. bump_cases. Defined.

Inductive shard_call : Set := SC_Events (n : Z) | SC_Requests (n : Z).
#[export, refine] Instance Shard_counters : Counters shard_call ShardStats := {|
  bump st call := match call with SC_Events n => Shard_incr_n_events n st | SC_Requests n => Shard_incr_n_requests n st end;
  counts s := [ss_events s; ss_requests s];
  adds call := match call with SC_Events n => [n; 0] | SC_Requests n => [0; n] end;
|}.
Proof. bump_cases. Defined.

Inductive cluster_call : Set := CC_Events (n : Z) | CC_Requests (n : Z).
#[export, refine] Instance Cluster_counters : Counters cluster_call ClusterStats := {|
  bump st call := match call with CC_Events n => Cluster_incr_n_events n st | CC_Requests n => Cluster_incr_n_requests n st end;
  counts s := [cs_events s; cs_requests s];
  adds call := match call with CC_Events n => [n; 0] | CC_Requests n => [0; n] end;
|}.
Proof. bump_cases. Defined.

(** ** Theorems *)

(** The report of a thread whose members are its counters, after a number of calls *)
Lemma counters_report {St Call} `{Report St} `{Counters Call St} names (s : St) (calls : list Call) :
  (∀ s, report_members s = zip (chars <$> names) (counts s)) →
  Forall is_usize (counts s) → length (counts s) = length names → Forall (call_ok (length names)) calls →
  let total := tally (counts s) calls in
  (Forall is_usize total ∧ ∃ s', foldM bump (St_Main s) calls = Ok (St_Main s') ∧ counts s' = total
      ∧ json_object (report_text s') = Some (zip (chars <$> names) total))
  ∨ (¬ Forall is_usize total ∧ foldM bump (St_Main s) calls = Panic).
Proof.
  intros Hm Hs Hl Hc total. destruct (counters_add_up (length names) s calls Hs Hl Hc) as [(Ht & s' & E & Es)|Ho]; [left|by right].
  split; [done|]. exists s'. split; [done|]. split; [done|]. rewrite report_reads, Hm, Es; [done|]. rewrite Hm, Es.
  apply Forall_forall. intros [k v] Hin. apply (proj1 (Forall_forall _ _) Ht). by apply elem_of_zip_r in Hin.
Qed.

(** C40. The statistics of a listener.  Whatever it does before it closes (polls, events,
    requests, connections, in any order), its report is JSON and says how often it has
    polled and how many events, requests and connections there were in all; it panics
    when, and only when, one of these is beyond a usize. *)
Theorem listener_reports (calls : list listener_call) :
  Forall (call_ok 4) calls →
  let total := tally [0; 0; 0; 0] calls in
  (Forall is_usize total ∧ ∃ st text,
      foldM bump (St_Main ListenerStats_default) calls = Ok st
      ∧ Listener_to_stats_json (close_stage st) = Ok text
      ∧ json_object text = Some (zip (chars <$> ["n_polls"; "n_events"; "n_requests"; "n_accepted"]) total))
  ∨ (¬ Forall is_usize total ∧ foldM bump (St_Main ListenerStats_default) calls = Panic).
Proof.
  intros Hc total.
  destruct (counters_report ["n_polls"; "n_events"; "n_requests"; "n_accepted"] ListenerStats_default calls)
    as [(Ht & s' & E & _ & Hj)|Ho]; [done|by repeat constructor|done|done|left|by right].
  split; [done|]. exists (St_Main s'), (Listener_to_json s'). by split_and!.
Qed.

Lemma listener_reports_witness :
  let calls := [LC_Poll; LC_Accepted; LC_Accepted; LC_Events 3; LC_Poll; LC_Requests 1] in
  foldM bump (St_Main ListenerStats_default) calls = Ok (St_Main (MkListenerStats 2 3 1 2))
  ∧ json_object (Listener_to_json (MkListenerStats 2 3 1 2))
    = Some [(chars "n_polls", 2); (chars "n_events", 3); (chars "n_requests", 1); (chars "n_accepted", 2)].
Proof.
  intros calls. split; [reflexivity|].
  destruct (listener_reports calls) as [(_ & st & text & E & Et & Hj)|[Hno _]].
  - repeat constructor; lia.
  - injection E as <-. injection Et as <-. exact Hj.
  - destruct Hno. cbn. repeat constructor; unfold is_usize; lia.
Defined.

(** The same for the cluster and for the flusher *)
Lemma cluster_reports (calls : list cluster_call) :
  Forall (call_ok 2) calls →
  let total := tally [0; 0] calls in
  (Forall is_usize total ∧ ∃ s, foldM bump (St_Main ClusterStats_default) calls = Ok (St_Main s)
      ∧ json_object (Cluster_to_json s) = Some (zip (chars <$> ["n_events"; "n_requests"]) total))
  ∨ (¬ Forall is_usize total ∧ foldM bump (St_Main ClusterStats_default) calls = Panic).
Proof.
  intros Hc total. destruct (counters_report ["n_events"; "n_requests"] ClusterStats_default calls)
    as [(Ht & s' & E & _ & Hj)|Ho]; [done|by repeat constructor|done|done|left|by right].
  split; [done|]. by exists s'.
Qed.

Lemma flusher_reports (calls : list flusher_call) :
  Forall (call_ok 3) calls →
  let total := tally [0; 0; 0] calls in
  (Forall is_usize total ∧ ∃ s, foldM bump (St_Main FlusherStats_default) calls = Ok (St_Main s)
      ∧ json_object (Flusher_to_json s) = Some (zip (chars <$> ["n_flush_conns"; "n_pkts"; "n_bytes"]) total))
  ∨ (¬ Forall is_usize total ∧ foldM bump (St_Main FlusherStats_default) calls = Panic).
Proof.
  intros Hc total. destruct (counters_report ["n_flush_conns"; "n_pkts"; "n_bytes"] FlusherStats_default calls)
    as [(Ht & s' & E & _ & Hj)|Ho]; [done|by repeat constructor|done|done|left|by right].
  split; [done|]. by exists s'.
Qed.

(** What a miot thread counts of its requests is not in its report. *)
Lemma miot_requests_unreported fin p e q q' a r w b :
  Miot_to_json fin (MkMiotStats p e q a r w b) = Miot_to_json fin (MkMiotStats p e q' a r w b).
Proof. done. Qed.

(** The reports that are not format strings are not JSON: their braces stand double. *)
Lemma stats_not_json config :
  json_object Flusher_to_stats_json = None ∧ json_object Handshake_to_stats_json = None
  ∧ json_object Shard_to_stats_json = None ∧ json_object Ticker_to_config_json = None
  ∧ json_object (Cluster_to_stats_json (MkCluster config CI_Handle)) = None.
Proof. by split_and!. Qed.

(** The report of a ticker: the seconds from 1970 at which it was born and died *)
Lemma ticker_report_reads epoch epoch' now now' fin :
  tf_born fin ≤ now → now - tf_born fin ≤ epoch < 2 ^ 64 → tf_dead fin ≤ now' → now' - tf_dead fin ≤ epoch' < 2 ^ 64 →
  is_usize (tf_ticker_count fin) →
  ∃ text, Ticker_to_json epoch epoch' now now' fin = Ok text
    ∧ json_object text = Some (members
        [("born", (epoch - (now - tf_born fin)) / 1000000000); ("ticket_count", tf_ticker_count fin);
         ("dead", (epoch' - (now' - tf_dead fin)) / 1000000000)]).
Proof.
  intros H1 H2 H3 H4 H5. unfold Ticker_to_json, secs_between.
  rewrite !(proj2 (Z.ltb_ge _ _)) by lia. cbn [mbind outcome_bind]. eexists. split; [done|].
  assert (∀ a b : Z, 0 ≤ b → b ≤ a < 2 ^ 64 → is_usize ((a - b) / 1000000000)) as Hs.
  { intros a b Hb Hab. split; [apply Z.div_pos; lia|apply Z.div_lt_upper_bound; lia]. }
  assert (Forall (λ m, is_usize m.2) (members
      [("born", (epoch - (now - tf_born fin)) / 1000000000); ("ticket_count", tf_ticker_count fin);
       ("dead", (epoch' - (now' - tf_dead fin)) / 1000000000)])) as Hm.
  { constructor; [apply Hs; lia|]. constructor; [done|]. constructor; [apply Hs; lia|constructor]. }
  revert Hm. report_json.
Qed.

(** The address that the listener binds can always be read. *)
Lemma server_address_parses config :
  is_u16 (cf_port config) → parse_socket_addr (server_address config) = Some (SA_V4 [0; 0; 0; 0] (cf_port config)).
Proof.
  intros Hp. unfold parse_socket_addr.
  assert (read_socket_addr_v4 (server_address config)
      = ('(port, s) ← read_number 10 None true 16 (int_to_string (cf_port config) ++ []); Some (SA_V4 [0; 0; 0; 0] port, s))) as ->.
  { done. }
  by rewrite read_number_to_string.
Qed.

(** In [Debug] a cluster that is a [Tx] and a shard that is one look like handles, and a
    reader in its header looks like one that has not begun. *)
Lemma debug_ambiguous msg_tx byte1 data max :
  Cluster_Inner_debug CI_Tx = Cluster_Inner_debug CI_Handle
  ∧ Shard_Inner_debug SI_Tx = Shard_Inner_debug SI_Handle ∧ Shard_Inner_debug (SI_MsgTx msg_tx) = Shard_Inner_debug SI_Handle
  ∧ MQTTRead_debug (MR_Header byte1 data max) = MQTTRead_debug (MR_Init data max).
Proof. done. Qed.
